(** * uWebSockets: WebSocketProtocol.h and the move-only function object

    A shallow embedding of [src/WebSocketProtocol.h]: the UTF-8 validator,
    the close-payload codec, the outbound framer, the inbound frame parser
    with its per-connection state, and [ofats::any_invocable].

    Conventions.
    - A byte is a [Z] in [0, 256); a buffer is a [list Z]; raw memory is a
      total map from addresses to bytes.
    - Fixed-width unsigned integers are [Z] with the wrap-around written out
      ([wrap w x = x mod 2^w]); the 2-bit signed bit-field [opStack] wraps
      into [-2, 1].
    - [memcpy] into and out of an integer depends on the byte order of the
      host; the host is a boolean parameter [le] ([true]: little-endian),
      which is what [cond_byte_swap] tests at run time.
    - The last module, [Stream], is not a part of the source: it reads a
      stream of bytes one byte at a time, with no buffer and no reads, and
      is what the parser is compared with. *)

From Stdlib Require Import ZArith List Lia Bool.
From Stdlib Require String Ascii.
From Equations Require Import Equations.
Import ListNotations.
Open Scope Z_scope.

(* ===================================================================== *)
(** ** Machine integers and bytes *)
(* ===================================================================== *)

Definition wrap (w x : Z) : Z := x mod 2 ^ w.

Definition is_byte (b : Z) : Prop := 0 <= b < 256.

Definition is_byteb (b : Z) : bool := (0 <=? b) && (b <? 256).

Definition bytes256 : list Z := map Z.of_nat (seq 0 256).

(** Little-endian value of a byte string, and the inverse on [n] bytes. *)
Fixpoint le_decode (bs : list Z) : Z :=
  match bs with
  | [] => 0
  | b :: t => b + 256 * le_decode t
  end.

Fixpoint le_encode (n : nat) (v : Z) : list Z :=
  match n with
  | O => []
  | S k => v mod 256 :: le_encode k (v / 256)
  end.

(** [memcpy(&val, c, sizeof val)] on a host of byte order [le]. *)
Definition bit_cast (le : bool) (bs : list Z) : Z :=
  if le then le_decode bs else le_decode (rev bs).

(** [memcpy(dst, &val, n)] on a host of byte order [le]. *)
Definition to_bytes (le : bool) (n : nat) (v : Z) : list Z :=
  if le then le_encode n v else rev (le_encode n v).

(** [cond_byte_swap<T>]: reverse the [n] bytes of [v] on a little-endian
    host, identity on a big-endian one. *)
Definition cond_byte_swap (le : bool) (n : nat) (v : Z) : Z :=
  if le then le_decode (rev (le_encode n v)) else v.

(** The error messages handed to [forceClose]. *)
Module Err.
Import String.
Definition ERR_TOO_BIG_MESSAGE : string := "Received too big message".
Definition ERR_INVALID_CLOSE_PAYLOAD : string := "Received invalid close payload".
Definition ERR_PROTOCOL : string := "Received invalid WebSocket frame".
End Err.

(* ===================================================================== *)
(** ** UTF-8 validator *)
(* ===================================================================== *)

Module Utf8.

(** Result of one turn of the [for] loop of [isValidUtf8]. *)
Inductive iter : Type :=
| Done (b : bool)
| Next (s : list Z).

(** [((tmp[0] & 0x80..80) | (tmp[1] & 0x80..80)) == 0] after
    [memcpy(tmp, s, 16)]. *)
Definition ascii16 (le : bool) (s : list Z) : bool :=
  let tmp0 := bit_cast le (firstn 8 s) in
  let tmp1 := bit_cast le (firstn 8 (skipn 8 s)) in
  Z.lor (Z.land tmp0 0x8080808080808080) (Z.land tmp1 0x8080808080808080) =? 0.

(** [while (!( *s & 0x80)) { if (++s == e) return true; }]:
    [None] is the [return true]. *)
Fixpoint skip_ascii (s : list Z) : option (list Z) :=
  match s with
  | [] => None
  | b :: t => if Z.land b 0x80 =? 0 then skip_ascii t else Some s
  end.

Definition at_ (s : list Z) (i : nat) : Z := nth i s 0.

(** The [if / else if] chain on the leading byte. *)
Definition classify (s : list Z) : iter :=
  let n := Z.of_nat (length s) in
  if Z.land (at_ s 0) 0x60 =? 0x40 then
    if (n <=? 1) || negb (Z.land (at_ s 1) 0xc0 =? 0x80)
       || (Z.land (at_ s 0) 0xfe =? 0xc0)
    then Done false else Next (skipn 2 s)
  else if Z.land (at_ s 0) 0xf0 =? 0xe0 then
    if (n <=? 2) || negb (Z.land (at_ s 1) 0xc0 =? 0x80)
       || negb (Z.land (at_ s 2) 0xc0 =? 0x80)
       || ((at_ s 0 =? 0xe0) && (Z.land (at_ s 1) 0xe0 =? 0x80))
       || ((at_ s 0 =? 0xed) && (Z.land (at_ s 1) 0xe0 =? 0xa0))
    then Done false else Next (skipn 3 s)
  else if Z.land (at_ s 0) 0xf8 =? 0xf0 then
    if (n <=? 3) || negb (Z.land (at_ s 1) 0xc0 =? 0x80)
       || negb (Z.land (at_ s 2) 0xc0 =? 0x80)
       || negb (Z.land (at_ s 3) 0xc0 =? 0x80)
       || ((at_ s 0 =? 0xf0) && (Z.land (at_ s 1) 0xf0 =? 0x80))
       || ((at_ s 0 =? 0xf4) && (0x8f <? at_ s 1))
       || (0xf4 <? at_ s 0)
    then Done false else Next (skipn 4 s)
  else Done false.

(** One turn of the loop, entered with [s != e]. *)
Definition body (le : bool) (s : list Z) : iter :=
  if (16 <=? Z.of_nat (length s)) && ascii16 le s then Next (skipn 16 s)
  else match skip_ascii s with
       | None => Done true
       | Some s1 => classify s1
       end.

Lemma skip_ascii_length (s s1 : list Z) :
  skip_ascii s = Some s1 -> (length s1 <= length s)%nat /\ s1 <> [].
Proof.
  induction s as [|b t IH]; simpl; [discriminate|].
  destruct (Z.land b 128 =? 0).
  - intros H. destruct (IH H). split; [lia|assumption].
  - intros [= <-]. split; [simpl; lia|discriminate].
Qed.

Lemma classify_length (s s' : list Z) :
  s <> [] -> classify s = Next s' -> (length s' < length s)%nat.
Proof.
  intros Hs H.
  assert (Hk : exists k, (0 < k)%nat /\ s' = skipn k s).
  { unfold classify in H.
    repeat match type of H with
           | context [if ?c then _ else _] => destruct c
           end; try discriminate;
      match type of H with Next (skipn ?k _) = _ => exists k end;
      (split; [lia|congruence]). }
  destruct Hk as (k & Hk & ->). rewrite length_skipn.
  destruct s; [congruence|cbn [length]; lia].
Qed.

Lemma body_length (le : bool) (s s' : list Z) :
  s <> [] -> body le s = Next s' -> (length s' < length s)%nat.
Proof.
  intros Hs. unfold body.
  destruct ((16 <=? Z.of_nat (length s)) && ascii16 le s) eqn:E.
  - intros H. assert (s' = skipn 16 s) as -> by congruence.
    rewrite length_skipn. destruct s; [congruence|cbn [length]; lia].
  - destruct (skip_ascii s) as [s1|] eqn:E1; [|discriminate].
    intros H. apply skip_ascii_length in E1 as [H1 H2].
    apply classify_length in H; [lia|assumption].
Qed.

Definition inspect {A : Type} (a : A) : {b : A | a = b} := exist _ a eq_refl.

(** [isValidUtf8(s, length)] on the bytes [s[0..length)]. *)
Equations? isValidUtf8 (le : bool) (s : list Z) : bool by wf (length s) lt :=
  isValidUtf8 le [] := true;
  isValidUtf8 le (b :: t) with inspect (body le (b :: t)) := {
    | exist _ (Done r) _ := r
    | exist _ (Next s') E := isValidUtf8 le s' }.
Proof. apply body_length in E; [simpl in E; lia|discriminate]. Qed.

(** Well-formed UTF-8 (RFC 3629): the concatenation of the shortest
    encodings of Unicode scalar values. *)
Definition scalar (cp : Z) : Prop :=
  0 <= cp <= 0x10FFFF /\ ~ (0xD800 <= cp <= 0xDFFF).

Definition encode (cp : Z) : list Z :=
  if cp <? 0x80 then [cp]
  else if cp <? 0x800 then [0xC0 + cp / 64; 0x80 + cp mod 64]
  else if cp <? 0x10000 then
    [0xE0 + cp / 4096; 0x80 + (cp / 64) mod 64; 0x80 + cp mod 64]
  else [0xF0 + cp / 262144; 0x80 + (cp / 4096) mod 64;
        0x80 + (cp / 64) mod 64; 0x80 + cp mod 64].

Definition WellFormed (s : list Z) : Prop :=
  exists cps, Forall scalar cps /\ s = flat_map encode cps.

End Utf8.

(* ===================================================================== *)
(** ** Close-payload codec *)
(* ===================================================================== *)

Module Close.

Definition ERR_INVALID_CLOSE_PAYLOAD : String.string :=
  Err.ERR_INVALID_CLOSE_PAYLOAD.

(** The bytes of a string constant. *)
Definition bytes_of_string (s : String.string) : list Z :=
  map (fun c => Z.of_nat (Ascii.nat_of_ascii c)) (String.list_ascii_of_string s).

(** [struct CloseFrame]: [message] is the view [message[0..length)]. *)
Record CloseFrame : Type := mkCloseFrame {
  code : Z;
  message : list Z;
  length : Z
}.

(** [parseClosePayload(src, length)] on the bytes [src[0..length)]. *)
Definition parseClosePayload (le : bool) (src : list Z) : CloseFrame :=
  let len := Z.of_nat (List.length src) in
  let cf := mkCloseFrame 1005 [] 0 in
  if 2 <=? len then
    let raw := bit_cast le (firstn 2 src) in
    let cf := mkCloseFrame (cond_byte_swap le 2 raw) (skipn 2 src) (len - 2) in
    if (code cf <? 1000) || (4999 <? code cf)
       || ((1011 <? code cf) && (code cf <? 4000))
       || ((1004 <=? code cf) && (code cf <=? 1006))
       || negb (Utf8.isValidUtf8 le (message cf))
    then mkCloseFrame 1006 (bytes_of_string ERR_INVALID_CLOSE_PAYLOAD)
           (Z.of_nat (String.length ERR_INVALID_CLOSE_PAYLOAD))
    else cf
  else cf.

(** [formatClosePayload(dst, code, message, length)]: the bytes written at
    [dst] and the returned count.  [message = None] is the null pointer. *)
Definition formatClosePayload (le : bool) (code : Z) (message : option (list Z))
  (length : Z) : list Z * Z :=
  if negb (code =? 0) && negb (code =? 1005) && negb (code =? 1006) then
    let code' := cond_byte_swap le 2 code in
    (to_bytes le 2 code' ++
       match message with
       | Some m => firstn (Z.to_nat length) m
       | None => []
       end,
     wrap 64 (length + 2))
  else ([], 0).

End Close.

(* ===================================================================== *)
(** ** Outbound framer *)
(* ===================================================================== *)

Module Framer.

Definition UINT16_MAX : Z := 65535.

(** [messageFrameSize(messageSize)], in [size_t] arithmetic. *)
Definition messageFrameSize (messageSize : Z) : Z :=
  if messageSize <? 126 then wrap 64 (2 + messageSize)
  else if messageSize <=? UINT16_MAX then wrap 64 (4 + messageSize)
  else wrap 64 (10 + messageSize).

Definition SND_COMPRESSED : Z := 64.

(** The payload loop of the client: [( *start++) ^= mask[i++ % 4]].  The
    index [i] is an [int] in the source and counts the payload bytes: this
    is the loop for payloads of less than 2^31 bytes; from there on [i++]
    overflows in the source, which the language leaves undefined. *)
Fixpoint mask_payload (mask : list Z) (i : Z) (src : list Z) : list Z :=
  match src with
  | [] => []
  | b :: t => Z.lxor b (nth (Z.to_nat (i mod 4)) mask 0) :: mask_payload mask (i + 1) t
  end.

(** [formatMessage<isServer>(dst, src, length, opCode, reportedLength,
    compressed, fin)] with [src] the bytes [src[0..length)] and [random] the
    value of [(uint32_t) rand()]: the bytes written from [dst[0]] on, and
    the returned [messageLength]. *)
Definition formatMessage (isServer le : bool) (random : Z) (src : list Z)
  (opCode reportedLength : Z) (compressed fin : bool) : list Z * Z :=
  let length := Z.of_nat (List.length src) in
  let '(headerLength, dst1, ext) :=
    if reportedLength <? 126 then
      (2, wrap 8 reportedLength, [])
    else if reportedLength <=? UINT16_MAX then
      (4, 126, to_bytes le 2 (cond_byte_swap le 2 (wrap 16 reportedLength)))
    else
      (10, 127, to_bytes le 8 (cond_byte_swap le 8 (wrap 64 reportedLength))) in
  let dst0 :=
    wrap 8 (Z.lor (Z.lor (if fin then 128 else 0)
                     (if compressed && negb (opCode =? 0) then SND_COMPRESSED else 0))
              (wrap 8 opCode)) in
  let mask := to_bytes le 4 (wrap 32 random) in
  if negb isServer then
    let dst1 := Z.lor dst1 0x80 in
    let headerLength := headerLength + 4 in
    let messageLength := wrap 64 (headerLength + length) in
    (dst0 :: dst1 :: ext ++ mask ++ mask_payload mask 0 src, messageLength)
  else
    let messageLength := wrap 64 (headerLength + length) in
    (dst0 :: dst1 :: ext ++ src, messageLength).

End Framer.

(* ===================================================================== *)
(** ** Inbound frame parser *)
(* ===================================================================== *)

Module Parser.

(** *** Raw memory

    The parser works in place on the receive buffer through [char *]
    pointers, reads past the payload with wide loads and writes before
    [src] when it prepends spilled header bytes.  Memory is a total map from
    addresses to bytes; a pointer is an address. *)

Definition mem : Type := Z -> Z.

Definition upd (m : mem) (a v : Z) : mem :=
  fun x => if x =? a then v else m x.

Definition load (m : mem) (a : Z) (n : nat) : list Z :=
  map (fun i => m (a + Z.of_nat i)) (seq 0 n).

Fixpoint store (m : mem) (a : Z) (bs : list Z) : mem :=
  match bs with
  | [] => m
  | b :: t => store (upd m a b) (a + 1) t
  end.

(** Indexing of the small arrays of the state.  An index outside the array
    is undefined behaviour in the source; here it reads 0 and writes
    nothing. *)
Definition get (l : list Z) (i : Z) : Z :=
  if i <? 0 then 0 else nth (Z.to_nat i) l 0.

Fixpoint set_nth (l : list Z) (n : nat) (v : Z) : list Z :=
  match l, n with
  | [], _ => []
  | _ :: t, O => v :: t
  | x :: t, S k => x :: set_nth t k v
  end.

Definition set (l : list Z) (i v : Z) : list Z :=
  if i <? 0 then l else set_nth l (Z.to_nat i) v.

(** The signed 2-bit bit-field [opStack]. *)
Definition sw2 (x : Z) : Z := (x + 2) mod 4 - 2.

(** *** [WebSocketState<isServer>]

    The bit-fields [wantsHead], [spillLength], [opStack], [lastFin] and the
    arrays [spill], [opCode] are the nested [state]; [remainingBytes] and
    [mask] follow it. *)
Record WebSocketState : Type := mkWS {
  wantsHead : bool;
  spillLength : Z;
  opStack : Z;
  lastFin : bool;
  spill : list Z;
  opCode : list Z;
  remainingBytes : Z;
  mask : list Z
}.

Definition set_wantsHead (v : bool) (w : WebSocketState) : WebSocketState :=
  mkWS v (spillLength w) (opStack w) (lastFin w) (spill w) (opCode w)
    (remainingBytes w) (mask w).
Definition set_spillLength (v : Z) (w : WebSocketState) : WebSocketState :=
  mkWS (wantsHead w) v (opStack w) (lastFin w) (spill w) (opCode w)
    (remainingBytes w) (mask w).
Definition set_opStack (v : Z) (w : WebSocketState) : WebSocketState :=
  mkWS (wantsHead w) (spillLength w) v (lastFin w) (spill w) (opCode w)
    (remainingBytes w) (mask w).
Definition set_lastFin (v : bool) (w : WebSocketState) : WebSocketState :=
  mkWS (wantsHead w) (spillLength w) (opStack w) v (spill w) (opCode w)
    (remainingBytes w) (mask w).
Definition set_spill (v : list Z) (w : WebSocketState) : WebSocketState :=
  mkWS (wantsHead w) (spillLength w) (opStack w) (lastFin w) v (opCode w)
    (remainingBytes w) (mask w).
Definition set_opCode (v : list Z) (w : WebSocketState) : WebSocketState :=
  mkWS (wantsHead w) (spillLength w) (opStack w) (lastFin w) (spill w) v
    (remainingBytes w) (mask w).
Definition set_remainingBytes (v : Z) (w : WebSocketState) : WebSocketState :=
  mkWS (wantsHead w) (spillLength w) (opStack w) (lastFin w) (spill w)
    (opCode w) v (mask w).
Definition set_mask (v : list Z) (w : WebSocketState) : WebSocketState :=
  mkWS (wantsHead w) (spillLength w) (opStack w) (lastFin w) (spill w)
    (opCode w) (remainingBytes w) v.

Definition SHORT_MESSAGE_HEADER (isServer : bool) : Z := if isServer then 6 else 2.
Definition MEDIUM_MESSAGE_HEADER (isServer : bool) : Z := if isServer then 8 else 4.
Definition LONG_MESSAGE_HEADER (isServer : bool) : Z := if isServer then 14 else 10.

(** The constructor [State()]; the arrays and [mask] are not initialised by
    the source and are taken as zeros. *)
Definition fresh (isServer : bool) : WebSocketState :=
  mkWS true 0 (-1) true
    (repeat 0 (Z.to_nat (LONG_MESSAGE_HEADER isServer - 1))) [0; 0] 0
    (if isServer then [0; 0; 0; 0] else [0]).

(** *** The handler contract [Impl]

    The four static functions the parser calls.  Each sees the connection
    state and the user data; the user data is threaded through them. *)
Class Impl (U : Type) : Type := {
  refusePayloadLength : Z -> WebSocketState -> U -> bool * U;
  setCompressed : WebSocketState -> U -> bool * U;
  handleFragment :
    list Z -> Z -> Z -> Z -> bool -> WebSocketState -> U -> bool * U;
  forceClose : WebSocketState -> U -> String.string -> U
}.

(** What the parser did to its owner, in order: the calls of
    [handleFragment] with their arguments (the bytes behind the data
    pointer, the state behind [wState]) and their result, and the calls of
    [forceClose]. *)
Inductive event : Type :=
| Fragment (data : list Z) (length remaining opCode : Z) (fin : bool)
           (st : WebSocketState) (stop : bool)
| ForceClose (st : WebSocketState) (reason : String.string).

(** The variables of a running [consume]: memory, [src], [length], the
    state behind [wState], the user data, and the calls made so far. *)
Record ctx (U : Type) : Type := mkCtx {
  cm : mem;
  csrc : Z;
  clen : Z;
  cws : WebSocketState;
  cuser : U;
  ctrace : list event
}.
Arguments mkCtx {U}.
Arguments cm {U}.
Arguments csrc {U}.
Arguments clen {U}.
Arguments cws {U}.
Arguments cuser {U}.
Arguments ctrace {U}.

Section WebSocketProtocol.

Context {U : Type} {I : Impl U}.
Variable isServer : bool.
Variable le : bool.
(** [LIBUS_RECV_BUFFER_LENGTH], from [libusockets.h]. *)
Variable LIBUS_RECV_BUFFER_LENGTH : Z.

Definition isFin (m : mem) (frame : Z) : bool := negb (Z.land (m frame) 128 =? 0).
Definition getOpCode (m : mem) (frame : Z) : Z := Z.land (m frame) 15.
Definition payloadLength (m : mem) (frame : Z) : Z := Z.land (m (frame + 1)) 127.
Definition rsv23 (m : mem) (frame : Z) : bool := negb (Z.land (m frame) 48 =? 0).
Definition rsv1 (m : mem) (frame : Z) : bool := negb (Z.land (m frame) 64 =? 0).

(** [UnrolledXor<N>(data, mask)]. *)
Fixpoint UnrolledXor (N : nat) (m : mem) (data : Z) (mask : list Z) : mem :=
  match N with
  | O => m
  | S k =>
      let m := UnrolledXor k m data mask in
      let i := Z.of_nat k in
      upd m (data + i) (Z.lxor (m (data + i)) (get mask (i mod 4)))
  end.

(** [unmaskImprecise8<DESTINATION>(src, mask, length)]: [n] turns of the
    loop. *)
Fixpoint unmaskImprecise8_loop (DESTINATION : Z) (n : nat) (m : mem) (src mask : Z)
  : mem :=
  match n with
  | O => m
  | S k =>
      let loaded := bit_cast le (load m src 8) in
      let loaded := Z.lxor loaded mask in
      let m := store m (src - DESTINATION) (to_bytes le 8 loaded) in
      unmaskImprecise8_loop DESTINATION k m (src + 8) mask
  end.

Definition unmaskImprecise8 (DESTINATION : Z) (m : mem) (src mask length : Z) : mem :=
  unmaskImprecise8_loop DESTINATION (Z.to_nat (Z.shiftr length 3 + 1)) m src mask.

(** [unmaskImprecise4<DESTINATION>(src, mask, length)]. *)
Fixpoint unmaskImprecise4_loop (DESTINATION : Z) (n : nat) (m : mem) (src mask : Z)
  : mem :=
  match n with
  | O => m
  | S k =>
      let loaded := bit_cast le (load m src 4) in
      let loaded := Z.lxor loaded mask in
      let m := store m (src - DESTINATION) (to_bytes le 4 loaded) in
      unmaskImprecise4_loop DESTINATION k m (src + 4) mask
  end.

Definition unmaskImprecise4 (DESTINATION : Z) (m : mem) (src mask length : Z) : mem :=
  unmaskImprecise4_loop DESTINATION (Z.to_nat (Z.shiftr length 2 + 1)) m src mask.

(** [unmaskImpreciseCopyMask<HEADER_SIZE>(src, length)]. *)
Definition unmaskImpreciseCopyMask (HEADER_SIZE : Z) (m : mem) (src length : Z) : mem :=
  if negb (HEADER_SIZE =? 6) then
    let mask := [m (src - 4); m (src - 3); m (src - 2); m (src - 1);
                 m (src - 4); m (src - 3); m (src - 2); m (src - 1)] in
    let maskInt := bit_cast le mask in
    unmaskImprecise8 HEADER_SIZE m src maskInt length
  else
    let mask := [m (src - 4); m (src - 3); m (src - 2); m (src - 1)] in
    let maskInt := bit_cast le mask in
    unmaskImprecise4 HEADER_SIZE m src maskInt length.

(** [rotateMask(offset, mask)]. *)
Definition rotateMask (offset : Z) (mask : list Z) : list Z :=
  let originalMask := [get mask 0; get mask 1; get mask 2; get mask 3] in
  let mask := set mask ((0 + offset) mod 4) (get originalMask 0) in
  let mask := set mask ((1 + offset) mod 4) (get originalMask 1) in
  let mask := set mask ((2 + offset) mod 4) (get originalMask 2) in
  let mask := set mask ((3 + offset) mod 4) (get originalMask 3) in
  mask.

(** [unmaskInplace(data, stop, mask)]: [n] turns of the [while]. *)
Fixpoint unmaskInplace_loop (n : nat) (m : mem) (data : Z) (mask : list Z) : mem :=
  match n with
  | O => m
  | S k =>
      let m := upd m data (Z.lxor (m data) (get mask 0)) in
      let m := upd m (data + 1) (Z.lxor (m (data + 1)) (get mask 1)) in
      let m := upd m (data + 2) (Z.lxor (m (data + 2)) (get mask 2)) in
      let m := upd m (data + 3) (Z.lxor (m (data + 3)) (get mask 3)) in
      unmaskInplace_loop k m (data + 4) mask
  end.

Definition unmaskInplace (m : mem) (data stop : Z) (mask : list Z) : mem :=
  unmaskInplace_loop (Z.to_nat ((stop - data + 3) / 4)) m data mask.

(** [unmaskAll(data, mask)]: [for (i = 0; i < LIBUS_RECV_BUFFER_LENGTH; i += 16)]. *)
Fixpoint unmaskAll_loop (n : nat) (m : mem) (data : Z) (mask : list Z) : mem :=
  match n with
  | O => m
  | S k => unmaskAll_loop k (UnrolledXor 16 m data mask) (data + 16) mask
  end.

Definition unmaskAll (m : mem) (data : Z) (mask : list Z) : mem :=
  unmaskAll_loop (Z.to_nat ((LIBUS_RECV_BUFFER_LENGTH + 15) / 16)) m data mask.

(** The tail loop of [consumeContinuation]:
    [for (i = 0, s = remainingBytes % 4; i < s; i++) src[n * 4 + i] ^= mask[i]]. *)
Fixpoint unmask_tail (s : nat) (m : mem) (base : Z) (mask : list Z) : mem :=
  match s with
  | O => m
  | S k =>
      let m := unmask_tail k m base mask in
      let i := Z.of_nat k in
      upd m (base + i) (Z.lxor (m (base + i)) (get mask i))
  end.

(** Calls of the handler, recorded in the trace. *)
Definition call_forceClose (c : ctx U) (reason : String.string) : ctx U :=
  mkCtx (cm c) (csrc c) (clen c) (cws c)
    (forceClose (cws c) (cuser c) reason)
    (ctrace c ++ [ForceClose (cws c) reason]).

Definition call_handleFragment (c : ctx U) (data : Z) (length remaining opc : Z)
  (fin : bool) : bool * ctx U :=
  let bytes := load (cm c) data (Z.to_nat length) in
  let '(stop, u) := handleFragment bytes length remaining opc fin (cws c) (cuser c) in
  (stop,
   mkCtx (cm c) (csrc c) (clen c) (cws c) u
     (ctrace c ++ [Fragment bytes length remaining opc fin (cws c) stop])).

Definition with_ws (c : ctx U) (f : WebSocketState -> WebSocketState) : ctx U :=
  mkCtx (cm c) (csrc c) (clen c) (f (cws c)) (cuser c) (ctrace c).

Definition with_mem (c : ctx U) (m : mem) : ctx U :=
  mkCtx m (csrc c) (clen c) (cws c) (cuser c) (ctrace c).

Definition with_user (c : ctx U) (u : U) : ctx U :=
  mkCtx (cm c) (csrc c) (clen c) (cws c) u (ctrace c).

Definition advance (c : ctx U) (dsrc : Z) (newlen : Z) : ctx U :=
  mkCtx (cm c) (csrc c + dsrc) newlen (cws c) (cuser c) (ctrace c).

Definition pop (c : ctx U) : ctx U :=
  with_ws c (fun w => set_opStack (sw2 (opStack w - 1)) w).

Definition cur_opCode (w : WebSocketState) : Z := get (opCode w) (opStack w).

(** The protocol checks at the head of [consumeMessage], with the push of
    the opcode; [None] is the path to [forceClose(ERR_PROTOCOL)]. *)
Definition check_opCode (c : ctx U) : option (ctx U) :=
  let op := getOpCode (cm c) (csrc c) in
  if negb (op =? 0) then
    if (opStack (cws c) =? 1) || (negb (lastFin (cws c)) && (op <? 2))
    then None
    else
      let top := sw2 (opStack (cws c) + 1) in
      Some (with_ws c (fun w => set_opCode (set (opCode w) top op)
                                 (set_opStack top w)))
  else if opStack (cws c) =? -1 then None
  else Some c.

(** The branch [payLength + MESSAGE_HEADER <= length] of [consumeMessage]:
    the whole frame is in the buffer; [total] is
    [payLength + MESSAGE_HEADER]. *)
Definition whole_frame (MESSAGE_HEADER payLength total : Z) (c : ctx U)
  : bool * ctx U :=
  let src := csrc c in
  let fin := isFin (cm c) src in
  let '(stop, c) :=
    if isServer then
      let c := with_mem c
                 (unmaskImpreciseCopyMask MESSAGE_HEADER (cm c)
                    (src + MESSAGE_HEADER) (wrap 32 payLength)) in
      call_handleFragment c src payLength 0 (cur_opCode (cws c)) fin
    else
      call_handleFragment c (src + MESSAGE_HEADER) payLength 0
        (cur_opCode (cws c)) (isFin (cm c) src) in
  if stop then (true, c)
  else
    let c := if fin then pop c else c in
    let c := advance c total (wrap 32 (clen c - wrap 32 total)) in
    (false, with_ws c (set_spillLength 0)).

(** The [else] branch of [consumeMessage]: the buffer ends inside the
    payload. *)
Definition partial_frame (MESSAGE_HEADER payLength : Z) (c : ctx U)
  : bool * ctx U :=
  let src := csrc c in
  let rem := wrap 32 (payLength - clen c + MESSAGE_HEADER) in
  let c := with_ws c (fun w => set_remainingBytes rem
                                 (set_wantsHead false (set_spillLength 0 w))) in
  let fin := isFin (cm c) src in
  let c :=
    if isServer then
      let key := load (cm c) (src + MESSAGE_HEADER - 4) 4 in
      let mask := bit_cast le (key ++ key) in
      let m := unmaskImprecise8 0 (cm c) (src + MESSAGE_HEADER) mask (clen c) in
      let off := 4 - wrap 32 (clen c - MESSAGE_HEADER) mod 4 in
      with_ws (with_mem c m) (set_mask (rotateMask off key))
    else c in
  let '(_, c) :=
    call_handleFragment c (src + MESSAGE_HEADER)
      (wrap 32 (clen c - MESSAGE_HEADER)) (remainingBytes (cws c))
      (cur_opCode (cws c)) fin in
  (true, c).

(** [consumeMessage<MESSAGE_HEADER, T>(payLength, src, length, wState, user)]
    with [T] an unsigned type of [Tbits] bits.  [payLength + MESSAGE_HEADER]
    is computed in [unsigned int] for the 8- and 16-bit [T] and in 64 bits
    for [uint64_t]. *)
Definition consumeMessage (MESSAGE_HEADER Tbits payLength : Z) (c : ctx U)
  : bool * ctx U :=
  match check_opCode c with
  | None => (true, call_forceClose c Err.ERR_PROTOCOL)
  | Some c =>
      let c := with_ws c (set_lastFin (isFin (cm c) (csrc c))) in
      let '(refuse, u) := refusePayloadLength payLength (cws c) (cuser c) in
      let c := with_user c u in
      if refuse then (true, call_forceClose c Err.ERR_TOO_BIG_MESSAGE)
      else
        let total := wrap (if Tbits <? 32 then 32 else Tbits)
                       (payLength + MESSAGE_HEADER) in
        if total <=? clen c
        then whole_frame MESSAGE_HEADER payLength total c
        else partial_frame MESSAGE_HEADER payLength c
  end.

(** The branch [remainingBytes <= length] of [consumeContinuation]: the
    rest of the body is in the buffer. *)
Definition body_end (c : ctx U) : bool * ctx U :=
  let w := cws c in
  let src := csrc c in
  let c :=
    if isServer then
      let n := Z.shiftr (remainingBytes w) 2 in
      let m := unmaskInplace (cm c) src (src + n * 4) (mask w) in
      let m := unmask_tail (Z.to_nat (remainingBytes w mod 4)) m
                 (src + n * 4) (mask w) in
      with_mem c m
    else c in
  let '(stop, c) :=
    call_handleFragment c src (remainingBytes w) 0 (cur_opCode w) (lastFin w) in
  if stop then (false, c)
  else
    let c := if lastFin w then pop c else c in
    let c := advance c (remainingBytes w) (wrap 32 (clen c - remainingBytes w)) in
    (true, with_ws c (set_wantsHead true)).

(** The [else] branch of [consumeContinuation]: the whole buffer is body. *)
Definition body_more (c : ctx U) : bool * ctx U :=
  let w := cws c in
  let src := csrc c in
  let c :=
    if isServer then
      if negb (forallb (Z.eqb 0) (mask w)) then
        if wrap 32 LIBUS_RECV_BUFFER_LENGTH =? clen c
        then with_mem c (unmaskAll (cm c) src (mask w))
        else with_mem c
               (unmaskInplace (cm c) src
                  (src + wrap 32 ((Z.shiftr (clen c) 2 + 1) * 4)) (mask w))
      else c
    else c in
  let c := with_ws c (set_remainingBytes (wrap 32 (remainingBytes w - clen c))) in
  let '(stop, c) :=
    call_handleFragment c src (clen c) (remainingBytes (cws c))
      (cur_opCode (cws c)) (lastFin (cws c)) in
  if stop then (false, c)
  else
    let c :=
      if isServer && negb (clen c mod 4 =? 0)
      then with_ws c (fun w => set_mask (rotateMask (4 - clen c mod 4) (mask w)) w)
      else c in
    (false, c).

(** [consumeContinuation(src, length, wState, user)]. *)
Definition consumeContinuation (c : ctx U) : bool * ctx U :=
  if remainingBytes (cws c) <=? clen c then body_end c else body_more c.

(** The end of [consume] after the [while]: the residual bytes go to
    [spill].  The residual is shorter than a long header, so the copy stays
    inside the array. *)
Definition spill_rest (c : ctx U) : ctx U :=
  if negb (clen c =? 0) then
    let n := Z.to_nat (clen c) in
    with_ws c (fun w => set_spillLength (Z.land (clen c) 0xf)
                          (set_spill (load (cm c) (csrc c) n ++ skipn n (spill w)) w))
  else c.

(** The header test of the loop, with the short-circuit call of
    [setCompressed]. *)
Definition invalid_header (c : ctx U) : bool * ctx U :=
  let m := cm c in
  let src := csrc c in
  let '(bad, c) :=
    if rsv1 m src then
      let '(ok, u) := setCompressed (cws c) (cuser c) in
      (negb ok, with_user c u)
    else (false, c) in
  (bad || rsv23 m src
   || ((2 <? getOpCode m src) && (getOpCode m src <? 8))
   || (10 <? getOpCode m src)
   || ((2 <? getOpCode m src)
       && (negb (isFin m src) || (125 <? payloadLength m src))),
   c).

(** The label [parseNext] of [consume]: the [while] loop and what follows
    it.  [fuel] bounds the number of turns; [None] is a loop still running
    when the fuel is spent. *)
Fixpoint parseNext (fuel : nat) (c : ctx U) : option (ctx U) :=
  match fuel with
  | O => None
  | S fuel =>
      if SHORT_MESSAGE_HEADER isServer <=? clen c then
        let '(bad, c) := invalid_header c in
        let m := cm c in
        let src := csrc c in
        if bad then Some (call_forceClose c Err.ERR_PROTOCOL)
        else if payloadLength m src <? 126 then
          let '(ret, c) :=
            consumeMessage (SHORT_MESSAGE_HEADER isServer) 8 (payloadLength m src) c in
          if ret then Some c else parseNext fuel c
        else if payloadLength m src =? 126 then
          if clen c <? MEDIUM_MESSAGE_HEADER isServer then Some (spill_rest c)
          else
            let '(ret, c) :=
              consumeMessage (MEDIUM_MESSAGE_HEADER isServer) 16
                (cond_byte_swap le 2 (bit_cast le (load m (src + 2) 2))) c in
            if ret then Some c else parseNext fuel c
        else if clen c <? LONG_MESSAGE_HEADER isServer then Some (spill_rest c)
        else
          let '(ret, c) :=
            consumeMessage (LONG_MESSAGE_HEADER isServer) 64
              (cond_byte_swap le 8 (bit_cast le (load m (src + 2) 8))) c in
          if ret then Some c else parseNext fuel c
      else Some (spill_rest c)
  end.

(** [consume(src, length, wState, user)] on memory [m]. *)
Definition consume (fuel : nat) (m : mem) (src length : Z) (ws : WebSocketState)
  (u : U) : option (ctx U) :=
  let c :=
    if negb (spillLength ws =? 0) then
      let src := src - spillLength ws in
      let length := wrap 32 (length + spillLength ws) in
      mkCtx (store m src (firstn (Z.to_nat (spillLength ws)) (spill ws)))
        src length ws u []
    else mkCtx m src length ws u [] in
  if wantsHead ws then parseNext fuel c
  else
    let '(again, c) := consumeContinuation c in
    if again then parseNext fuel c else Some c.

(** *** The transport

    The receive buffer holds the bytes of one read at addresses
    [0 .. length); what lies before and after them (the padding and
    beyond) is [junk].  Every cell is a [char]. *)
Definition recv_buffer (junk : mem) (chunk : list Z) : mem :=
  fun a =>
    wrap 8 (if (0 <=? a) && (a <? Z.of_nat (length chunk))
            then nth (Z.to_nat a) chunk 0 else junk a).

Definition receive (fuel : nat) (junk : mem) (chunk : list Z)
  (ws : WebSocketState) (u : U) : option (ctx U) :=
  consume fuel (recv_buffer junk chunk) 0 (Z.of_nat (length chunk)) ws u.

(** The connection is closed by a [forceClose], or by a [handleFragment]
    that returned true. *)
Definition closing (e : event) : bool :=
  match e with
  | Fragment _ _ _ _ _ _ stop => stop
  | ForceClose _ _ => true
  end.

Definition closed (tr : list event) : bool := existsb closing tr.

(** The reads of one connection, fed to [consume] one at a time until the
    connection is closed. *)
Fixpoint feed (fuel : nat) (junk : mem) (chunks : list (list Z))
  (ws : WebSocketState) (u : U) (tr : list event)
  : option (WebSocketState * U * list event) :=
  match chunks with
  | [] => Some (ws, u, tr)
  | chunk :: rest =>
      match receive fuel junk chunk ws u with
      | None => None
      | Some c =>
          if closed (ctrace c) then Some (cws c, cuser c, tr ++ ctrace c)
          else feed fuel junk rest (cws c) (cuser c) (tr ++ ctrace c)
      end
  end.

End WebSocketProtocol.

End Parser.

(* ===================================================================== *)
(** ** [ofats::any_invocable] (uWS::MoveOnlyFunction) *)
(* ===================================================================== *)

Module MoveOnly.

Section AnyInvocable.

(** The callables an object can hold. *)
Variable T : Type.

(** [union storage]: indeterminate bytes, a callable constructed in
    [buf_], or a pointer [ptr_] to a callable on the heap. *)
Inductive storage : Type :=
| Raw
| InBuf (v : T)
| Ptr (p : nat).

(** The handler a [handle_] or [call_] pointer points into:
    [small_handler<T>] or [large_handler<T>]. *)
Inductive handler : Type := small_handler | large_handler.

Inductive action : Type := destroy_ | move_.

(** Memory holding [any_invocable_impl] objects: the members [storage_],
    [handle_] and [call_] of the object at each address ([None] is the null
    function pointer), so that two references may name the same object;
    [heap] holds the callables made with [new]; [next] is the first address
    not yet used for an object. *)
Record world : Type := mkWorld {
  storage_ : nat -> storage;
  handle_ : nat -> option handler;
  call_ : nat -> option handler;
  heap : nat -> option T;
  next : nat
}.

Definition upd {A : Type} (f : nat -> A) (a : nat) (v : A) : nat -> A :=
  fun x => if Nat.eqb x a then v else f x.

Definition set_storage (w : world) (a : nat) (s : storage) : world :=
  mkWorld (upd (storage_ w) a s) (handle_ w) (call_ w) (heap w) (next w).

Definition set_handle (w : world) (a : nat) (h : option handler) : world :=
  mkWorld (storage_ w) (upd (handle_ w) a h) (call_ w) (heap w) (next w).

Definition set_call (w : world) (a : nat) (h : option handler) : world :=
  mkWorld (storage_ w) (handle_ w) (upd (call_ w) a h) (heap w) (next w).

Definition free (w : world) (p : nat) : world :=
  mkWorld (storage_ w) (handle_ w) (call_ w) (upd (heap w) p None) (next w).

(** A default-constructed object at a new address: [ptr_ = nullptr],
    [handle_ = nullptr], [call_] not initialised. *)
Definition alloc (w : world) : nat * world :=
  (next w,
   mkWorld (upd (storage_ w) (next w) Raw) (upd (handle_ w) (next w) None)
     (upd (call_ w) (next w) None) (heap w) (S (next w))).

(** [handler_base<Derived>::handle(act, current, other)] on the storages of
    the objects at [current] and [other].  A storage that does not hold
    what the handler expects is undefined behaviour and is left as it is. *)
Definition handle (h : handler) (act : action) (current other : nat) (w : world)
  : world :=
  match h, act with
  | small_handler, destroy_ => set_storage w current Raw
  | small_handler, move_ =>
      match storage_ w other with
      | InBuf v => set_storage (set_storage w current (InBuf v)) other Raw
      | _ => w
      end
  | large_handler, destroy_ =>
      match storage_ w current with
      | Ptr p => free w p
      | _ => w
      end
  | large_handler, move_ => set_storage w current (storage_ w other)
  end.

(** [any_invocable_impl(any_invocable_impl&& rhs)], constructing the object
    at [this]. *)
Definition move_construct (this rhs : nat) (w : world) : world :=
  match handle_ w rhs with
  | Some h =>
      let w := set_handle w this (Some h) in
      let w := handle h move_ this rhs w in
      let w := set_call w this (call_ w rhs) in
      set_handle w rhs None
  | None => w
  end.

(** The last branch of [swap]: [*this] is empty and [rhs] is not. *)
Definition swap_into_empty (this rhs : nat) (w : world) : world :=
  match handle_ w rhs with
  | Some h =>
      let w := handle h move_ this rhs w in
      let w := set_handle w this (handle_ w rhs) in
      let w := set_call w this (call_ w rhs) in
      set_handle w rhs None
  | None => w
  end.

(** [this->swap(rhs)]. *)
Definition swap (this rhs : nat) (w : world) : world :=
  match handle_ w this with
  | Some h =>
      match handle_ w rhs with
      | Some hr =>
          let '(tmp, w) := alloc w in
          let w := handle h move_ tmp this w in
          let w := handle hr move_ this rhs w in
          let w := handle h move_ rhs tmp w in
          let ht := handle_ w this in
          let hr := handle_ w rhs in
          let w := set_handle w this hr in
          let w := set_handle w rhs ht in
          let ct := call_ w this in
          let cr := call_ w rhs in
          let w := set_call w this cr in
          set_call w rhs ct
      | None => swap_into_empty rhs this w
      end
  | None => swap_into_empty this rhs w
  end.

(** [destroy()], which is also the destructor. *)
Definition destroy (this : nat) (w : world) : world :=
  match handle_ w this with
  | Some h => set_handle (handle h destroy_ this this w) this None
  | None => w
  end.

(** [operator=(any_invocable_impl&& rhs)]:
    [any_invocable_impl{std::move(rhs)}.swap( *this)], the temporary
    destroyed at the end. *)
Definition move_assign (this rhs : nat) (w : world) : world :=
  let '(tmp, w) := alloc w in
  let w := move_construct tmp rhs w in
  let w := swap tmp this w in
  destroy tmp w.

(** The constructor from an rvalue: a new object move-constructed from
    [rhs]. *)
Definition move_new (rhs : nat) (w : world) : nat * world :=
  let '(this, w) := alloc w in
  (this, move_construct this rhs w).

(** [explicit operator bool()] and [operator==(f, nullptr)] of the object
    at [a]. *)
Definition operator_bool (w : world) (a : nat) : bool :=
  match handle_ w a with Some _ => true | None => false end.

Definition eq_nullptr (w : world) (a : nat) : bool := negb (operator_bool w a).

(** The callable the object at [a] holds, if any. *)
Definition target (w : world) (a : nat) : option T :=
  match handle_ w a, storage_ w a with
  | Some small_handler, InBuf v => Some v
  | Some large_handler, Ptr p => heap w p
  | _, _ => None
  end.

(** [create<F>(args...)] with the handler chosen by [is_small_object_v];
    [p] is the address [new] returns. *)
Definition create (small : bool) (this : nat) (v : T) (p : nat) (w : world) : world :=
  if small then
    set_call (set_handle (set_storage w this (InBuf v)) this (Some small_handler))
      this (Some small_handler)
  else
    let w := mkWorld (storage_ w) (handle_ w) (call_ w) (upd (heap w) p (Some v))
               (next w) in
    set_call (set_handle (set_storage w this (Ptr p)) this (Some large_handler))
      this (Some large_handler).

(** Ownership: two objects never hold the same heap callable. *)
Definition owns (w : world) (a : nat) : option nat :=
  match handle_ w a, storage_ w a with
  | Some large_handler, Ptr p => Some p
  | _, _ => None
  end.

Definition unshared (w : world) (a b : nat) : Prop :=
  forall p, owns w a = Some p -> owns w b = Some p -> False.

End AnyInvocable.

Arguments Raw {T}.
Arguments InBuf {T}.
Arguments Ptr {T}.
Arguments mkWorld {T}.
Arguments storage_ {T}.
Arguments handle_ {T}.
Arguments call_ {T}.
Arguments heap {T}.
Arguments next {T}.
Arguments move_construct {T}.
Arguments move_assign {T}.
Arguments move_new {T}.
Arguments swap {T}.
Arguments destroy {T}.
Arguments operator_bool {T}.
Arguments eq_nullptr {T}.
Arguments target {T}.
Arguments create {T}.
Arguments owns {T}.
Arguments unshared {T}.

End MoveOnly.

(* ===================================================================== *)
(** * The frame stream, one byte at a time

    A reference reading of the byte stream of a connection: an automaton
    that takes the stream byte by byte and emits the frames and the
    protocol errors in it.  It has no buffer and no chunk boundaries, so
    what it emits depends on the stream alone. *)
(* ===================================================================== *)

Module Stream.
Import Parser.

(** The key byte that unmasks payload byte [i]. *)
Definition key_at (k : list Z) (i : Z) : Z := get k (i mod 4).

(** The payload bytes [bs], of which the first has index [i] in its frame,
    unmasked with the key [k]. *)
Fixpoint xor_key (k : list Z) (i : Z) (bs : list Z) : list Z :=
  match bs with
  | [] => []
  | b :: t => Z.lxor b (key_at k i) :: xor_key k (i + 1) t
  end.

(** A frame as the handler sees it: opcode handed over, FIN flag, payload
    (unmasked), and whether all of it has come; or a [forceClose]. *)
Inductive item : Type :=
| Frame (opCode : Z) (fin : bool) (data : list Z) (complete : bool)
| Closed (reason : String.string).

Inductive mode : Type :=
| Head (hdr : list Z)
| Body (rem : Z) (key : list Z) (acc : list Z)
| Dead.

Record astate : Type := mkA {
  a_opStack : Z;
  a_lastFin : bool;
  a_opCode : list Z;
  a_mode : mode
}.

Definition a0 : astate := mkA (-1) true [0; 0] (Head []).

Section Automaton.

Variable isServer : bool.
Variable le : bool.
(** The answers of the handler. *)
Variable refuses : Z -> bool.
Variable compressed : bool.

Definition SHORT : Z := SHORT_MESSAGE_HEADER isServer.
Definition MEDIUM : Z := MEDIUM_MESSAGE_HEADER isServer.
Definition LONG : Z := LONG_MESSAGE_HEADER isServer.

Definition h_fin (hdr : list Z) : bool := negb (Z.land (nth 0 hdr 0) 128 =? 0).
Definition h_op (hdr : list Z) : Z := Z.land (nth 0 hdr 0) 15.
Definition h_len7 (hdr : list Z) : Z := Z.land (nth 1 hdr 0) 127.

Definition h_invalid (hdr : list Z) : bool :=
  (negb (Z.land (nth 0 hdr 0) 64 =? 0) && negb compressed)
  || negb (Z.land (nth 0 hdr 0) 48 =? 0)
  || ((2 <? h_op hdr) && (h_op hdr <? 8))
  || (10 <? h_op hdr)
  || ((2 <? h_op hdr) && (negb (h_fin hdr) || (125 <? h_len7 hdr))).

(** The length of the header that starts with these bytes. *)
Definition h_size (hdr : list Z) : Z :=
  if h_len7 hdr <? 126 then SHORT
  else if h_len7 hdr =? 126 then MEDIUM else LONG.

Definition h_payLength (hdr : list Z) : Z :=
  if h_len7 hdr <? 126 then h_len7 hdr
  else if h_len7 hdr =? 126
       then cond_byte_swap le 2 (bit_cast le (firstn 2 (skipn 2 hdr)))
       else cond_byte_swap le 8 (bit_cast le (firstn 8 (skipn 2 hdr))).

Definition h_key (hdr : list Z) : list Z :=
  if isServer then firstn 4 (skipn (Z.to_nat (h_size hdr - 4)) hdr) else [].

Definition a_cur (s : astate) : Z := get (a_opCode s) (a_opStack s).

Definition a_set_mode (s : astate) (md : mode) : astate :=
  mkA (a_opStack s) (a_lastFin s) (a_opCode s) md.

Definition a_pop (s : astate) : astate :=
  mkA (sw2 (a_opStack s - 1)) (a_lastFin s) (a_opCode s) (a_mode s).

Definition a_dead (s : astate) : astate := a_set_mode s Dead.

(** The end of a frame: the frame is emitted; a FIN frame leaves its
    level. *)
Definition a_finish (s : astate) (data : list Z) : astate * list item :=
  let s' := if a_lastFin s then a_pop s else s in
  (a_set_mode s' (Head []), [Frame (a_cur s) (a_lastFin s) data true]).

(** The checks on the order of frames, the push of the opcode and the
    record of the FIN flag; [None] is a protocol error. *)
Definition a_push (s : astate) (hdr : list Z) : option astate :=
  let op := h_op hdr in
  if negb (op =? 0) then
    if (a_opStack s =? 1) || (negb (a_lastFin s) && (op <? 2)) then None
    else
      let top := sw2 (a_opStack s + 1) in
      Some (mkA top (h_fin hdr) (set (a_opCode s) top op) (a_mode s))
  else if a_opStack s =? -1 then None
  else Some (mkA (a_opStack s) (h_fin hdr) (a_opCode s) (a_mode s)).

(** A complete header: the checks, the handler's say on the length, and
    the start of the payload. *)
Definition a_start (s : astate) (hdr : list Z) : astate * list item :=
  match a_push s hdr with
  | None => (a_dead s, [Closed Err.ERR_PROTOCOL])
  | Some s =>
      if refuses (h_payLength hdr)
      then (a_dead s, [Closed Err.ERR_TOO_BIG_MESSAGE])
      else if h_payLength hdr =? 0 then a_finish s []
      else (a_set_mode s (Body (h_payLength hdr) (h_key hdr) []), [])
  end.

Definition a_unmask (key : list Z) (i : Z) (b : Z) : Z :=
  if isServer then Z.lxor b (key_at key i) else b.

Definition step (s : astate) (b : Z) : astate * list item :=
  match a_mode s with
  | Dead => (s, [])
  | Head hdr =>
      let hdr := hdr ++ [b] in
      if Z.of_nat (length hdr) <? SHORT then (a_set_mode s (Head hdr), [])
      else if h_invalid hdr then (a_dead s, [Closed Err.ERR_PROTOCOL])
      else if Z.of_nat (length hdr) <? h_size hdr
           then (a_set_mode s (Head hdr), [])
           else a_start s hdr
  | Body rem key acc =>
      let acc := acc ++ [a_unmask key (Z.of_nat (length acc)) b] in
      if rem <=? 1 then a_finish s acc
      else (a_set_mode s (Body (rem - 1) key acc), [])
  end.

Fixpoint run (s : astate) (bs : list Z) : astate * list item :=
  match bs with
  | [] => (s, [])
  | b :: t =>
      let '(s1, o1) := step s b in
      let '(s2, o2) := run s1 t in
      (s2, o1 ++ o2)
  end.

(** The frame under way, if any. *)
Definition pending (s : astate) : list item :=
  match a_mode s with
  | Body _ _ acc => [Frame (a_cur s) (a_lastFin s) acc false]
  | _ => []
  end.

(** What the stream [bs] holds. *)
Definition frames (bs : list Z) : list item :=
  let '(s, out) := run a0 bs in out ++ pending s.

End Automaton.

(** What a trace of the parser holds: the calls of [handleFragment] for
    one frame (all but the last with bytes remaining) put together, and
    the calls of [forceClose]. *)
Fixpoint gather (pend : option (Z * bool * list Z)) (tr : list event)
  : list item * option (Z * bool * list Z) :=
  match tr with
  | [] => ([], pend)
  | Fragment d _ rem opc fin _ _ :: t =>
      let data := match pend with Some (_, _, acc) => acc | None => [] end ++ d in
      if rem =? 0 then
        let '(its, p) := gather None t in (Frame opc fin data true :: its, p)
      else gather (Some (opc, fin, data)) t
  | ForceClose _ reason :: t =>
      let '(its, p) := gather None t in
      (match pend with
       | Some (opc, fin, acc) => [Frame opc fin acc false]
       | None => []
       end ++ Closed reason :: its, p)
  end.

Definition flush (pend : option (Z * bool * list Z)) : list item :=
  match pend with
  | Some (opc, fin, acc) => [Frame opc fin acc false]
  | None => []
  end.

Definition delivered (tr : list event) : list item :=
  let '(its, p) := gather None tr in its ++ flush p.

End Stream.

(* ===================================================================== *)
(** * Facts about bytes and byte strings *)
(* ===================================================================== *)

Lemma byte_in_bytes256 (b : Z) : is_byte b -> In b bytes256.
Proof.
  intros Hb. unfold is_byte in Hb. unfold bytes256.
  rewrite <- (Z2Nat.id b) by lia.
  apply in_map, in_seq. lia.
Qed.

Lemma byte_forall (P : Z -> bool) :
  forallb P bytes256 = true -> forall b, is_byte b -> P b = true.
Proof.
  intros H b Hb. rewrite forallb_forall in H. apply H, byte_in_bytes256, Hb.
Qed.

Lemma byte2_forall (P : Z -> Z -> bool) :
  forallb (fun a => forallb (P a) bytes256) bytes256 = true ->
  forall a b, is_byte a -> is_byte b -> P a b = true.
Proof.
  intros H a b Ha Hb.
  apply (byte_forall (P a)); [|assumption].
  apply (byte_forall (fun a => forallb (P a) bytes256)); assumption.
Qed.

(** A boolean identity on bytes, settled by running through the 256 bytes. *)
Ltac by_bytes :=
  let b := fresh "b" in
  let Hb := fresh "Hb" in
  intros b Hb; apply Bool.eqb_prop;
  match goal with
  | |- Bool.eqb ?l ?r = true =>
      let P := eval pattern b in (Bool.eqb l r) in
      match P with
      | ?F _ => exact (byte_forall F ltac:(vm_compute; reflexivity) b Hb)
      end
  end.

Lemma land_80 : forall b, is_byte b -> (Z.land b 0x80 =? 0) = (b <? 0x80).
Proof. by_bytes. Qed.
Lemma land_60_40 : forall b, is_byte b ->
  (Z.land b 0x60 =? 0x40) = ((0x40 <=? b) && (b <? 0x60) || (0xC0 <=? b) && (b <? 0xE0)).
Proof. by_bytes. Qed.
Lemma land_fe_c0 : forall b, is_byte b ->
  (Z.land b 0xfe =? 0xc0) = ((0xC0 <=? b) && (b <? 0xC2)).
Proof. by_bytes. Qed.
Lemma land_c0_80 : forall b, is_byte b ->
  (Z.land b 0xc0 =? 0x80) = ((0x80 <=? b) && (b <? 0xC0)).
Proof. by_bytes. Qed.
Lemma land_f0_e0 : forall b, is_byte b ->
  (Z.land b 0xf0 =? 0xe0) = ((0xE0 <=? b) && (b <? 0xF0)).
Proof. by_bytes. Qed.
Lemma land_e0_80 : forall b, is_byte b ->
  (Z.land b 0xe0 =? 0x80) = ((0x80 <=? b) && (b <? 0xA0)).
Proof. by_bytes. Qed.
Lemma land_e0_a0 : forall b, is_byte b ->
  (Z.land b 0xe0 =? 0xa0) = ((0xA0 <=? b) && (b <? 0xC0)).
Proof. by_bytes. Qed.
Lemma land_f8_f0 : forall b, is_byte b ->
  (Z.land b 0xf8 =? 0xf0) = ((0xF0 <=? b) && (b <? 0xF8)).
Proof. by_bytes. Qed.
Lemma land_f0_80 : forall b, is_byte b ->
  (Z.land b 0xf0 =? 0x80) = ((0x80 <=? b) && (b <? 0x90)).
Proof. by_bytes. Qed.

(** The bitwise operations keep bytes bytes. *)
Lemma land_byte a b : is_byte a -> is_byte b -> is_byte (Z.land a b).
Proof.
  intros Ha Hb.
  assert (H : is_byteb (Z.land a b) = true)
    by (apply (byte2_forall (fun a b => is_byteb (Z.land a b)));
        [vm_compute; reflexivity|assumption..]).
  unfold is_byteb in H. unfold is_byte. lia.
Qed.

Lemma lxor_byte a b : is_byte a -> is_byte b -> is_byte (Z.lxor a b).
Proof.
  intros Ha Hb.
  assert (H : is_byteb (Z.lxor a b) = true)
    by (apply (byte2_forall (fun a b => is_byteb (Z.lxor a b)));
        [vm_compute; reflexivity|assumption..]).
  unfold is_byteb in H. unfold is_byte. lia.
Qed.

(** Bits of a number with a byte put in front of it. *)
Lemma testbit_cons (a x n : Z) :
  is_byte a -> 0 <= n ->
  Z.testbit (a + 256 * x) n = if n <? 8 then Z.testbit a n else Z.testbit x (n - 8).
Proof.
  intros Ha Hn. unfold is_byte in Ha.
  destruct (Z.ltb_spec n 8).
  - rewrite <- (Z.mod_pow2_bits_low (a + 256 * x) 8 n) by lia.
    change (2 ^ 8) with 256.
    replace ((a + 256 * x) mod 256) with a; [reflexivity|].
    Z.div_mod_to_equations. lia.
  - transitivity (Z.testbit ((a + 256 * x) / 2 ^ 8) (n - 8)).
    + rewrite Z.div_pow2_bits by lia. f_equal. lia.
    + f_equal. change (2 ^ 8) with 256. Z.div_mod_to_equations. lia.
Qed.

Fixpoint zip_with (op : Z -> Z -> Z) (l1 l2 : list Z) : list Z :=
  match l1, l2 with
  | a :: t1, b :: t2 => op a b :: zip_with op t1 t2
  | _, _ => []
  end.

Section BitwiseCons.

Variable op : Z -> Z -> Z.
Variable f : bool -> bool -> bool.
Hypothesis op_spec :
  forall a b n, Z.testbit (op a b) n = f (Z.testbit a n) (Z.testbit b n).
Hypothesis op_byte : forall a b, is_byte a -> is_byte b -> is_byte (op a b).
Hypothesis op_0 : op 0 0 = 0.

Lemma bitwise_cons (a b x y : Z) :
  is_byte a -> is_byte b ->
  op (a + 256 * x) (b + 256 * y) = op a b + 256 * op x y.
Proof.
  intros Ha Hb. apply Z.bits_inj'. intros n Hn.
  rewrite op_spec, !testbit_cons by auto.
  destruct (n <? 8); rewrite op_spec; reflexivity.
Qed.

Lemma bitwise_le_decode (l1 l2 : list Z) :
  length l1 = length l2 -> Forall is_byte l1 -> Forall is_byte l2 ->
  op (le_decode l1) (le_decode l2) = le_decode (zip_with op l1 l2).
Proof.
  revert l2. induction l1 as [|a t1 IH]; intros [|b t2] Hl H1 H2;
    cbn [le_decode zip_with length] in *; try discriminate; [assumption|].
  inversion H1; inversion H2; subst.
  rewrite bitwise_cons by assumption. rewrite IH by (auto; lia). reflexivity.
Qed.

End BitwiseCons.

Lemma land_le_decode (l1 l2 : list Z) :
  length l1 = length l2 -> Forall is_byte l1 -> Forall is_byte l2 ->
  Z.land (le_decode l1) (le_decode l2) = le_decode (zip_with Z.land l1 l2).
Proof. apply (bitwise_le_decode Z.land andb Z.land_spec land_byte). reflexivity. Qed.

Lemma lxor_le_decode (l1 l2 : list Z) :
  length l1 = length l2 -> Forall is_byte l1 -> Forall is_byte l2 ->
  Z.lxor (le_decode l1) (le_decode l2) = le_decode (zip_with Z.lxor l1 l2).
Proof. apply (bitwise_le_decode Z.lxor xorb Z.lxor_spec lxor_byte). reflexivity. Qed.

Lemma le_decode_nonneg (l : list Z) : Forall is_byte l -> 0 <= le_decode l.
Proof.
  induction 1 as [|b t Hb _ IH]; cbn [le_decode]; [lia|]. unfold is_byte in Hb. lia.
Qed.

Lemma le_decode_bound (l : list Z) :
  Forall is_byte l -> 0 <= le_decode l < 256 ^ Z.of_nat (length l).
Proof.
  induction 1 as [|b t Hb _ IH]; cbn [length le_decode]; [simpl; lia|].
  rewrite Nat2Z.inj_succ, Z.pow_succ_r by lia.
  unfold is_byte in Hb. lia.
Qed.

Lemma le_decode_0 (l : list Z) :
  Forall is_byte l -> (le_decode l = 0 <-> Forall (fun b => b = 0) l).
Proof.
  induction 1 as [|b t Hb Ht IH]; cbn [le_decode].
  - split; auto.
  - pose proof (le_decode_nonneg t Ht). unfold is_byte in Hb. split.
    + intros H0. constructor; [lia|]. apply IH. lia.
    + intros H0. inversion H0; subst. apply IH in H4. lia.
Qed.

Lemma le_encode_decode (l : list Z) :
  Forall is_byte l -> le_encode (length l) (le_decode l) = l.
Proof.
  induction 1 as [|b t Hb _ IH]; cbn [le_decode le_encode length]; [reflexivity|].
  unfold is_byte in Hb.
  replace ((b + 256 * le_decode t) mod 256) with b
    by (Z.div_mod_to_equations; lia).
  replace ((b + 256 * le_decode t) / 256) with (le_decode t)
    by (Z.div_mod_to_equations; lia).
  rewrite IH. reflexivity.
Qed.

Lemma le_encode_length (n : nat) (v : Z) : length (le_encode n v) = n.
Proof. revert v. induction n; intros; simpl; auto. Qed.

Lemma le_encode_bytes (n : nat) (v : Z) : Forall is_byte (le_encode n v).
Proof.
  revert v. induction n; intros; simpl; constructor; auto.
  unfold is_byte. apply Z.mod_pos_bound. lia.
Qed.

Lemma zip_with_length (op : Z -> Z -> Z) (l1 l2 : list Z) :
  length l1 = length l2 -> length (zip_with op l1 l2) = length l1.
Proof.
  revert l2. induction l1; intros [|b t2] H; simpl in *; try discriminate; auto.
Qed.

Lemma zip_with_bytes (op : Z -> Z -> Z) (l1 l2 : list Z) :
  (forall a b, is_byte a -> is_byte b -> is_byte (op a b)) ->
  Forall is_byte l1 -> Forall is_byte l2 -> Forall is_byte (zip_with op l1 l2).
Proof.
  intros Hop H1. revert l2. induction H1; intros [|b t2] H2; simpl; auto.
  inversion H2; subst. constructor; auto.
Qed.

Lemma zip_with_rev (op : Z -> Z -> Z) (l1 l2 : list Z) :
  length l1 = length l2 ->
  zip_with op (rev l1) (rev l2) = rev (zip_with op l1 l2).
Proof.
  revert l2. induction l1 as [|a t1 IH]; intros [|b t2] H;
    simpl in *; try discriminate; [reflexivity|].
  assert (Hl : length t1 = length t2) by lia.
  rewrite <- IH by assumption.
  assert (Hr : length (rev t1) = length (rev t2)) by (rewrite !length_rev; auto).
  clear IH H Hl. revert Hr. generalize (rev t1) (rev t2).
  induction l as [|x l IH]; intros [|y l0] H; simpl in *; try discriminate;
    [reflexivity|]. rewrite IH by lia. reflexivity.
Qed.

(** A wide [xor] through [memcpy] is the byte-wise [xor], on either host. *)
Lemma xor_through_bit_cast (le : bool) (l k : list Z) :
  length l = length k -> Forall is_byte l -> Forall is_byte k ->
  to_bytes le (length l) (Z.lxor (bit_cast le l) (bit_cast le k))
  = zip_with Z.lxor l k.
Proof.
  intros Hl H1 H2. unfold to_bytes, bit_cast. destruct le.
  - rewrite lxor_le_decode by assumption.
    rewrite <- (zip_with_length Z.lxor l k Hl) at 1.
    apply le_encode_decode, zip_with_bytes; auto using lxor_byte.
  - rewrite lxor_le_decode
      by (rewrite ?length_rev; auto using Forall_rev).
    rewrite zip_with_rev by assumption.
    rewrite <- (zip_with_length Z.lxor l k Hl) at 1.
    rewrite <- (length_rev (zip_with Z.lxor l k)).
    rewrite le_encode_decode
      by (apply Forall_rev, zip_with_bytes; auto using lxor_byte).
    apply rev_involutive.
Qed.

Lemma Forall_firstn {A : Type} (P : A -> Prop) (n : nat) (l : list A) :
  Forall P l -> Forall P (firstn n l).
Proof.
  intros H. rewrite <- (firstn_skipn n l) in H. apply Forall_app in H. tauto.
Qed.

Lemma Forall_skipn {A : Type} (P : A -> Prop) (n : nat) (l : list A) :
  Forall P l -> Forall P (skipn n l).
Proof.
  intros H. rewrite <- (firstn_skipn n l) in H. apply Forall_app in H. tauto.
Qed.

(* ===================================================================== *)
(** * The UTF-8 validator accepts exactly the well-formed strings *)
(* ===================================================================== *)

Module Utf8Facts.
Import Utf8.

Lemma isValidUtf8_eq (le : bool) (s : list Z) :
  isValidUtf8 le s =
  match s with
  | [] => true
  | _ :: _ =>
      match body le s with
      | Done r => r
      | Next s' => isValidUtf8 le s'
      end
  end.
Proof.
  destruct s as [|b t]; simp isValidUtf8; [reflexivity|].
  destruct (inspect (body le (b :: t))) as [[r|s'] E]; simpl;
    rewrite E; reflexivity.
Qed.

(** The first character of a well-formed string, by the ranges of its
    bytes (the table of well-formed byte sequences). *)
Definition is_cont (b : Z) : bool := (0x80 <=? b) && (b <=? 0xBF).

Definition head_ok (s : list Z) : option (list Z) :=
  match s with
  | [] => None
  | b0 :: t =>
      if (0 <=? b0) && (b0 <? 0x80) then Some t
      else if (0xC2 <=? b0) && (b0 <=? 0xDF) then
        match t with
        | b1 :: t' => if is_cont b1 then Some t' else None
        | _ => None
        end
      else if (0xE0 <=? b0) && (b0 <=? 0xEF) then
        match t with
        | b1 :: b2 :: t' =>
            if is_cont b1 && is_cont b2
               && negb ((b0 =? 0xE0) && (b1 <? 0xA0))
               && negb ((b0 =? 0xED) && (0xA0 <=? b1))
            then Some t' else None
        | _ => None
        end
      else if (0xF0 <=? b0) && (b0 <=? 0xF4) then
        match t with
        | b1 :: b2 :: b3 :: t' =>
            if is_cont b1 && is_cont b2 && is_cont b3
               && negb ((b0 =? 0xF0) && (b1 <? 0x90))
               && negb ((b0 =? 0xF4) && (0x90 <=? b1))
            then Some t' else None
        | _ => None
        end
      else None
  end.

Ltac bool_to_prop :=
  repeat match goal with
         | H : _ && _ = true |- _ => apply andb_true_iff in H; destruct H
         | H : _ || _ = false |- _ => apply orb_false_iff in H; destruct H
         | H : negb _ = true |- _ => apply negb_true_iff in H
         | H : negb _ = false |- _ => apply negb_false_iff in H
         | H : _ && _ = false |- _ => apply andb_false_iff in H
         | H : _ || _ = true |- _ => apply orb_true_iff in H
         | H : (_ <=? _) = true |- _ => apply Z.leb_le in H
         | H : (_ <=? _) = false |- _ => apply Z.leb_gt in H
         | H : (_ <? _) = true |- _ => apply Z.ltb_lt in H
         | H : (_ <? _) = false |- _ => apply Z.ltb_ge in H
         | H : (_ =? _) = true |- _ => apply Z.eqb_eq in H
         | H : (_ =? _) = false |- _ => apply Z.eqb_neq in H
         end.

Ltac prop_bools H :=
  rewrite ?andb_true_iff, ?orb_true_iff, ?andb_false_iff, ?orb_false_iff,
    ?negb_true_iff, ?negb_false_iff, ?Z.leb_le, ?Z.leb_gt, ?Z.ltb_lt,
    ?Z.ltb_ge, ?Z.eqb_eq, ?Z.eqb_neq in H.

Lemma WF_nil : WellFormed [].
Proof. exists []. split; [constructor|reflexivity]. Qed.

Lemma WF_cons_char (cp : Z) (rest : list Z) :
  scalar cp -> WellFormed rest -> WellFormed (encode cp ++ rest).
Proof.
  intros Hc (cps & Hs & ->). exists (cp :: cps). split; [constructor; auto|reflexivity].
Qed.

Lemma encode_nonempty (cp : Z) : encode cp <> [].
Proof. unfold encode. repeat destruct (_ <? _); discriminate. Qed.

Lemma WF_inv (s : list Z) :
  WellFormed s -> s <> [] ->
  exists cp rest, scalar cp /\ s = encode cp ++ rest /\ WellFormed rest.
Proof.
  intros (cps & Hs & ->) Hne. destruct cps as [|cp cps]; [exfalso; apply Hne; reflexivity|].
  inversion Hs; subst. exists cp, (flat_map encode cps).
  split; [assumption|]. split; [reflexivity|]. exists cps. split; auto.
Qed.

(** The head of [encode cp ++ rest] is accepted, and leaves [rest]. *)
Lemma head_ok_encode (cp : Z) (rest : list Z) :
  scalar cp -> head_ok (encode cp ++ rest) = Some rest.
Proof.
  intros [Hr Hs]. unfold encode.
  destruct (Z.ltb_spec cp 0x80); [|destruct (Z.ltb_spec cp 0x800);
                                    [|destruct (Z.ltb_spec cp 0x10000)]];
    cbn [app head_ok is_cont]; unfold is_cont;
    repeat match goal with
           | |- context [if ?c then _ else _] =>
               let E := fresh "E" in
               destruct c eqn:E; try reflexivity;
               prop_bools E; try (exfalso; Z.div_mod_to_equations; lia)
           end.
Qed.

Lemma head_ok_WF (s s' : list Z) :
  head_ok s = Some s' -> WellFormed s' -> WellFormed s.
Proof.
  unfold head_ok. destruct s as [|b0 t]; [discriminate|].
  destruct ((0 <=? b0) && (b0 <? 128)) eqn:E0.
  { intros [= <-] Hw. prop_bools E0.
    replace (b0 :: t) with (encode b0 ++ t).
    - apply WF_cons_char; [|assumption]. unfold scalar. lia.
    - unfold encode. destruct (Z.ltb_spec b0 128); [reflexivity|lia]. }
  destruct ((194 <=? b0) && (b0 <=? 223)) eqn:E1.
  { destruct t as [|b1 t']; [discriminate|].
    destruct (is_cont b1) eqn:C1; [|discriminate].
    intros [= <-] Hw. unfold is_cont in *. prop_bools E1. prop_bools C1.
    replace (b0 :: b1 :: t') with (encode ((b0 - 0xC0) * 64 + (b1 - 0x80)) ++ t').
    - apply WF_cons_char; [|assumption]. unfold scalar. lia.
    - unfold encode.
      destruct (Z.ltb_spec ((b0 - 192) * 64 + (b1 - 128)) 128); [lia|].
      destruct (Z.ltb_spec ((b0 - 192) * 64 + (b1 - 128)) 2048); [|lia].
      cbn [app]. repeat f_equal; Z.div_mod_to_equations; lia. }
  destruct ((224 <=? b0) && (b0 <=? 239)) eqn:E2.
  { destruct t as [|b1 [|b2 t']]; try discriminate.
    match goal with |- context [if ?c then _ else _] => destruct c eqn:C end;
      [|discriminate].
    intros [= <-] Hw. unfold is_cont in *. prop_bools E2. prop_bools C.
    set (cp := (b0 - 0xE0) * 4096 + (b1 - 0x80) * 64 + (b2 - 0x80)).
    replace (b0 :: b1 :: b2 :: t') with (encode cp ++ t').
    - apply WF_cons_char; [|assumption]. unfold scalar, cp. lia.
    - unfold encode.
      destruct (Z.ltb_spec cp 128); [unfold cp in *; lia|].
      destruct (Z.ltb_spec cp 2048); [unfold cp in *; lia|].
      destruct (Z.ltb_spec cp 65536); [|unfold cp in *; lia].
      cbn [app]. unfold cp. repeat f_equal; Z.div_mod_to_equations; lia. }
  destruct ((240 <=? b0) && (b0 <=? 244)) eqn:E3; [|discriminate].
  destruct t as [|b1 [|b2 [|b3 t']]]; try discriminate.
  match goal with |- context [if ?c then _ else _] => destruct c eqn:C end;
    [|discriminate].
  intros [= <-] Hw. unfold is_cont in *. prop_bools E3. prop_bools C.
  set (cp := (b0 - 0xF0) * 262144 + (b1 - 0x80) * 4096 + (b2 - 0x80) * 64
             + (b3 - 0x80)).
  replace (b0 :: b1 :: b2 :: b3 :: t') with (encode cp ++ t').
  - apply WF_cons_char; [|assumption]. unfold scalar, cp. lia.
  - unfold encode.
    destruct (Z.ltb_spec cp 128); [unfold cp in *; lia|].
    destruct (Z.ltb_spec cp 2048); [unfold cp in *; lia|].
    destruct (Z.ltb_spec cp 65536); [unfold cp in *; lia|].
    cbn [app]. unfold cp. repeat f_equal; Z.div_mod_to_equations; lia.
Qed.

Lemma WF_head (s : list Z) :
  s <> [] -> (WellFormed s <-> exists s', head_ok s = Some s' /\ WellFormed s').
Proof.
  intros Hne. split.
  - intros Hw. destruct (WF_inv s Hw Hne) as (cp & rest & Hc & -> & Hr).
    exists rest. split; [apply head_ok_encode; assumption|assumption].
  - intros (s' & Hh & Hw). eapply head_ok_WF; eassumption.
Qed.

End Utf8Facts.

Module Utf8Valid.
Import Utf8 Utf8Facts.

Ltac split_cmp :=
  repeat (cbn [andb orb negb];
          match goal with
          | |- context [?a <=? ?b] => destruct (Z.leb_spec a b); try lia
          | |- context [?a <? ?b] => destruct (Z.ltb_spec a b); try lia
          | |- context [?a =? ?b] => destruct (Z.eqb_spec a b); try lia
          end).

Lemma classify_head (s : list Z) :
  Forall is_byte s -> 128 <= nth 0 s 0 ->
  classify s = match head_ok s with Some s' => Next s' | None => Done false end.
Proof.
  intros Hb H0.
  destruct s as [|b0 [|b1 [|b2 [|b3 t]]]];
    repeat match goal with
           | H : Forall _ (_ :: _) |- _ => inversion H; clear H; subst
           end;
    unfold classify, at_, head_ok, is_cont; cbn [nth length skipn] in *;
    rewrite ?Nat2Z.inj_succ;
    repeat first [ rewrite land_60_40 by assumption
                 | rewrite land_fe_c0 by assumption
                 | rewrite land_c0_80 by assumption
                 | rewrite land_f0_e0 by assumption
                 | rewrite land_e0_80 by assumption
                 | rewrite land_e0_a0 by assumption
                 | rewrite land_f8_f0 by assumption
                 | rewrite land_f0_80 by assumption ];
    try (change (Z.land 0 192 =? 128) with false);
    unfold is_byte in *;
    [ cbn in *; lia | .. ];
    split_cmp; reflexivity.
Qed.

Definition ascii (b : Z) : Prop := 0 <= b < 128.

Lemma WF_ascii_cons (b : Z) (t : list Z) :
  ascii b -> (WellFormed (b :: t) <-> WellFormed t).
Proof.
  intros Hb. unfold ascii in Hb. rewrite WF_head by discriminate.
  cbn [head_ok].
  replace ((0 <=? b) && (b <? 128)) with true by lia.
  split.
  - intros (s' & [= <-] & Hw). exact Hw.
  - intros Hw. exists t. auto.
Qed.

Lemma WF_ascii_prefix (pre t : list Z) :
  Forall ascii pre -> (WellFormed (pre ++ t) <-> WellFormed t).
Proof.
  induction 1 as [|b pre Hb _ IH]; cbn [app]; [reflexivity|].
  rewrite WF_ascii_cons by assumption. exact IH.
Qed.

Lemma WF_ascii (s : list Z) : Forall ascii s -> WellFormed s.
Proof.
  intros H. rewrite <- (app_nil_r s). apply WF_ascii_prefix; [assumption|].
  apply WF_nil.
Qed.

Lemma skip_ascii_spec (s : list Z) :
  Forall is_byte s ->
  match skip_ascii s with
  | None => Forall ascii s
  | Some s1 =>
      exists pre, s = pre ++ s1 /\ Forall ascii pre /\ 128 <= nth 0 s1 0
  end.
Proof.
  induction 1 as [|b t Hb Ht IH]; cbn [skip_ascii]; [constructor|].
  rewrite land_80 by assumption. unfold is_byte in Hb.
  destruct (Z.ltb_spec b 128).
  - destruct (skip_ascii t) as [s1|].
    + destruct IH as (pre & -> & Hp & Hn). exists (b :: pre).
      repeat split; auto. constructor; [unfold ascii; lia|assumption].
    + constructor; [unfold ascii; lia|assumption].
  - exists []. repeat split; auto.
Qed.

Lemma firstn_add_skipn {A : Type} (n m : nat) (l : list A) :
  firstn (n + m) l = firstn n l ++ firstn m (skipn n l).
Proof.
  revert l. induction n as [|n IH]; intros l; [reflexivity|].
  destruct l as [|a l]; cbn [Nat.add firstn skipn app].
  - rewrite firstn_nil. reflexivity.
  - rewrite IH. reflexivity.
Qed.

Lemma high_bits_clear (l : list Z) :
  Forall is_byte l ->
  Forall (fun x => x = 0) (zip_with Z.land l (repeat 0x80 (length l))) ->
  Forall ascii l.
Proof.
  induction 1 as [|b t Hb Ht IH]; cbn [length repeat zip_with]; intros H;
    [constructor|].
  inversion H; subst. constructor; [|auto].
  pose proof (land_80 b Hb) as E. unfold is_byte in Hb. unfold ascii.
  destruct (Z.ltb_spec b 128); [lia|].
  apply Z.eqb_neq in E. congruence.
Qed.

Lemma repeat_bytes (b : Z) (n : nat) : is_byte b -> Forall is_byte (repeat b n).
Proof. intros Hb. induction n; cbn [repeat]; constructor; auto. Qed.

Lemma word_ascii (le : bool) (l : list Z) :
  length l = 8%nat -> Forall is_byte l ->
  Z.land (bit_cast le l) 0x8080808080808080 = 0 -> Forall ascii l.
Proof.
  intros Hl Hb H.
  change 0x8080808080808080 with (le_decode (repeat 0x80 8)) in H.
  assert (H80 : is_byte 0x80) by (unfold is_byte; lia).
  unfold bit_cast in H. destruct le.
  - rewrite land_le_decode in H
      by (rewrite ?repeat_length; auto using repeat_bytes).
    apply le_decode_0 in H;
      [|apply zip_with_bytes; auto using land_byte, repeat_bytes].
    apply high_bits_clear; [assumption|]. rewrite Hl. exact H.
  - rewrite land_le_decode in H
      by (rewrite ?repeat_length, ?length_rev; auto using repeat_bytes, Forall_rev).
    apply le_decode_0 in H;
      [|apply zip_with_bytes; auto using land_byte, repeat_bytes, Forall_rev].
    rewrite <- (rev_involutive l). apply Forall_rev.
    apply high_bits_clear; [auto using Forall_rev|].
    rewrite length_rev, Hl. exact H.
Qed.

Lemma ascii16_spec (le : bool) (s : list Z) :
  (16 <= length s)%nat -> Forall is_byte s -> ascii16 le s = true ->
  Forall ascii (firstn 16 s).
Proof.
  intros Hl Hb H. unfold ascii16 in H. apply Z.eqb_eq in H.
  apply Z.lor_eq_0_iff in H as [H1 H2].
  change 16%nat with (8 + 8)%nat. rewrite firstn_add_skipn.
  apply Forall_app. split; (eapply word_ascii; [| |eassumption]).
  - rewrite length_firstn. lia.
  - apply Forall_firstn. assumption.
  - rewrite length_firstn, length_skipn. lia.
  - apply Forall_firstn, Forall_skipn. assumption.
Qed.

Lemma body_spec (le : bool) (s : list Z) :
  Forall is_byte s -> s <> [] ->
  match body le s with
  | Done r => r = true <-> WellFormed s
  | Next s' => (WellFormed s <-> WellFormed s') /\ Forall is_byte s'
  end.
Proof.
  intros Hb Hne. unfold body.
  destruct ((16 <=? Z.of_nat (length s)) && ascii16 le s) eqn:E.
  - apply andb_true_iff in E as [E1 E2]. apply Z.leb_le in E1.
    split; [|apply Forall_skipn; assumption].
    rewrite <- (firstn_skipn 16 s) at 1.
    apply WF_ascii_prefix, (ascii16_spec le); [lia|assumption..].
  - clear E. pose proof (skip_ascii_spec s Hb) as Hs.
    destruct (skip_ascii s) as [s1|].
    + destruct Hs as (pre & -> & Hp & Hn).
      apply Forall_app in Hb as [_ Hb1].
      rewrite classify_head by assumption.
      assert (Hne1 : s1 <> []) by (intros ->; cbn in Hn; lia).
      pose proof (WF_ascii_prefix pre s1 Hp) as Hpre.
      pose proof (WF_head s1 Hne1) as Hhead.
      destruct (head_ok s1) as [s'|] eqn:Eh.
      * split.
        -- rewrite Hpre, Hhead.
           split; [intros (x & [= <-] & Hw); exact Hw|intros Hw; exists s'; auto].
        -- unfold head_ok in Eh. destruct s1 as [|b0 t]; [discriminate|].
           inversion Hb1; subst.
           repeat match type of Eh with
                  | context [if ?c then _ else _] => destruct c
                  | context [match ?t with [] => _ | _ :: _ => _ end] =>
                      destruct t
                  end; try discriminate; injection Eh as <-;
             repeat match goal with
                    | H : Forall _ (_ :: _) |- _ => inversion H; clear H; subst
                    end; assumption.
      * rewrite Hpre, Hhead. split; [discriminate|]. intros (x & [=] & _).
    + split; [intros _; apply WF_ascii; assumption|reflexivity].
Qed.

Lemma isValidUtf8_WellFormed (le : bool) (s : list Z) :
  Forall is_byte s -> (isValidUtf8 le s = true <-> WellFormed s).
Proof.
  remember (length s) as n eqn:Hn. revert s Hn.
  induction n as [n IH] using lt_wf_ind. intros s Hn Hb.
  rewrite isValidUtf8_eq. destruct s as [|b t].
  - split; [intros _; apply WF_nil|reflexivity].
  - assert (Hne : b :: t <> []) by discriminate.
    pose proof (body_spec le (b :: t) Hb Hne) as Hs.
    pose proof (body_length le (b :: t)) as Hl.
    destruct (body le (b :: t)) as [r|s'].
    + exact Hs.
    + destruct Hs as [Hw Hb']. rewrite Hw.
      apply (IH (length s')); [|reflexivity|assumption].
      rewrite Hn. apply Hl; [assumption|reflexivity].
Qed.

End Utf8Valid.

(** C7.  [isValidUtf8] returns true exactly on the well-formed UTF-8 strings
    of RFC 3629: the byte strings that are a concatenation of shortest
    encodings of code points at most U+10FFFF outside U+D800..U+DFFF.  So it
    rejects overlong encodings, surrogates, code points above U+10FFFF,
    truncated sequences and bad leading or continuation bytes. *)
Theorem isValidUtf8_iff_well_formed (le : bool) (s : list Z) :
  Forall is_byte s ->
  (Utf8.isValidUtf8 le s = true <-> Utf8.WellFormed s).
Proof. apply Utf8Valid.isValidUtf8_WellFormed. Qed.

Lemma isValidUtf8_iff_well_formed_witness :
  Forall is_byte [0x48; 0xC3; 0xA9; 0xE2; 0x82; 0xAC]
  /\ (Utf8.isValidUtf8 true [0x48; 0xC3; 0xA9; 0xE2; 0x82; 0xAC] = true
      <-> Utf8.WellFormed [0x48; 0xC3; 0xA9; 0xE2; 0x82; 0xAC]).
Proof.
  assert (H : Forall is_byte [0x48; 0xC3; 0xA9; 0xE2; 0x82; 0xAC])
    by (repeat constructor; unfold is_byte; lia).
  split; [exact H|].
  exact (isValidUtf8_iff_well_formed true [0x48; 0xC3; 0xA9; 0xE2; 0x82; 0xAC] H).
Defined.

(* ===================================================================== *)
(** * The close-payload codec *)
(* ===================================================================== *)

(** The two bytes read through [memcpy] and [cond_byte_swap<uint16_t>] are
    the big-endian value, on either host. *)
Lemma big_endian_u16 (le : bool) (b0 b1 : Z) :
  is_byte b0 -> is_byte b1 ->
  cond_byte_swap le 2 (bit_cast le [b0; b1]) = 256 * b0 + b1.
Proof.
  unfold is_byte, cond_byte_swap, bit_cast. intros H0 H1.
  destruct le; cbn [le_decode le_encode rev app].
  - replace ((b0 + 256 * (b1 + 256 * 0)) mod 256) with b0
      by (Z.div_mod_to_equations; lia).
    replace ((b0 + 256 * (b1 + 256 * 0)) / 256 mod 256) with b1
      by (Z.div_mod_to_equations; lia).
    lia.
  - lia.
Qed.

(** C6.  [parseClosePayload]: fewer than two bytes give code 1005 and an
    empty message; otherwise the code is the big-endian value of the first
    two bytes and the reason the rest, and the result is
    [{1006, ERR_INVALID_CLOSE_PAYLOAD}] exactly when the code is below 1000,
    above 4999, in 1012..3999, in 1004..1006, or the reason is not
    well-formed UTF-8, and [{code, reason}] otherwise. *)
Theorem parseClosePayload_spec (le : bool) (src : list Z) :
  Forall is_byte src ->
  let len := Z.of_nat (length src) in
  let code := 256 * nth 0 src 0 + nth 1 src 0 in
  let reason := skipn 2 src in
  let rejected :=
    code < 1000 \/ code > 4999 \/ 1012 <= code <= 3999 \/ 1004 <= code <= 1006
    \/ ~ Utf8.WellFormed reason in
  (len < 2 -> Close.parseClosePayload le src = Close.mkCloseFrame 1005 [] 0)
  /\ (2 <= len -> rejected ->
      Close.parseClosePayload le src
      = Close.mkCloseFrame 1006
          (Close.bytes_of_string Close.ERR_INVALID_CLOSE_PAYLOAD) 30)
  /\ (2 <= len -> ~ rejected ->
      Close.parseClosePayload le src = Close.mkCloseFrame code reason (len - 2)).
Proof.
  intros Hb len code reason rejected. unfold Close.parseClosePayload.
  fold len. destruct (Z.leb_spec 2 len) as [Hl|Hl].
  2: { repeat split; intros; try lia; reflexivity. }
  destruct src as [|b0 [|b1 t]]; try (cbn in len; subst len; lia).
  inversion Hb as [|? ? H0 Hb']; subst. inversion Hb' as [|? ? H1 Hb'']; subst.
  cbn [firstn skipn Close.code Close.message].
  rewrite big_endian_u16 by assumption.
  cbn [nth] in code. fold code. cbn [skipn] in reason. fold reason.
  pose proof (Utf8Valid.isValidUtf8_WellFormed le reason Hb'') as Hu.
  split; [intros; lia|].
  match goal with |- context [if ?c then _ else _] => destruct c eqn:E end.
  - split; [reflexivity|]. intros _ Hn. exfalso. apply Hn. unfold rejected.
    repeat (apply orb_true_iff in E; destruct E as [E|E]);
      try (apply andb_true_iff in E; destruct E as [E1 E2]);
      try (apply negb_true_iff in E);
      rewrite ?Z.ltb_lt, ?Z.leb_le in *; try lia.
    right; right; right; right. intros Hw. apply Hu in Hw. congruence.
  - split; [|reflexivity]. intros _ Hr. exfalso.
    repeat (apply orb_false_iff in E; destruct E as [E ?]).
    repeat match goal with
           | H : _ && _ = false |- _ => apply andb_false_iff in H
           | H : negb _ = false |- _ => apply negb_false_iff in H
           end.
    rewrite ?Z.ltb_ge, ?Z.leb_gt in *.
    destruct Hr as [Hr|[Hr|[Hr|[Hr|Hr]]]]; try lia.
    apply Hr, Hu. assumption.
Qed.

Lemma parseClosePayload_spec_witness :
  Forall is_byte [0x03; 0xE8; 0x62; 0x79; 0x65]
  /\ Close.parseClosePayload true [0x03; 0xE8; 0x62; 0x79; 0x65]
     = Close.mkCloseFrame 1000 [0x62; 0x79; 0x65] 3.
Proof.
  assert (H : Forall is_byte [0x03; 0xE8; 0x62; 0x79; 0x65])
    by (repeat constructor; unfold is_byte; lia).
  split; [exact H|].
  refine (proj2 (proj2 (parseClosePayload_spec true _ H)) _ _).
  - cbn. lia.
  - intros [Hr|[Hr|[Hr|[Hr|Hr]]]]; cbn in Hr; try lia.
    apply Hr. exists [0x62; 0x79; 0x65]. split.
    + repeat constructor; unfold Utf8.scalar; lia.
    + reflexivity.
Defined.

(* ===================================================================== *)
(** * The outbound framer *)
(* ===================================================================== *)

Lemma mask_payload_length (mask : list Z) (i : Z) (src : list Z) :
  length (Framer.mask_payload mask i src) = length src.
Proof.
  revert i. induction src as [|b t IH]; intros i; cbn [Framer.mask_payload length];
    [reflexivity|]. rewrite IH. reflexivity.
Qed.

Lemma to_bytes_length (le : bool) (n : nat) (v : Z) : length (to_bytes le n v) = n.
Proof.
  unfold to_bytes. destruct le; rewrite ?length_rev; apply le_encode_length.
Qed.

(** C8.  [formatMessage] returns, and writes, [H + length] bytes for a
    server and [H + 4 + length] bytes for a client, with [H] = 2, 4 or 10 as
    [reportedLength] is below 126, at most 0xFFFF, or larger; for a server
    with [reportedLength = length] this is [messageFrameSize(length)].  The
    frame fits the address space: [length + 14 < 2^64]. *)
Theorem formatMessage_size (isServer le : bool) (random : Z) (src : list Z)
  (opCode reportedLength : Z) (compressed fin : bool) :
  let length := Z.of_nat (List.length src) in
  let H := if reportedLength <? 126 then 2
           else if reportedLength <=? 0xFFFF then 4 else 10 in
  let r := Framer.formatMessage isServer le random src opCode reportedLength
             compressed fin in
  length + 14 < 2 ^ 64 ->
  snd r = H + (if isServer then 0 else 4) + length
  /\ Z.of_nat (List.length (fst r)) = snd r
  /\ (isServer = true -> reportedLength = length ->
      snd r = Framer.messageFrameSize length).
Proof.
  intros length H r Hfit. subst r H. unfold Framer.formatMessage, Framer.messageFrameSize.
  fold length. change Framer.UINT16_MAX with 65535.
  assert (Hp : 0 <= length) by (subst length; lia).
  assert (W : forall k, 0 <= k <= 14 -> wrap 64 (k + length) = k + length)
    by (intros k Hk; unfold wrap; apply Z.mod_small; lia).
  destruct (reportedLength <? 126) eqn:E1;
    [|destruct (reportedLength <=? 65535) eqn:E2];
    destruct isServer; cbn [negb fst snd List.length];
    rewrite ?length_app, ?to_bytes_length, ?mask_payload_length;
    rewrite ?W by lia; cbn [List.length];
    (split; [lia|split; [subst length; lia|]]); intros Hs Hr; try discriminate;
    subst reportedLength; rewrite E1, ?E2; reflexivity.
Qed.

Lemma formatMessage_size_witness :
  snd (Framer.formatMessage false true 0x3D21FA37 [0x48; 0x65; 0x6C; 0x6C; 0x6F]
         1 5 false true) = 11
  /\ snd (Framer.formatMessage true true 0 [0x48; 0x65; 0x6C; 0x6C; 0x6F]
            1 5 false true) = Framer.messageFrameSize 5.
Proof.
  split.
  - refine (proj1 (formatMessage_size false true 0x3D21FA37
                     [0x48; 0x65; 0x6C; 0x6C; 0x6F] 1 5 false true _)).
    cbn. lia.
  - refine (proj2 (proj2 (formatMessage_size true true 0
                     [0x48; 0x65; 0x6C; 0x6C; 0x6F] 1 5 false true _)) _ _).
    + cbn. lia.
    + reflexivity.
    + reflexivity.
Defined.

(* ===================================================================== *)
(** * The parser on concrete streams *)
(* ===================================================================== *)

Module Scenarios.
Import Parser.

(** A handler that accepts every payload length, has not negotiated
    compression and never asks the parser to stop. *)
#[local] Instance accept_all : Impl unit := {|
  refusePayloadLength := fun _ _ u => (false, u);
  setCompressed := fun _ u => (false, u);
  handleFragment := fun _ _ _ _ _ _ u => (false, u);
  forceClose := fun _ u _ => u
|}.

(** What a trace shows of each call: the fragment's bytes, opcode and FIN
    flag, the remaining byte count, or the reason of a [forceClose]. *)
Inductive seen : Type :=
| SFragment (data : list Z) (remaining opCode : Z) (fin : bool)
| SClose (reason : String.string).

Definition view (e : event) : seen :=
  match e with
  | Fragment data _ remaining opc fin _ _ => SFragment data remaining opc fin
  | ForceClose _ reason => SClose reason
  end.

Definition run_client (le : bool) (L : Z) (fuel : nat) (junk : mem)
  (chunks : list (list Z)) : option (WebSocketState * list seen) :=
  match feed false le L fuel junk chunks (fresh false) tt [] with
  | Some (ws, _, tr) => Some (ws, map view tr)
  | None => None
  end.

Definition OP_TEXT : Z := 1.
Definition OP_BINARY : Z := 2.
Definition OP_CONTINUATION : Z := 0.
Definition OP_PING : Z := 9.

Definition hello : list Z := [0x48; 0x65; 0x6C; 0x6C; 0x6F].

(** C5, as stated, fails: the second call does not carry the opcode
    Continuation. *)
Lemma fragmented_text_counterexample :
  ~ (exists ws d1 r1 d2 r2,
       run_client true 524288 2 (fun _ => 0)
         [[0x01; 0x03; 0x48; 0x65; 0x6C]; [0x80; 0x02; 0x6C; 0x6F]]
       = Some (ws, [SFragment d1 r1 OP_TEXT false;
                    SFragment d2 r2 OP_CONTINUATION true])
       /\ d1 ++ d2 = hello /\ opStack ws = -1).
Proof.
  intros (ws & d1 & r1 & d2 & r2 & H & _).
  vm_compute in H. discriminate H.
Qed.

(** C5, amended.  On the client side, from a fresh state, the reads
    [01 03 48 65 6C] and [80 02 6C 6F] give exactly two calls of
    [handleFragment]: the first with FIN = 0, the second with FIN = 1, both
    with the opcode Text of the message in progress (the parser hands over
    [opCode[opStack]], not the opcode of the Continuation frame); the
    payloads concatenate to "Hello" and [opStack] is -1 afterwards. *)
Theorem fragmented_text (le : bool) (L : Z) (fuel : nat) (junk : mem) :
  exists ws,
    run_client le L (S (S fuel)) junk
      [[0x01; 0x03; 0x48; 0x65; 0x6C]; [0x80; 0x02; 0x6C; 0x6F]]
    = Some (ws, [SFragment [0x48; 0x65; 0x6C] 0 OP_TEXT false;
                 SFragment [0x6C; 0x6F] 0 OP_TEXT true])
    /\ [0x48; 0x65; 0x6C] ++ [0x6C; 0x6F] = hello
    /\ opStack ws = -1.
Proof.
  eexists. split; [vm_compute; reflexivity|]. split; reflexivity.
Qed.

(** C3, at the failing input.  After the unfinished Text frame [01 01 41]
    the state has [lastFin = false]; the Binary frame [82 01 42] that
    follows is handed to [handleFragment] and no [forceClose] is made. *)
Theorem binary_while_unfinished (le : bool) (L : Z) (fuel : nat) (junk : mem) :
  exists ws1 c,
    feed false le L (S (S fuel)) junk [[0x01; 0x01; 0x41]] (fresh false) tt []
    = Some (ws1, tt, [Fragment [0x41] 1 0 OP_TEXT false
                        (set_opCode [1; 0] (set_lastFin false
                           (set_opStack 0 (fresh false)))) false])
    /\ lastFin ws1 = false
    /\ receive false le L (S (S fuel)) junk [0x82; 0x01; 0x42] ws1 tt = Some c
    /\ map view (ctrace c) = [SFragment [0x42] 0 OP_BINARY true].
Proof.
  eexists. eexists. split; [vm_compute; reflexivity|].
  split; [reflexivity|]. split; [vm_compute; reflexivity|]. reflexivity.
Qed.

(** C4, as stated, fails: a Ping whose body is cut by the read, inside a
    fragmented message, leaves [opStack = 1] when [consume] returns. *)
Lemma opStack_bounds_counterexample :
  ~ (forall chunks ws tr,
       run_client true 524288 2 (fun _ => 0) chunks = Some (ws, tr) ->
       opStack ws = -1 \/ opStack ws = 0).
Proof.
  intros H.
  assert (E : exists ws tr,
             run_client true 524288 2 (fun _ => 0)
               [[0x01; 0x01; 0x41]; [0x89; 0x02; 0x42]] = Some (ws, tr)
             /\ opStack ws = 1).
  { eexists. eexists. split; [vm_compute; reflexivity|reflexivity]. }
  destruct E as (ws & tr & E & E1).
  apply H in E. lia.
Qed.

End Scenarios.

(* ===================================================================== *)
(** * The header is recorded before the length is refused *)
(* ===================================================================== *)

Module Refusal.
Import Parser.

Lemma sw2_small (x : Z) : -2 <= x <= 1 -> sw2 x = x.
Proof. intros H. unfold sw2. Z.div_mod_to_equations. lia. Qed.

Lemma nth_set_nth_same (l : list Z) (n : nat) (v : Z) :
  (n < length l)%nat -> nth n (set_nth l n v) 0 = v.
Proof.
  revert n. induction l as [|x l IH]; intros [|n] Hn; cbn [length set_nth nth] in *;
    try lia. apply IH. lia.
Qed.

Lemma get_set_same (l : list Z) (i v : Z) :
  0 <= i < Z.of_nat (length l) -> get (set l i v) i = v.
Proof.
  intros Hi. unfold get, set.
  destruct (Z.ltb_spec i 0); [lia|]. apply nth_set_nth_same. lia.
Qed.

(** C9.  When the protocol checks of [consumeMessage] pass and
    [refusePayloadLength] rejects the frame, [forceClose] is called with
    [ERR_TOO_BIG_MESSAGE] on a state that already records the header:
    [lastFin] is the frame's FIN bit and, for a frame that is not a
    Continuation, [opStack] is one higher with the opcode stored at that
    level.  That state is the one [consumeMessage] leaves behind. *)
Theorem refused_frame_is_recorded {U : Type} {I : Impl U} (isServer le : bool)
  (MESSAGE_HEADER Tbits payLength : Z) (c : ctx U) :
  let w := cws c in
  let op := getOpCode (cm c) (csrc c) in
  length (opCode w) = 2%nat ->
  -1 <= opStack w <= 1 ->
  (if op =? 0 then opStack w <> -1
   else opStack w <> 1 /\ (lastFin w = true \/ 2 <= op)) ->
  (forall w' u, fst (refusePayloadLength payLength w' u) = true) ->
  exists c' before,
    consumeMessage isServer le MESSAGE_HEADER Tbits payLength c = (true, c')
    /\ ctrace c' = ctrace c ++ [ForceClose before Err.ERR_TOO_BIG_MESSAGE]
    /\ cws c' = before
    /\ lastFin before = isFin (cm c) (csrc c)
    /\ (op <> 0 -> opStack before = opStack w + 1 /\ cur_opCode before = op)
    /\ (op = 0 -> opStack before = opStack w).
Proof.
  intros w op Hlen Hrange Hchk Hrefuse. subst w. unfold consumeMessage, check_opCode. fold op.
  destruct (Z.eqb_spec op 0) as [E|E]; cbn [negb].
  - destruct (Z.eqb_spec (opStack (cws c)) (-1)) as [E1|E1]; [contradiction|].
    match goal with
    | |- context [refusePayloadLength ?n ?s ?u] =>
        pose proof (Hrefuse s u) as Hr;
        destruct (refusePayloadLength n s u) as [r u']
    end.
    cbn [fst] in Hr. subst r.
    eexists. eexists. split; [reflexivity|].
    cbn. repeat split; try reflexivity; intros; congruence.
  - destruct Hchk as [H1 H2].
    destruct (Z.eqb_spec (opStack (cws c)) 1) as [E1|E1]; [contradiction|].
    replace (negb (lastFin (cws c)) && (op <? 2)) with false.
    2: { destruct H2 as [-> | H2]; [reflexivity|].
         destruct (Z.ltb_spec op 2); [lia|]. symmetry. apply andb_false_r. }
    cbn [orb].
    match goal with
    | |- context [refusePayloadLength ?n ?s ?u] =>
        pose proof (Hrefuse s u) as Hr;
        destruct (refusePayloadLength n s u) as [r u']
    end.
    cbn [fst] in Hr. subst r.
    eexists. eexists. split; [reflexivity|].
    cbn. rewrite sw2_small by lia.
    repeat split; try reflexivity; intros; try congruence.
    unfold cur_opCode. cbn. apply get_set_same. lia.
Qed.

(** A handler that refuses every payload length. *)
#[local] Instance refuse_all : Impl unit := {|
  refusePayloadLength := fun _ _ u => (true, u);
  setCompressed := fun _ u => (false, u);
  handleFragment := fun _ _ _ _ _ _ u => (false, u);
  forceClose := fun _ u _ => u
|}.

Lemma refused_frame_is_recorded_witness :
  exists c' before,
    consumeMessage (I := refuse_all) false true 2 8 5
      (mkCtx (recv_buffer (fun _ => 0) [0x01; 0x05; 0x48; 0x65; 0x6C; 0x6C; 0x6F])
         0 7 (fresh false) tt []) = (true, c')
    /\ ctrace c' = [] ++ [ForceClose before Err.ERR_TOO_BIG_MESSAGE]
    /\ cws c' = before
    /\ lastFin before = false
    /\ (1 <> 0 -> opStack before = -1 + 1 /\ cur_opCode before = 1)
    /\ (1 = 0 -> opStack before = -1).
Proof.
  refine (refused_frame_is_recorded (I := refuse_all) false true 2 8 5
            (mkCtx (recv_buffer (fun _ => 0)
                      [0x01; 0x05; 0x48; 0x65; 0x6C; 0x6C; 0x6F])
               0 7 (fresh false) tt []) _ _ _ _).
  - reflexivity.
  - cbn. lia.
  - cbn. split; [lia|left; reflexivity].
  - intros. reflexivity.
Defined.

End Refusal.

(* ===================================================================== *)
(** * Moving an [any_invocable] *)
(* ===================================================================== *)

Module MoveFacts.
Import MoveOnly.

Ltac eqb_cases :=
  repeat match goal with
         | |- context [Nat.eqb ?a ?b] => destruct (Nat.eqb_spec a b); try lia
         end.

(** The handler and the storage agree: [small_handler] with a callable in
    the buffer, [large_handler] with a pointer. *)
Definition typed {T : Type} (h : handler) (s : storage T) : Prop :=
  match h, s with
  | small_handler, InBuf _ => True
  | large_handler, Ptr _ => True
  | _, _ => False
  end.

Section Steps.

Context {T : Type}.
Implicit Types w : world T.

(** What a move by [handle] leaves unchanged. *)
Definition frame w w' (cur other : nat) : Prop :=
  (forall x, x <> cur -> x <> other -> storage_ w' x = storage_ w x)
  /\ handle_ w' = handle_ w /\ call_ w' = call_ w /\ heap w' = heap w
  /\ next w' = next w.

Lemma handle_move_typed w (h : handler) (cur other : nat) (s : storage T) :
  cur <> other -> storage_ w other = s -> typed h s ->
  storage_ (handle T h move_ cur other w) cur = s
  /\ frame w (handle T h move_ cur other w) cur other.
Proof.
  intros Hne Hs Ht. unfold frame.
  destruct h, s; try contradiction; cbn [handle]; rewrite ?Hs;
    unfold set_storage, upd; cbn; rewrite ?Nat.eqb_refl; eqb_cases;
    repeat split; auto; intros; eqb_cases; reflexivity.
Qed.

Lemma handle_move_any w (h : handler) (cur other : nat) :
  cur <> other ->
  (h = large_handler ->
   storage_ (handle T h move_ cur other w) cur = storage_ w other)
  /\ frame w (handle T h move_ cur other w) cur other.
Proof.
  intros Hne. unfold frame.
  destruct h; cbn [handle]; [destruct (storage_ w other)|];
    unfold set_storage, upd; cbn; rewrite ?Nat.eqb_refl; eqb_cases;
    repeat split; auto; intros; eqb_cases; try reflexivity; discriminate.
Qed.

Lemma move_construct_spec w (this rhs : nat) (h : handler) (s : storage T) :
  this <> rhs ->
  handle_ w rhs = Some h -> storage_ w rhs = s -> typed h s ->
  let w' := move_construct this rhs w in
  handle_ w' rhs = None /\ handle_ w' this = Some h /\ storage_ w' this = s
  /\ heap w' = heap w /\ next w' = next w
  /\ (forall x, x <> this -> x <> rhs ->
      handle_ w' x = handle_ w x /\ storage_ w' x = storage_ w x).
Proof.
  intros Hne Hh Hs Ht. unfold move_construct. rewrite Hh.
  set (w1 := set_handle T w this (Some h)).
  destruct (handle_move_typed w1 h this rhs s Hne Hs Ht)
    as (E1 & E2 & E3 & E4 & E5 & E6).
  set (w2 := handle T h move_ this rhs w1) in *. clearbody w2.
  unfold set_handle, set_call, upd; cbn. rewrite E1, E3, E5, E6.
  subst w1. unfold set_handle, upd; cbn. rewrite ?Nat.eqb_refl. eqb_cases.
  repeat split; auto; intros; eqb_cases; auto.
Qed.

Lemma swap_into_empty_spec w (a b : nat) (h : handler) (s : storage T) :
  a <> b ->
  handle_ w b = Some h -> storage_ w b = s -> typed h s ->
  let w' := swap_into_empty T a b w in
  handle_ w' a = Some h /\ storage_ w' a = s /\ heap w' = heap w
  /\ handle_ w' b = None
  /\ (forall x, x <> a -> x <> b -> handle_ w' x = handle_ w x).
Proof.
  intros Hne Hh Hs Ht. unfold swap_into_empty. rewrite Hh.
  destruct (handle_move_typed w h a b s Hne Hs Ht)
    as (E1 & E2 & E3 & E4 & E5 & E6).
  set (w1 := handle T h move_ a b w) in *. clearbody w1.
  unfold set_handle, set_call, upd; cbn. rewrite E1, E3, E5.
  rewrite ?Nat.eqb_refl. eqb_cases.
  repeat split; auto; intros; eqb_cases; auto.
Qed.

(** The branch of [swap] with both objects holding a callable. *)
Lemma swap_both_spec w (a b : nat) (h hb : handler) (s : storage T) :
  a <> b -> (a < next w)%nat -> (b < next w)%nat ->
  handle_ w a = Some h -> storage_ w a = s -> typed h s ->
  handle_ w b = Some hb ->
  let w' := swap a b w in
  handle_ w' b = Some h /\ storage_ w' b = s /\ heap w' = heap w
  /\ handle_ w' a = Some hb
  /\ (hb = large_handler -> storage_ w' a = storage_ w b)
  /\ (forall x, (x < next w)%nat -> x <> a -> x <> b -> handle_ w' x = handle_ w x).
Proof.
  intros Hne Ha Hb Hh Hs Ht Hhb. unfold swap. rewrite Hh, Hhb.
  cbn [alloc]. set (tmp := next w).
  set (w1 := mkWorld (upd (storage_ w) tmp Raw) (upd (handle_ w) tmp None)
               (upd (call_ w) tmp None) (heap w) (S tmp)).
  assert (Hta : tmp <> a) by (subst tmp; lia).
  assert (Htb : tmp <> b) by (subst tmp; lia).
  assert (S1a : storage_ w1 a = s)
    by (subst w1; unfold upd; cbn; eqb_cases; assumption).
  assert (S1b : storage_ w1 b = storage_ w b)
    by (subst w1; unfold upd; cbn; eqb_cases; reflexivity).
  assert (H1 : forall x, x <> tmp -> handle_ w1 x = handle_ w x)
    by (intros x Hx; subst w1; unfold upd; cbn; eqb_cases; reflexivity).
  assert (P1 : heap w1 = heap w) by reflexivity.
  clearbody w1.
  destruct (handle_move_typed w1 h tmp a s Hta S1a Ht)
    as (E2 & F2 & G2 & C2 & P2 & N2).
  set (w2 := handle T h move_ tmp a w1) in *. clearbody w2.
  destruct (handle_move_any w2 hb a b Hne) as (E3 & F3 & G3 & C3 & P3 & N3).
  set (w3 := handle T hb move_ a b w2) in *. clearbody w3.
  assert (S3t : storage_ w3 tmp = s) by (rewrite F3 by lia; exact E2).
  assert (Hbt : b <> tmp) by lia.
  destruct (handle_move_typed w3 h b tmp s Hbt S3t Ht)
    as (E4 & F4 & G4 & C4 & P4 & N4).
  set (w4 := handle T h move_ b tmp w3) in *. clearbody w4.
  unfold set_handle, set_call, upd; cbn.
  rewrite G4, G3, G2, P4, P3, P2, P1, E4.
  rewrite ?Nat.eqb_refl. eqb_cases. rewrite !H1 by lia.
  repeat split; auto.
  - intros ->. rewrite F4 by lia. rewrite E3 by reflexivity.
    rewrite F2 by lia. exact S1b.
  - intros x Hx Hxa Hxb. eqb_cases. apply H1. lia.
Qed.

Lemma destroy_spec w (a : nat) :
  let w' := destroy a w in
  (forall x, x <> a -> handle_ w' x = handle_ w x /\ storage_ w' x = storage_ w x)
  /\ (forall p, ~ (handle_ w a = Some large_handler /\ storage_ w a = Ptr p) ->
      heap w' p = heap w p).
Proof.
  unfold destroy.
  destruct (handle_ w a) as [[|]|] eqn:Eh;
    [| destruct (storage_ w a) as [|v|q] eqn:Es |];
    unfold handle, set_handle, set_storage, free, upd; cbn; rewrite ?Es; cbn;
    split; intros; eqb_cases; auto.
  subst. exfalso. apply H. auto.
Qed.

Lemma target_inv w (a : nat) (v : T) :
  target w a = Some v ->
  exists h s, handle_ w a = Some h /\ storage_ w a = s /\ typed h s
              /\ match s with
                 | InBuf v' => v' = v
                 | Ptr p => heap w p = Some v
                 | Raw => False
                 end.
Proof.
  unfold target. destruct (handle_ w a) as [[|]|]; [| |discriminate];
    destruct (storage_ w a) as [|v'|p]; try discriminate; intros H;
    eexists; eexists; repeat split; try exact I; congruence.
Qed.

Lemma alloc_spec w :
  fst (alloc T w) = next w
  /\ next (snd (alloc T w)) = S (next w)
  /\ heap (snd (alloc T w)) = heap w
  /\ handle_ (snd (alloc T w)) (next w) = None
  /\ (forall x, x <> next w ->
      handle_ (snd (alloc T w)) x = handle_ w x
      /\ storage_ (snd (alloc T w)) x = storage_ w x).
Proof.
  unfold alloc, upd; cbn. rewrite Nat.eqb_refl.
  repeat split; auto; eqb_cases; reflexivity.
Qed.

End Steps.

(** One object at address 0 holding the small callable 7. *)
Definition one_small : world Z :=
  mkWorld (fun _ => InBuf 7) (fun _ => Some small_handler)
    (fun _ => Some small_handler) (fun _ => None) 1%nat.

(** C10, as stated, fails for [f = std::move(f)]: the source is the target
    and still holds its callable. *)
Lemma move_assign_counterexample :
  ~ (forall (w : world Z) (this rhs : nat),
       (this < next w)%nat -> (rhs < next w)%nat ->
       operator_bool w rhs = true ->
       operator_bool (move_assign this rhs w) rhs = false).
Proof.
  intros H. specialize (H one_small 0%nat 0%nat).
  assert (E : operator_bool (move_assign 0 0 one_small) 0 = true)
    by (vm_compute; reflexivity).
  rewrite H in E; [discriminate E|cbn; lia|cbn; lia|reflexivity].
Qed.

(** C10, amended.  Moving from a source that holds a callable leaves the
    source empty ([operator bool] false, equal to [nullptr]) and the target
    holding that callable: for move-assignment when the source is an object
    other than the target (and, as ownership has it, the two do not share a
    heap callable), and for move-construction, whose target is a new
    object.  Move-assignment of an object to itself leaves it holding its
    callable, in the buffer or on the heap: it is not empty afterwards. *)
Theorem move_empties_source {T : Type} (w : world T) (this rhs : nat) (v : T) :
  (this < next w)%nat -> (rhs < next w)%nat ->
  target w rhs = Some v ->
  (this <> rhs -> unshared w this rhs ->
   let w' := move_assign this rhs w in
   operator_bool w' rhs = false
   /\ eq_nullptr w' rhs = true
   /\ target w' this = Some v)
  /\ (let nw := move_new rhs w in
      operator_bool (snd nw) rhs = false
      /\ eq_nullptr (snd nw) rhs = true
      /\ target (snd nw) (fst nw) = Some v)
  /\ (let w' := move_assign rhs rhs w in
      operator_bool w' rhs = true
      /\ eq_nullptr w' rhs = false
      /\ target w' rhs = Some v).
Proof.
  intros Ht Hr Hv.
  destruct (target_inv w rhs v Hv) as (h & s & Hh & Hs & Hty & Hval).
  destruct (alloc_spec w) as (A1 & A2 & A3 & A4 & A5).
  unfold move_assign, move_new.
  destruct (alloc T w) as [tmp w1]. cbn [fst snd] in *. subst tmp.
  set (tmp := next w) in *.
  assert (Htr : tmp <> rhs) by (subst tmp; lia).
  assert (Htt : tmp <> this) by (subst tmp; lia).
  destruct (A5 rhs ltac:(lia)) as [A5h A5s].
  destruct (A5 this ltac:(lia)) as [A5h' A5s'].
  destruct (move_construct_spec w1 tmp rhs h s Htr
              ltac:(congruence) ltac:(congruence) Hty)
    as (M1 & M2 & M3 & M4 & M5 & M6).
  set (w2 := move_construct tmp rhs w1) in *. clearbody w2.
  assert (Hfinal : forall w' a, handle_ w' a = Some h -> storage_ w' a = s ->
                                heap w' = heap w -> target w' a = Some v).
  { intros w' a E1 E2 E3. unfold target. rewrite E1, E2.
    destruct h, s; try contradiction; [congruence|]. rewrite E3. exact Hval. }
  split; [|split].
  2: { cbn [fst snd]. unfold eq_nullptr, operator_bool. rewrite M1.
       repeat split; auto. apply Hfinal; congruence. }
  2: { cbv zeta. unfold swap. rewrite M2, M1.
       destruct (swap_into_empty_spec w2 rhs tmp h s ltac:(lia) M2 M3 Hty)
         as (S1 & S2 & S3 & S4 & S5).
       set (w3 := swap_into_empty T rhs tmp w2) in *. clearbody w3.
       unfold destroy. rewrite S4.
       unfold eq_nullptr, operator_bool. rewrite S1.
       repeat split; auto. apply Hfinal; congruence. }
  intros Hne Hun.
  destruct (M6 this ltac:(lia) ltac:(lia)) as [M6h M6s].
  assert (W3 : exists w3, swap tmp this w2 = w3
                 /\ handle_ w3 this = Some h /\ storage_ w3 this = s
                 /\ heap w3 = heap w2 /\ handle_ w3 rhs = None
                 /\ (forall p, handle_ w3 tmp = Some large_handler ->
                               storage_ w3 tmp = Ptr p ->
                               handle_ w this = Some large_handler
                               /\ storage_ w this = Ptr p)).
  { eexists. split; [reflexivity|].
    destruct (handle_ w2 this) as [hb|] eqn:Ehb.
    - destruct (swap_both_spec w2 tmp this h hb s Htt
                  ltac:(lia) ltac:(lia) M2 M3 Hty Ehb)
        as (S1 & S2 & S3 & S4 & S5 & S6).
      repeat split; auto.
      + rewrite S6 by lia. exact M1.
      + rewrite S4 in H. injection H as ->. congruence.
      + rewrite S4 in H. injection H as ->.
        rewrite S5 in H0 by reflexivity. congruence.
    - unfold swap. rewrite M2, Ehb.
      destruct (swap_into_empty_spec w2 this tmp h s ltac:(lia) M2 M3 Hty)
        as (S1 & S2 & S3 & S4 & S5).
      repeat split; auto.
      + rewrite S5 by lia. exact M1.
      + congruence.
      + congruence. }
  destruct W3 as (w3 & -> & Q1 & Q2 & Q3 & Q4 & Q5).
  destruct (destroy_spec w3 tmp) as [D1 D2].
  set (w4 := destroy tmp w3) in *. clearbody w4.
  destruct (D1 rhs ltac:(lia)) as [D1h _].
  destruct (D1 this ltac:(lia)) as [D1h' D1s'].
  unfold eq_nullptr, operator_bool. rewrite D1h, Q4.
  repeat split; auto.
  unfold target. rewrite D1h', D1s', Q1, Q2.
  destruct h, s; try contradiction; [congruence|].
  rewrite D2.
  - rewrite Q3, M4, A3. exact Hval.
  - intros [E1 E2]. destruct (Q5 p E1 E2) as [E3 E4].
    apply (Hun p); unfold owns; [rewrite E3, E4|rewrite Hh, Hs]; reflexivity.
Qed.

Lemma move_empties_source_witness :
  operator_bool
    (move_assign 1 0
       (mkWorld
          (fun a => if Nat.eqb a 0 then Ptr 5 else InBuf 7)
          (fun a => if Nat.eqb a 0 then Some large_handler else Some small_handler)
          (fun a => if Nat.eqb a 0 then Some large_handler else Some small_handler)
          (fun p => if Nat.eqb p 5 then Some 9 else None) 2%nat)) 0 = false
  /\ target
       (move_assign 1 0
          (mkWorld
             (fun a => if Nat.eqb a 0 then Ptr 5 else InBuf 7)
             (fun a => if Nat.eqb a 0 then Some large_handler else Some small_handler)
             (fun a => if Nat.eqb a 0 then Some large_handler else Some small_handler)
             (fun p => if Nat.eqb p 5 then Some 9 else None) 2%nat)) 1 = Some 9
  /\ target
       (move_assign 0 0
          (mkWorld
             (fun a => if Nat.eqb a 0 then Ptr 5 else InBuf 7)
             (fun a => if Nat.eqb a 0 then Some large_handler else Some small_handler)
             (fun a => if Nat.eqb a 0 then Some large_handler else Some small_handler)
             (fun p => if Nat.eqb p 5 then Some 9 else None) 2%nat)) 0 = Some 9.
Proof.
  set (w := mkWorld _ _ _ _ _).
  assert (Hu : unshared w 1 0) by (intros p H1 H0; discriminate H1).
  destruct (move_empties_source w 1%nat 0%nat 9
              ltac:(cbn; lia) ltac:(cbn; lia) eq_refl)
    as (A & _ & (_ & _ & S3)).
  destruct (A ltac:(discriminate) Hu) as (H1 & _ & H2).
  split; [exact H1|]. split; [exact H2|exact S3].
Defined.

End MoveFacts.

(* ===================================================================== *)
(** * The bounds of [opStack] *)
(* ===================================================================== *)

Module OpStack.
Import Parser.

(** Reduce the record of the state and of the running [consume], and
    nothing else. *)
Ltac ws_simpl :=
  cbn [opStack wantsHead spillLength lastFin spill opCode remainingBytes mask
       set_wantsHead set_spillLength set_opStack set_lastFin set_spill
       set_opCode set_remainingBytes set_mask cm csrc clen cws cuser ctrace
       with_ws with_mem with_user advance pop call_forceClose fst snd] in *.

(** Split a running [consume] into its variables and the fields of the
    state. *)
Ltac open_ctx c :=
  let m := fresh "m" in let src := fresh "src" in let len := fresh "len" in
  let u := fresh "u" in let tr := fresh "tr" in
  let wh := fresh "wh" in let sl := fresh "sl" in let os := fresh "os" in
  let lf := fresh "lf" in let sp := fresh "sp" in let oc := fresh "oc" in
  let rb := fresh "rb" in let mk := fresh "mk" in
  destruct c as [m src len [wh sl os lf sp oc rb mk] u tr]; ws_simpl.

Section Bounds.

Context {U : Type} {I : Impl U}.
Variables (isServer le : bool) (L : Z).

(** [opStack] stays in its three values, and is not -1 while a frame body
    is awaited. *)
Definition inv (w : WebSocketState) : Prop :=
  -1 <= opStack w <= 1 /\ (wantsHead w = false -> 0 <= opStack w).

Definition at_head (w : WebSocketState) : Prop :=
  -1 <= opStack w <= 1 /\ wantsHead w = true.

Definition in_frame (w : WebSocketState) : Prop :=
  0 <= opStack w <= 1 /\ wantsHead w = true.

Lemma sw2_id (x : Z) : -2 <= x <= 1 -> sw2 x = x.
Proof. intros H. unfold sw2. Z.div_mod_to_equations. lia. Qed.

Lemma at_head_inv (w : WebSocketState) : at_head w -> inv w.
Proof. intros [H1 H2]. split; [assumption|congruence]. Qed.

Lemma call_handleFragment_eq (c : ctx U) (d l r o : Z) (f : bool) :
  exists stop u',
    call_handleFragment c d l r o f
    = (stop, mkCtx (cm c) (csrc c) (clen c) (cws c) u'
               (ctrace c ++ [Fragment (load (cm c) d (Z.to_nat l)) l r o f
                               (cws c) stop])).
Proof.
  unfold call_handleFragment.
  destruct (handleFragment _ _ _ _ _ _ _) as [stop u']. eauto.
Qed.

Lemma check_opCode_inv (c c' : ctx U) :
  at_head (cws c) -> check_opCode c = Some c' -> in_frame (cws c').
Proof.
  intros [Hr Hw]. unfold check_opCode. open_ctx c.
  destruct (negb (getOpCode m src =? 0)).
  - destruct (Z.eqb_spec os 1); cbn [orb]; [discriminate|].
    destruct (negb lf && _); [discriminate|].
    intros [= <-]. unfold in_frame. ws_simpl. rewrite sw2_id by lia.
    split; [lia|assumption].
  - destruct (Z.eqb_spec os (-1)); [discriminate|].
    intros [= <-]. split; ws_simpl; [lia|assumption].
Qed.

Ltac split_call :=
  match goal with
  | |- context [call_handleFragment ?cc ?d ?l ?r ?o ?f] =>
      let stop := fresh "stop" in
      let u' := fresh "u'" in
      destruct (call_handleFragment_eq cc d l r o f) as (stop & u' & ->)
  end.

Lemma whole_frame_inv (H n total : Z) (c : ctx U) :
  in_frame (cws c) ->
  let r := whole_frame isServer le H n total c in
  if fst r then inv (cws (snd r)) else at_head (cws (snd r)).
Proof.
  intros [Hr Hw]. unfold whole_frame. open_ctx c.
  destruct isServer; split_call; destruct stop; ws_simpl;
    try (split; ws_simpl; [lia|congruence]);
    destruct (isFin m src); unfold at_head; ws_simpl;
    rewrite ?sw2_id by lia; split; auto; lia.
Qed.

Lemma partial_frame_inv (H n : Z) (c : ctx U) :
  in_frame (cws c) ->
  let r := partial_frame isServer le H n c in
  inv (cws (snd r)).
Proof.
  intros [Hr Hw]. unfold partial_frame. open_ctx c.
  destruct isServer; split_call; unfold inv; ws_simpl; split; intros; lia.
Qed.

Lemma partial_frame_true (H n : Z) (c : ctx U) :
  fst (partial_frame isServer le H n c) = true.
Proof. unfold partial_frame. split_call. reflexivity. Qed.

Lemma consumeMessage_inv (H T n : Z) (c : ctx U) :
  at_head (cws c) ->
  let r := consumeMessage isServer le H T n c in
  if fst r then inv (cws (snd r)) else at_head (cws (snd r)).
Proof.
  intros Hc. unfold consumeMessage.
  destruct (check_opCode c) as [c1|] eqn:E1.
  - apply check_opCode_inv in E1; [|assumption].
    destruct (refusePayloadLength _ _ _) as [rf u'].
    destruct rf.
    + destruct E1. open_ctx c1. split; ws_simpl; [lia|congruence].
    + match goal with
      | |- context [if ?a <=? ?b then whole_frame _ _ _ _ _ _ else _] =>
          destruct (a <=? b)
      end.
      * apply whole_frame_inv. destruct E1. open_ctx c1. split; assumption.
      * rewrite partial_frame_true. apply partial_frame_inv.
        destruct E1. open_ctx c1. split; assumption.
  - ws_simpl. apply at_head_inv. exact Hc.
Qed.

Lemma spill_rest_inv (c : ctx U) : inv (cws c) -> inv (cws (spill_rest c)).
Proof.
  unfold spill_rest. destruct (negb (clen c =? 0)); [|auto]. intros H. exact H.
Qed.

Lemma invalid_header_ws (c : ctx U) :
  cws (snd (invalid_header c)) = cws c.
Proof.
  unfold invalid_header. destruct (rsv1 (cm c) (csrc c)); [|reflexivity].
  destruct (setCompressed _ _). reflexivity.
Qed.

Lemma parseNext_inv (fuel : nat) (c c' : ctx U) :
  at_head (cws c) -> parseNext isServer le fuel c = Some c' -> inv (cws c').
Proof.
  revert c. induction fuel as [|fuel IH]; intros c Hc; [discriminate|].
  cbn [parseNext].
  assert (Hsp : forall x, cws x = cws c -> Some (spill_rest x) = Some c' ->
                          inv (cws c')).
  { intros x Hx [= <-]. apply spill_rest_inv. rewrite Hx.
    apply at_head_inv. exact Hc. }
  assert (Hcm : forall H T n x, cws x = cws c ->
            (let '(ret, c0) := consumeMessage isServer le H T n x in
             if ret then Some c0 else parseNext isServer le fuel c0) = Some c' ->
            inv (cws c')).
  { intros H T n x Hx.
    assert (Hx' : at_head (cws x)) by (rewrite Hx; exact Hc).
    pose proof (consumeMessage_inv H T n x Hx') as Hm. cbv zeta in Hm.
    destruct (consumeMessage isServer le H T n x) as [ret c0]. cbn [fst snd] in Hm.
    destruct ret.
    - intros [= <-]. exact Hm.
    - apply IH. exact Hm. }
  destruct (SHORT_MESSAGE_HEADER isServer <=? clen c); [|apply Hsp; reflexivity].
  pose proof (invalid_header_ws c) as Hih.
  destruct (invalid_header c) as [bad c1]. cbn [snd] in Hih.
  destruct bad.
  { intros [= <-]. unfold call_forceClose. ws_simpl. rewrite Hih.
    apply at_head_inv. exact Hc. }
  destruct (payloadLength (cm c1) (csrc c1) <? 126); [apply Hcm; exact Hih|].
  destruct (payloadLength (cm c1) (csrc c1) =? 126).
  - destruct (clen c1 <? MEDIUM_MESSAGE_HEADER isServer);
      [apply Hsp; exact Hih|apply Hcm; exact Hih].
  - destruct (clen c1 <? LONG_MESSAGE_HEADER isServer);
      [apply Hsp; exact Hih|apply Hcm; exact Hih].
Qed.

Lemma consumeContinuation_inv (c : ctx U) :
  inv (cws c) -> wantsHead (cws c) = false ->
  let r := consumeContinuation isServer L c in
  if fst r then at_head (cws (snd r)) else inv (cws (snd r)).
Proof.
  intros [Hr Hp] Hw. specialize (Hp Hw). unfold consumeContinuation.
  open_ctx c. destruct (rb <=? len).
  - unfold body_end. ws_simpl.
    destruct isServer; split_call; destruct stop; ws_simpl;
      try (split; ws_simpl; intros; lia);
      destruct lf; unfold at_head; ws_simpl;
      rewrite ?sw2_id by lia; split; auto; lia.
  - unfold body_more. ws_simpl.
    destruct isServer; cbn [andb];
      repeat match goal with
             | |- context [if ?b then _ else _] =>
                 lazymatch b with
                 | context [call_handleFragment] => fail
                 | _ => destruct b
                 end
             end;
      split_call; destruct stop; ws_simpl;
      repeat match goal with
             | |- context [if ?b then _ else _] => destruct b
             end;
      unfold inv; ws_simpl; split; intros; lia.
Qed.

Lemma consume_inv (fuel : nat) (m : mem) (src len : Z) (ws : WebSocketState)
  (u : U) (c : ctx U) :
  inv ws -> consume isServer le L fuel m src len ws u = Some c -> inv (cws c).
Proof.
  intros Hi. unfold consume.
  set (c0 := if negb (spillLength ws =? 0) then _ else _).
  assert (H0 : cws c0 = ws) by (subst c0; destruct (negb _); reflexivity).
  clearbody c0. destruct (wantsHead ws) eqn:Ew.
  - apply parseNext_inv. rewrite H0. split; [apply Hi|exact Ew].
  - pose proof (consumeContinuation_inv c0) as Hc. rewrite H0 in Hc.
    specialize (Hc Hi Ew). cbv zeta in Hc.
    destruct (consumeContinuation isServer L c0) as [again c1].
    cbn [fst snd] in Hc. destruct again.
    + apply parseNext_inv. exact Hc.
    + intros [= <-]. exact Hc.
Qed.

Lemma feed_inv (fuel : nat) (junk : mem) (chunks : list (list Z))
  (ws : WebSocketState) (u : U) (tr : list event) ws' u' tr' :
  inv ws ->
  feed isServer le L fuel junk chunks ws u tr = Some (ws', u', tr') -> inv ws'.
Proof.
  revert ws u tr. induction chunks as [|chunk rest IH]; intros ws u tr Hi;
    cbn [feed].
  - intros [= <- _ _]. exact Hi.
  - unfold receive.
    destruct (consume isServer le L fuel _ 0 _ ws u) as [c|] eqn:Ec; [|discriminate].
    apply consume_inv in Ec; [|exact Hi].
    destruct (closed (ctrace c)).
    + intros [= <- _ _]. exact Ec.
    + apply IH. exact Ec.
Qed.

Lemma fresh_inv : inv (fresh isServer).
Proof. split; cbn; [lia|discriminate]. Qed.

End Bounds.

(** C4, amended.  From a fresh state, whatever the reads and the handler,
    every return of [consume] leaves [opStack] in {-1, 0, 1}.  The value 1
    is observable at a return: a control frame inside a fragmented message
    whose body is cut by the read sits at level 1 until its body has
    come. *)
Theorem opStack_bounds {U : Type} {I : Impl U} (isServer le : bool) (L : Z)
  (fuel : nat) (junk : mem) (chunks : list (list Z)) (u : U)
  (ws' : WebSocketState) (u' : U) (tr' : list event) :
  feed isServer le L fuel junk chunks (fresh isServer) u [] = Some (ws', u', tr') ->
  opStack ws' = -1 \/ opStack ws' = 0 \/ opStack ws' = 1.
Proof.
  intros H. apply feed_inv in H; [|apply fresh_inv].
  destruct H as [H _]. lia.
Qed.

Lemma opStack_bounds_witness :
  exists ws' tr',
    feed (I := Scenarios.accept_all) false true 524288 2 (fun _ => 0)
      [[0x01; 0x01; 0x41]; [0x89; 0x02; 0x42]] (fresh false) tt []
    = Some (ws', tt, tr')
    /\ opStack ws' = 1
    /\ (opStack ws' = -1 \/ opStack ws' = 0 \/ opStack ws' = 1).
Proof.
  eexists. eexists.
  assert (E : forall r, r = feed (I := Scenarios.accept_all) false true 524288 2
                            (fun _ => 0) [[0x01; 0x01; 0x41]; [0x89; 0x02; 0x42]]
                            (fresh false) tt [] ->
              feed (I := Scenarios.accept_all) false true 524288 2
                (fun _ => 0) [[0x01; 0x01; 0x41]; [0x89; 0x02; 0x42]]
                (fresh false) tt [] = r) by (intros; subst; reflexivity).
  specialize (E _ ltac:(vm_compute; reflexivity)).
  split; [exact E|]. split; [reflexivity|].
  exact (opStack_bounds (I := Scenarios.accept_all) false true 524288 2
           (fun _ => 0) _ tt _ tt _ E).
Defined.

End OpStack.

(* ===================================================================== *)
(** * Unmasking in memory *)
(* ===================================================================== *)

Module Unmask.
Import Parser Stream.

Definition all_bytes (m : mem) : Prop := forall a, is_byte (m a).

Lemma load_length (m : mem) (a : Z) (n : nat) : length (load m a n) = n.
Proof. unfold load. rewrite length_map, length_seq. reflexivity. Qed.

Lemma load_nth (m : mem) (a : Z) (n i : nat) :
  (i < n)%nat -> nth i (load m a n) 0 = m (a + Z.of_nat i).
Proof.
  intros Hi. unfold load.
  assert (G : forall (f : nat -> Z) n s i, (i < n)%nat ->
                nth i (map f (seq s n)) 0 = f (s + i)%nat).
  { clear. intros f n. induction n as [|n IH]; intros s i Hi; [lia|].
    cbn [seq map nth]. destruct i as [|i]; [f_equal; lia|].
    rewrite IH by lia. f_equal. lia. }
  rewrite G by assumption. reflexivity.
Qed.

Lemma load_bytes (m : mem) (a : Z) (n : nat) :
  all_bytes m -> Forall is_byte (load m a n).
Proof.
  intros Hm. unfold load. apply Forall_map, Forall_forall. intros; apply Hm.
Qed.

Lemma load_ext (m m' : mem) (a : Z) (n : nat) :
  (forall i, 0 <= i < Z.of_nat n -> m' (a + i) = m (a + i)) ->
  load m' a n = load m a n.
Proof.
  intros H. unfold load. apply map_ext_in. intros i Hi. apply in_seq in Hi.
  apply H. lia.
Qed.

Lemma upd_same (m : mem) (a v : Z) : upd m a v a = v.
Proof. unfold upd. rewrite Z.eqb_refl. reflexivity. Qed.

Lemma upd_other (m : mem) (a v x : Z) : x <> a -> upd m a v x = m x.
Proof. intros H. unfold upd. destruct (Z.eqb_spec x a); congruence. Qed.

Lemma store_out (bs : list Z) (m : mem) (a x : Z) :
  x < a \/ a + Z.of_nat (length bs) <= x -> store m a bs x = m x.
Proof.
  revert m a. induction bs as [|b t IH]; intros m a Hx; cbn [store length] in *;
    [reflexivity|].
  rewrite IH by lia. apply upd_other. lia.
Qed.

Lemma store_in (bs : list Z) (m : mem) (a : Z) (i : nat) :
  (i < length bs)%nat -> store m a bs (a + Z.of_nat i) = nth i bs 0.
Proof.
  revert m a i. induction bs as [|b t IH]; intros m a i Hi; cbn [store length] in *;
    [lia|].
  destruct i as [|i].
  - rewrite store_out by lia. rewrite Z.add_0_r. apply upd_same.
  - replace (a + Z.of_nat (S i)) with (a + 1 + Z.of_nat i) by lia.
    rewrite IH by lia. reflexivity.
Qed.

Lemma all_bytes_upd (m : mem) (a v : Z) :
  all_bytes m -> is_byte v -> all_bytes (upd m a v).
Proof.
  intros Hm Hv x. unfold upd. destruct (x =? a); [assumption|apply Hm].
Qed.

Lemma all_bytes_store (bs : list Z) (m : mem) (a : Z) :
  all_bytes m -> Forall is_byte bs -> all_bytes (store m a bs).
Proof.
  revert m a. induction bs as [|b t IH]; intros m a Hm Hb; cbn [store];
    [assumption|].
  inversion Hb; subst. apply IH; [apply all_bytes_upd|]; assumption.
Qed.

Lemma zip_with_nth (op : Z -> Z -> Z) (l1 l2 : list Z) (i : nat) :
  length l1 = length l2 -> (i < length l1)%nat ->
  nth i (zip_with op l1 l2) 0 = op (nth i l1 0) (nth i l2 0).
Proof.
  revert l2 i. induction l1 as [|a t IH]; intros [|b t2] i Hl Hi;
    cbn [length zip_with nth] in *; try lia.
  destruct i; [reflexivity|]. apply IH; lia.
Qed.

Section OneHost.

Variable le : bool.

(** One wide load, [xor], store. *)
Lemma block_xor (w : nat) (kk : list Z) (m : mem) (src dst : Z) :
  length kk = w -> Forall is_byte kk -> all_bytes m ->
  let m1 := store m dst
              (to_bytes le w (Z.lxor (bit_cast le (load m src w)) (bit_cast le kk))) in
  all_bytes m1
  /\ (forall i, 0 <= i < Z.of_nat w ->
      m1 (dst + i) = Z.lxor (m (src + i)) (nth (Z.to_nat i) kk 0))
  /\ (forall a, a < dst \/ dst + Z.of_nat w <= a -> m1 a = m a).
Proof.
  intros Hk Hkb Hm m1. subst m1.
  pose proof (load_length m src w) as Hl.
  pose proof (load_bytes m src w Hm) as Hlb.
  assert (E : to_bytes le w (Z.lxor (bit_cast le (load m src w)) (bit_cast le kk))
              = zip_with Z.lxor (load m src w) kk).
  { rewrite <- (xor_through_bit_cast le (load m src w) kk)
      by (auto; congruence).
    rewrite Hl. reflexivity. }
  rewrite E. clear E.
  assert (Hz : length (zip_with Z.lxor (load m src w) kk) = w)
    by (rewrite zip_with_length; congruence).
  split; [|split].
  - apply all_bytes_store; [assumption|].
    apply zip_with_bytes; auto using lxor_byte.
  - intros i Hi. rewrite <- (Z2Nat.id i) at 1 by lia.
    rewrite store_in by lia.
    rewrite zip_with_nth by (try congruence; lia).
    rewrite load_nth by lia. rewrite Z2Nat.id by lia. reflexivity.
  - intros a Ha. apply store_out. rewrite Hz. exact Ha.
Qed.

Lemma nth_double_key (k : list Z) (i : Z) :
  length k = 4%nat -> 0 <= i < 8 ->
  nth (Z.to_nat i) (k ++ k) 0 = key_at k i.
Proof.
  intros Hk Hi. destruct k as [|k0 [|k1 [|k2 [|k3 [|]]]]]; try discriminate.
  assert (Hc : i = 0 \/ i = 1 \/ i = 2 \/ i = 3 \/ i = 4 \/ i = 5 \/ i = 6 \/ i = 7)
    by lia.
  unfold key_at.
  repeat (destruct Hc as [->|Hc]; [reflexivity|]). subst. reflexivity.
Qed.

Lemma nth_key (k : list Z) (i : Z) :
  length k = 4%nat -> 0 <= i < 4 -> nth (Z.to_nat i) k 0 = key_at k i.
Proof.
  intros Hk Hi. destruct k as [|k0 [|k1 [|k2 [|k3 [|]]]]]; try discriminate.
  assert (Hc : i = 0 \/ i = 1 \/ i = 2 \/ i = 3) by lia.
  unfold key_at.
  repeat (destruct Hc as [->|Hc]; [reflexivity|]). subst. reflexivity.
Qed.

Lemma key_at_shift (k : list Z) (i j : Z) :
  j mod 4 = 0 -> key_at k (i + j) = key_at k i.
Proof.
  intros Hj. unfold key_at. f_equal. Z.div_mod_to_equations. lia.
Qed.

(** [unmaskImprecise8]: [n] blocks of 8 bytes read at [src] are written,
    unmasked, at [src - D]; nothing else changes. *)
Lemma unmaskImprecise8_loop_spec (D : Z) (k : list Z) (n : nat) (m : mem) (src : Z) :
  0 <= D -> length k = 4%nat -> Forall is_byte k -> all_bytes m ->
  let m' := unmaskImprecise8_loop le D n m src (bit_cast le (k ++ k)) in
  all_bytes m'
  /\ (forall i, 0 <= i < 8 * Z.of_nat n ->
      m' (src - D + i) = Z.lxor (m (src + i)) (key_at k i))
  /\ (forall a, a < src - D \/ src - D + 8 * Z.of_nat n <= a -> m' a = m a).
Proof.
  intros HD Hk Hkb. revert m src.
  induction n as [|n IH]; intros m src Hm; cbn [unmaskImprecise8_loop].
  - split; [assumption|]. split; [intros; lia|reflexivity].
  - assert (Hkk : length (k ++ k) = 8%nat) by (rewrite length_app; lia).
    assert (Hkkb : Forall is_byte (k ++ k)) by (apply Forall_app; auto).
    destruct (block_xor 8 (k ++ k) m src (src - D) Hkk Hkkb Hm)
      as (B1 & B2 & B3).
    set (m1 := store m (src - D) _) in *. clearbody m1.
    destruct (IH m1 (src + 8) B1) as (I1 & I2 & I3).
    set (m' := unmaskImprecise8_loop le D n m1 (src + 8) _) in *. clearbody m'.
    split; [assumption|]. split.
    + intros i Hi. destruct (Z.lt_ge_cases i 8) as [Hlt|Hge].
      * rewrite I3 by lia. rewrite B2 by lia.
        rewrite nth_double_key by (auto; lia). reflexivity.
      * replace (src - D + i) with (src + 8 - D + (i - 8)) by lia.
        rewrite I2 by lia. rewrite B3 by lia.
        replace (src + 8 + (i - 8)) with (src + i) by lia.
        f_equal. replace i with (i - 8 + 8) at 2 by lia.
        symmetry. apply key_at_shift. reflexivity.
    + intros a Ha. rewrite I3 by lia. apply B3. lia.
Qed.

Lemma unmaskImprecise4_loop_spec (D : Z) (k : list Z) (n : nat) (m : mem) (src : Z) :
  0 <= D -> length k = 4%nat -> Forall is_byte k -> all_bytes m ->
  let m' := unmaskImprecise4_loop le D n m src (bit_cast le k) in
  all_bytes m'
  /\ (forall i, 0 <= i < 4 * Z.of_nat n ->
      m' (src - D + i) = Z.lxor (m (src + i)) (key_at k i))
  /\ (forall a, a < src - D \/ src - D + 4 * Z.of_nat n <= a -> m' a = m a).
Proof.
  intros HD Hk Hkb. revert m src.
  induction n as [|n IH]; intros m src Hm; cbn [unmaskImprecise4_loop].
  - split; [assumption|]. split; [intros; lia|reflexivity].
  - destruct (block_xor 4 k m src (src - D) Hk Hkb Hm) as (B1 & B2 & B3).
    set (m1 := store m (src - D) _) in *. clearbody m1.
    destruct (IH m1 (src + 4) B1) as (I1 & I2 & I3).
    set (m' := unmaskImprecise4_loop le D n m1 (src + 4) _) in *. clearbody m'.
    split; [assumption|]. split.
    + intros i Hi. destruct (Z.lt_ge_cases i 4) as [Hlt|Hge].
      * rewrite I3 by lia. rewrite B2 by lia.
        rewrite nth_key by (auto; lia). reflexivity.
      * replace (src - D + i) with (src + 4 - D + (i - 4)) by lia.
        rewrite I2 by lia. rewrite B3 by lia.
        replace (src + 4 + (i - 4)) with (src + i) by lia.
        f_equal. replace i with (i - 4 + 4) at 2 by lia.
        symmetry. apply key_at_shift. reflexivity.
    + intros a Ha. rewrite I3 by lia. apply B3. lia.
Qed.

End OneHost.

Lemma get_byte (k : list Z) (i : Z) : Forall is_byte k -> is_byte (get k i).
Proof.
  intros Hk. unfold get. destruct (i <? 0); [unfold is_byte; lia|].
  destruct (Nat.lt_ge_cases (Z.to_nat i) (length k)) as [Hlt|Hge].
  - rewrite Forall_forall in Hk. apply Hk, nth_In, Hlt.
  - rewrite nth_overflow by assumption. unfold is_byte. lia.
Qed.

Lemma key_at_small (k : list Z) (i : Z) : 0 <= i < 4 -> key_at k i = get k i.
Proof. intros Hi. unfold key_at. rewrite Z.mod_small by lia. reflexivity. Qed.

(** [unmaskInplace]: [n] groups of four bytes unmasked in place. *)
Lemma unmaskInplace_loop_spec (k : list Z) (n : nat) (m : mem) (data : Z) :
  Forall is_byte k -> all_bytes m ->
  let m' := unmaskInplace_loop n m data k in
  all_bytes m'
  /\ (forall i, 0 <= i < 4 * Z.of_nat n ->
      m' (data + i) = Z.lxor (m (data + i)) (key_at k i))
  /\ (forall a, a < data \/ data + 4 * Z.of_nat n <= a -> m' a = m a).
Proof.
  intros Hkb. revert m data.
  induction n as [|n IH]; intros m data Hm; cbn [unmaskInplace_loop].
  - split; [assumption|]. split; [intros; lia|reflexivity].
  - set (m1 := upd m data (Z.lxor (m data) (get k 0))).
    set (m2 := upd m1 (data + 1) (Z.lxor (m1 (data + 1)) (get k 1))).
    set (m3 := upd m2 (data + 2) (Z.lxor (m2 (data + 2)) (get k 2))).
    set (m4 := upd m3 (data + 3) (Z.lxor (m3 (data + 3)) (get k 3))).
    assert (B1 : all_bytes m4).
    { subst m4 m3 m2 m1.
      repeat (apply all_bytes_upd;
              [|apply lxor_byte; [|apply get_byte, Hkb]]);
        try assumption;
        repeat (apply all_bytes_upd;
                [|apply lxor_byte; [|apply get_byte, Hkb]]); try apply Hm;
        assumption. }
    assert (B2 : forall i, 0 <= i < 4 ->
                 m4 (data + i) = Z.lxor (m (data + i)) (key_at k i)).
    { intros i Hi. rewrite key_at_small by assumption.
      assert (Hc : i = 0 \/ i = 1 \/ i = 2 \/ i = 3) by lia.
      subst m4 m3 m2 m1. unfold upd.
      destruct Hc as [-> | [-> | [-> | ->]]];
        repeat match goal with
               | |- context [?a =? ?b] => destruct (Z.eqb_spec a b); try lia
               end; rewrite ?Z.add_0_r; try reflexivity. }
    assert (B3 : forall a, a < data \/ data + 4 <= a -> m4 a = m a).
    { intros a Ha. subst m4 m3 m2 m1. unfold upd.
      repeat match goal with
             | |- context [?a =? ?b] => destruct (Z.eqb_spec a b); try lia
             end; try reflexivity. }
    clearbody m4. clear m1 m2 m3.
    destruct (IH m4 (data + 4) B1) as (I1 & I2 & I3).
    set (m' := unmaskInplace_loop n m4 (data + 4) k) in *. clearbody m'.
    split; [assumption|]. split.
    + intros i Hi. destruct (Z.lt_ge_cases i 4) as [Hlt|Hge].
      * rewrite I3 by lia. apply B2. lia.
      * replace (data + i) with (data + 4 + (i - 4)) by lia.
        rewrite I2 by lia. rewrite B3 by lia. f_equal.
        replace i with (i - 4 + 4) at 2 by lia.
        symmetry. apply key_at_shift. reflexivity.
    + intros a Ha. rewrite I3 by lia. apply B3. lia.
Qed.

(** The byte loops [unmask_tail] and [UnrolledXor]. *)
Lemma unmask_tail_spec (k : list Z) (s : nat) (m : mem) (base : Z) :
  Forall is_byte k -> all_bytes m -> (s <= 4)%nat ->
  let m' := unmask_tail s m base k in
  all_bytes m'
  /\ (forall i, 0 <= i < Z.of_nat s ->
      m' (base + i) = Z.lxor (m (base + i)) (key_at k i))
  /\ (forall a, a < base \/ base + Z.of_nat s <= a -> m' a = m a).
Proof.
  intros Hkb Hm. induction s as [|s IH]; intros Hs; cbn [unmask_tail].
  - split; [assumption|]. split; [intros; lia|reflexivity].
  - destruct (IH ltac:(lia)) as (I1 & I2 & I3).
    set (m1 := unmask_tail s m base k) in *. clearbody m1.
    split; [|split].
    + apply all_bytes_upd; [assumption|].
      apply lxor_byte; [apply I1|apply get_byte, Hkb].
    + intros i Hi. destruct (Z.eq_dec i (Z.of_nat s)) as [->|Hne].
      * rewrite upd_same. rewrite I3 by lia.
        rewrite key_at_small by lia. reflexivity.
      * rewrite upd_other by lia. apply I2. lia.
    + intros a Ha. rewrite upd_other by lia. apply I3. lia.
Qed.

Lemma UnrolledXor_spec (k : list Z) (N : nat) (m : mem) (data : Z) :
  Forall is_byte k -> all_bytes m ->
  let m' := UnrolledXor N m data k in
  all_bytes m'
  /\ (forall i, 0 <= i < Z.of_nat N ->
      m' (data + i) = Z.lxor (m (data + i)) (key_at k i))
  /\ (forall a, a < data \/ data + Z.of_nat N <= a -> m' a = m a).
Proof.
  intros Hkb Hm. induction N as [|N IH]; cbn [UnrolledXor].
  - split; [assumption|]. split; [intros; lia|reflexivity].
  - destruct IH as (I1 & I2 & I3).
    set (m1 := UnrolledXor N m data k) in *. clearbody m1.
    split; [|split].
    + apply all_bytes_upd; [assumption|].
      apply lxor_byte; [apply I1|apply get_byte, Hkb].
    + intros i Hi. destruct (Z.eq_dec i (Z.of_nat N)) as [->|Hne].
      * rewrite upd_same. rewrite I3 by lia. reflexivity.
      * rewrite upd_other by lia. apply I2. lia.
    + intros a Ha. rewrite upd_other by lia. apply I3. lia.
Qed.

Lemma unmaskAll_loop_spec (k : list Z) (n : nat) (m : mem) (data : Z) :
  Forall is_byte k -> all_bytes m ->
  let m' := unmaskAll_loop n m data k in
  all_bytes m'
  /\ (forall i, 0 <= i < 16 * Z.of_nat n ->
      m' (data + i) = Z.lxor (m (data + i)) (key_at k i))
  /\ (forall a, a < data \/ data + 16 * Z.of_nat n <= a -> m' a = m a).
Proof.
  intros Hkb. revert m data.
  induction n as [|n IH]; intros m data Hm; cbn [unmaskAll_loop].
  - split; [assumption|]. split; [intros; lia|reflexivity].
  - destruct (UnrolledXor_spec k 16 m data Hkb Hm) as (B1 & B2 & B3).
    set (m1 := UnrolledXor 16 m data k) in *. clearbody m1.
    destruct (IH m1 (data + 16) B1) as (I1 & I2 & I3).
    set (m' := unmaskAll_loop n m1 (data + 16) k) in *. clearbody m'.
    split; [assumption|]. split.
    + intros i Hi. destruct (Z.lt_ge_cases i 16) as [Hlt|Hge].
      * rewrite I3 by lia. apply B2. lia.
      * replace (data + i) with (data + 16 + (i - 16)) by lia.
        rewrite I2 by lia. rewrite B3 by lia.
        replace (data + 16 + (i - 16)) with (data + i) by lia. f_equal.
        replace i with (i - 16 + 16) at 2 by lia.
        symmetry. apply key_at_shift. reflexivity.
    + intros a Ha. rewrite I3 by lia. apply B3. lia.
Qed.

Lemma load_S (m : mem) (a : Z) (n : nat) :
  load m a (S n) = m a :: load m (a + 1) n.
Proof.
  unfold load. cbn [seq map]. rewrite Z.add_0_r. f_equal.
  rewrite <- seq_shift, map_map. apply map_ext. intros i. f_equal. lia.
Qed.

Lemma load_xor_key (k : list Z) (m m' : mem) (p p' i0 : Z) (n : nat) :
  (forall i, 0 <= i < Z.of_nat n ->
   m' (p' + i) = Z.lxor (m (p + i)) (key_at k (i0 + i))) ->
  load m' p' n = xor_key k i0 (load m p n).
Proof.
  revert p p' i0. induction n as [|n IH]; intros p p' i0 H; [reflexivity|].
  rewrite !load_S. cbn [xor_key]. f_equal.
  - specialize (H 0 ltac:(lia)). rewrite !Z.add_0_r in H. exact H.
  - apply IH. intros i Hi. specialize (H (1 + i) ltac:(lia)).
    rewrite !Z.add_assoc in H. exact H.
Qed.

End Unmask.

Module StreamFacts.
Import Parser Unmask Stream.

Section Facts.

Variable isServer : bool.
Variable le : bool.
Variable refuses : Z -> bool.
Variable compressed : bool.

Local Abbreviation step := (step isServer le refuses compressed).
Local Abbreviation run := (run isServer le refuses compressed).
Local Abbreviation a_start := (a_start isServer le refuses).
Local Abbreviation h_size := (h_size isServer).
Local Abbreviation h_invalid := (h_invalid compressed).
Local Abbreviation SHORT := (SHORT isServer).

Lemma SHORT_ge_2 : 2 <= SHORT.
Proof. unfold Stream.SHORT, SHORT_MESSAGE_HEADER. destruct isServer; lia. Qed.

Lemma h_size_ge_SHORT (hdr : list Z) : SHORT <= h_size hdr.
Proof.
  unfold Stream.h_size, Stream.SHORT, MEDIUM, LONG, SHORT_MESSAGE_HEADER,
    MEDIUM_MESSAGE_HEADER, LONG_MESSAGE_HEADER.
  destruct isServer; repeat destruct (_ <? _); repeat destruct (_ =? _); lia.
Qed.

Lemma h_size_le_LONG (hdr : list Z) : h_size hdr <= LONG isServer.
Proof.
  unfold Stream.h_size, Stream.SHORT, MEDIUM, LONG, SHORT_MESSAGE_HEADER,
    MEDIUM_MESSAGE_HEADER, LONG_MESSAGE_HEADER.
  destruct isServer; repeat destruct (_ <? _); repeat destruct (_ =? _); lia.
Qed.

Lemma run_app (s : astate) (a b : list Z) :
  run s (a ++ b)
  = let '(s1, o1) := run s a in
    let '(s2, o2) := run s1 b in (s2, o1 ++ o2).
Proof.
  revert s. induction a as [|x a IH]; intros s; cbn [app Stream.run].
  - destruct (run s b). reflexivity.
  - destruct (step s x) as [s1 o1]. rewrite IH.
    destruct (run s1 a) as [s2 o2]. destruct (run s2 b) as [s3 o3].
    rewrite app_assoc. reflexivity.
Qed.

Lemma run_dead (s : astate) (bs : list Z) :
  a_mode s = Dead -> run s bs = (s, []).
Proof.
  intros Hd. induction bs as [|b t IH]; cbn [Stream.run]; [reflexivity|].
  unfold Stream.step. rewrite Hd. rewrite IH. reflexivity.
Qed.

(** The fields of a header are those of its first two bytes. *)
Definition same_head (h1 h2 : list Z) : Prop :=
  nth 0 h1 0 = nth 0 h2 0 /\ nth 1 h1 0 = nth 1 h2 0.

Lemma same_head_prefix (p q : list Z) :
  2 <= Z.of_nat (length p) -> same_head p (p ++ q).
Proof.
  intros Hp. split; rewrite app_nth1 by lia; reflexivity.
Qed.

Lemma same_head_fields (h1 h2 : list Z) :
  same_head h1 h2 ->
  h_invalid h1 = h_invalid h2 /\ h_size h1 = h_size h2
  /\ h_op h1 = h_op h2 /\ h_fin h1 = h_fin h2 /\ h_len7 h1 = h_len7 h2.
Proof.
  intros [H0 H1].
  unfold Stream.h_invalid, Stream.h_size, h_op, h_fin, h_len7.
  rewrite H0, H1. repeat split; reflexivity.
Qed.

(** Bytes that do not yet make a header. *)
Definition quiet (hdr : list Z) : Prop :=
  Z.of_nat (length hdr) < SHORT
  \/ (h_invalid hdr = false /\ Z.of_nat (length hdr) < h_size hdr).

Lemma quiet_prefix (p q : list Z) : quiet (p ++ q) -> quiet p.
Proof.
  intros [H|[H1 H2]]; rewrite length_app in *.
  - left. lia.
  - destruct (Z.lt_ge_cases (Z.of_nat (length p)) SHORT) as [Hlt|Hge];
      [left; assumption|right].
    pose proof SHORT_ge_2.
    destruct (same_head_fields p (p ++ q)) as (E1 & E2 & _);
      [apply same_head_prefix; lia|].
    rewrite E1, E2. split; [assumption|lia].
Qed.

Lemma run_quiet (s : astate) (h0 bs : list Z) :
  a_mode s = Head h0 -> quiet (h0 ++ bs) ->
  run s bs = (a_set_mode s (Head (h0 ++ bs)), []).
Proof.
  revert s h0. induction bs as [|b t IH]; intros s h0 Hm Hq; cbn [Stream.run].
  - rewrite app_nil_r. destruct s; cbn in *. subst. reflexivity.
  - assert (Hq1 : quiet (h0 ++ [b])).
    { apply (quiet_prefix _ t). rewrite <- app_assoc. exact Hq. }
    unfold Stream.step at 1. rewrite Hm.
    assert (Hs : (if Z.of_nat (length (h0 ++ [b])) <? SHORT
                  then (a_set_mode s (Head (h0 ++ [b])), [])
                  else if h_invalid (h0 ++ [b])
                       then (a_dead s, [Closed Err.ERR_PROTOCOL])
                       else if Z.of_nat (length (h0 ++ [b])) <? h_size (h0 ++ [b])
                            then (a_set_mode s (Head (h0 ++ [b])), [])
                            else a_start s (h0 ++ [b]))
                 = (a_set_mode s (Head (h0 ++ [b])), @nil item)).
    { destruct (Z.ltb_spec (Z.of_nat (length (h0 ++ [b]))) SHORT); [reflexivity|].
      destruct Hq1 as [Hq1|[Hq1 Hq2]]; [lia|]. rewrite Hq1.
      destruct (Z.ltb_spec (Z.of_nat (length (h0 ++ [b]))) (h_size (h0 ++ [b])));
        [reflexivity|lia]. }
    cbv zeta. rewrite Hs.
    rewrite (IH (a_set_mode s (Head (h0 ++ [b]))) (h0 ++ [b]));
      [|reflexivity|rewrite <- app_assoc; exact Hq].
    rewrite <- app_assoc. reflexivity.
Qed.

Lemma a_start_mode (s : astate) (md : mode) (hdr : list Z) :
  a_start (a_set_mode s md) hdr = a_start s hdr.
Proof.
  destruct s as [os lf oc md0].
  unfold Stream.a_start, a_push, a_set_mode, a_dead, a_finish, a_pop, a_cur.
  cbn [a_opStack a_lastFin a_opCode a_mode].
  repeat match goal with
         | |- context [if ?b then _ else _] =>
             destruct b; cbn [a_opStack a_lastFin a_opCode a_mode]
         end; reflexivity.
Qed.

Lemma a_finish_mode (s : astate) (md : mode) (data : list Z) :
  a_finish (a_set_mode s md) data = a_finish s data.
Proof.
  destruct s as [os lf oc md0].
  unfold a_finish, a_set_mode, a_pop, a_cur.
  cbn [a_opStack a_lastFin a_opCode a_mode].
  destruct lf; reflexivity.
Qed.

Lemma split_last (buf : list Z) (n : nat) :
  (0 < n <= length buf)%nat ->
  exists pre b, firstn n buf = pre ++ [b] /\ length pre = (n - 1)%nat.
Proof.
  intros Hn. destruct (exists_last (l := firstn n buf)) as (pre & b & E).
  - intros E. apply (f_equal (@length Z)) in E. rewrite length_firstn in E.
    cbn in E. lia.
  - exists pre, b. split; [assumption|].
    apply (f_equal (@length Z)) in E.
    rewrite length_firstn, length_app in E. cbn in E. lia.
Qed.

Lemma firstn_same_head (buf : list Z) (n : nat) :
  (2 <= n <= length buf)%nat -> same_head (firstn n buf) buf.
Proof.
  intros Hn. rewrite <- (firstn_skipn n buf) at 2.
  apply same_head_prefix. rewrite length_firstn. lia.
Qed.

(** A buffer that starts with a whole, valid header. *)
Lemma run_header (s : astate) (buf : list Z) :
  a_mode s = Head [] ->
  h_invalid buf = false -> h_size buf <= Z.of_nat (length buf) ->
  run s buf
  = let '(s1, o1) := a_start s (firstn (Z.to_nat (h_size buf)) buf) in
    let '(s2, o2) := run s1 (skipn (Z.to_nat (h_size buf)) buf) in
    (s2, o1 ++ o2).
Proof.
  intros Hm Hv Hl. pose proof SHORT_ge_2 as H2.
  pose proof (h_size_ge_SHORT buf) as Hsz.
  set (H := Z.to_nat (h_size buf)).
  rewrite <- (firstn_skipn H buf) at 1.
  destruct (split_last buf H) as (pre & b & E & Hp); [lia|].
  destruct (same_head_fields (firstn H buf) buf) as (E1 & E2 & _);
    [apply firstn_same_head; lia|].
  rewrite E in *. rewrite <- app_assoc, run_app.
  rewrite (run_quiet s [] pre Hm).
  2:{ cbn [app].
      destruct (Z.lt_ge_cases (Z.of_nat (length pre)) SHORT) as [Hlt|Hge];
        [left; assumption|right].
      destruct (same_head_fields pre (pre ++ [b])) as (F1 & F2 & _);
        [apply same_head_prefix; lia|].
      rewrite F1, F2, E1, E2. split; [assumption|lia]. }
  cbn [app Stream.run].
  unfold Stream.step at 1. cbn [a_mode a_set_mode].
  assert (Hlen : Z.of_nat (length (pre ++ [b])) = h_size buf)
    by (rewrite length_app; cbn [length]; lia).
  rewrite Hlen, E1, E2, Hv.
  destruct (Z.ltb_spec (h_size buf) SHORT); [lia|].
  rewrite Z.ltb_irrefl. rewrite a_start_mode.
  destruct (a_start s (pre ++ [b])) as [s1 o1].
  destruct (run s1 (skipn H buf)) as [s2 o2].
  cbn [app]. reflexivity.
Qed.

(** A buffer that starts with an invalid header. *)
Lemma run_invalid (s : astate) (buf : list Z) :
  a_mode s = Head [] ->
  SHORT <= Z.of_nat (length buf) -> h_invalid buf = true ->
  run s buf = (a_dead s, [Closed Err.ERR_PROTOCOL]).
Proof.
  intros Hm Hl Hv. pose proof SHORT_ge_2 as H2.
  set (H := Z.to_nat SHORT).
  rewrite <- (firstn_skipn H buf).
  destruct (split_last buf H) as (pre & b & E & Hp); [lia|].
  destruct (same_head_fields (firstn H buf) buf) as (E1 & _);
    [apply firstn_same_head; lia|].
  rewrite E in *. rewrite <- app_assoc, run_app.
  rewrite (run_quiet s [] pre Hm) by (left; cbn [app]; lia).
  cbn [app Stream.run].
  unfold Stream.step at 1. cbn [a_mode a_set_mode].
  assert (Hlen : Z.of_nat (length (pre ++ [b])) = SHORT)
    by (rewrite length_app; cbn [length]; lia).
  rewrite Hlen, E1, Hv, Z.ltb_irrefl.
  rewrite run_dead by reflexivity. reflexivity.
Qed.

(** The payload bytes as the handler gets them. *)
Definition clear_text (key : list Z) (i : Z) (bs : list Z) : list Z :=
  if isServer then xor_key key i bs else bs.

Lemma xor_key_length (k : list Z) (i : Z) (bs : list Z) :
  length (xor_key k i bs) = length bs.
Proof.
  revert i. induction bs as [|b t IH]; intros i; cbn [xor_key length];
    [reflexivity|]. rewrite IH. reflexivity.
Qed.

Lemma xor_key_app (k : list Z) (i : Z) (a b : list Z) :
  xor_key k i (a ++ b) = xor_key k i a ++ xor_key k (i + Z.of_nat (length a)) b.
Proof.
  revert i. induction a as [|x a IH]; intros i; cbn [app xor_key length].
  - rewrite Z.add_0_r. reflexivity.
  - rewrite IH.
    replace (i + Z.of_nat (S (length a))) with (i + 1 + Z.of_nat (length a))
      by lia.
    reflexivity.
Qed.

Lemma clear_text_length (k : list Z) (i : Z) (bs : list Z) :
  length (clear_text k i bs) = length bs.
Proof. unfold clear_text. destruct isServer; [apply xor_key_length|reflexivity]. Qed.

Lemma clear_text_app (k : list Z) (i : Z) (a b : list Z) :
  clear_text k i (a ++ b)
  = clear_text k i a ++ clear_text k (i + Z.of_nat (length a)) b.
Proof. unfold clear_text. destruct isServer; [apply xor_key_app|reflexivity]. Qed.

Lemma clear_text_cons (k : list Z) (i b : Z) (t : list Z) :
  clear_text k i (b :: t)
  = a_unmask isServer k i b :: clear_text k (i + 1) t.
Proof. unfold clear_text, a_unmask. destruct isServer; reflexivity. Qed.

Lemma run_body_partial (bs : list Z) (s : astate) (rem : Z) (key acc : list Z) :
  a_mode s = Body rem key acc -> Z.of_nat (length bs) < rem ->
  run s bs
  = (a_set_mode s (Body (rem - Z.of_nat (length bs)) key
                     (acc ++ clear_text key (Z.of_nat (length acc)) bs)), []).
Proof.
  revert s rem acc. induction bs as [|b t IH]; intros s rem acc Hm Hl;
    cbn [Stream.run].
  - cbn [length]. rewrite Z.sub_0_r. unfold clear_text.
    destruct isServer; cbn [xor_key]; rewrite app_nil_r;
      destruct s; cbn in *; subst; reflexivity.
  - cbn [length] in Hl. unfold Stream.step at 1. rewrite Hm.
    destruct (Z.leb_spec rem 1); [lia|].
    rewrite (IH _ (rem - 1) (acc ++ [a_unmask isServer key (Z.of_nat (length acc)) b]));
      [|reflexivity|lia].
    unfold a_set_mode. cbn [a_opStack a_lastFin a_opCode app].
    rewrite clear_text_cons, <- app_assoc, length_app. cbn [length app].
    replace (rem - 1 - Z.of_nat (length t)) with (rem - Z.of_nat (S (length t)))
      by lia.
    replace (Z.of_nat (length acc + 1)) with (Z.of_nat (length acc) + 1) by lia.
    reflexivity.
Qed.

Lemma run_body_complete (bs : list Z) (s : astate) (rem : Z) (key acc : list Z) :
  a_mode s = Body rem key acc -> Z.of_nat (length bs) = rem -> 0 < rem ->
  run s bs = a_finish s (acc ++ clear_text key (Z.of_nat (length acc)) bs).
Proof.
  intros Hm Hl Hr.
  destruct (split_last bs (length bs)) as (pre & b & E & Hp); [lia|].
  rewrite firstn_all in E. subst bs. rewrite run_app.
  rewrite length_app in Hl. cbn [length] in Hl.
  rewrite (run_body_partial pre s rem key acc Hm) by lia.
  cbn [Stream.run]. unfold Stream.step. cbn [a_mode a_set_mode].
  destruct (Z.leb_spec (rem - Z.of_nat (length pre)) 1); [|lia].
  rewrite clear_text_app, clear_text_cons.
  replace (clear_text key (Z.of_nat (length acc) + Z.of_nat (length pre) + 1) [])
    with (@nil Z) by (unfold clear_text; destruct isServer; reflexivity).
  rewrite length_app, clear_text_length, Nat2Z.inj_add.
  pose proof (a_finish_mode s
    (Body (rem - Z.of_nat (length pre)) key
       (acc ++ clear_text key (Z.of_nat (length acc)) pre))) as Hf.
  unfold a_set_mode in Hf. rewrite Hf.
  rewrite <- app_assoc.
  destruct (a_finish s _) as [s1 o1].
  cbn [app]. rewrite app_nil_r. reflexivity.
Qed.

End Facts.
End StreamFacts.

(* ===================================================================== *)
(** * [consume] reads the stream as the automaton does *)
(* ===================================================================== *)

Module Refine.
Import Parser Unmask Stream StreamFacts.
Import OpStack.

(** The buffer [buf] lies in memory at [src]. *)
Definition holds (m : mem) (src : Z) (buf : list Z) : Prop :=
  load m src (length buf) = buf.

Lemma load_app (m : mem) (a : Z) (n k : nat) :
  load m a (n + k) = load m a n ++ load m (a + Z.of_nat n) k.
Proof.
  revert a. induction n as [|n IH]; intros a.
  - change (Z.of_nat 0) with 0. rewrite Z.add_0_r. reflexivity.
  - cbn [Nat.add]. rewrite !load_S, IH. cbn [app].
    replace (a + Z.of_nat (S n)) with (a + 1 + Z.of_nat n) by lia. reflexivity.
Qed.

Lemma holds_nth (m : mem) (src : Z) (buf : list Z) (i : nat) :
  holds m src buf -> (i < length buf)%nat -> m (src + Z.of_nat i) = nth i buf 0.
Proof.
  intros H Hi. unfold holds in H. rewrite <- H.
  rewrite load_nth by assumption. reflexivity.
Qed.

Lemma holds_load (m : mem) (src : Z) (buf : list Z) (a k : nat) :
  holds m src buf -> (a + k <= length buf)%nat ->
  load m (src + Z.of_nat a) k = firstn k (skipn a buf).
Proof.
  intros H Hk. unfold holds in H.
  replace (length buf) with (a + (k + (length buf - a - k)))%nat in H by lia.
  rewrite !load_app in H. rewrite <- H.
  rewrite skipn_app, skipn_all2 by (rewrite load_length; lia).
  rewrite load_length, Nat.sub_diag. cbn [skipn app].
  rewrite firstn_app, firstn_all2 by (rewrite load_length; lia).
  rewrite load_length, Nat.sub_diag. cbn [firstn]. rewrite app_nil_r. reflexivity.
Qed.

Lemma holds_skipn (m : mem) (src : Z) (buf : list Z) (n : nat) :
  holds m src buf -> (n <= length buf)%nat ->
  holds m (src + Z.of_nat n) (skipn n buf).
Proof.
  intros H Hn. unfold holds. rewrite length_skipn.
  rewrite (holds_load m src buf n (length buf - n) H) by lia.
  apply firstn_all2. rewrite length_skipn. lia.
Qed.

Lemma holds_ext (m m' : mem) (src : Z) (buf : list Z) :
  holds m src buf ->
  (forall a, src <= a < src + Z.of_nat (length buf) -> m' a = m a) ->
  holds m' src buf.
Proof.
  intros H He. unfold holds in *. rewrite <- H at 2. apply load_ext.
  intros i Hi. apply He. lia.
Qed.

Lemma holds_bytes (m : mem) (src : Z) (buf : list Z) :
  all_bytes m -> holds m src buf -> Forall is_byte buf.
Proof. intros Hm H. rewrite <- H. apply load_bytes, Hm. Qed.

Lemma holds_nil (m : mem) (src : Z) : holds m src [].
Proof. reflexivity. Qed.

(** ** The unmasking of each branch, on memory *)

Lemma rotateMask_spec (k : list Z) (r : Z) :
  length k = 4%nat -> 0 <= r < 4 ->
  length (rotateMask (4 - r) k) = 4%nat
  /\ (Forall is_byte k -> Forall is_byte (rotateMask (4 - r) k))
  /\ forall i, key_at (rotateMask (4 - r) k) i = key_at k (i + r).
Proof.
  intros Hk Hr. destruct k as [|k0 [|k1 [|k2 [|k3 [|]]]]]; try discriminate.
  assert (Hc : r = 0 \/ r = 1 \/ r = 2 \/ r = 3) by lia.
  split; [|split].
  - destruct Hc as [-> | [-> | [-> | ->]]]; reflexivity.
  - intros Hb. inversion Hb as [|? ? B0 Hb1]; subst.
    inversion Hb1 as [|? ? B1 Hb2]; subst.
    inversion Hb2 as [|? ? B2 Hb3]; subst.
    inversion Hb3 as [|? ? B3 _]; subst.
    destruct Hc as [-> | [-> | [-> | ->]]]; cbn;
      repeat (apply Forall_cons; [assumption|]); apply Forall_nil.
  - intros i. unfold key_at. rewrite <- Zplus_mod_idemp_l.
    assert (Hj : 0 <= i mod 4 < 4) by (apply Z.mod_pos_bound; lia).
    set (j := i mod 4) in *. clearbody j.
    assert (Hd : j = 0 \/ j = 1 \/ j = 2 \/ j = 3) by lia.
    destruct Hc as [-> | [-> | [-> | ->]]];
      destruct Hd as [-> | [-> | [-> | ->]]]; reflexivity.
Qed.

Lemma key_at_zero (k : list Z) (i : Z) :
  forallb (Z.eqb 0) k = true -> key_at k i = 0.
Proof.
  intros Hz. unfold key_at, get. destruct (_ <? 0); [reflexivity|].
  destruct (nth_in_or_default (Z.to_nat (i mod 4)) k 0) as [Hin|Hd];
    [|exact Hd].
  rewrite forallb_forall in Hz. specialize (Hz _ Hin).
  apply Z.eqb_eq in Hz. symmetry. exact Hz.
Qed.

Lemma payLength_nonneg (le : bool) (n : nat) (bs : list Z) :
  Forall is_byte bs -> 0 <= cond_byte_swap le n (bit_cast le bs).
Proof.
  intros Hb. unfold cond_byte_swap, bit_cast. destruct le.
  - apply le_decode_nonneg, Forall_rev, le_encode_bytes.
  - apply le_decode_nonneg, Forall_rev, Hb.
Qed.

Section Memory.

Variable le : bool.
Variable L : Z.

(** What an unmasking leaves in memory: the [n] bytes read at [from] are
    found unmasked at [to], and nothing changes from [keep] on. *)
Definition unmasked (k : list Z) (m m' : mem) (from to n keep : Z) : Prop :=
  all_bytes m'
  /\ (forall i, 0 <= i < n -> m' (to + i) = Z.lxor (m (from + i)) (key_at k i))
  /\ (forall a, keep <= a -> m' a = m a).

Lemma shiftr_div (n k : Z) : 0 <= k -> Z.shiftr n k = n / 2 ^ k.
Proof. intros Hk. apply Z.shiftr_div_pow2, Hk. Qed.

Lemma load_4 (m : mem) (a : Z) :
  load m a 4 = [m a; m (a + 1); m (a + 2); m (a + 3)].
Proof.
  unfold load. cbn [seq map]. change (Z.of_nat 0) with 0. rewrite Z.add_0_r.
  reflexivity.
Qed.

Lemma unmaskImpreciseCopyMask_spec (H : Z) (m : mem) (src n : Z) :
  all_bytes m -> H = 6 \/ 8 <= H -> 0 <= n < 2 ^ 32 ->
  unmasked (load m (src + H - 4) 4) m
    (unmaskImpreciseCopyMask le H m (src + H) (wrap 32 n))
    (src + H) src n (src + H + n).
Proof.
  intros Hm HH Hn. unfold wrap. rewrite Z.mod_small by lia.
  assert (Hk : load m (src + H - 4) 4
               = [m (src + H - 4); m (src + H - 3); m (src + H - 2); m (src + H - 1)]).
  { rewrite load_4.
    replace (src + H - 4 + 1) with (src + H - 3) by lia.
    replace (src + H - 4 + 2) with (src + H - 2) by lia.
    replace (src + H - 4 + 3) with (src + H - 1) by lia. reflexivity. }
  rewrite Hk. clear Hk.
  set (k := [m (src + H - 4); m (src + H - 3); m (src + H - 2); m (src + H - 1)]).
  assert (Hkb : Forall is_byte k) by (repeat constructor; apply Hm).
  unfold unmaskImpreciseCopyMask, unmasked.
  destruct (Z.eqb_spec H 6) as [E|E]; cbn [negb].
  - unfold unmaskImprecise4. rewrite shiftr_div by lia.
    change (2 ^ 2) with 4.
    destruct (unmaskImprecise4_loop_spec le H k (Z.to_nat (n / 4 + 1)) m (src + H))
      as (A & B & C); [lia|reflexivity|exact Hkb|exact Hm|].
    assert (Hq : 0 <= n / 4) by (apply Z.div_pos; lia).
    rewrite Z2Nat.id in B, C by lia.
    split; [exact A|split].
    + intros i Hi. replace (src + i) with (src + H - H + i) by lia.
      apply B. Z.div_mod_to_equations. lia.
    + intros a Ha. apply C. right. Z.div_mod_to_equations. lia.
  - unfold unmaskImprecise8. rewrite shiftr_div by lia.
    change (2 ^ 3) with 8.
    destruct (unmaskImprecise8_loop_spec le H k (Z.to_nat (n / 8 + 1)) m (src + H))
      as (A & B & C); [lia|reflexivity|exact Hkb|exact Hm|].
    assert (Hq : 0 <= n / 8) by (apply Z.div_pos; lia).
    rewrite Z2Nat.id in B, C by lia.
    split; [exact A|split].
    + intros i Hi. replace (src + i) with (src + H - H + i) by lia.
      apply B. Z.div_mod_to_equations. lia.
    + intros a Ha. apply C. right. Z.div_mod_to_equations. lia.
Qed.

Lemma unmaskImprecise8_inplace (m : mem) (src len n : Z) (k : list Z) :
  all_bytes m -> length k = 4%nat -> Forall is_byte k -> 0 <= n <= len ->
  let m' := unmaskImprecise8 le 0 m src (bit_cast le (k ++ k)) len in
  all_bytes m'
  /\ (forall i, 0 <= i < n -> m' (src + i) = Z.lxor (m (src + i)) (key_at k i)).
Proof.
  intros Hm Hk Hkb Hn. unfold unmaskImprecise8. rewrite shiftr_div by lia.
  change (2 ^ 3) with 8.
  destruct (unmaskImprecise8_loop_spec le 0 k (Z.to_nat (len / 8 + 1)) m src)
    as (A & B & C); [lia|assumption..|].
  assert (Hq : 0 <= len / 8) by (apply Z.div_pos; lia).
  rewrite Z2Nat.id in B by lia.
  split; [exact A|].
  intros i Hi. replace (src + i) with (src - 0 + i) at 1 by lia.
  apply B. Z.div_mod_to_equations. lia.
Qed.

(** The end of a body: whole groups of four, then the tail. *)
Lemma body_end_unmasked (m : mem) (src rem : Z) (k : list Z) :
  all_bytes m -> Forall is_byte k -> 0 <= rem ->
  let n := Z.shiftr rem 2 in
  let m1 := unmaskInplace m src (src + n * 4) k in
  let m2 := unmask_tail (Z.to_nat (rem mod 4)) m1 (src + n * 4) k in
  unmasked k m m2 src src rem (src + rem).
Proof.
  intros Hm Hkb Hr. cbv zeta. rewrite shiftr_div by lia. change (2 ^ 2) with 4.
  assert (Hq : 0 <= rem / 4) by (apply Z.div_pos; lia).
  unfold unmaskInplace.
  replace ((src + rem / 4 * 4 - src + 3) / 4) with (rem / 4)
    by (Z.div_mod_to_equations; lia).
  destruct (unmaskInplace_loop_spec k (Z.to_nat (rem / 4)) m src Hkb Hm)
    as (A & B & C).
  rewrite Z2Nat.id in B, C by lia.
  set (m1 := unmaskInplace_loop (Z.to_nat (rem / 4)) m src k) in *. clearbody m1.
  assert (Hs : (Z.to_nat (rem mod 4) <= 4)%nat)
    by (Z.div_mod_to_equations; lia).
  destruct (unmask_tail_spec k (Z.to_nat (rem mod 4)) m1 (src + rem / 4 * 4)
              Hkb A Hs) as (A2 & B2 & C2).
  assert (Hrm : 0 <= rem mod 4 < 4) by (apply Z.mod_pos_bound; lia).
  rewrite Z2Nat.id in B2, C2 by lia.
  split; [exact A2|split].
  - intros i Hi. destruct (Z.lt_ge_cases i (rem / 4 * 4)) as [Hlt|Hge].
    + rewrite C2 by lia. apply B. lia.
    + assert (Hj : exists j, i = j + rem / 4 * 4 /\ 0 <= j < rem mod 4).
      { exists (i - rem / 4 * 4). Z.div_mod_to_equations. lia. }
      destruct Hj as (j & -> & Hj).
      rewrite key_at_shift by (apply Z_mod_mult).
      replace (src + (j + rem / 4 * 4)) with (src + rem / 4 * 4 + j) by lia.
      rewrite B2 by lia. rewrite C by lia. reflexivity.
  - intros a Ha. rewrite C2 by (Z.div_mod_to_equations; lia).
    apply C. Z.div_mod_to_equations. lia.
Qed.

(** The middle of a body: the whole buffer is unmasked, whichever loop
    does it. *)
Lemma unmaskAll_covers (m : mem) (src len : Z) (k : list Z) :
  all_bytes m -> Forall is_byte k -> 0 <= len <= L ->
  let m' := unmaskAll L m src k in
  all_bytes m'
  /\ (forall i, 0 <= i < len -> m' (src + i) = Z.lxor (m (src + i)) (key_at k i)).
Proof.
  intros Hm Hkb Hl. unfold unmaskAll.
  destruct (unmaskAll_loop_spec k (Z.to_nat ((L + 15) / 16)) m src Hkb Hm)
    as (A & B & C).
  assert (Hq : 0 <= (L + 15) / 16) by (apply Z.div_pos; lia).
  rewrite Z2Nat.id in B by lia.
  split; [exact A|]. intros i Hi. apply B. Z.div_mod_to_equations. lia.
Qed.

Lemma unmaskInplace_covers (m : mem) (src len : Z) (k : list Z) :
  all_bytes m -> Forall is_byte k -> 0 <= len ->
  let m' := unmaskInplace m src (src + (Z.shiftr len 2 + 1) * 4) k in
  all_bytes m'
  /\ (forall i, 0 <= i < len -> m' (src + i) = Z.lxor (m (src + i)) (key_at k i)).
Proof.
  intros Hm Hkb Hl. unfold unmaskInplace. rewrite shiftr_div by lia.
  change (2 ^ 2) with 4.
  replace ((src + (len / 4 + 1) * 4 - src + 3) / 4) with (len / 4 + 1)
    by (Z.div_mod_to_equations; lia).
  destruct (unmaskInplace_loop_spec k (Z.to_nat (len / 4 + 1)) m src Hkb Hm)
    as (A & B & C).
  assert (Hq : 0 <= len / 4) by (apply Z.div_pos; lia).
  rewrite Z2Nat.id in B by lia.
  split; [exact A|]. intros i Hi. apply B. Z.div_mod_to_equations. lia.
Qed.

End Memory.

Section Refinement.

Context {U : Type} {I : Impl U}.
Variables (isServer le : bool) (L : Z).
Variable refuses : Z -> bool.
Variable compressed : bool.

(** The handler: it answers on lengths and on compression the same way
    every time, never stops the parser, and refuses what does not fit
    [remainingBytes]. *)
Hypothesis Hrefuse : forall n w u, fst (refusePayloadLength n w u) = refuses n.
Hypothesis Hcomp : forall w u, fst (setCompressed w u) = compressed.
Hypothesis Hgo : forall d l r o f w u, fst (handleFragment d l r o f w u) = false.
Hypothesis Hbig : forall n, refuses n = false -> n < 2 ^ 32.
Hypothesis HL : 0 <= L < 2 ^ 32.

Local Abbreviation run := (Stream.run isServer le refuses compressed).
Local Abbreviation a_start := (Stream.a_start isServer le refuses).
Local Abbreviation h_size := (Stream.h_size isServer).
Local Abbreviation h_invalid := (Stream.h_invalid compressed).
Local Abbreviation h_key := (Stream.h_key isServer).
Local Abbreviation h_payLength := (Stream.h_payLength le).
Local Abbreviation SHORT := (Stream.SHORT isServer).
Local Abbreviation clear_text := (StreamFacts.clear_text isServer).

Lemma call_go (c : ctx U) (d l r o : Z) (f : bool) :
  exists u',
    call_handleFragment c d l r o f
    = (false, mkCtx (cm c) (csrc c) (clen c) (cws c) u'
                (ctrace c ++ [Fragment (load (cm c) d (Z.to_nat l)) l r o f
                                (cws c) false])).
Proof.
  unfold call_handleFragment.
  pose proof (Hgo (load (cm c) d (Z.to_nat l)) l r o f (cws c) (cuser c)) as Hg.
  destruct (handleFragment _ _ _ _ _ _ _) as [stop u']. cbn [fst] in Hg.
  subst stop. eauto.
Qed.

(** The state of the parser and the state of the automaton agree on the
    order of frames. *)
Definition proto_ok (w : WebSocketState) (s : astate) : Prop :=
  opStack w = a_opStack s /\ lastFin w = a_lastFin s /\ opCode w = a_opCode s
  /\ length (opCode w) = 2%nat /\ -1 <= opStack w <= 1.

Lemma set_nth_length (l : list Z) (n : nat) (v : Z) :
  length (set_nth l n v) = length l.
Proof.
  revert n. induction l as [|x l IH]; intros [|n]; cbn [set_nth length]; auto.
Qed.

Lemma set_length (l : list Z) (i v : Z) : length (set l i v) = length l.
Proof. unfold set. destruct (i <? 0); [reflexivity|apply set_nth_length]. Qed.

(** [check_opCode] and the record of FIN are [a_push]. *)
Lemma check_opCode_push (c : ctx U) (s : astate) (hdr : list Z) :
  proto_ok (cws c) s ->
  (cm c) (csrc c) = nth 0 hdr 0 ->
  match a_push s hdr with
  | None => check_opCode c = None
  | Some sp =>
      exists c1, check_opCode c = Some c1
        /\ cm c1 = cm c /\ csrc c1 = csrc c /\ clen c1 = clen c
        /\ cuser c1 = cuser c /\ ctrace c1 = ctrace c
        /\ wantsHead (cws c1) = wantsHead (cws c)
        /\ proto_ok (set_lastFin (isFin (cm c) (csrc c)) (cws c1)) sp
        /\ 0 <= a_opStack sp
  end.
Proof.
  intros (P1 & P2 & P3 & P4 & P5) Hb.
  unfold a_push, check_opCode, getOpCode, isFin, h_op, h_fin.
  rewrite Hb, P1, P2. open_ctx c. cbn [a_opStack a_lastFin a_opCode] in *.
  subst os lf oc.
  destruct (negb (Z.land (nth 0 hdr 0) 15 =? 0)).
  - destruct (Z.eqb_spec (a_opStack s) 1); cbn [orb]; [reflexivity|].
    destruct (negb (a_lastFin s) && _); [reflexivity|].
    eexists. split; [reflexivity|]. ws_simpl. unfold proto_ok. ws_simpl.
    cbn [a_opStack a_lastFin a_opCode]. rewrite set_length.
    rewrite sw2_id by lia. repeat split; auto; lia.
  - destruct (Z.eqb_spec (a_opStack s) (-1)); [reflexivity|].
    eexists. split; [reflexivity|]. ws_simpl. unfold proto_ok. ws_simpl.
    cbn [a_opStack a_lastFin a_opCode]. repeat split; auto; lia.
Qed.


(** ** The automaton on a whole frame and on the start of one *)

Lemma a_push_mode (s sp : astate) (hdr : list Z) :
  a_push s hdr = Some sp -> a_mode sp = a_mode s.
Proof.
  unfold a_push. intros H.
  repeat match type of H with
         | (if ?b then _ else _) = _ => destruct b
         end; inversion H; reflexivity.
Qed.

Lemma clear_text_nil (k : list Z) (i : Z) : clear_text k i [] = [].
Proof. unfold StreamFacts.clear_text. destruct isServer; reflexivity. Qed.

Lemma a_start_whole (s sp : astate) (hdr payload rest : list Z) :
  a_push s hdr = Some sp -> refuses (h_payLength hdr) = false ->
  Z.of_nat (length payload) = h_payLength hdr ->
  (let '(s1, o1) := a_start s hdr in
   let '(s2, o2) := run s1 (payload ++ rest) in (s2, o1 ++ o2))
  = (let '(s1, o1) := a_finish sp (clear_text (h_key hdr) 0 payload) in
     let '(s2, o2) := run s1 rest in (s2, o1 ++ o2)).
Proof.
  intros Hp Hr Hn. unfold Stream.a_start. rewrite Hp, Hr.
  destruct (Z.eqb_spec (h_payLength hdr) 0) as [E|E].
  - destruct payload; [|cbn [length] in Hn; lia].
    rewrite clear_text_nil. reflexivity.
  - rewrite run_app.
    rewrite (run_body_complete isServer le refuses compressed payload _
               (h_payLength hdr) (h_key hdr) []); [|reflexivity|assumption|lia].
    rewrite a_finish_mode. cbn [app length]. change (Z.of_nat 0) with 0.
    destruct (a_finish sp _) as [s1 o1]. destruct (run s1 rest) as [s2 o2].
    reflexivity.
Qed.

Lemma a_start_partial (s sp : astate) (hdr rest : list Z) :
  a_push s hdr = Some sp -> refuses (h_payLength hdr) = false ->
  Z.of_nat (length rest) < h_payLength hdr ->
  (let '(s1, o1) := a_start s hdr in
   let '(s2, o2) := run s1 rest in (s2, o1 ++ o2))
  = (a_set_mode sp (Body (h_payLength hdr - Z.of_nat (length rest)) (h_key hdr)
                      (clear_text (h_key hdr) 0 rest)), []).
Proof.
  intros Hp Hr Hn. unfold Stream.a_start. rewrite Hp, Hr.
  destruct (Z.eqb_spec (h_payLength hdr) 0) as [E|E]; [lia|].
  rewrite (run_body_partial isServer le refuses compressed rest _
             (h_payLength hdr) (h_key hdr) []); [|reflexivity|assumption].
  cbn [app length]. change (Z.of_nat 0) with 0. destruct sp; reflexivity.
Qed.

Lemma gather_app (p : option (Z * bool * list Z)) (t1 t2 : list event) :
  gather p (t1 ++ t2)
  = let '(i1, p1) := gather p t1 in
    let '(i2, p2) := gather p1 t2 in (i1 ++ i2, p2).
Proof.
  revert p. induction t1 as [|e t1 IH]; intros p.
  - cbn [app gather]. destruct (gather p t2). reflexivity.
  - cbn [app gather]. destruct e as [d l r o f w st|w reason].
    + destruct (r =? 0).
      * rewrite IH. destruct (gather None t1) as [i1 p1].
        destruct (gather p1 t2) as [i2 p2]. reflexivity.
      * apply IH.
    + rewrite IH. destruct (gather None t1) as [i1 p1].
      destruct (gather p1 t2) as [i2 p2]. rewrite <- app_assoc. reflexivity.
Qed.


(** ** The branches of the parser, with a handler that goes on *)

Ltac go :=
  match goal with
  | |- context [handleFragment ?d ?l ?r ?o ?f ?w ?u] =>
      let Hg := fresh "Hg" in
      let stop := fresh "stop" in
      let u' := fresh "u'" in
      pose proof (Hgo d l r o f w u) as Hg;
      destruct (handleFragment d l r o f w u) as [stop u'];
      cbn [fst] in Hg; subst stop
  end.

Lemma whole_frame_eq (H n total : Z) (c : ctx U) :
  let w := cws c in
  let fin := isFin (cm c) (csrc c) in
  let m' := if isServer
            then unmaskImpreciseCopyMask le H (cm c) (csrc c + H) (wrap 32 n)
            else cm c in
  let d := if isServer then csrc c else csrc c + H in
  exists u',
    whole_frame isServer le H n total c
    = (false,
       mkCtx m' (csrc c + total) (wrap 32 (clen c - wrap 32 total))
         (set_spillLength 0 (if fin then set_opStack (sw2 (opStack w - 1)) w else w))
         u'
         (ctrace c ++ [Fragment (load m' d (Z.to_nat n)) n 0 (cur_opCode w) fin
                         w false])).
Proof.
  open_ctx c. cbv zeta. unfold whole_frame, call_handleFragment. ws_simpl.
  destruct isServer; ws_simpl; go; destruct (isFin m src); ws_simpl;
    eexists; reflexivity.
Qed.

Lemma partial_frame_eq (H n : Z) (c : ctx U) :
  let fin := isFin (cm c) (csrc c) in
  let rem := wrap 32 (n - clen c + H) in
  let key := load (cm c) (csrc c + H - 4) 4 in
  let m' := if isServer
            then unmaskImprecise8 le 0 (cm c) (csrc c + H)
                   (bit_cast le (key ++ key)) (clen c)
            else cm c in
  let w0 := set_remainingBytes rem (set_wantsHead false (set_spillLength 0 (cws c))) in
  let w := if isServer
           then set_mask (rotateMask (4 - wrap 32 (clen c - H) mod 4) key) w0
           else w0 in
  exists u',
    partial_frame isServer le H n c
    = (true,
       mkCtx m' (csrc c) (clen c) w u'
         (ctrace c ++ [Fragment (load m' (csrc c + H) (Z.to_nat (wrap 32 (clen c - H))))
                         (wrap 32 (clen c - H)) rem (cur_opCode w) fin w false])).
Proof.
  open_ctx c. cbv zeta. unfold partial_frame, call_handleFragment. ws_simpl.
  destruct isServer; ws_simpl; go; eexists; reflexivity.
Qed.

Lemma body_end_eq (c : ctx U) :
  let w := cws c in
  let src := csrc c in
  let m' := if isServer
            then unmask_tail (Z.to_nat (remainingBytes w mod 4))
                   (unmaskInplace (cm c) src
                      (src + Z.shiftr (remainingBytes w) 2 * 4) (mask w))
                   (src + Z.shiftr (remainingBytes w) 2 * 4) (mask w)
            else cm c in
  exists u',
    body_end isServer c
    = (true,
       mkCtx m' (src + remainingBytes w) (wrap 32 (clen c - remainingBytes w))
         (set_wantsHead true
            (if lastFin w then set_opStack (sw2 (opStack w - 1)) w else w))
         u'
         (ctrace c ++ [Fragment (load m' src (Z.to_nat (remainingBytes w)))
                         (remainingBytes w) 0 (cur_opCode w) (lastFin w) w false])).
Proof.
  open_ctx c. cbv zeta. unfold body_end, call_handleFragment. ws_simpl.
  destruct isServer; ws_simpl; go; destruct lf; ws_simpl; eexists; reflexivity.
Qed.

Lemma body_more_eq (c : ctx U) :
  let w := cws c in
  let src := csrc c in
  let m' := if isServer
            then if negb (forallb (Z.eqb 0) (mask w))
                 then if wrap 32 L =? clen c
                      then unmaskAll L (cm c) src (mask w)
                      else unmaskInplace (cm c) src
                             (src + wrap 32 ((Z.shiftr (clen c) 2 + 1) * 4))
                             (mask w)
                 else cm c
            else cm c in
  let w1 := set_remainingBytes (wrap 32 (remainingBytes w - clen c)) w in
  let w2 := if isServer && negb (clen c mod 4 =? 0)
            then set_mask (rotateMask (4 - clen c mod 4) (mask w1)) w1
            else w1 in
  exists u',
    body_more isServer L c
    = (false,
       mkCtx m' src (clen c) w2 u'
         (ctrace c ++ [Fragment (load m' src (Z.to_nat (clen c))) (clen c)
                         (remainingBytes w1) (cur_opCode w1) (lastFin w1) w1 false])).
Proof.
  open_ctx c. cbv zeta. unfold body_more, call_handleFragment. ws_simpl.
  destruct isServer; ws_simpl.
  - destruct (negb (forallb (Z.eqb 0) mk)); [destruct (wrap 32 L =? len)|];
      ws_simpl; go; cbn [andb]; ws_simpl; destruct (negb (len mod 4 =? 0));
      ws_simpl; eexists; reflexivity.
  - go. cbn [andb]. eexists; reflexivity.
Qed.


(** ** The state of the parser against the state of the automaton *)

Definition key_ok (w : WebSocketState) (key : list Z) (off : Z) : Prop :=
  isServer = true ->
  length (mask w) = 4%nat /\ Forall is_byte (mask w)
  /\ forall i, key_at (mask w) i = key_at key (off + i).

(** After a trace [tr] from a live connection, either the connection is
    closed and the automaton dead, or the parser holds what the automaton
    holds: the same part of a header, or the same place in a body. *)
Definition ends (w : WebSocketState) (s : astate)
  (pend : option (Z * bool * list Z)) (tr : list event) : Prop :=
  match a_mode s with
  | Dead => closed tr = true /\ pend = None
  | Head hdr =>
      closed tr = false /\ pend = None /\ proto_ok w s
      /\ wantsHead w = true
      /\ spillLength w = Z.of_nat (length hdr)
      /\ firstn (length hdr) (spill w) = hdr
      /\ Forall is_byte hdr
      /\ quiet isServer compressed hdr
  | Body rem key acc =>
      closed tr = false /\ pend = Some (a_cur s, a_lastFin s, acc)
      /\ proto_ok w s
      /\ wantsHead w = false
      /\ spillLength w = 0
      /\ remainingBytes w = rem /\ 0 < rem < 2 ^ 32
      /\ 0 <= a_opStack s
      /\ key_ok w key (Z.of_nat (length acc))
  end.

Lemma closed_app (t1 t2 : list event) :
  closed (t1 ++ t2) = closed t1 || closed t2.
Proof. apply existsb_app. Qed.

Lemma ends_after (w : WebSocketState) (s : astate)
  (pend : option (Z * bool * list Z)) (t1 t2 : list event) :
  closed t1 = false -> ends w s pend t2 -> ends w s pend (t1 ++ t2).
Proof.
  intros H1. unfold ends. rewrite closed_app, H1. cbn [orb]. auto.
Qed.

Lemma xor_key_ext (k1 k2 : list Z) (i1 i2 : Z) (bs : list Z) :
  (forall i, key_at k1 (i1 + i) = key_at k2 (i2 + i)) ->
  xor_key k1 i1 bs = xor_key k2 i2 bs.
Proof.
  revert i1 i2. induction bs as [|b t IH]; intros i1 i2 H; [reflexivity|].
  cbn [xor_key]. f_equal.
  - specialize (H 0). rewrite !Z.add_0_r in H. rewrite H. reflexivity.
  - apply IH. intros i. specialize (H (1 + i)).
    rewrite !Z.add_assoc in H. exact H.
Qed.

Lemma key_at_mod (k : list Z) (i r : Z) :
  key_at k (i + r mod 4) = key_at k (i + r).
Proof. unfold key_at. rewrite Zplus_mod_idemp_r. reflexivity. Qed.

Lemma xor_key_zero (k : list Z) (i : Z) (bs : list Z) :
  (forall j, key_at k j = 0) -> xor_key k i bs = bs.
Proof.
  intros Hz. revert i. induction bs as [|b t IH]; intros i; [reflexivity|].
  cbn [xor_key]. rewrite Hz, Z.lxor_0_r, IH. reflexivity.
Qed.

(** ** The header as the parser reads it and as the automaton reads it *)

Lemma firstn_skipn_firstn (a b n : nat) (l : list Z) :
  (a + b <= n)%nat -> firstn a (skipn b (firstn n l)) = firstn a (skipn b l).
Proof.
  intros Hn. rewrite skipn_firstn_comm, firstn_firstn.
  f_equal. lia.
Qed.

Lemma h_size_cases (hdr : list Z) :
  h_size hdr = SHORT \/ h_size hdr = Stream.MEDIUM isServer
  \/ h_size hdr = Stream.LONG isServer.
Proof.
  unfold Stream.h_size. destruct (_ <? 126); [auto|]. destruct (_ =? 126); auto.
Qed.

Lemma head_firstn (buf : list Z) :
  h_size buf <= Z.of_nat (length buf) ->
  same_head (firstn (Z.to_nat (h_size buf)) buf) buf.
Proof.
  intros Hs. apply firstn_same_head.
  pose proof (h_size_ge_SHORT isServer buf). pose proof (SHORT_ge_2 isServer). lia.
Qed.

Lemma h_payLength_firstn (buf : list Z) :
  h_size buf <= Z.of_nat (length buf) ->
  h_payLength (firstn (Z.to_nat (h_size buf)) buf) = h_payLength buf.
Proof.
  intros Hs.
  destruct (same_head_fields isServer compressed _ _ (head_firstn buf Hs))
    as (_ & _ & _ & _ & E7).
  unfold Stream.h_payLength. rewrite E7.
  unfold Stream.h_size, Stream.MEDIUM, Stream.LONG, MEDIUM_MESSAGE_HEADER,
    LONG_MESSAGE_HEADER in *.
  destruct (h_len7 buf <? 126); [reflexivity|].
  destruct (h_len7 buf =? 126); rewrite firstn_skipn_firstn;
    try reflexivity; destruct isServer; lia.
Qed.

Lemma h_key_firstn (buf : list Z) :
  h_size buf <= Z.of_nat (length buf) ->
  h_key (firstn (Z.to_nat (h_size buf)) buf) = h_key buf.
Proof.
  intros Hs.
  destruct (same_head_fields isServer compressed _ _ (head_firstn buf Hs))
    as (_ & Es & _).
  assert (G : isServer = true ->
              firstn 4 (skipn (Z.to_nat (h_size buf - 4))
                          (firstn (Z.to_nat (h_size buf)) buf))
              = firstn 4 (skipn (Z.to_nat (h_size buf - 4)) buf)).
  { intros Ei. apply firstn_skipn_firstn.
    pose proof (h_size_ge_SHORT isServer buf) as Hge.
    unfold Stream.SHORT, SHORT_MESSAGE_HEADER in Hge. rewrite Ei in Hge at 1.
    lia. }
  unfold Stream.h_key. rewrite Es. revert G.
  destruct isServer; intros G; [apply G|]; reflexivity.
Qed.

Lemma a_push_same (s : astate) (h1 h2 : list Z) :
  same_head h1 h2 -> a_push s h1 = a_push s h2.
Proof.
  intros Hh.
  destruct (same_head_fields isServer compressed _ _ Hh) as (_ & _ & Eo & Ef & _).
  unfold a_push. rewrite Eo, Ef. reflexivity.
Qed.

Lemma a_start_firstn (s : astate) (buf : list Z) :
  h_size buf <= Z.of_nat (length buf) ->
  a_start s (firstn (Z.to_nat (h_size buf)) buf) = a_start s buf.
Proof.
  intros Hs. unfold Stream.a_start.
  rewrite (a_push_same s _ _ (head_firstn buf Hs)).
  rewrite h_payLength_firstn, h_key_firstn by assumption. reflexivity.
Qed.

Lemma invalid_header_spec (c : ctx U) (buf : list Z) :
  holds (cm c) (csrc c) buf -> (2 <= length buf)%nat ->
  exists u', invalid_header c = (h_invalid buf, with_user c u').
Proof.
  intros Hh Hl.
  pose proof (holds_nth _ _ _ 0 Hh ltac:(lia)) as E0.
  pose proof (holds_nth _ _ _ 1 Hh ltac:(lia)) as E1.
  change (Z.of_nat 0) with 0 in E0. rewrite Z.add_0_r in E0.
  change (Z.of_nat 1) with 1 in E1.
  unfold invalid_header, Stream.h_invalid, rsv1, rsv23, getOpCode, isFin,
    payloadLength, h_op, h_fin, h_len7.
  rewrite E0, E1.
  destruct (negb (Z.land (nth 0 buf 0) 64 =? 0)).
  - pose proof (Hcomp (cws c) (cuser c)) as Hc.
    destruct (setCompressed (cws c) (cuser c)) as [ok u']. cbn [fst] in Hc.
    subst ok. exists u'. cbn [andb]. reflexivity.
  - exists (cuser c). cbn [andb orb]. destruct c; reflexivity.
Qed.


Lemma holds_loadZ (m : mem) (src : Z) (buf : list Z) (a k : Z) :
  holds m src buf -> 0 <= a -> 0 <= k -> a + k <= Z.of_nat (length buf) ->
  load m (src + a) (Z.to_nat k)
  = firstn (Z.to_nat k) (skipn (Z.to_nat a) buf).
Proof.
  intros Hh Ha Hk Hl.
  rewrite <- (holds_load m src buf (Z.to_nat a) (Z.to_nat k) Hh) by lia.
  rewrite Z2Nat.id by lia. reflexivity.
Qed.

Lemma holds_skipnZ (m : mem) (src : Z) (buf : list Z) (a : Z) :
  holds m src buf -> 0 <= a <= Z.of_nat (length buf) ->
  holds m (src + a) (skipn (Z.to_nat a) buf).
Proof.
  intros Hh Ha.
  pose proof (holds_skipn m src buf (Z.to_nat a) Hh ltac:(lia)) as G.
  rewrite Z2Nat.id in G by lia. exact G.
Qed.

(** What a running [consume] needs before a header. *)
Definition framed (c : ctx U) (s : astate) (buf : list Z) : Prop :=
  all_bytes (cm c) /\ holds (cm c) (csrc c) buf
  /\ clen c = Z.of_nat (length buf) /\ Z.of_nat (length buf) < 2 ^ 32
  /\ proto_ok (cws c) s /\ a_mode s = Head [] /\ wantsHead (cws c) = true.

Lemma proto_ok_ext (w w' : WebSocketState) (s : astate) :
  opStack w' = opStack w -> lastFin w' = lastFin w -> opCode w' = opCode w ->
  proto_ok w s -> proto_ok w' s.
Proof. unfold proto_ok. intros -> -> ->. auto. Qed.

Lemma proto_ok_pop (w : WebSocketState) (s : astate) (data : list Z) :
  proto_ok w s -> 0 <= a_opStack s ->
  proto_ok (if a_lastFin s then set_opStack (sw2 (opStack w - 1)) w else w)
    (fst (a_finish s data)).
Proof.
  intros (P1 & P2 & P3 & P4 & P5) H0. unfold a_finish, a_set_mode, a_pop.
  cbn [fst]. destruct (a_lastFin s) eqn:Ef; unfold proto_ok;
    cbn [a_opStack a_lastFin a_opCode]; destruct w; ws_simpl.
  - rewrite P1. rewrite sw2_id by lia.
    repeat split; auto; try lia; try congruence.
  - repeat split; auto; try lia; try congruence.
Qed.

Lemma a_finish_head (s : astate) (data : list Z) :
  a_mode (fst (a_finish s data)) = Head [].
Proof. reflexivity. Qed.

Lemma head_bytes (c : ctx U) (buf : list Z) :
  holds (cm c) (csrc c) buf -> (2 <= length buf)%nat ->
  isFin (cm c) (csrc c) = h_fin buf
  /\ getOpCode (cm c) (csrc c) = h_op buf
  /\ payloadLength (cm c) (csrc c) = h_len7 buf.
Proof.
  intros Hh Hl.
  pose proof (holds_nth _ _ _ 0 Hh ltac:(lia)) as E0.
  pose proof (holds_nth _ _ _ 1 Hh ltac:(lia)) as E1.
  change (Z.of_nat 0) with 0 in E0. rewrite Z.add_0_r in E0.
  change (Z.of_nat 1) with 1 in E1.
  unfold isFin, getOpCode, payloadLength, h_fin, h_op, h_len7.
  rewrite E0, E1. auto.
Qed.

Lemma a_push_fin (s sp : astate) (hdr : list Z) :
  a_push s hdr = Some sp -> a_lastFin sp = h_fin hdr.
Proof.
  unfold a_push. intros H.
  repeat match type of H with
         | (if ?b then _ else _) = _ => destruct b
         end; inversion H; reflexivity.
Qed.

Lemma consumeMessage_protocol (H T n : Z) (c : ctx U) (s : astate) (buf : list Z) :
  framed c s buf -> (2 <= length buf)%nat -> a_push s buf = None ->
  consumeMessage isServer le H T n c = (true, call_forceClose c Err.ERR_PROTOCOL).
Proof.
  intros (Hm & Hh & Hl & Hb & Hok & Hmd & Hw) H2 Hp.
  pose proof (holds_nth _ _ _ 0 Hh ltac:(lia)) as E0.
  change (Z.of_nat 0) with 0 in E0. rewrite Z.add_0_r in E0.
  pose proof (check_opCode_push c s buf Hok E0) as Hc. rewrite Hp in Hc.
  unfold consumeMessage. rewrite Hc. reflexivity.
Qed.

Lemma consumeMessage_refused (H T n : Z) (c : ctx U) (s sp : astate) (buf : list Z) :
  framed c s buf -> (2 <= length buf)%nat -> a_push s buf = Some sp ->
  refuses n = true ->
  exists c1, consumeMessage isServer le H T n c
             = (true, call_forceClose c1 Err.ERR_TOO_BIG_MESSAGE)
             /\ ctrace c1 = ctrace c.
Proof.
  intros (Hm & Hh & Hl & Hb & Hok & Hmd & Hw) H2 Hp Hr.
  pose proof (holds_nth _ _ _ 0 Hh ltac:(lia)) as E0.
  change (Z.of_nat 0) with 0 in E0. rewrite Z.add_0_r in E0.
  pose proof (check_opCode_push c s buf Hok E0) as Hc. rewrite Hp in Hc.
  destruct Hc as (c1 & Ec & C1 & C2 & C3 & C4 & C5 & C6 & C7 & C8).
  unfold consumeMessage. rewrite Ec.
  destruct c1 as [m1 src1 len1 w1 u1 tr1]. ws_simpl.
  match goal with
  | |- context [refusePayloadLength ?a ?b ?d] =>
      pose proof (Hrefuse a b d) as Hq;
      destruct (refusePayloadLength a b d) as [r u2]
  end.
  cbn [fst] in Hq. rewrite Hr in Hq. subst r.
  eexists. split; [reflexivity|]. ws_simpl. exact C5.
Qed.


Lemma server_header (buf : list Z) :
  isServer = true -> h_size buf = 6 \/ 8 <= h_size buf.
Proof.
  intros Ei. destruct (h_size_cases buf) as [E | [E | E]]; rewrite E;
    unfold Stream.SHORT, Stream.MEDIUM, Stream.LONG, SHORT_MESSAGE_HEADER,
      MEDIUM_MESSAGE_HEADER, LONG_MESSAGE_HEADER; rewrite Ei; lia.
Qed.

Lemma key_in_memory (m : mem) (src : Z) (buf : list Z) (H : Z) :
  holds m src buf -> 4 <= H <= Z.of_nat (length buf) ->
  load m (src + H - 4) 4 = firstn 4 (skipn (Z.to_nat (H - 4)) buf).
Proof.
  intros Hh HH. replace (src + H - 4) with (src + (H - 4)) by lia.
  change 4%nat with (Z.to_nat 4). apply holds_loadZ; [assumption|lia..].
Qed.

(** The memory after the unmasking of a whole frame. *)
Lemma whole_memory (m : mem) (src : Z) (buf : list Z) (H n : Z) :
  all_bytes m -> holds m src buf -> H = h_size buf -> 0 <= n < 2 ^ 32 ->
  n + H <= Z.of_nat (length buf) ->
  let m' := if isServer
            then unmaskImpreciseCopyMask le H m (src + H) (wrap 32 n)
            else m in
  let d := if isServer then src else src + H in
  all_bytes m'
  /\ load m' d (Z.to_nat n)
     = clear_text (h_key buf) 0 (firstn (Z.to_nat n) (skipn (Z.to_nat H) buf))
  /\ holds m' (src + (n + H)) (skipn (Z.to_nat (n + H)) buf).
Proof.
  intros Hm Hh HH Hn Hl.
  pose proof (server_header buf) as Hs. rewrite <- HH in Hs.
  pose proof (h_size_ge_SHORT isServer buf) as H2.
  pose proof (SHORT_ge_2 isServer) as H3. rewrite <- HH in H2.
  unfold StreamFacts.clear_text, Stream.h_key. rewrite <- HH. clear HH.
  pose proof (holds_loadZ m src buf H n Hh ltac:(lia) ltac:(lia) ltac:(lia)) as Ep.
  pose proof (holds_skipnZ m src buf (n + H) Hh ltac:(lia)) as Er.
  revert Hs. destruct isServer; intros Hs; cbv zeta.
  - specialize (Hs eq_refl).
    destruct (unmaskImpreciseCopyMask_spec le H m src n Hm Hs Hn) as (A & B & C).
    rewrite (key_in_memory m src buf H Hh) in B by lia.
    split; [exact A|split].
    + rewrite <- Ep. apply load_xor_key. intros i Hi. rewrite Z.add_0_l.
      apply B. lia.
    + apply (holds_ext m); [exact Er|]. intros a Ha. apply C. lia.
  - split; [exact Hm|split; [exact Ep|exact Er]].
Qed.

Lemma cur_opCode_ok (w : WebSocketState) (s : astate) :
  proto_ok w s -> cur_opCode w = a_cur s.
Proof.
  intros (P1 & P2 & P3 & _). unfold cur_opCode, a_cur. rewrite P1, P3.
  reflexivity.
Qed.

Lemma consumeMessage_whole (H T n : Z) (c : ctx U) (s sp : astate) (buf : list Z) :
  framed c s buf -> H = h_size buf ->
  a_push s buf = Some sp -> refuses n = false -> 0 <= n ->
  wrap (if T <? 32 then 32 else T) (n + H) = n + H ->
  n + H <= Z.of_nat (length buf) ->
  let data := clear_text (h_key buf) 0
                (firstn (Z.to_nat n) (skipn (Z.to_nat H) buf)) in
  exists c1 w,
    consumeMessage isServer le H T n c = (false, c1)
    /\ ctrace c1 = ctrace c ++ [Fragment data n 0 (a_cur sp) (a_lastFin sp) w false]
    /\ framed c1 (fst (a_finish sp data)) (skipn (Z.to_nat (n + H)) buf)
    /\ spillLength (cws c1) = 0.
Proof.
  intros (Hm & Hh & Hl & Hb & Hok & Hmd & Hw) HH Hp Hr Hn Ht Hfit data.
  pose proof (h_size_ge_SHORT isServer buf) as G2.
  pose proof (SHORT_ge_2 isServer) as G3.
  destruct (head_bytes c buf Hh ltac:(lia)) as (Ef & _).
  pose proof (a_push_fin _ _ _ Hp) as Efin.
  pose proof (holds_nth _ _ _ 0 Hh ltac:(lia)) as E0.
  change (Z.of_nat 0) with 0 in E0. rewrite Z.add_0_r in E0.
  pose proof (check_opCode_push c s buf Hok E0) as Hc. rewrite Hp in Hc.
  destruct Hc as (c1 & Ec & C1 & C2 & C3 & C4 & C5 & C6 & C7 & C8).
  unfold consumeMessage. rewrite Ec.
  destruct c1 as [m1 src1 len1 w1 u1 tr1]. ws_simpl. subst m1 src1 len1 u1 tr1.
  match goal with
  | |- context [refusePayloadLength ?a ?b ?d] =>
      pose proof (Hrefuse a b d) as Hq;
      destruct (refusePayloadLength a b d) as [r u2]
  end.
  cbn [fst] in Hq. rewrite Hr in Hq. subst r. rewrite Ht.
  destruct (Z.leb_spec (n + H) (clen c)) as [_|Hbad]; [|lia].
  match goal with
  | |- context [whole_frame _ _ ?h ?k ?t ?x] =>
      destruct (whole_frame_eq h k t x) as [u' E]; rewrite E; clear E
  end.
  ws_simpl.
  destruct (whole_memory (cm c) (csrc c) buf H n Hm Hh HH
              ltac:(pose proof (Hbig n Hr); lia) Hfit) as (A & B & C).
  rewrite (cur_opCode_ok _ _ C7). rewrite Ef, <- Efin in *.
  rewrite B. fold data.
  assert (Ew : wrap 32 (n + H) = n + H) by (unfold wrap; apply Z.mod_small; lia).
  rewrite Ew.
  eexists. eexists. split; [reflexivity|]. ws_simpl.
  split; [reflexivity|]. split; [|reflexivity].
  unfold framed. ws_simpl.
  split; [exact A|]. split; [exact C|].
  split; [rewrite length_skipn; unfold wrap; rewrite Z.mod_small by lia; lia|].
  split; [rewrite length_skipn; lia|].
  split.
  - pose proof (proto_ok_pop _ _ data C7 C8) as G.
    revert G. apply proto_ok_ext; destruct (a_lastFin sp); reflexivity.
  - split; [apply a_finish_head|]. destruct (a_lastFin sp); ws_simpl; congruence.
Qed.


(** The memory after the unmasking of the start of a frame. *)
Lemma partial_memory (m : mem) (src : Z) (buf : list Z) (H : Z) :
  all_bytes m -> holds m src buf -> H = h_size buf ->
  H <= Z.of_nat (length buf) ->
  let key := load m (src + H - 4) 4 in
  let m' := if isServer
            then unmaskImprecise8 le 0 m (src + H) (bit_cast le (key ++ key))
                   (Z.of_nat (length buf))
            else m in
  load m' (src + H) (Z.to_nat (Z.of_nat (length buf) - H))
  = clear_text (h_key buf) 0 (skipn (Z.to_nat H) buf)
  /\ (isServer = true ->
      key = h_key buf /\ length key = 4%nat /\ Forall is_byte key).
Proof.
  intros Hm Hh HH Hl.
  pose proof (server_header buf) as Hs. rewrite <- HH in Hs.
  pose proof (h_size_ge_SHORT isServer buf) as H2.
  pose proof (SHORT_ge_2 isServer) as H3. rewrite <- HH in H2.
  unfold StreamFacts.clear_text, Stream.h_key. rewrite <- HH. clear HH.
  pose proof (holds_loadZ m src buf H (Z.of_nat (length buf) - H) Hh
                ltac:(lia) ltac:(lia) ltac:(lia)) as Ep.
  rewrite (firstn_all2 (n := Z.to_nat (Z.of_nat (length buf) - H))) in Ep
    by (rewrite length_skipn; lia).
  revert Hs. destruct isServer; intros Hs; cbv zeta.
  - specialize (Hs eq_refl).
    assert (Hkb : Forall is_byte (load m (src + H - 4) 4))
      by (apply load_bytes, Hm).
    destruct (unmaskImprecise8_inplace le m (src + H) (Z.of_nat (length buf))
                (Z.of_nat (length buf) - H) (load m (src + H - 4) 4) Hm
                (load_length _ _ _) Hkb ltac:(lia)) as (A & B).
    split.
    + rewrite <- Ep. rewrite <- (key_in_memory m src buf H Hh) by lia.
      apply load_xor_key. intros i Hi. rewrite Z.add_0_l. apply B. lia.
    + intros _. split; [apply key_in_memory; [assumption|lia]|].
      split; [apply load_length|exact Hkb].
  - split; [exact Ep|discriminate].
Qed.

Lemma consumeMessage_partial (H T n : Z) (c : ctx U) (s sp : astate) (buf : list Z) :
  framed c s buf -> H = h_size buf -> H <= Z.of_nat (length buf) ->
  a_push s buf = Some sp -> refuses n = false -> 0 <= n ->
  wrap (if T <? 32 then 32 else T) (n + H) = n + H ->
  Z.of_nat (length buf) < n + H ->
  let rest := skipn (Z.to_nat H) buf in
  let data := clear_text (h_key buf) 0 rest in
  let rem := n - Z.of_nat (length rest) in
  exists c1 w,
    consumeMessage isServer le H T n c = (true, c1)
    /\ ctrace c1 = ctrace c ++ [Fragment data (Z.of_nat (length rest)) rem
                                  (a_cur sp) (a_lastFin sp) w false]
    /\ proto_ok (cws c1) sp /\ wantsHead (cws c1) = false
    /\ spillLength (cws c1) = 0 /\ remainingBytes (cws c1) = rem
    /\ key_ok (cws c1) (h_key buf) (Z.of_nat (length data)).
Proof.
  intros (Hm & Hh & Hl & Hb & Hok & Hmd & Hw) HH Hfit Hp Hr Hn Ht Hcut
    rest data rem.
  pose proof (h_size_ge_SHORT isServer buf) as G2.
  pose proof (SHORT_ge_2 isServer) as G3.
  pose proof (Hbig n Hr) as Hn32.
  assert (Hrest : Z.of_nat (length rest) = Z.of_nat (length buf) - H)
    by (unfold rest; rewrite length_skipn; lia).
  destruct (head_bytes c buf Hh ltac:(lia)) as (Ef & _).
  pose proof (a_push_fin _ _ _ Hp) as Efin.
  pose proof (holds_nth _ _ _ 0 Hh ltac:(lia)) as E0.
  change (Z.of_nat 0) with 0 in E0. rewrite Z.add_0_r in E0.
  pose proof (check_opCode_push c s buf Hok E0) as Hc. rewrite Hp in Hc.
  destruct Hc as (c1 & Ec & C1 & C2 & C3 & C4 & C5 & C6 & C7 & C8).
  unfold consumeMessage. rewrite Ec.
  destruct c1 as [m1 src1 len1 w1 u1 tr1]. ws_simpl. subst m1 src1 len1 u1 tr1.
  match goal with
  | |- context [refusePayloadLength ?a ?b ?d] =>
      pose proof (Hrefuse a b d) as Hq;
      destruct (refusePayloadLength a b d) as [r u2]
  end.
  cbn [fst] in Hq. rewrite Hr in Hq. subst r. rewrite Ht.
  destruct (Z.leb_spec (n + H) (clen c)) as [Hbad|_]; [lia|].
  match goal with
  | |- context [partial_frame _ _ ?h ?k ?x] =>
      destruct (partial_frame_eq h k x) as [u' E]; rewrite E; clear E
  end.
  ws_simpl.
  destruct (partial_memory (cm c) (csrc c) buf H Hm Hh HH Hfit) as (B & K).
  cbv zeta in B, K. rewrite <- Hl in B.
  assert (Ew : wrap 32 (clen c - H) = clen c - H)
    by (unfold wrap; apply Z.mod_small; lia).
  assert (Er : wrap 32 (n - clen c + H) = rem)
    by (unfold wrap, rem; rewrite Z.mod_small by lia; lia).
  rewrite Ew, Er, B. fold rest. fold data.
  rewrite Ef, <- Efin in *.
  set (w0 := set_remainingBytes rem
               (set_wantsHead false (set_spillLength 0 (set_lastFin (a_lastFin sp) w1)))).
  assert (Hok0 : proto_ok w0 sp).
  { revert C7. apply proto_ok_ext; destruct w1; reflexivity. }
  set (w := if isServer then set_mask _ w0 else w0).
  assert (Hokw : proto_ok w sp).
  { revert Hok0. apply proto_ok_ext; unfold w; destruct isServer;
      destruct w1; reflexivity. }
  rewrite (cur_opCode_ok _ _ Hokw). replace (clen c - H) with (Z.of_nat (length rest)) by lia.
  eexists. exists w. split; [reflexivity|]. ws_simpl.
  split; [reflexivity|]. split; [exact Hokw|].
  split; [unfold w; destruct isServer; destruct w1; reflexivity|].
  split; [unfold w; destruct isServer; destruct w1; reflexivity|].
  split; [unfold w; destruct isServer; destruct w1; reflexivity|].
  intros Ei. destruct (K Ei) as (K1 & K2 & K3).
  assert (Emask : mask w
                  = rotateMask (4 - (clen c - H) mod 4)
                      (load (cm c) (csrc c + H - 4) 4)).
  { unfold w. rewrite Ei. destruct w1; reflexivity. }
  rewrite Emask.
  destruct (rotateMask_spec (load (cm c) (csrc c + H - 4) 4) ((clen c - H) mod 4)
              K2 ltac:(apply Z.mod_pos_bound; lia)) as (R1 & R2 & R3).
  split; [exact R1|]. split; [exact (R2 K3)|].
  intros i. rewrite R3, key_at_mod, K1. f_equal.
  unfold data. rewrite clear_text_length. lia.
Qed.


Lemma proto_ok_mode (w : WebSocketState) (s : astate) (md : mode) :
  proto_ok w s -> proto_ok w (a_set_mode s md).
Proof. unfold proto_ok. destruct s. cbn [a_set_mode a_opStack a_lastFin a_opCode]. auto. Qed.

Lemma a_push_opStack (s sp : astate) (hdr : list Z) :
  -1 <= a_opStack s <= 1 -> a_push s hdr = Some sp -> 0 <= a_opStack sp.
Proof.
  intros Hs. unfold a_push.
  destruct (negb (h_op hdr =? 0)).
  - destruct (Z.eqb_spec (a_opStack s) 1); cbn [orb]; [discriminate|].
    destruct (negb (a_lastFin s) && _); [discriminate|].
    intros [= <-]. cbn [a_opStack]. rewrite sw2_id by lia. lia.
  - destruct (Z.eqb_spec (a_opStack s) (-1)); [discriminate|].
    intros [= <-]. cbn [a_opStack]. lia.
Qed.

Lemma framed_user (c : ctx U) (s : astate) (buf : list Z) (u : U) :
  framed c s buf -> framed (with_user c u) s buf.
Proof. destruct c. exact (fun H => H). Qed.

Lemma land_15_small (x : Z) : 0 <= x < 16 -> Z.land x 15 = x.
Proof.
  intros Hx. change 15 with (Z.ones 4). rewrite Z.land_ones by lia.
  apply Z.mod_small. change (2 ^ 4) with 16. lia.
Qed.

(** The end of a call inside a header: the bytes are kept in [spill]. *)
Lemma spill_rest_ends (c : ctx U) (s : astate) (buf : list Z) :
  framed c s buf -> Z.of_nat (length buf) < 16 ->
  quiet isServer compressed buf ->
  (buf = [] -> spillLength (cws c) = 0) ->
  ctrace (spill_rest c) = ctrace c
  /\ ends (cws (spill_rest c)) (a_set_mode s (Head buf)) None [].
Proof.
  intros (Hm & Hh & Hl & Hb & Hok & Hmd & Hw) H16 Hq H0.
  pose proof (holds_bytes _ _ _ Hm Hh) as Hbytes.
  unfold spill_rest, ends. cbn [a_mode a_set_mode].
  destruct (Z.eqb_spec (clen c) 0) as [E|E]; cbn [negb].
  - assert (buf = []) by (destruct buf; [reflexivity|cbn [length] in Hl; lia]).
    subst buf. split; [reflexivity|]. specialize (H0 eq_refl).
    cbn [length firstn]. change (Z.of_nat 0) with 0.
    split; [reflexivity|]. split; [reflexivity|].
    split; [apply proto_ok_mode, Hok|]. split; [exact Hw|].
    split; [exact H0|]. split; [reflexivity|]. split; assumption.
  - split; [destruct c; reflexivity|].
    destruct c as [m src len w u tr]. ws_simpl.
    split; [reflexivity|]. split; [reflexivity|].
    split; [apply proto_ok_mode; revert Hok; apply proto_ok_ext; destruct w; reflexivity|].
    split; [destruct w; exact Hw|].
    split; [destruct w; ws_simpl; rewrite land_15_small by lia; exact Hl|].
    split; [|split; assumption].
    destruct w; ws_simpl. rewrite Hl, Nat2Z.id. unfold holds in Hh. rewrite Hh.
    rewrite firstn_app, firstn_all, Nat.sub_diag. cbn [firstn].
    apply app_nil_r.
Qed.

(** A call of [parseNext] that returns, with a trace that holds what the
    automaton finds in the buffer, and a state that agrees with it. *)
Definition parsed (r : option (ctx U)) (c : ctx U) (s : astate) (buf : list Z)
  : Prop :=
  exists c' tr',
    r = Some c' /\ ctrace c' = ctrace c ++ tr'
    /\ exists pend',
        gather None tr' = (snd (run s buf), pend')
        /\ ends (cws c') (fst (run s buf)) pend' tr'.

Lemma run_header_buf (s : astate) (buf : list Z) :
  a_mode s = Head [] -> h_invalid buf = false ->
  h_size buf <= Z.of_nat (length buf) ->
  run s buf
  = let '(s1, o1) := a_start s buf in
    let '(s2, o2) := run s1 (skipn (Z.to_nat (h_size buf)) buf) in
    (s2, o1 ++ o2).
Proof.
  intros Hmd Hi Hs.
  rewrite (run_header isServer le refuses compressed s buf Hmd Hi Hs).
  rewrite a_start_firstn by assumption. reflexivity.
Qed.

Lemma frame_step (fuel : nat) (H T n : Z) (c : ctx U) (s : astate) (buf : list Z) :
  (forall buf' c' s', (length buf' < fuel)%nat -> framed c' s' buf' ->
                      (buf' = [] -> spillLength (cws c') = 0) ->
                      parsed (parseNext isServer le fuel c') c' s' buf') ->
  (length buf <= fuel)%nat ->
  framed c s buf -> h_invalid buf = false ->
  H = h_size buf -> n = h_payLength buf -> H <= Z.of_nat (length buf) ->
  0 <= n ->
  (refuses n = false -> wrap (if T <? 32 then 32 else T) (n + H) = n + H) ->
  parsed (let '(ret, c1) := consumeMessage isServer le H T n c in
          if ret then Some c1 else parseNext isServer le fuel c1) c s buf.
Proof.
  intros IH Hfuel Hfr Hi HH Hn Hfit Hn0 Ht.
  pose proof Hfr as (Hm & Hh & Hl & Hb & Hok & Hmd & Hw).
  pose proof (h_size_ge_SHORT isServer buf) as G2.
  pose proof (SHORT_ge_2 isServer) as G3.
  assert (Hlen2 : (2 <= length buf)%nat) by lia.
  unfold parsed.
  rewrite (run_header_buf s buf Hmd Hi ltac:(lia)). rewrite <- HH.
  destruct (a_push s buf) as [sp|] eqn:Hp.
  - destruct (refuses n) eqn:Hr.
    + destruct (consumeMessage_refused H T n c s sp buf Hfr Hlen2 Hp Hr)
        as (c1 & E & Etr).
      rewrite E. unfold Stream.a_start. rewrite Hp, <- Hn, Hr.
      rewrite run_dead by reflexivity. cbn [fst snd app].
      eexists. eexists. split; [reflexivity|]. ws_simpl. rewrite Etr.
      split; [reflexivity|]. eexists. split; [reflexivity|].
      unfold ends. cbn. auto.
    + specialize (Ht eq_refl).
      destruct (Z.le_gt_cases (n + H) (Z.of_nat (length buf))) as [Hall|Hcut].
      * destruct (consumeMessage_whole H T n c s sp buf Hfr HH Hp Hr Hn0 Ht Hall)
          as (c1 & w & E & Etr & Hfr1 & Hs0).
        rewrite E.
        set (rest := skipn (Z.to_nat H) buf) in *.
        set (data := clear_text (h_key buf) 0 (firstn (Z.to_nat n) rest)) in *.
        set (buf' := skipn (Z.to_nat (n + H)) buf) in *.
        assert (Hrest : rest = firstn (Z.to_nat n) rest ++ buf').
        { unfold buf', rest. rewrite <- (firstn_skipn (Z.to_nat n)) at 1.
          f_equal. rewrite skipn_skipn. f_equal. lia. }
        assert (Hrl : Z.of_nat (length rest) = Z.of_nat (length buf) - H)
          by (unfold rest; rewrite length_skipn; lia).
        rewrite Hrest.
        rewrite (a_start_whole s sp buf (firstn (Z.to_nat n) rest) buf' Hp)
          by (rewrite <- Hn; first [assumption|rewrite length_firstn; lia]).
        fold data.
        destruct (IH buf' c1 (fst (a_finish sp data)))
          as (c' & tr' & E1 & Etr' & pend' & Eg & He);
          [unfold buf'; rewrite length_skipn; lia|exact Hfr1|auto|].
        unfold a_finish in *. cbn [fst snd] in *.
        destruct (run _ buf') as [s2 o2]. cbn [fst snd] in *.
        exists c', (Fragment data n 0 (a_cur sp) (a_lastFin sp) w false :: tr').
        split; [exact E1|].
        split; [rewrite Etr', Etr, <- app_assoc; reflexivity|].
        exists pend'. split.
        -- cbn [gather]. change (0 =? 0) with true. cbv iota. rewrite Eg.
           reflexivity.
        -- apply (ends_after _ _ _ [_]); [reflexivity|exact He].
      * destruct (consumeMessage_partial H T n c s sp buf Hfr HH Hfit Hp Hr Hn0
                    Ht Hcut) as (c1 & w & E & Etr & Q1 & Q2 & Q3 & Q4 & Q5).
        rewrite E.
        set (rest := skipn (Z.to_nat H) buf) in *.
        assert (Hrl : Z.of_nat (length rest) = Z.of_nat (length buf) - H)
          by (unfold rest; rewrite length_skipn; lia).
        rewrite (a_start_partial s sp buf rest Hp)
          by (rewrite <- Hn; first [assumption|lia]).
        rewrite <- Hn. cbn [fst snd].
        eexists. eexists. split; [reflexivity|]. split; [exact Etr|].
        eexists. split.
        -- cbn [gather].
           destruct (Z.eqb_spec (n - Z.of_nat (length rest)) 0) as [Ez|_]; [lia|].
           reflexivity.
        -- unfold ends. cbn [a_mode a_set_mode]. pose proof (Hbig n Hr).
           split; [reflexivity|]. split; [destruct sp; reflexivity|].
           split; [apply proto_ok_mode, Q1|].
           split; [exact Q2|]. split; [exact Q3|]. split; [exact Q4|].
           split; [lia|]. split; [|exact Q5].
           destruct Hok as (O1 & _ & _ & _ & O5).
           pose proof (a_push_opStack s sp buf ltac:(lia) Hp).
           destruct sp; assumption.
  - rewrite (consumeMessage_protocol H T n c s buf Hfr Hlen2 Hp).
    unfold Stream.a_start. rewrite Hp. rewrite run_dead by reflexivity.
    cbn [fst snd app].
    eexists. eexists. split; [reflexivity|]. ws_simpl.
    split; [reflexivity|]. eexists. split; [reflexivity|].
    unfold ends. cbn. auto.
Qed.


Lemma payLength16_bound (bs : list Z) :
  Forall is_byte bs -> length bs = 2%nat ->
  cond_byte_swap le 2 (bit_cast le bs) < 65536.
Proof.
  intros Hb Hl. destruct bs as [|b0 [|b1 [|]]]; try discriminate.
  inversion Hb as [|? ? B0 Hb1]; subst. inversion Hb1 as [|? ? B1 _]; subst.
  rewrite big_endian_u16 by assumption. unfold is_byte in *. lia.
Qed.

Lemma parsed_user (r : option (ctx U)) (c : ctx U) (u : U) (s : astate)
  (buf : list Z) :
  parsed r (with_user c u) s buf -> parsed r c s buf.
Proof. destruct c. exact (fun H => H). Qed.

Lemma quiet_16 (buf : list Z) :
  quiet isServer compressed buf -> Z.of_nat (length buf) < 16.
Proof.
  pose proof (h_size_le_LONG isServer buf) as G.
  pose proof (h_size_ge_SHORT isServer buf) as G2.
  unfold Stream.LONG in G.
  assert (G4 : LONG_MESSAGE_HEADER isServer <= 14)
    by (unfold LONG_MESSAGE_HEADER; destruct isServer; lia).
  assert (G5 : SHORT <= 6)
    by (unfold Stream.SHORT, SHORT_MESSAGE_HEADER; destruct isServer; lia).
  intros [Hq|(_ & Hq)]; lia.
Qed.

Lemma spilled (c : ctx U) (s : astate) (buf : list Z) :
  framed c s buf -> quiet isServer compressed buf ->
  (buf = [] -> spillLength (cws c) = 0) ->
  parsed (Some (spill_rest c)) c s buf.
Proof.
  intros Hfr Hq H0. pose proof Hfr as (Hm & Hh & Hl & Hb & Hok & Hmd & Hw).
  destruct (spill_rest_ends c s buf Hfr (quiet_16 buf Hq) Hq H0) as (Et & He).
  unfold parsed.
  rewrite (run_quiet isServer le refuses compressed s [] buf Hmd Hq).
  cbn [fst snd app].
  exists (spill_rest c), []. split; [reflexivity|].
  split; [rewrite app_nil_r; exact Et|].
  exists None. split; [reflexivity|exact He].
Qed.

Lemma h_short (buf : list Z) :
  h_len7 buf < 126 ->
  h_size buf = SHORT_MESSAGE_HEADER isServer /\ h_payLength buf = h_len7 buf.
Proof.
  intros H7. unfold Stream.h_size, Stream.h_payLength.
  destruct (Z.ltb_spec (h_len7 buf) 126); [split; reflexivity|lia].
Qed.

Lemma h_medium (buf : list Z) :
  h_len7 buf = 126 ->
  h_size buf = MEDIUM_MESSAGE_HEADER isServer
  /\ h_payLength buf = cond_byte_swap le 2 (bit_cast le (firstn 2 (skipn 2 buf))).
Proof.
  intros H7. unfold Stream.h_size, Stream.h_payLength. rewrite H7.
  split; reflexivity.
Qed.

Lemma h_long (buf : list Z) :
  126 < h_len7 buf ->
  h_size buf = LONG_MESSAGE_HEADER isServer
  /\ h_payLength buf = cond_byte_swap le 8 (bit_cast le (firstn 8 (skipn 2 buf))).
Proof.
  intros H7. unfold Stream.h_size, Stream.h_payLength.
  destruct (Z.ltb_spec (h_len7 buf) 126); [lia|].
  destruct (Z.eqb_spec (h_len7 buf) 126); [lia|split; reflexivity].
Qed.

Lemma header_sizes :
  2 <= SHORT_MESSAGE_HEADER isServer <= 6
  /\ 4 <= MEDIUM_MESSAGE_HEADER isServer <= 8
  /\ 10 <= LONG_MESSAGE_HEADER isServer <= 14.
Proof.
  unfold SHORT_MESSAGE_HEADER, MEDIUM_MESSAGE_HEADER, LONG_MESSAGE_HEADER.
  destruct isServer; lia.
Qed.

(** [parseNext] returns, and finds in the buffer what the automaton
    finds. *)
Lemma parseNext_run (fuel : nat) :
  forall buf c s,
    (length buf < fuel)%nat -> framed c s buf ->
    (buf = [] -> spillLength (cws c) = 0) ->
    parsed (parseNext isServer le fuel c) c s buf.
Proof.
  induction fuel as [|fuel IH]; intros buf c s Hf Hfr H0; [lia|].
  pose proof (SHORT_ge_2 isServer) as G3.
  cbn [parseNext].
  destruct (Z.leb_spec (SHORT_MESSAGE_HEADER isServer) (clen c)) as [Hs|Hs].
  2: { apply spilled; [assumption| |assumption].
       destruct Hfr as (_ & _ & Hl & _). left. unfold Stream.SHORT. lia. }
  unfold Stream.SHORT in G3.
  assert (Hl2 : (2 <= length buf)%nat)
    by (destruct Hfr as (_ & _ & Hl & _); lia).
  destruct (invalid_header_spec c buf ltac:(apply Hfr) Hl2) as [u' Ei].
  rewrite Ei. clear Ei.
  apply (parsed_user _ c u').
  apply (framed_user c s buf u') in Hfr.
  destruct c as [m src len w u tr]. unfold with_user in *. ws_simpl. clear H0.
  pose proof Hfr as (Hm & Hh & Hl & Hb & Hok & Hmd & Hw). ws_simpl.
  destruct (head_bytes (mkCtx m src len w u' tr) buf Hh Hl2) as (_ & _ & E7).
  ws_simpl. rewrite E7. clear E7.
  destruct header_sizes as (Z1 & Z2 & Z3).
  assert (Hne : buf = [] -> spillLength w = 0)
    by (intros ->; cbn [length] in Hl2; lia).
  assert (H7 : 0 <= h_len7 buf) by (apply Z.land_nonneg; right; lia).
  set (c0 := mkCtx m src len w u' tr) in *.
  destruct (h_invalid buf) eqn:Hi.
  - unfold parsed.
    rewrite (run_invalid isServer le refuses compressed s buf Hmd
               ltac:(unfold Stream.SHORT; lia) Hi).
    cbn [fst snd].
    eexists. eexists. split; [reflexivity|]. unfold c0. ws_simpl.
    split; [reflexivity|]. eexists. split; [reflexivity|].
    unfold ends. cbn. auto.
  - destruct (Z.ltb_spec (h_len7 buf) 126) as [Hs7|Hs7].
    + destruct (h_short buf Hs7) as (Es & En).
      apply (frame_step fuel _ 8 _ c0 s buf IH); try assumption; try lia.
      intros _. unfold wrap. change (if 8 <? 32 then 32 else 8) with 32.
      apply Z.mod_small. lia.
    + destruct (Z.eqb_spec (h_len7 buf) 126) as [E|E].
      * destruct (h_medium buf E) as (Es & En).
        destruct (Z.ltb_spec len (MEDIUM_MESSAGE_HEADER isServer)) as [Hc|Hc].
        -- apply spilled; [assumption| |assumption].
           right. split; [assumption|lia].
        -- assert (Eload : load m (src + 2) 2 = firstn 2 (skipn 2 buf))
             by (exact (holds_loadZ m src buf 2 2 Hh ltac:(lia) ltac:(lia)
                          ltac:(lia))).
           rewrite Eload.
           assert (Hb2 : Forall is_byte (firstn 2 (skipn 2 buf))).
           { rewrite <- Eload. apply load_bytes, Hm. }
           pose proof (payLength_nonneg le 2 _ Hb2) as N0.
           pose proof (payLength16_bound _ Hb2
                         ltac:(rewrite <- Eload; apply load_length)) as N1.
           apply (frame_step fuel _ 16 _ c0 s buf IH); try assumption; try lia.
           intros _. unfold wrap. change (if 16 <? 32 then 32 else 16) with 32.
           apply Z.mod_small. lia.
      * destruct (h_long buf ltac:(lia)) as (Es & En).
        destruct (Z.ltb_spec len (LONG_MESSAGE_HEADER isServer)) as [Hc|Hc].
        -- apply spilled; [assumption| |assumption].
           right. split; [assumption|lia].
        -- assert (Eload : load m (src + 2) 8 = firstn 8 (skipn 2 buf))
             by (exact (holds_loadZ m src buf 2 8 Hh ltac:(lia) ltac:(lia)
                          ltac:(lia))).
           rewrite Eload.
           assert (Hb2 : Forall is_byte (firstn 8 (skipn 2 buf))).
           { rewrite <- Eload. apply load_bytes, Hm. }
           pose proof (payLength_nonneg le 8 _ Hb2) as N0.
           apply (frame_step fuel _ 64 _ c0 s buf IH); try assumption; try lia.
           intros Hr. pose proof (Hbig _ Hr). unfold wrap.
           change (if 64 <? 32 then 32 else 64) with 64.
           apply Z.mod_small. lia.
Qed.


(** ** The body of a frame that came in more than one read *)

(** The key of the parser is the key of the frame, turned to the place in
    the payload. *)
Definition turned (k key : list Z) (off : Z) : Prop :=
  isServer = true ->
  length k = 4%nat /\ Forall is_byte k
  /\ forall i, key_at k i = key_at key (off + i).

Lemma turned_xor (k key : list Z) (off : Z) (bs : list Z) :
  isServer = true -> turned k key off -> xor_key k 0 bs = xor_key key off bs.
Proof.
  intros Ei Ht. destruct (Ht Ei) as (_ & _ & Hk). apply xor_key_ext.
  intros i. rewrite Z.add_0_l. apply Hk.
Qed.

Lemma body_end_memory (m : mem) (src : Z) (buf k key : list Z) (off rem : Z) :
  all_bytes m -> holds m src buf -> turned k key off ->
  0 <= rem <= Z.of_nat (length buf) ->
  let m' := if isServer
            then unmask_tail (Z.to_nat (rem mod 4))
                   (unmaskInplace m src (src + Z.shiftr rem 2 * 4) k)
                   (src + Z.shiftr rem 2 * 4) k
            else m in
  all_bytes m'
  /\ load m' src (Z.to_nat rem) = clear_text key off (firstn (Z.to_nat rem) buf)
  /\ holds m' (src + rem) (skipn (Z.to_nat rem) buf).
Proof.
  intros Hm Hh Ht Hr.
  pose proof (holds_loadZ m src buf 0 rem Hh ltac:(lia) ltac:(lia) ltac:(lia)) as Ep.
  rewrite Z.add_0_r in Ep. cbn [Z.to_nat skipn] in Ep.
  pose proof (holds_skipnZ m src buf rem Hh ltac:(lia)) as Er.
  pose proof (turned_xor k key off (firstn (Z.to_nat rem) buf)) as Hx.
  unfold StreamFacts.clear_text. revert Ht Hx. unfold turned.
  destruct isServer; intros Ht Hx; cbv zeta.
  - destruct (Ht eq_refl) as (K1 & K2 & K3).
    destruct (body_end_unmasked m src rem k Hm K2 ltac:(lia)) as (A & B & C).
    split; [exact A|split].
    + rewrite <- (Hx eq_refl Ht), <- Ep. apply load_xor_key.
      intros i Hi. rewrite Z.add_0_l. apply B. lia.
    + apply (holds_ext m); [exact Er|]. intros a Ha. apply C. lia.
  - split; [exact Hm|split; [exact Ep|exact Er]].
Qed.

Lemma body_more_memory (m : mem) (src : Z) (buf k key : list Z) (off : Z) :
  all_bytes m -> holds m src buf -> turned k key off ->
  Z.of_nat (length buf) + 4 < 2 ^ 32 ->
  let len := Z.of_nat (length buf) in
  let m' := if isServer
            then if negb (forallb (Z.eqb 0) k)
                 then if wrap 32 L =? len
                      then unmaskAll L m src k
                      else unmaskInplace m src
                             (src + wrap 32 ((Z.shiftr len 2 + 1) * 4)) k
                 else m
            else m in
  load m' src (Z.to_nat len) = clear_text key off buf.
Proof.
  intros Hm Hh Ht Hb.
  assert (Ep : load m src (Z.to_nat (Z.of_nat (length buf))) = buf)
    by (rewrite Nat2Z.id; exact Hh).
  pose proof (turned_xor k key off buf) as Hx.
  unfold StreamFacts.clear_text. revert Ht Hx. unfold turned.
  destruct isServer; intros Ht Hx; cbv zeta; [|exact Ep].
  destruct (Ht eq_refl) as (K1 & K2 & K3).
  rewrite <- (Hx eq_refl Ht).
  destruct (forallb (Z.eqb 0) k) eqn:Hz; cbn [negb].
  - rewrite xor_key_zero by (intros j; apply key_at_zero, Hz). exact Ep.
  - transitivity (xor_key k 0 (load m src (Z.to_nat (Z.of_nat (length buf)))));
      [|rewrite Ep; reflexivity].
    apply load_xor_key. intros i Hi. rewrite Z.add_0_l.
    assert (WL : wrap 32 L = L) by (unfold wrap; apply Z.mod_small; lia).
    assert (WS : wrap 32 ((Z.shiftr (Z.of_nat (length buf)) 2 + 1) * 4)
                 = (Z.shiftr (Z.of_nat (length buf)) 2 + 1) * 4).
    { unfold wrap. apply Z.mod_small. rewrite shiftr_div by lia.
      change (2 ^ 2) with 4. Z.div_mod_to_equations. lia. }
    rewrite WL, WS.
    destruct (Z.eqb_spec L (Z.of_nat (length buf))) as [E|E].
    + destruct (unmaskAll_covers L m src (Z.of_nat (length buf)) k Hm K2
                  ltac:(lia)) as (_ & B).
      apply B. lia.
    + destruct (unmaskInplace_covers m src (Z.of_nat (length buf)) k Hm K2
                  ltac:(lia)) as (_ & B).
      apply B. lia.
Qed.


Lemma body_end_run (c : ctx U) (s : astate) (buf : list Z) (rem : Z)
  (key acc : list Z) :
  all_bytes (cm c) -> holds (cm c) (csrc c) buf ->
  clen c = Z.of_nat (length buf) -> Z.of_nat (length buf) < 2 ^ 32 ->
  proto_ok (cws c) s -> remainingBytes (cws c) = rem -> 0 < rem ->
  0 <= a_opStack s -> key_ok (cws c) key (Z.of_nat (length acc)) ->
  spillLength (cws c) = 0 -> rem <= Z.of_nat (length buf) ->
  let d := clear_text key (Z.of_nat (length acc)) (firstn (Z.to_nat rem) buf) in
  exists c1 w,
    body_end isServer c = (true, c1)
    /\ ctrace c1 = ctrace c ++ [Fragment d rem 0 (a_cur s) (a_lastFin s) w false]
    /\ framed c1 (fst (a_finish s (acc ++ d))) (skipn (Z.to_nat rem) buf)
    /\ spillLength (cws c1) = 0.
Proof.
  intros Hm Hh Hl Hb Hok Hrem Hr0 Hos Hk Hsl Hfit d.
  destruct (body_end_eq c) as [u' E]. rewrite E. clear E.
  destruct (body_end_memory (cm c) (csrc c) buf (mask (cws c)) key
              (Z.of_nat (length acc)) rem Hm Hh Hk ltac:(lia)) as (A & B & C).
  rewrite Hrem in *. rewrite B. fold d.
  rewrite (cur_opCode_ok _ _ Hok).
  pose proof Hok as (_ & Elf & _). rewrite Elf.
  eexists. eexists. split; [reflexivity|]. ws_simpl.
  split; [reflexivity|]. split.
  - unfold framed. ws_simpl.
    split; [exact A|]. split; [exact C|].
    split; [rewrite length_skipn; unfold wrap; rewrite Z.mod_small by lia; lia|].
    split; [rewrite length_skipn; lia|].
    split.
    + pose proof (proto_ok_pop _ _ (acc ++ d) Hok Hos) as G.
      revert G. apply proto_ok_ext; destruct (a_lastFin s); destruct (cws c);
        reflexivity.
    + split; [apply a_finish_head|].
      destruct (a_lastFin s); destruct (cws c); reflexivity.
  - destruct (a_lastFin s); destruct (cws c); exact Hsl.
Qed.

Lemma body_more_run (c : ctx U) (s : astate) (buf : list Z) (rem : Z)
  (key acc : list Z) :
  all_bytes (cm c) -> holds (cm c) (csrc c) buf ->
  clen c = Z.of_nat (length buf) -> Z.of_nat (length buf) + 4 < 2 ^ 32 ->
  proto_ok (cws c) s -> remainingBytes (cws c) = rem -> rem < 2 ^ 32 ->
  key_ok (cws c) key (Z.of_nat (length acc)) ->
  Z.of_nat (length buf) < rem ->
  let d := clear_text key (Z.of_nat (length acc)) buf in
  exists c1 w,
    body_more isServer L c = (false, c1)
    /\ ctrace c1 = ctrace c ++ [Fragment d (Z.of_nat (length buf))
                                  (rem - Z.of_nat (length buf))
                                  (a_cur s) (a_lastFin s) w false]
    /\ proto_ok (cws c1) s
    /\ wantsHead (cws c1) = wantsHead (cws c)
    /\ spillLength (cws c1) = spillLength (cws c)
    /\ remainingBytes (cws c1) = rem - Z.of_nat (length buf)
    /\ key_ok (cws c1) key (Z.of_nat (length (acc ++ d))).
Proof.
  intros Hm Hh Hl Hb Hok Hrem Hr32 Hk Hcut d.
  destruct (body_more_eq c) as [u' E]. rewrite E. clear E.
  pose proof (body_more_memory (cm c) (csrc c) buf (mask (cws c)) key
                (Z.of_nat (length acc)) Hm Hh Hk Hb) as B.
  cbv zeta in B. rewrite <- Hl in B. rewrite B. fold d.
  assert (Er : wrap 32 (remainingBytes (cws c) - clen c)
               = rem - Z.of_nat (length buf))
    by (unfold wrap; rewrite Z.mod_small by lia; lia).
  set (w1 := set_remainingBytes _ (cws c)).
  assert (Hok1 : proto_ok w1 s).
  { revert Hok. apply proto_ok_ext; unfold w1; destruct (cws c); reflexivity. }
  assert (Er1 : remainingBytes w1 = rem - Z.of_nat (length buf))
    by (unfold w1; destruct (cws c); exact Er).
  assert (Em1 : mask w1 = mask (cws c))
    by (unfold w1; destruct (cws c); reflexivity).
  rewrite (cur_opCode_ok _ _ Hok1). rewrite Er1.
  pose proof Hok1 as (_ & Elf & _). rewrite Elf. rewrite Hl.
  set (w2 := if isServer && negb (Z.of_nat (length buf) mod 4 =? 0)
             then set_mask _ w1 else w1).
  exists (mkCtx
            (if isServer
             then if negb (forallb (Z.eqb 0) (mask (cws c)))
                  then if wrap 32 L =? Z.of_nat (length buf)
                       then unmaskAll L (cm c) (csrc c) (mask (cws c))
                       else unmaskInplace (cm c) (csrc c)
                              (csrc c
                               + wrap 32 ((Z.shiftr (Z.of_nat (length buf)) 2 + 1) * 4))
                              (mask (cws c))
                  else cm c
             else cm c)
            (csrc c) (Z.of_nat (length buf)) w2 u'
            (ctrace c ++ [Fragment d (Z.of_nat (length buf))
                            (rem - Z.of_nat (length buf)) (a_cur s)
                            (a_lastFin s) w1 false])), w1.
  split; [reflexivity|]. ws_simpl. split; [reflexivity|].
  assert (Hsame : opStack w2 = opStack w1 /\ lastFin w2 = lastFin w1
                  /\ opCode w2 = opCode w1 /\ wantsHead w2 = wantsHead w1
                  /\ spillLength w2 = spillLength w1
                  /\ remainingBytes w2 = remainingBytes w1).
  { unfold w2. destruct (isServer && _); destruct w1; repeat split. }
  destruct Hsame as (S1 & S2 & S3 & S4 & S5 & S6).
  split; [revert Hok1; apply proto_ok_ext; assumption|].
  split; [rewrite S4; unfold w1; destruct (cws c); reflexivity|].
  split; [rewrite S5; unfold w1; destruct (cws c); reflexivity|].
  split; [rewrite S6; exact Er1|].
  intros Ei. destruct (Hk Ei) as (K1 & K2 & K3).
  rewrite length_app, Nat2Z.inj_add. unfold d at 1.
  rewrite clear_text_length.
  assert (Hrm : 0 <= Z.of_nat (length buf) mod 4 < 4)
    by (apply Z.mod_pos_bound; lia).
  unfold w2. rewrite Ei. cbn [andb].
  destruct (Z.eqb_spec (Z.of_nat (length buf) mod 4) 0) as [E0|E0]; cbn [negb].
  - rewrite Em1. split; [exact K1|]. split; [exact K2|].
    intros i. rewrite K3.
    replace (Z.of_nat (length acc) + Z.of_nat (length buf) + i)
      with (Z.of_nat (length acc) + i + Z.of_nat (length buf)) by lia.
    rewrite (key_at_shift key (Z.of_nat (length acc) + i)
               (Z.of_nat (length buf)) E0).
    reflexivity.
  - assert (Emask : mask (set_mask (rotateMask (4 - Z.of_nat (length buf) mod 4)
                                      (mask w1)) w1)
                    = rotateMask (4 - Z.of_nat (length buf) mod 4) (mask (cws c))).
    { rewrite Em1. destruct w1; reflexivity. }
    rewrite Emask.
    destruct (rotateMask_spec (mask (cws c)) (Z.of_nat (length buf) mod 4) K1 Hrm)
      as (R1 & R2 & R3).
    split; [exact R1|]. split; [exact (R2 K2)|].
    intros i. rewrite R3, key_at_mod, K3. f_equal. lia.
Qed.


(** ** One read, and all the reads *)

Lemma recv_buffer_bytes (junk : mem) (chunk : list Z) :
  all_bytes (recv_buffer junk chunk).
Proof.
  intros a. unfold recv_buffer, wrap, is_byte. apply Z.mod_pos_bound.
  reflexivity.
Qed.

Lemma recv_buffer_holds (junk : mem) (chunk : list Z) :
  Forall is_byte chunk -> holds (recv_buffer junk chunk) 0 chunk.
Proof.
  intros Hb. unfold holds. apply (nth_ext _ _ 0 0).
  - apply load_length.
  - intros i Hi. rewrite load_length in Hi. rewrite load_nth by assumption.
    unfold recv_buffer. rewrite Z.add_0_l.
    destruct (Z.leb_spec 0 (Z.of_nat i)); [|lia].
    destruct (Z.ltb_spec (Z.of_nat i) (Z.of_nat (length chunk))); [|lia].
    cbn [andb]. rewrite Nat2Z.id.
    rewrite Forall_forall in Hb. specialize (Hb _ (nth_In chunk 0 Hi)).
    unfold wrap. apply Z.mod_small. exact Hb.
Qed.

Lemma load_store (m : mem) (a : Z) (bs : list Z) :
  load (store m a bs) a (length bs) = bs.
Proof.
  apply (nth_ext _ _ 0 0).
  - apply load_length.
  - intros i Hi. rewrite load_length in Hi. rewrite load_nth by assumption.
    apply store_in, Hi.
Qed.

Lemma holds_spill (m : mem) (hdr chunk : list Z) :
  holds m 0 chunk ->
  holds (store m (0 - Z.of_nat (length hdr)) hdr) (0 - Z.of_nat (length hdr))
    (hdr ++ chunk).
Proof.
  intros Hh. unfold holds in *. rewrite length_app, load_app, load_store.
  f_equal. rewrite <- Hh at 2.
  replace (0 - Z.of_nat (length hdr) + Z.of_nat (length hdr)) with 0 by lia.
  apply load_ext. intros i Hi. apply store_out. lia.
Qed.

Lemma ends_live (w : WebSocketState) (s : astate)
  (pend : option (Z * bool * list Z)) (tr : list event) :
  ends w s pend tr -> closed tr = false -> ends w s pend [].
Proof.
  unfold ends. intros He Hc. destruct (a_mode s).
  - destruct He as (_ & He). split; [reflexivity|exact He].
  - destruct He as (_ & He). split; [reflexivity|exact He].
  - destruct He as (He & _). congruence.
Qed.

Lemma ends_dead (w : WebSocketState) (s : astate)
  (pend : option (Z * bool * list Z)) (tr : list event) :
  ends w s pend tr -> closed tr = true -> a_mode s = Dead.
Proof.
  unfold ends. intros He Hc. destruct (a_mode s);
    [destruct He as (He & _); congruence..|reflexivity].
Qed.

Lemma ends_flush (w : WebSocketState) (s : astate)
  (pend : option (Z * bool * list Z)) (tr : list event) :
  ends w s pend tr -> flush pend = pending s.
Proof.
  unfold ends, pending. intros He. destruct (a_mode s).
  - destruct He as (_ & -> & _). reflexivity.
  - destruct He as (_ & -> & _). reflexivity.
  - destruct He as (_ & ->). reflexivity.
Qed.

Lemma head_mode (s : astate) (hdr : list Z) :
  a_mode s = Head hdr -> a_set_mode (a_set_mode s (Head [])) (Head hdr) = s.
Proof. destruct s. cbn. intros ->. reflexivity. Qed.

(** One call of [consume] on one read. *)
Lemma receive_run (fuel : nat) (junk : mem) (chunk : list Z)
  (w : WebSocketState) (u : U) (s : astate) (pend : option (Z * bool * list Z)) :
  ends w s pend [] -> Forall is_byte chunk ->
  Z.of_nat (length chunk) + 16 < 2 ^ 32 ->
  (length chunk + 16 < fuel)%nat ->
  exists c',
    receive isServer le L fuel junk chunk w u = Some c'
    /\ exists pend',
        gather pend (ctrace c') = (snd (run s chunk), pend')
        /\ ends (cws c') (fst (run s chunk)) pend' (ctrace c').
Proof.
  intros He Hb H32 Hfuel.
  pose proof (recv_buffer_bytes junk chunk) as Hm.
  pose proof (recv_buffer_holds junk chunk Hb) as Hh.
  set (m := recv_buffer junk chunk) in *.
  unfold receive, consume. fold m.
  unfold ends in He. destruct (a_mode s) as [hdr|rem key acc|] eqn:Hmd.
  - (* in a header *)
    destruct He as (_ & -> & Hok & Hw & Hsl & Hsp & Hhb & Hq).
    rewrite Hw.
    pose proof (quiet_16 hdr Hq) as H16.
    set (s0 := a_set_mode s (Head [])).
    assert (Erun : run s0 (hdr ++ chunk) = run s chunk).
    { rewrite run_app.
      rewrite (run_quiet isServer le refuses compressed s0 [] hdr)
        by (destruct s; reflexivity || exact Hq).
      cbn [app]. unfold s0. rewrite (head_mode s hdr Hmd).
      destruct (run s chunk). reflexivity. }
    assert (Hfr : forall c, cm c = (if negb (spillLength w =? 0)
                                    then store m (0 - spillLength w)
                                           (firstn (Z.to_nat (spillLength w)) (spill w))
                                    else m) ->
                            csrc c = (if negb (spillLength w =? 0)
                                      then 0 - spillLength w else 0) ->
                            clen c = (if negb (spillLength w =? 0)
                                      then wrap 32 (Z.of_nat (length chunk) + spillLength w)
                                      else Z.of_nat (length chunk)) ->
                            cws c = w ->
                            framed c s0 (hdr ++ chunk)).
    { intros c E1 E2 E3 E4. unfold framed. rewrite E1, E2, E3, E4.
      rewrite Hsl, Nat2Z.id, Hsp, length_app, Nat2Z.inj_add.
      destruct (Z.eqb_spec (Z.of_nat (length hdr)) 0) as [E0|E0]; cbn [negb].
      - assert (hdr = []) by (destruct hdr; [reflexivity|cbn [length] in E0; lia]).
        subst hdr. cbn [app length]. change (Z.of_nat 0) with 0.
        split; [exact Hm|]. split; [exact Hh|]. split; [lia|]. split; [lia|].
        split; [apply proto_ok_mode, Hok|]. split; [reflexivity|exact Hw].
      - split; [apply all_bytes_store; assumption|].
        split; [apply holds_spill, Hh|].
        split; [unfold wrap; rewrite Z.mod_small by lia; lia|].
        split; [lia|].
        split; [apply proto_ok_mode, Hok|]. split; [reflexivity|exact Hw]. }
    match goal with
    | |- context [parseNext _ _ _ ?c] =>
        destruct (parseNext_run fuel (hdr ++ chunk) c s0)
          as (c' & tr' & Ep & Etr & pend' & Eg & Hends)
    end.
    + rewrite length_app. lia.
    + apply Hfr; destruct (negb (spillLength w =? 0)); reflexivity.
    + intros Hnil. apply app_eq_nil in Hnil. destruct Hnil as (-> & _).
      destruct (negb (spillLength w =? 0)); exact Hsl.
    + rewrite Erun in *. exists c'. split; [exact Ep|].
      assert (Et0 : ctrace c' = tr').
      { rewrite Etr. destruct (negb (spillLength w =? 0)); reflexivity. }
      rewrite Et0. exists pend'. split; assumption.
  - (* in a body *)
    destruct He as (_ & -> & Hok & Hw & Hsl & Hrem & Hr & Hos & Hk).
    rewrite Hw, Hsl. change (negb (0 =? 0)) with false. cbv iota zeta.
    set (c0 := mkCtx m 0 (Z.of_nat (length chunk)) w u []).
    unfold consumeContinuation. change (clen c0) with (Z.of_nat (length chunk)).
    change (cws c0) with w. rewrite Hrem.
    destruct (Z.leb_spec rem (Z.of_nat (length chunk))) as [Hfit|Hcut].
    + destruct (body_end_run c0 s chunk rem key acc Hm Hh eq_refl ltac:(lia)
                  Hok Hrem ltac:(lia) Hos Hk Hsl Hfit)
        as (c1 & w1 & E & Etr & Hfr & Hs0).
      rewrite E.
      set (d := clear_text key (Z.of_nat (length acc))
                  (firstn (Z.to_nat rem) chunk)) in *.
      destruct (parseNext_run fuel (skipn (Z.to_nat rem) chunk) c1
                  (fst (a_finish s (acc ++ d))))
        as (c' & tr' & Ep & Etr' & pend' & Eg & Hends);
        [rewrite length_skipn; lia|exact Hfr|auto|].
      assert (Erun : run s chunk
                     = (fst (run (fst (a_finish s (acc ++ d)))
                               (skipn (Z.to_nat rem) chunk)),
                        Frame (a_cur s) (a_lastFin s) (acc ++ d) true
                        :: snd (run (fst (a_finish s (acc ++ d)))
                                  (skipn (Z.to_nat rem) chunk)))).
      { rewrite <- (firstn_skipn (Z.to_nat rem) chunk) at 1. rewrite run_app.
        rewrite (run_body_complete isServer le refuses compressed _ s rem key acc
                   Hmd) by (rewrite ?length_firstn; lia).
        fold d. unfold a_finish. cbn [fst snd].
        destruct (run _ (skipn (Z.to_nat rem) chunk)). reflexivity. }
      rewrite Erun. cbn [fst snd].
      exists c'. split; [exact Ep|].
      rewrite Etr', Etr. unfold c0. cbn [ctrace app].
      exists pend'. split.
      * cbn [gather]. change (0 =? 0) with true. cbv iota. rewrite Eg.
        reflexivity.
      * apply (ends_after _ _ _ [_]); [reflexivity|exact Hends].
    + destruct (body_more_run c0 s chunk rem key acc Hm Hh eq_refl ltac:(lia)
                  Hok Hrem ltac:(lia) Hk Hcut)
        as (c1 & w1 & E & Etr & Q1 & Q2 & Q3 & Q4 & Q5).
      rewrite E.
      rewrite (run_body_partial isServer le refuses compressed chunk s rem key
                 acc Hmd Hcut).
      cbn [fst snd].
      exists c1. split; [reflexivity|]. rewrite Etr. unfold c0. cbn [ctrace app].
      eexists. split.
      * cbn [gather].
        destruct (Z.eqb_spec (rem - Z.of_nat (length chunk)) 0) as [Ez|_]; [lia|].
        reflexivity.
      * unfold ends. cbn [a_mode a_set_mode].
        split; [reflexivity|]. split; [destruct s; reflexivity|].
        split; [apply proto_ok_mode, Q1|].
        split; [rewrite Q2; exact Hw|]. split; [rewrite Q3; exact Hsl|].
        split; [exact Q4|]. split; [lia|].
        split; [destruct s; exact Hos|exact Q5].
  - destruct He as (He & _). discriminate.
Qed.


(** A read that fits the arithmetic of [consume] and the fuel. *)
Definition fits (fuel : nat) (chunk : list Z) : Prop :=
  Forall is_byte chunk /\ Z.of_nat (length chunk) + 16 < 2 ^ 32
  /\ (length chunk + 16 < fuel)%nat.

(** All the reads of a connection. *)
Lemma feed_run (fuel : nat) (junk : mem) (chunks : list (list Z)) :
  forall (w : WebSocketState) (u : U) (s : astate)
         (pend : option (Z * bool * list Z)) (tr0 : list event),
    ends w s pend [] -> Forall (fits fuel) chunks ->
    exists w' u' tr,
      feed isServer le L fuel junk chunks w u tr0 = Some (w', u', tr0 ++ tr)
      /\ exists pend',
          gather pend tr = (snd (run s (concat chunks)), pend')
          /\ ends w' (fst (run s (concat chunks))) pend' tr.
Proof.
  induction chunks as [|chunk rest IH]; intros w u s pend tr0 He Hf.
  - exists w, u, []. cbn [feed concat Stream.run fst snd gather].
    rewrite app_nil_r. split; [reflexivity|]. exists pend. split; [reflexivity|].
    exact He.
  - inversion Hf as [|? ? (F1 & F2 & F3) Hf']; subst.
    destruct (receive_run fuel junk chunk w u s pend He F1 F2 F3)
      as (c' & Er & pend1 & Eg & He1).
    cbn [feed concat]. rewrite Er. rewrite run_app.
    destruct (run s chunk) as [s1 o1] eqn:Erun. cbn [fst snd] in *.
    destruct (closed (ctrace c')) eqn:Hc.
    + pose proof (ends_dead _ _ _ _ He1 Hc) as Hd.
      rewrite (run_dead isServer le refuses compressed s1 (concat rest) Hd).
      cbn [fst snd]. rewrite app_nil_r.
      exists (cws c'), (cuser c'), (ctrace c'). split; [reflexivity|].
      exists pend1. split; assumption.
    + pose proof (ends_live _ _ _ _ He1 Hc) as Hl.
      destruct (IH (cws c') (cuser c') s1 pend1 (tr0 ++ ctrace c') Hl Hf')
        as (w' & u' & tr & Ef & pend' & Eg' & He').
      destruct (run s1 (concat rest)) as [s2 o2]. cbn [fst snd] in *.
      exists w', u', (ctrace c' ++ tr).
      split; [rewrite Ef, app_assoc; reflexivity|].
      exists pend'. split.
      * rewrite gather_app, Eg, Eg'. reflexivity.
      * apply ends_after; assumption.
Qed.

Lemma fresh_ends : ends (fresh isServer) a0 None [].
Proof.
  unfold ends. cbn [a_mode a0].
  split; [reflexivity|]. split; [reflexivity|].
  split; [unfold proto_ok; cbn; repeat split; lia|].
  split; [reflexivity|]. split; [reflexivity|]. split; [reflexivity|].
  split; [constructor|]. left. pose proof (SHORT_ge_2 isServer).
  cbn [length]. lia.
Qed.

(** From a fresh state, the reads are parsed to the end, and the trace
    holds the frames of the stream. *)
Lemma feed_frames (fuel : nat) (junk : mem) (chunks : list (list Z)) (u : U) :
  Forall (fits fuel) chunks ->
  exists w' u' tr,
    feed isServer le L fuel junk chunks (fresh isServer) u [] = Some (w', u', tr)
    /\ delivered tr = Stream.frames isServer le refuses compressed (concat chunks).
Proof.
  intros Hf.
  destruct (feed_run fuel junk chunks (fresh isServer) u a0 None [] fresh_ends Hf)
    as (w' & u' & tr & Ef & pend' & Eg & He).
  exists w', u', tr. split; [exact Ef|].
  unfold delivered, Stream.frames. rewrite Eg.
  rewrite (ends_flush _ _ _ _ He).
  destruct (run a0 (concat chunks)). reflexivity.
Qed.

End Refinement.
End Refine.
(* ===================================================================== *)
(** * Reads and payload bytes *)
(* ===================================================================== *)

Module Chunks.
Import Parser Unmask Stream StreamFacts Refine.

(** A handler with a limit on the payload length, no compression, and
    that never asks the parser to stop. *)
Definition capped (limit : Z) : Impl unit := {|
  refusePayloadLength := fun n _ u => (limit <? n, u);
  setCompressed := fun _ u => (false, u);
  handleFragment := fun _ _ _ _ _ _ u => (false, u);
  forceClose := fun _ u _ => u
|}.

Lemma fits_concat (fuel : nat) (chunks : list (list Z)) :
  Forall is_byte (concat chunks) ->
  Z.of_nat (length (concat chunks)) + 16 < 2 ^ 32 ->
  (length (concat chunks) + 16 < fuel)%nat ->
  Forall (fits fuel) chunks.
Proof.
  induction chunks as [|c r IH]; intros Hb H32 Hf; [constructor|].
  cbn [concat] in *. rewrite length_app in *. apply Forall_app in Hb.
  destruct Hb as (Hc & Hr). constructor.
  - split; [exact Hc|]. split; lia.
  - apply IH; [exact Hr|lia..].
Qed.



End Chunks.

(* ===================================================================== *)
(** * Byte order, the validator and the close payload: further facts *)
(* ===================================================================== *)

Module WireFacts.

Lemma le_decode_encode (n : nat) (v : Z) :
  le_decode (le_encode n v) = v mod 256 ^ Z.of_nat n.
Proof.
  revert v. induction n as [|n IH]; intros v.
  - cbn [le_encode le_decode]. change (256 ^ Z.of_nat 0) with 1.
    rewrite Z.mod_1_r. reflexivity.
  - cbn [le_encode le_decode]. rewrite IH.
    rewrite Nat2Z.inj_succ, Z.pow_succ_r by lia.
    assert (Hp : 0 < 256 ^ Z.of_nat n) by (apply Z.pow_pos_nonneg; lia).
    rewrite Z.rem_mul_r by lia. reflexivity.
Qed.

Lemma read_big_endian (le : bool) (bs : list Z) :
  Forall is_byte bs ->
  cond_byte_swap le (length bs) (bit_cast le bs) = le_decode (rev bs).
Proof.
  intros Hb. unfold cond_byte_swap, bit_cast. destruct le; [|reflexivity].
  rewrite le_encode_decode by assumption. reflexivity.
Qed.

Lemma write_big_endian (le : bool) (n : nat) (v : Z) :
  to_bytes le n (cond_byte_swap le n v) = rev (le_encode n v).
Proof.
  unfold cond_byte_swap, to_bytes. destruct le; [|reflexivity].
  pose proof (le_encode_decode (rev (le_encode n v))
                (Forall_rev (le_encode_bytes n v))) as E.
  rewrite length_rev, le_encode_length in E. exact E.
Qed.

(** [cond_byte_swap] with [bit_cast] reads, and [cond_byte_swap] with
    [memcpy] writes, in network byte order on either host: the value read
    from [bs] is the big-endian value of [bs], the bytes written for [v]
    are the big-endian bytes of [v], and what one host writes for an
    [n]-byte [v] another host reads back as [v]. *)
Theorem network_byte_order (le1 le2 : bool) (n : nat) (v : Z) (bs : list Z) :
  Forall is_byte bs ->
  cond_byte_swap le1 (length bs) (bit_cast le1 bs) = le_decode (rev bs)
  /\ to_bytes le1 n (cond_byte_swap le1 n v) = rev (le_encode n v)
  /\ cond_byte_swap le2 n (bit_cast le2 (to_bytes le1 n (cond_byte_swap le1 n v)))
     = v mod 256 ^ Z.of_nat n.
Proof.
  intros Hb. split; [apply read_big_endian, Hb|].
  split; [apply write_big_endian|].
  rewrite write_big_endian.
  pose proof (read_big_endian le2 (rev (le_encode n v))
                (Forall_rev (le_encode_bytes n v))) as E.
  rewrite length_rev, le_encode_length in E. rewrite E.
  rewrite rev_involutive. apply le_decode_encode.
Qed.

Lemma network_byte_order_witness :
  cond_byte_swap true 2 (bit_cast true [0x03; 0xE8]) = 1000
  /\ to_bytes true 2 (cond_byte_swap true 2 1000) = [0x03; 0xE8]
  /\ cond_byte_swap false 2 (bit_cast false (to_bytes true 2 (cond_byte_swap true 2 1000)))
     = 1000.
Proof.
  apply (network_byte_order true false 2 1000 [0x03; 0xE8]).
  repeat (apply Forall_cons; [unfold is_byte; lia|]). apply Forall_nil.
Defined.

(** [isValidUtf8] gives the same answer on a little-endian and on a
    big-endian host, although its fast path reads sixteen bytes as two
    64-bit words. *)
Theorem isValidUtf8_any_host (s : list Z) :
  Forall is_byte s -> Utf8.isValidUtf8 true s = Utf8.isValidUtf8 false s.
Proof.
  intros Hb.
  pose proof (Utf8Valid.isValidUtf8_WellFormed true s Hb) as H1.
  pose proof (Utf8Valid.isValidUtf8_WellFormed false s Hb) as H2.
  destruct (Utf8.isValidUtf8 true s), (Utf8.isValidUtf8 false s); try reflexivity.
  - symmetry. apply H2, H1. reflexivity.
  - apply H1, H2. reflexivity.
Qed.

Lemma isValidUtf8_any_host_witness :
  Utf8.isValidUtf8 true [0x48; 0xC3; 0xA9; 0xE2; 0x82; 0xAC]
  = Utf8.isValidUtf8 false [0x48; 0xC3; 0xA9; 0xE2; 0x82; 0xAC].
Proof.
  apply (isValidUtf8_any_host [0x48; 0xC3; 0xA9; 0xE2; 0x82; 0xAC]).
  repeat (apply Forall_cons; [unfold is_byte; lia|]). apply Forall_nil.
Defined.

Lemma WellFormed_app (s1 s2 : list Z) :
  Utf8.WellFormed s1 -> Utf8.WellFormed s2 -> Utf8.WellFormed (s1 ++ s2).
Proof.
  intros (c1 & F1 & ->) (c2 & F2 & ->). exists (c1 ++ c2).
  split; [apply Forall_app; split; assumption|].
  symmetry. apply flat_map_app.
Qed.

(** Two strings that [isValidUtf8] accepts are accepted when put together:
    the validator keeps no state from one character to the next. *)
Theorem isValidUtf8_app (le : bool) (s1 s2 : list Z) :
  Forall is_byte s1 -> Forall is_byte s2 ->
  Utf8.isValidUtf8 le s1 = true -> Utf8.isValidUtf8 le s2 = true ->
  Utf8.isValidUtf8 le (s1 ++ s2) = true.
Proof.
  intros B1 B2 V1 V2.
  apply (Utf8Valid.isValidUtf8_WellFormed le (s1 ++ s2));
    [apply Forall_app; split; assumption|].
  apply WellFormed_app;
    [apply (Utf8Valid.isValidUtf8_WellFormed le s1)
    |apply (Utf8Valid.isValidUtf8_WellFormed le s2)]; assumption.
Qed.

Lemma isValidUtf8_app_witness :
  Utf8.isValidUtf8 true ([0x48; 0xC3; 0xA9] ++ [0xE2; 0x82; 0xAC]) = true.
Proof.
  apply (isValidUtf8_app true [0x48; 0xC3; 0xA9] [0xE2; 0x82; 0xAC]).
  - repeat (apply Forall_cons; [unfold is_byte; lia|]). apply Forall_nil.
  - repeat (apply Forall_cons; [unfold is_byte; lia|]). apply Forall_nil.
  - vm_compute. reflexivity.
  - vm_compute. reflexivity.
Defined.


(** ** The close payload *)

Lemma format_close_bytes (le : bool) (code : Z) (msg : list Z) :
  0 <= code < 65536 -> code <> 0 -> code <> 1005 -> code <> 1006 ->
  Close.formatClosePayload le code (Some msg) (Z.of_nat (length msg))
  = ([code / 256; code mod 256] ++ msg, wrap 64 (Z.of_nat (length msg) + 2)).
Proof.
  intros Hc H0 H5 H6. unfold Close.formatClosePayload.
  destruct (Z.eqb_spec code 0); [contradiction|].
  destruct (Z.eqb_spec code 1005); [contradiction|].
  destruct (Z.eqb_spec code 1006); [contradiction|].
  cbn [negb andb]. rewrite write_big_endian, Nat2Z.id, firstn_all.
  cbn [le_encode rev app].
  replace (code / 256 mod 256) with (code / 256)
    by (Z.div_mod_to_equations; lia).
  reflexivity.
Qed.

(** What [formatClosePayload] writes for a code that may be sent and a
    reason in UTF-8, [parseClosePayload] reads back as that code and that
    reason, whatever the byte order of the two hosts; and the count
    returned is the number of bytes written. *)
Theorem close_payload_round_trip (le1 le2 : bool) (code : Z) (msg : list Z) :
  Forall is_byte msg -> Utf8.isValidUtf8 le2 msg = true ->
  1000 <= code <= 1003 \/ 1007 <= code <= 1011 \/ 4000 <= code <= 4999 ->
  Z.of_nat (length msg) + 2 < 2 ^ 64 ->
  let out := Close.formatClosePayload le1 code (Some msg) (Z.of_nat (length msg)) in
  snd out = Z.of_nat (length (fst out))
  /\ Close.parseClosePayload le2 (fst out)
     = Close.mkCloseFrame code msg (Z.of_nat (length msg)).
Proof.
  intros Hb Hv Hc Hl. cbv zeta.
  rewrite format_close_bytes by lia. cbn [fst snd].
  split.
  - unfold wrap. rewrite Z.mod_small by lia.
    cbn [app length]. lia.
  - unfold Close.parseClosePayload.
    cbn [app length firstn skipn].
    destruct (Z.leb_spec 2 (Z.of_nat (S (S (length msg))))) as [_|Hbad]; [|lia].
    rewrite big_endian_u16
      by (unfold is_byte; Z.div_mod_to_equations; lia).
    replace (256 * (code / 256) + code mod 256) with code
      by (Z.div_mod_to_equations; lia).
    cbn [Close.code Close.message]. rewrite Hv. cbn [negb orb].
    destruct (Z.ltb_spec code 1000); [lia|].
    destruct (Z.ltb_spec 4999 code); [lia|].
    replace ((1011 <? code) && (code <? 4000)) with false
      by (destruct (Z.ltb_spec 1011 code); destruct (Z.ltb_spec code 4000);
          cbn; lia || reflexivity).
    replace ((1004 <=? code) && (code <=? 1006)) with false
      by (destruct (Z.leb_spec 1004 code); destruct (Z.leb_spec code 1006);
          cbn; lia || reflexivity).
    cbn [orb]. f_equal. lia.
Qed.

Lemma close_payload_round_trip_witness :
  Close.parseClosePayload false
    (fst (Close.formatClosePayload true 1001 (Some [0x62; 0x79; 0x65]) 3))
  = Close.mkCloseFrame 1001 [0x62; 0x79; 0x65] 3.
Proof.
  apply (close_payload_round_trip true false 1001 [0x62; 0x79; 0x65]).
  - repeat (apply Forall_cons; [unfold is_byte; lia|]). apply Forall_nil.
  - vm_compute. reflexivity.
  - lia.
  - vm_compute. reflexivity.
Defined.

(** Whatever bytes it is given, [parseClosePayload] reports a code that a
    close frame may carry, or 1005 (no code) or 1006 (abnormal), with a
    reason that is valid UTF-8 and of the reported length.  It never
    reports a code below 1000, in 1012..3999, above 4999, or 1004. *)
Theorem parseClosePayload_reports (le : bool) (src : list Z) :
  let cf := Close.parseClosePayload le src in
  (Close.code cf = 1005 \/ Close.code cf = 1006
   \/ 1000 <= Close.code cf <= 1003 \/ 1007 <= Close.code cf <= 1011
   \/ 4000 <= Close.code cf <= 4999)
  /\ Utf8.isValidUtf8 le (Close.message cf) = true
  /\ Close.length cf = Z.of_nat (length (Close.message cf)).
Proof.
  cbv zeta. unfold Close.parseClosePayload.
  destruct (Z.leb_spec 2 (Z.of_nat (length src))) as [H2|H2].
  - cbn [Close.code Close.message].
    set (c := cond_byte_swap le 2 (bit_cast le (firstn 2 src))).
    destruct (Utf8.isValidUtf8 le (skipn 2 src)) eqn:Hv; cbn [negb].
    + destruct (Z.ltb_spec c 1000); cbn [orb].
      { split; [auto|]. split; [destruct le; vm_compute; reflexivity|reflexivity]. }
      destruct (Z.ltb_spec 4999 c); cbn [orb].
      { split; [auto|]. split; [destruct le; vm_compute; reflexivity|reflexivity]. }
      destruct (Z.ltb_spec 1011 c); destruct (Z.ltb_spec c 4000); cbn [andb orb];
        try (split; [auto|]; split; [destruct le; vm_compute; reflexivity|reflexivity]);
        destruct (Z.leb_spec 1004 c); destruct (Z.leb_spec c 1006); cbn [andb orb];
        try (split; [auto|]; split; [destruct le; vm_compute; reflexivity|reflexivity]);
        cbn [Close.code Close.message Close.length];
        (split; [lia|]; split; [exact Hv|rewrite length_skipn; lia]).
    + rewrite !orb_true_r.
      split; [auto|]. split; [destruct le; vm_compute; reflexivity|reflexivity].
  - cbn [Close.code Close.message Close.length].
    split; [auto|]. split; [destruct le; reflexivity|reflexivity].
Qed.

(** [formatClosePayload] never appends the codes 0, 1005 and 1006: it
    writes nothing and returns 0.  For any other 16-bit code it writes the
    code in network byte order and then the reason, and returns
    [length + 2]; with a null reason it writes the two bytes of the code
    alone and still returns [length + 2]. *)
Theorem formatClosePayload_writes (le : bool) (code : Z) (msg : list Z) (n : Z) :
  0 <= code < 65536 -> 0 <= n <= Z.of_nat (length msg) -> n + 2 < 2 ^ 64 ->
  (code = 0 \/ code = 1005 \/ code = 1006 ->
   Close.formatClosePayload le code (Some msg) n = ([], 0)
   /\ Close.formatClosePayload le code None n = ([], 0))
  /\ (code <> 0 -> code <> 1005 -> code <> 1006 ->
      Close.formatClosePayload le code (Some msg) n
      = ([code / 256; code mod 256] ++ firstn (Z.to_nat n) msg, n + 2)
      /\ Close.formatClosePayload le code None n
         = ([code / 256; code mod 256], n + 2)).
Proof.
  intros Hc Hn Hl. unfold Close.formatClosePayload. split.
  - intros [-> | [-> | ->]]; split; reflexivity.
  - intros H0 H5 H6.
    destruct (Z.eqb_spec code 0); [contradiction|].
    destruct (Z.eqb_spec code 1005); [contradiction|].
    destruct (Z.eqb_spec code 1006); [contradiction|].
    cbn [negb andb]. rewrite write_big_endian. cbn [le_encode rev app].
    replace (code / 256 mod 256) with (code / 256)
      by (Z.div_mod_to_equations; lia).
    unfold wrap. rewrite (Z.mod_small (n + 2)) by lia. split; reflexivity.
Qed.

Lemma formatClosePayload_writes_witness :
  Close.formatClosePayload true 1000 (Some [0x62; 0x79; 0x65]) 3
  = ([0x03; 0xE8; 0x62; 0x79; 0x65], 5)
  /\ Close.formatClosePayload true 1000 None 3 = ([0x03; 0xE8], 5).
Proof.
  apply (formatClosePayload_writes true 1000 [0x62; 0x79; 0x65] 3);
    cbn [length]; lia.
Defined.

End WireFacts.

(* ===================================================================== *)
(** * The unmasking loops: what they write *)
(* ===================================================================== *)

Module UnmaskFacts.
Import Parser Stream Unmask.

(** [unmaskImprecise8<D>(src, mask, length)] with the key twice in [mask]
    takes [length / 8 + 1] blocks of eight bytes: it reads them at [src]
    and writes them, unmasked, at [src - D].  That is between one and eight
    bytes more than [length]; nothing else is written. *)
Theorem unmaskImprecise8_writes (le : bool) (D : Z) (k : list Z) (m : mem)
  (src len : Z) :
  0 <= D -> length k = 4%nat -> Forall is_byte k -> all_bytes m -> 0 <= len ->
  let m' := unmaskImprecise8 le D m src (bit_cast le (k ++ k)) len in
  let n := 8 * (len / 8 + 1) in
  len < n <= len + 8
  /\ all_bytes m'
  /\ (forall i, 0 <= i < n -> m' (src - D + i) = Z.lxor (m (src + i)) (key_at k i))
  /\ (forall a, a < src - D \/ src - D + n <= a -> m' a = m a).
Proof.
  intros HD Hk Hkb Hm Hl. cbv zeta. unfold unmaskImprecise8.
  rewrite Z.shiftr_div_pow2 by lia. change (2 ^ 3) with 8.
  destruct (unmaskImprecise8_loop_spec le D k (Z.to_nat (len / 8 + 1)) m src
              HD Hk Hkb Hm) as (A & B & C).
  assert (Hq : 0 <= len / 8) by (apply Z.div_pos; lia).
  rewrite Z2Nat.id in B, C by lia.
  split; [Z.div_mod_to_equations; lia|].
  split; [exact A|]. split; assumption.
Qed.

Lemma unmaskImprecise8_writes_witness :
  unmaskImprecise8 true 0
    (fun a => if (0 <=? a) && (a <? 3) then 0x41 + a else 0) 0
    (bit_cast true ([1; 2; 3; 4] ++ [1; 2; 3; 4])) 3 1 = 0x40
  /\ unmaskImprecise8 true 0
       (fun a => if (0 <=? a) && (a <? 3) then 0x41 + a else 0) 0
       (bit_cast true ([1; 2; 3; 4] ++ [1; 2; 3; 4])) 3 8 = 0.
Proof.
  set (m := fun a => if (0 <=? a) && (a <? 3) then 0x41 + a else 0).
  assert (Hm : all_bytes m).
  { intros a. unfold m, is_byte.
    destruct (Z.leb_spec 0 a); destruct (Z.ltb_spec a 3); cbn [andb]; lia. }
  pose proof (unmaskImprecise8_writes true 0 [1; 2; 3; 4] m 0 3
              ltac:(lia) ltac:(reflexivity)
              ltac:(repeat (apply Forall_cons; [unfold is_byte; lia|]);
                    apply Forall_nil)
              Hm ltac:(lia)) as T.
  cbv zeta in T. destruct T as (_ & _ & W & K).
  split.
  - exact (W 1 ltac:(Z.div_mod_to_equations; lia)).
  - exact (K 8 ltac:(Z.div_mod_to_equations; lia)).
Defined.

(** [unmaskImpreciseCopyMask<H>(src, length)], for a payload at [src] that
    follows a header of [H] bytes ending with the key: the payload is
    written, unmasked with the key, over the header, from [src - H] on;
    nothing is written below [src - H], and nothing from the end of the
    payload on, so the frame that follows is left as it came. *)
Theorem unmaskImpreciseCopyMask_writes (le : bool) (H : Z) (m : mem) (src n : Z) :
  all_bytes m -> H = 6 \/ 8 <= H -> 0 <= n ->
  let key := [m (src - 4); m (src - 3); m (src - 2); m (src - 1)] in
  let m' := unmaskImpreciseCopyMask le H m src n in
  all_bytes m'
  /\ (forall i, 0 <= i < n -> m' (src - H + i) = Z.lxor (m (src + i)) (key_at key i))
  /\ (forall a, a < src - H \/ src + n <= a -> m' a = m a).
Proof.
  intros Hm HH Hn. cbv zeta.
  set (k := [m (src - 4); m (src - 3); m (src - 2); m (src - 1)]).
  assert (Hkb : Forall is_byte k) by (repeat constructor; apply Hm).
  unfold unmaskImpreciseCopyMask. fold k.
  destruct (Z.eqb_spec H 6) as [E|E]; cbn [negb].
  - unfold unmaskImprecise4. rewrite Z.shiftr_div_pow2 by lia.
    change (2 ^ 2) with 4.
    destruct (unmaskImprecise4_loop_spec le H k (Z.to_nat (n / 4 + 1)) m src)
      as (A & B & C); [lia|reflexivity|exact Hkb|exact Hm|].
    assert (Hq : 0 <= n / 4) by (apply Z.div_pos; lia).
    rewrite Z2Nat.id in B, C by lia.
    split; [exact A|split].
    + intros i Hi. apply B. Z.div_mod_to_equations. lia.
    + intros a Ha. apply C. Z.div_mod_to_equations. lia.
  - change (bit_cast le [m (src - 4); m (src - 3); m (src - 2); m (src - 1);
                         m (src - 4); m (src - 3); m (src - 2); m (src - 1)])
      with (bit_cast le (k ++ k)).
    unfold unmaskImprecise8. rewrite Z.shiftr_div_pow2 by lia.
    change (2 ^ 3) with 8.
    destruct (unmaskImprecise8_loop_spec le H k (Z.to_nat (n / 8 + 1)) m src)
      as (A & B & C); [lia|reflexivity|exact Hkb|exact Hm|].
    assert (Hq : 0 <= n / 8) by (apply Z.div_pos; lia).
    rewrite Z2Nat.id in B, C by lia.
    split; [exact A|split].
    + intros i Hi. apply B. Z.div_mod_to_equations. lia.
    + intros a Ha. apply C. Z.div_mod_to_equations. lia.
Qed.

Lemma unmaskImpreciseCopyMask_writes_witness :
  unmaskImpreciseCopyMask true 6
    (fun a => if (0 <=? a) && (a <? 20) then a else 0) 6 5 0 = Z.lxor 6 2
  /\ unmaskImpreciseCopyMask true 6
       (fun a => if (0 <=? a) && (a <? 20) then a else 0) 6 5 11 = 11.
Proof.
  set (m := fun a => if (0 <=? a) && (a <? 20) then a else 0).
  assert (Hm : all_bytes m).
  { intros a. unfold m, is_byte.
    destruct (Z.leb_spec 0 a); destruct (Z.ltb_spec a 20); cbn [andb]; lia. }
  pose proof (unmaskImpreciseCopyMask_writes true 6 m 6 5 Hm ltac:(lia) ltac:(lia)) as T.
  cbv zeta in T. destruct T as (_ & W & K).
  split.
  - exact (W 0 ltac:(Z.div_mod_to_equations; lia)).
  - exact (K 11 ltac:(Z.div_mod_to_equations; lia)).
Defined.

(** [unmaskInplace(data, stop, mask)] unmasks whole groups of four bytes
    from [data] on, up to three bytes past [stop]; nothing else is
    written; and done twice it gives the memory back as it was. *)
Theorem unmaskInplace_writes (k : list Z) (m : mem) (data stop : Z) :
  Forall is_byte k -> all_bytes m -> data <= stop ->
  let m' := unmaskInplace m data stop k in
  let n := 4 * ((stop - data + 3) / 4) in
  stop - data <= n < stop - data + 4
  /\ (forall i, 0 <= i < n -> m' (data + i) = Z.lxor (m (data + i)) (key_at k i))
  /\ (forall a, a < data \/ data + n <= a -> m' a = m a)
  /\ (forall a, unmaskInplace m' data stop k a = m a).
Proof.
  intros Hkb Hm Hs. cbv zeta. unfold unmaskInplace.
  assert (Hq : 0 <= (stop - data + 3) / 4) by (apply Z.div_pos; lia).
  destruct (unmaskInplace_loop_spec k (Z.to_nat ((stop - data + 3) / 4)) m data
              Hkb Hm) as (A & B & C).
  set (m1 := unmaskInplace_loop (Z.to_nat ((stop - data + 3) / 4)) m data k) in *.
  destruct (unmaskInplace_loop_spec k (Z.to_nat ((stop - data + 3) / 4)) m1 data
              Hkb A) as (A2 & B2 & C2).
  rewrite Z2Nat.id in B, C, B2, C2 by lia.
  split; [Z.div_mod_to_equations; lia|].
  split; [exact B|]. split; [exact C|].
  intros a.
  destruct (Z.lt_ge_cases a data) as [Hlo|Hlo]; [rewrite C2, C by lia; reflexivity|].
  destruct (Z.lt_ge_cases a (data + 4 * ((stop - data + 3) / 4))) as [Hhi|Hhi];
    [|rewrite C2, C by lia; reflexivity].
  replace a with (data + (a - data)) by lia.
  rewrite B2, B by lia. rewrite Z.lxor_assoc, Z.lxor_nilpotent, Z.lxor_0_r.
  reflexivity.
Qed.

Lemma unmaskInplace_writes_witness :
  unmaskInplace (fun a => if (0 <=? a) && (a <? 5) then 0x41 + a else 0)
    0 5 [1; 2; 3; 4] 7 = 4
  /\ unmaskInplace
       (unmaskInplace (fun a => if (0 <=? a) && (a <? 5) then 0x41 + a else 0)
          0 5 [1; 2; 3; 4]) 0 5 [1; 2; 3; 4] 7 = 0.
Proof.
  set (m := fun a => if (0 <=? a) && (a <? 5) then 0x41 + a else 0).
  assert (Hm : all_bytes m).
  { intros a. unfold m, is_byte.
    destruct (Z.leb_spec 0 a); destruct (Z.ltb_spec a 5); cbn [andb]; lia. }
  pose proof (unmaskInplace_writes [1; 2; 3; 4] m 0 5
              ltac:(repeat (apply Forall_cons; [unfold is_byte; lia|]);
                    apply Forall_nil)
              Hm ltac:(lia)) as T.
  cbv zeta in T. destruct T as (_ & W & _ & T).
  split.
  - exact (W 7 ltac:(Z.div_mod_to_equations; lia)).
  - exact (T 7).
Defined.

(** [unmaskAll(data, mask)] unmasks [LIBUS_RECV_BUFFER_LENGTH] bytes rounded
    up to a multiple of sixteen, and writes nothing else. *)
Theorem unmaskAll_writes (L : Z) (k : list Z) (m : mem) (data : Z) :
  Forall is_byte k -> all_bytes m -> 0 <= L ->
  let m' := unmaskAll L m data k in
  let n := 16 * ((L + 15) / 16) in
  L <= n < L + 16
  /\ (forall i, 0 <= i < n -> m' (data + i) = Z.lxor (m (data + i)) (key_at k i))
  /\ (forall a, a < data \/ data + n <= a -> m' a = m a).
Proof.
  intros Hkb Hm HL. cbv zeta. unfold unmaskAll.
  assert (Hq : 0 <= (L + 15) / 16) by (apply Z.div_pos; lia).
  destruct (unmaskAll_loop_spec k (Z.to_nat ((L + 15) / 16)) m data Hkb Hm)
    as (A & B & C).
  rewrite Z2Nat.id in B, C by lia.
  split; [Z.div_mod_to_equations; lia|]. split; assumption.
Qed.

Lemma unmaskAll_writes_witness :
  unmaskAll 20 (fun _ => 0) 0 [1; 2; 3; 4] 31 = 4
  /\ unmaskAll 20 (fun _ => 0) 0 [1; 2; 3; 4] 32 = 0.
Proof.
  pose proof (unmaskAll_writes 20 [1; 2; 3; 4] (fun _ => 0) 0
              ltac:(repeat (apply Forall_cons; [unfold is_byte; lia|]);
                    apply Forall_nil)
              ltac:(intros a; unfold is_byte; lia) ltac:(lia)) as T.
  cbv zeta in T. destruct T as (_ & W & K).
  split.
  - exact (W 31 ltac:(Z.div_mod_to_equations; lia)).
  - exact (K 32 ltac:(Z.div_mod_to_equations; lia)).
Defined.

Lemma rotateMask_mod (o : Z) (k : list Z) :
  rotateMask o k = rotateMask (o mod 4) k.
Proof.
  unfold rotateMask. rewrite !(Zplus_mod_idemp_r o). reflexivity.
Qed.

Lemma mod4_cases (o : Z) : o mod 4 = 0 \/ o mod 4 = 1 \/ o mod 4 = 2 \/ o mod 4 = 3.
Proof. pose proof (Z.mod_pos_bound o 4 ltac:(lia)). lia. Qed.

(** [rotateMask(offset, mask)] moves byte [i] of a four-byte mask to place
    [(i + offset) mod 4].  So a turn by a multiple of four changes nothing,
    and a turn by [a] after a turn by [b] is a turn by [a + b]. *)
Theorem rotateMask_turns (k : list Z) (a b : Z) :
  length k = 4%nat ->
  (forall i, 0 <= i < 4 -> get (rotateMask a k) ((i + a) mod 4) = get k i)
  /\ rotateMask (4 * a) k = k
  /\ rotateMask a (rotateMask b k) = rotateMask (a + b) k.
Proof.
  intros Hk. destruct k as [|k0 [|k1 [|k2 [|k3 [|]]]]]; try discriminate.
  split; [|split].
  - intros i Hi. rewrite rotateMask_mod. rewrite <- Zplus_mod_idemp_r.
    assert (Hc : i = 0 \/ i = 1 \/ i = 2 \/ i = 3) by lia.
    destruct (mod4_cases a) as [-> | [-> | [-> | ->]]];
      destruct Hc as [-> | [-> | [-> | ->]]]; reflexivity.
  - rewrite rotateMask_mod.
    replace (4 * a mod 4) with 0 by (Z.div_mod_to_equations; lia).
    reflexivity.
  - rewrite (rotateMask_mod a), (rotateMask_mod b), (rotateMask_mod (a + b)).
    rewrite Zplus_mod.
    destruct (mod4_cases a) as [-> | [-> | [-> | ->]]];
      destruct (mod4_cases b) as [-> | [-> | [-> | ->]]]; reflexivity.
Qed.

Lemma rotateMask_turns_witness :
  rotateMask 3 (rotateMask 2 [10; 11; 12; 13]) = rotateMask (3 + 2) [10; 11; 12; 13].
Proof.
  refine (proj2 (proj2 (rotateMask_turns [10; 11; 12; 13] 3 2 _))).
  reflexivity.
Defined.

End UnmaskFacts.

(* ===================================================================== *)
(** * The parser with any handler: errors, short reads, and what it keeps *)
(* ===================================================================== *)

Module ParserFacts.
Import Parser Stream Unmask.
Import OpStack.

Section AnyHandler.

Context {U : Type} {I : Impl U}.
Variables (isServer le : bool) (L : Z).

Lemma recv_buffer_at (junk : mem) (chunk : list Z) (i : nat) :
  Forall is_byte chunk -> (i < length chunk)%nat ->
  recv_buffer junk chunk (Z.of_nat i) = nth i chunk 0.
Proof.
  intros Hb Hi. unfold recv_buffer.
  destruct (Z.leb_spec 0 (Z.of_nat i)); [|lia].
  destruct (Z.ltb_spec (Z.of_nat i) (Z.of_nat (length chunk))); [|lia].
  cbn [andb]. rewrite Nat2Z.id.
  rewrite Forall_forall in Hb. specialize (Hb _ (nth_In chunk 0 Hi)).
  unfold wrap. apply Z.mod_small. exact Hb.
Qed.

(** The header test, with the answer of [setCompressed] in it. *)
Lemma invalid_header_eq (c : ctx U) :
  let m := cm c in
  let src := csrc c in
  exists u',
    invalid_header c
    = ((rsv1 m src && negb (fst (setCompressed (cws c) (cuser c))))
       || rsv23 m src
       || ((2 <? getOpCode m src) && (getOpCode m src <? 8))
       || (10 <? getOpCode m src)
       || ((2 <? getOpCode m src)
           && (negb (isFin m src) || (125 <? payloadLength m src))),
       mkCtx (cm c) (csrc c) (clen c) (cws c) u' (ctrace c)).
Proof.
  cbv zeta. unfold invalid_header. destruct (rsv1 (cm c) (csrc c)).
  - destruct (setCompressed (cws c) (cuser c)) as [ok u']. exists u'.
    cbn [fst andb]. destruct c; reflexivity.
  - exists (cuser c). cbn [andb]. destruct c; reflexivity.
Qed.

Lemma head_of_read (junk : mem) (chunk : list Z) :
  Forall is_byte chunk -> (2 <= length chunk)%nat ->
  let m := recv_buffer junk chunk in
  isFin m 0 = h_fin chunk /\ getOpCode m 0 = h_op chunk
  /\ payloadLength m 0 = h_len7 chunk
  /\ rsv1 m 0 = negb (Z.land (nth 0 chunk 0) 64 =? 0)
  /\ rsv23 m 0 = negb (Z.land (nth 0 chunk 0) 48 =? 0).
Proof.
  intros Hb Hl. cbv zeta.
  pose proof (recv_buffer_at junk chunk 0 Hb ltac:(lia)) as E0.
  pose proof (recv_buffer_at junk chunk 1 Hb ltac:(lia)) as E1.
  change (Z.of_nat 0) with 0 in E0. change (Z.of_nat 1) with 1 in E1.
  unfold isFin, getOpCode, payloadLength, rsv1, rsv23, h_fin, h_op, h_len7.
  change (0 + 1) with 1. rewrite E0, E1. auto.
Qed.

End AnyHandler.




(** A frame out of order - a Continuation frame with no message under way,
    a frame other than Continuation when two are already under way, or a
    Text frame before the message under way has had its FIN - is answered
    by one [forceClose(ERR_PROTOCOL)] and nothing else, and the state is
    left as it was. *)
Theorem frame_out_of_order_closes {U : Type} {I : Impl U} (isServer le : bool)
  (L : Z) (fuel : nat) (junk : mem) (chunk : list Z) (ws : WebSocketState)
  (u : U) :
  wantsHead ws = true -> spillLength ws = 0 ->
  Forall is_byte chunk ->
  Stream.h_size isServer chunk <= Z.of_nat (length chunk) ->
  Stream.h_invalid (fst (setCompressed ws u)) chunk = false ->
  (h_op chunk = 0 /\ opStack ws = -1)
  \/ (h_op chunk <> 0
      /\ (opStack ws = 1 \/ (lastFin ws = false /\ h_op chunk < 2))) ->
  exists c,
    receive isServer le L (S fuel) junk chunk ws u = Some c
    /\ ctrace c = [ForceClose ws Err.ERR_PROTOCOL]
    /\ cws c = ws.
Proof.
  intros Hw Hs Hb Hl Hi Hord.
  pose proof (StreamFacts.h_size_ge_SHORT isServer chunk) as G2.
  pose proof (StreamFacts.SHORT_ge_2 isServer) as G3.
  unfold Stream.SHORT in *.
  assert (H2 : (2 <= length chunk)%nat) by lia.
  unfold receive, consume. rewrite Hs, Hw. change (negb (0 =? 0)) with false.
  cbv iota zeta. cbn [parseNext clen].
  destruct (Z.leb_spec (SHORT_MESSAGE_HEADER isServer) (Z.of_nat (length chunk)));
    [|lia].
  match goal with
  | |- context [invalid_header ?c] =>
      destruct (invalid_header_eq c) as [u' E]; rewrite E; clear E
  end.
  cbn [cm csrc cws cuser clen ctrace].
  destruct (head_of_read junk chunk Hb H2) as (E1 & E2 & E3 & E4 & E5).
  rewrite E1, E2, E3, E4, E5.
  unfold Stream.h_invalid in Hi. rewrite Hi.
  assert (Hcm : forall Hd T n,
            consumeMessage isServer le Hd T n
              (mkCtx (recv_buffer junk chunk) 0 (Z.of_nat (length chunk)) ws u' [])
            = (true, call_forceClose
                       (mkCtx (recv_buffer junk chunk) 0 (Z.of_nat (length chunk))
                          ws u' []) Err.ERR_PROTOCOL)).
  { intros Hd T n. unfold consumeMessage, check_opCode.
    cbn [cm csrc cws]. rewrite E2.
    destruct Hord as [(Ho & Hos) | (Ho & Hcase)].
    - rewrite Ho, Hos. reflexivity.
    - destruct (Z.eqb_spec (h_op chunk) 0); [contradiction|]. cbn [negb].
      destruct Hcase as [Hos | (Hlf & Hlt)].
      + rewrite Hos. reflexivity.
      + rewrite Hlf. destruct (Z.ltb_spec (h_op chunk) 2); [|lia].
        cbn [negb andb]. rewrite orb_true_r. reflexivity. }
  unfold Stream.h_size, Stream.SHORT, Stream.MEDIUM, Stream.LONG in Hl.
  destruct (h_len7 chunk <? 126).
  - rewrite Hcm. eexists. split; [reflexivity|]. split; reflexivity.
  - destruct (h_len7 chunk =? 126).
    + destruct (Z.ltb_spec (Z.of_nat (length chunk)) (MEDIUM_MESSAGE_HEADER isServer));
        [lia|].
      rewrite Hcm. eexists. split; [reflexivity|]. split; reflexivity.
    + destruct (Z.ltb_spec (Z.of_nat (length chunk)) (LONG_MESSAGE_HEADER isServer));
        [lia|].
      rewrite Hcm. eexists. split; [reflexivity|]. split; reflexivity.
Qed.

Lemma frame_out_of_order_closes_witness :
  exists c,
    receive (I := Scenarios.accept_all) false true 524288 1 (fun _ => 0)
      [0x80; 0x01; 0x41] (fresh false) tt = Some c
    /\ ctrace c = [ForceClose (fresh false) Err.ERR_PROTOCOL]
    /\ cws c = fresh false.
Proof.
  apply (frame_out_of_order_closes (I := Scenarios.accept_all) false true 524288 0
           (fun _ => 0) [0x80; 0x01; 0x41] (fresh false) tt).
  - reflexivity.
  - reflexivity.
  - repeat (apply Forall_cons; [unfold is_byte; lia|]). apply Forall_nil.
  - vm_compute. discriminate.
  - vm_compute. reflexivity.
  - left. split; reflexivity.
Defined.

(** A read that ends before the shortest header is complete, the empty
    read among them, makes no call of the handler: the bytes are kept in
    [spill], [spillLength] is their number, and the rest of the state is
    left as it was. *)
Theorem short_read_is_kept {U : Type} {I : Impl U} (isServer le : bool)
  (L : Z) (fuel : nat) (junk : mem) (chunk : list Z) (ws : WebSocketState)
  (u : U) :
  wantsHead ws = true -> spillLength ws = 0 ->
  Forall is_byte chunk ->
  Z.of_nat (length chunk) < SHORT_MESSAGE_HEADER isServer ->
  exists c,
    receive isServer le L (S fuel) junk chunk ws u = Some c
    /\ ctrace c = [] /\ cuser c = u
    /\ cws c = set_spillLength (Z.of_nat (length chunk))
                 (set_spill (chunk ++ skipn (length chunk) (spill ws)) ws).
Proof.
  intros Hw Hs Hb Hl.
  unfold receive, consume. rewrite Hs, Hw. change (negb (0 =? 0)) with false.
  cbv iota zeta. cbn [parseNext clen].
  destruct (Z.leb_spec (SHORT_MESSAGE_HEADER isServer) (Z.of_nat (length chunk)));
    [lia|].
  eexists. split; [reflexivity|]. unfold spill_rest. cbn [clen].
  destruct (Z.eqb_spec (Z.of_nat (length chunk)) 0) as [E|E]; cbn [negb].
  - cbn [ctrace cuser cws]. split; [reflexivity|]. split; [reflexivity|].
    destruct chunk; [|cbn [length] in E; lia].
    cbn [length app skipn]. change (Z.of_nat 0) with 0.
    destruct ws; cbn in Hs |- *. subst. reflexivity.
  - ws_simpl. split; [reflexivity|]. split; [reflexivity|].
    assert (H16 : Z.of_nat (length chunk) < 16)
      by (unfold SHORT_MESSAGE_HEADER in Hl; destruct isServer; lia).
    rewrite Refine.land_15_small by lia.
    rewrite Nat2Z.id.
    pose proof (Refine.recv_buffer_holds junk chunk Hb) as Hh.
    unfold Refine.holds in Hh. rewrite Hh. reflexivity.
Qed.

Lemma short_read_is_kept_witness :
  exists c,
    receive (I := Scenarios.accept_all) true true 524288 1 (fun _ => 0)
      [0x81; 0x85; 0x37] (fresh true) tt = Some c
    /\ ctrace c = [] /\ cuser c = tt
    /\ cws c = set_spillLength 3
                 (set_spill ([0x81; 0x85; 0x37] ++ repeat 0 10) (fresh true)).
Proof.
  apply (short_read_is_kept (I := Scenarios.accept_all) true true 524288 0
           (fun _ => 0) [0x81; 0x85; 0x37] (fresh true) tt).
  - reflexivity.
  - reflexivity.
  - repeat (apply Forall_cons; [unfold is_byte; lia|]). apply Forall_nil.
  - vm_compute. reflexivity.
Defined.


(** ** What every call keeps *)

(** A trace in which only the last event may close the connection. *)
Definition tidy (tr : list event) : Prop := closed (removelast tr) = false.

Lemma closed_removelast (tr : list event) :
  closed tr = false -> closed (removelast tr) = false.
Proof.
  intros Hc. destruct tr as [|e t]; [reflexivity|].
  rewrite (app_removelast_last e (l := e :: t)) in Hc by discriminate.
  unfold closed in *. rewrite existsb_app in Hc.
  apply orb_false_elim in Hc. apply Hc.
Qed.

Lemma tidy_app (t1 t2 : list event) :
  closed t1 = false -> tidy t2 -> tidy (t1 ++ t2).
Proof.
  intros H1 H2. unfold tidy in *. destruct t2 as [|e t].
  - rewrite app_nil_r. apply closed_removelast, H1.
  - rewrite removelast_app by discriminate. unfold closed in *.
    rewrite existsb_app, H1, H2. reflexivity.
Qed.

Lemma tidy_one (e : event) : tidy [e].
Proof. reflexivity. Qed.

Lemma tidy_nil : tidy [].
Proof. reflexivity. Qed.

Section Keeps.

Context {U : Type} {I : Impl U}.
Variables (isServer le : bool) (L : Z).

(** The spill array has its size, and [spillLength] is within it. *)
Definition spill_ok (w : WebSocketState) : Prop :=
  length (spill w) = Z.to_nat (LONG_MESSAGE_HEADER isServer - 1)
  /\ 0 <= spillLength w <= LONG_MESSAGE_HEADER isServer - 1.

(** What one branch of the parser does to a running [consume]: it leaves
    [spill] alone, resets [spillLength] or leaves it, keeps [length] an
    [unsigned int], does not write if it is the client, and adds the
    events [ev] to the trace. *)
Definition keeps (c c' : ctx U) (ev : list event) : Prop :=
  spill (cws c') = spill (cws c)
  /\ (spillLength (cws c') = spillLength (cws c) \/ spillLength (cws c') = 0)
  /\ (0 <= clen c -> 0 <= clen c')
  /\ (isServer = false -> cm c' = cm c)
  /\ ctrace c' = ctrace c ++ ev.

Lemma keeps_refl (c : ctx U) : keeps c c [].
Proof.
  unfold keeps. rewrite app_nil_r. repeat split; auto.
Qed.

Lemma keeps_trans (c1 c2 c3 : ctx U) (e1 e2 : list event) :
  keeps c1 c2 e1 -> keeps c2 c3 e2 -> keeps c1 c3 (e1 ++ e2).
Proof.
  intros (A1 & A2 & A3 & A4 & A5) (B1 & B2 & B3 & B4 & B5). unfold keeps.
  split; [congruence|].
  split; [destruct A2, B2; first [left; congruence|right; congruence]|].
  split; [auto|]. split; [intros Hi; rewrite B4, A4 by assumption; reflexivity|].
  rewrite B5, A5, app_assoc. reflexivity.
Qed.

Lemma wrap_nonneg (w x : Z) : 0 <= w -> 0 <= wrap w x.
Proof.
  intros Hw. unfold wrap. apply Z.mod_pos_bound. apply Z.pow_pos_nonneg; lia.
Qed.

Ltac split_call' :=
  match goal with
  | |- context [call_handleFragment ?cc ?d ?l ?r ?o ?f] =>
      let stop := fresh "stop" in
      let u' := fresh "u'" in
      destruct (call_handleFragment_eq cc d l r o f) as (stop & u' & ->)
  end.

Ltac keeps_done :=
  unfold keeps; ws_simpl;
  repeat match goal with
         | |- _ /\ _ => split
         | |- 0 <= wrap 32 _ => apply wrap_nonneg; lia
         | |- _ -> _ => intros
         end;
  try reflexivity; try congruence; try assumption; auto.

Lemma whole_frame_keeps (H n total : Z) (c : ctx U) :
  let r := whole_frame isServer le H n total c in
  exists e, keeps c (snd r) [e] /\ (fst r = false -> closing e = false).
Proof.
  cbv zeta. unfold whole_frame, keeps. open_ctx c.
  destruct isServer; split_call'; destruct stop; ws_simpl;
    try destruct (isFin m src); ws_simpl;
    eexists; (split; [keeps_done|cbn; auto; discriminate]).
Qed.

Lemma partial_frame_keeps (H n : Z) (c : ctx U) :
  let r := partial_frame isServer le H n c in
  exists e, keeps c (snd r) [e].
Proof.
  cbv zeta. unfold partial_frame, keeps. open_ctx c.
  destruct isServer; split_call'; ws_simpl; eexists; keeps_done.
Qed.

Lemma check_opCode_keeps (c c1 : ctx U) :
  check_opCode c = Some c1 -> keeps c c1 [].
Proof.
  unfold check_opCode. open_ctx c.
  destruct (negb (getOpCode m src =? 0)).
  - destruct ((os =? 1) || _); [discriminate|]. intros [= <-].
    unfold keeps. ws_simpl. rewrite app_nil_r. repeat split; auto.
  - destruct (os =? -1); [discriminate|]. intros [= <-]. apply keeps_refl.
Qed.

Lemma consumeMessage_keeps (H T n : Z) (c : ctx U) :
  let r := consumeMessage isServer le H T n c in
  exists e, keeps c (snd r) [e] /\ (fst r = false -> closing e = false).
Proof.
  cbv zeta. unfold consumeMessage.
  destruct (check_opCode c) as [c1|] eqn:E1.
  - apply check_opCode_keeps in E1.
    destruct (refusePayloadLength _ _ _) as [rf u'].
    set (c2 := with_user (with_ws c1 _) u').
    assert (K2 : keeps c c2 []).
    { change (@nil event) with (@nil event ++ []).
      apply (keeps_trans c c1 c2); [exact E1|].
      unfold c2. destruct c1 as [m1 s1 l1 [a b d e f g h i] u1 t1].
      unfold keeps. ws_simpl. rewrite app_nil_r. repeat split; auto. }
    clearbody c2. destruct rf.
    + exists (ForceClose (cws c2) Err.ERR_TOO_BIG_MESSAGE).
      split; [|discriminate].
      apply (keeps_trans c c2 _ [] [_]); [exact K2|].
      destruct c2 as [m1 s1 l1 [a b d e f g h i] u1 t1].
      unfold keeps. ws_simpl. repeat split; auto.
    + match goal with
      | |- context [if ?a <=? ?b then whole_frame _ _ _ _ _ _ else _] =>
          destruct (a <=? b)
      end.
      * match goal with
        | |- context [whole_frame _ _ ?h ?k ?t ?x] =>
            destruct (whole_frame_keeps h k t x) as (e & K & Hc)
        end.
        exists e. split; [|exact Hc].
        apply (keeps_trans c c2 _ [] [e]); assumption.
      * match goal with
        | |- context [partial_frame _ _ ?h ?k ?x] =>
            destruct (partial_frame_keeps h k x) as (e & K);
            pose proof (partial_frame_true isServer le h k x) as Ht
        end.
        exists e. split; [|rewrite Ht; discriminate].
        apply (keeps_trans c c2 _ [] [e]); assumption.
  - exists (ForceClose (cws c) Err.ERR_PROTOCOL). split; [|discriminate].
    destruct c as [m1 s1 l1 [a b d e f g h i] u1 t1].
    unfold keeps. ws_simpl. repeat split; auto.
Qed.

Lemma body_end_keeps (c : ctx U) :
  let r := body_end isServer c in
  exists e, keeps c (snd r) [e] /\ (fst r = true -> closing e = false).
Proof.
  cbv zeta. unfold body_end, keeps. open_ctx c.
  destruct isServer; split_call'; destruct stop; ws_simpl;
    try destruct lf; ws_simpl;
    eexists; (split; [keeps_done|cbn; auto; discriminate]).
Qed.

Lemma body_more_keeps (c : ctx U) :
  let r := body_more isServer L c in
  exists e, keeps c (snd r) [e] /\ fst r = false.
Proof.
  cbv zeta. unfold body_more, keeps. open_ctx c.
  destruct isServer; cbn [andb];
    repeat match goal with
           | |- context [if ?b then _ else _] =>
               lazymatch b with
               | context [call_handleFragment] => fail
               | _ => destruct b
               end
           end;
    split_call'; destruct stop; ws_simpl;
    repeat match goal with
           | |- context [if ?b then _ else _] => destruct b
           end;
    ws_simpl; eexists; (split; [keeps_done|reflexivity]).
Qed.

Lemma consumeContinuation_keeps (c : ctx U) :
  let r := consumeContinuation isServer L c in
  exists e, keeps c (snd r) [e] /\ (fst r = true -> closing e = false).
Proof.
  cbv zeta. unfold consumeContinuation.
  destruct (remainingBytes (cws c) <=? clen c).
  - apply body_end_keeps.
  - destruct (body_more_keeps c) as (e & K & Hf). exists e.
    split; [exact K|]. rewrite Hf. discriminate.
Qed.

(** What a call that has returned has done. *)
Definition result_ok (c c' : ctx U) : Prop :=
  (isServer = false -> cm c' = cm c)
  /\ (exists ev, ctrace c' = ctrace c ++ ev /\ tidy ev)
  /\ (spill_ok (cws c) -> 0 <= clen c -> spill_ok (cws c')).

Lemma keeps_spill_ok (c c' : ctx U) (ev : list event) :
  keeps c c' ev -> spill_ok (cws c) -> spill_ok (cws c').
Proof.
  intros (A1 & A2 & _) (S1 & S2). unfold spill_ok. rewrite A1.
  split; [exact S1|]. destruct A2 as [-> | ->]; lia.
Qed.

Lemma keeps_result (c c' : ctx U) (ev : list event) :
  keeps c c' ev -> tidy ev -> result_ok c c'.
Proof.
  intros K Ht. pose proof K as (A1 & A2 & A3 & A4 & A5).
  split; [exact A4|]. split; [exists ev; auto|].
  intros Hs _. apply (keeps_spill_ok c c' ev); assumption.
Qed.

Lemma keeps_then_result (c c1 c' : ctx U) (ev : list event) :
  keeps c c1 ev -> closed ev = false -> result_ok c1 c' -> result_ok c c'.
Proof.
  intros K Hc (R1 & (ev2 & R2 & R3) & R4).
  pose proof K as (A1 & A2 & A3 & A4 & A5).
  split; [intros Hi; rewrite R1, A4 by assumption; reflexivity|].
  split.
  - exists (ev ++ ev2). split; [rewrite R2, A5, app_assoc; reflexivity|].
    apply tidy_app; assumption.
  - intros Hs H0. apply R4; [apply (keeps_spill_ok c c1 ev); assumption|auto].
Qed.

Lemma spill_rest_result (c : ctx U) :
  clen c < LONG_MESSAGE_HEADER isServer -> result_ok c (spill_rest c).
Proof.
  intros Hl. unfold spill_rest.
  destruct (Z.eqb_spec (clen c) 0) as [E|E]; cbn [negb].
  - apply (keeps_result c c []); [apply keeps_refl|apply tidy_nil].
  - destruct c as [m src len w u tr]. unfold result_ok. ws_simpl.
    split; [reflexivity|]. split; [exists []; rewrite app_nil_r; split;
      [reflexivity|apply tidy_nil]|].
    intros (S1 & S2) H0. unfold spill_ok. destruct w. ws_simpl.
    assert (H14 : LONG_MESSAGE_HEADER isServer <= 14)
      by (unfold LONG_MESSAGE_HEADER; destruct isServer; lia).
    rewrite Refine.land_15_small by lia.
    split; [|lia].
    rewrite length_app, load_length, length_skipn, S1. lia.
Qed.

Lemma parseNext_result (fuel : nat) (c c' : ctx U) :
  parseNext isServer le fuel c = Some c' -> result_ok c c'.
Proof.
  revert c. induction fuel as [|fuel IH]; intros c; [discriminate|].
  cbn [parseNext].
  assert (Hs : SHORT_MESSAGE_HEADER isServer <= MEDIUM_MESSAGE_HEADER isServer
               /\ MEDIUM_MESSAGE_HEADER isServer <= LONG_MESSAGE_HEADER isServer)
    by (unfold SHORT_MESSAGE_HEADER, MEDIUM_MESSAGE_HEADER, LONG_MESSAGE_HEADER;
        destruct isServer; lia).
  destruct (Z.leb_spec (SHORT_MESSAGE_HEADER isServer) (clen c)) as [Hc|Hc].
  2: { intros [= <-]. apply spill_rest_result. lia. }
  destruct (invalid_header_eq c) as [u' E]. cbv zeta in E. rewrite E. clear E.
  set (c1 := mkCtx (cm c) (csrc c) (clen c) (cws c) u' (ctrace c)).
  assert (K1 : keeps c c1 []).
  { unfold keeps, c1. ws_simpl. rewrite app_nil_r. repeat split; auto. }
  assert (Hsp : clen c < LONG_MESSAGE_HEADER isServer ->
                Some (spill_rest c1) = Some c' -> result_ok c c').
  { intros Hl [= <-]. apply (keeps_then_result c c1 _ []);
      [exact K1|reflexivity|]. apply spill_rest_result. exact Hl. }
  assert (Hcm : forall H T n,
            (let '(ret, c0) := consumeMessage isServer le H T n c1 in
             if ret then Some c0 else parseNext isServer le fuel c0) = Some c' ->
            result_ok c c').
  { intros H T n.
    destruct (consumeMessage_keeps H T n c1) as (e & K & Hcl).
    destruct (consumeMessage isServer le H T n c1) as [ret c0].
    cbn [fst snd] in K, Hcl. destruct ret.
    - intros [= <-]. apply (keeps_result c c0 ([] ++ [e]));
        [apply (keeps_trans c c1 c0); assumption|apply tidy_one].
    - intros Hp. apply (keeps_then_result c c0 c' ([] ++ [e]));
        [apply (keeps_trans c c1 c0); assumption
        |cbn; rewrite (Hcl eq_refl); reflexivity
        |apply IH, Hp]. }
  match goal with |- context [if ?b then Some (call_forceClose _ _) else _] =>
    destruct b end.
  { intros [= <-].
    apply (keeps_result c _ ([] ++ [ForceClose (cws c1) Err.ERR_PROTOCOL]));
      [|apply tidy_one].
    apply (keeps_trans c c1 _); [exact K1|].
    unfold keeps, c1. ws_simpl. repeat split; auto. }
  change (clen c1) with (clen c).
  destruct (payloadLength (cm c1) (csrc c1) <? 126); [apply Hcm|].
  destruct (payloadLength (cm c1) (csrc c1) =? 126).
  - destruct (Z.ltb_spec (clen c) (MEDIUM_MESSAGE_HEADER isServer));
      [apply Hsp; lia|apply Hcm].
  - destruct (Z.ltb_spec (clen c) (LONG_MESSAGE_HEADER isServer));
      [apply Hsp; lia|apply Hcm].
Qed.

Lemma consume_result (fuel : nat) (m : mem) (src len : Z) (ws : WebSocketState)
  (u : U) (c : ctx U) :
  0 <= len ->
  consume isServer le L fuel m src len ws u = Some c ->
  (isServer = false ->
   cm c = if negb (spillLength ws =? 0)
          then store m (src - spillLength ws)
                 (firstn (Z.to_nat (spillLength ws)) (spill ws))
          else m)
  /\ tidy (ctrace c)
  /\ (spill_ok ws -> spill_ok (cws c)).
Proof.
  intros Hlen. unfold consume.
  set (c0 := if negb (spillLength ws =? 0) then _ else _).
  assert (H0 : cws c0 = ws /\ ctrace c0 = [] /\ 0 <= clen c0
               /\ cm c0 = if negb (spillLength ws =? 0)
                          then store m (src - spillLength ws)
                                 (firstn (Z.to_nat (spillLength ws)) (spill ws))
                          else m).
  { subst c0. destruct (negb _); cbn [cws ctrace clen cm];
      repeat split; auto. apply wrap_nonneg. lia. }
  destruct H0 as (Hw & Ht & Hc & Hm). clearbody c0.
  assert (Hfin : forall x, result_ok c0 x ->
            (isServer = false -> cm x = cm c0) /\ tidy (ctrace x)
            /\ (spill_ok ws -> spill_ok (cws x))).
  { intros x (R1 & (ev & R2 & R3) & R4). split; [exact R1|].
    split; [rewrite R2, Ht; exact R3|]. intros Hs. apply R4; [rewrite Hw|];
      assumption. }
  rewrite <- Hm.
  destruct (wantsHead ws).
  - intros Hp. apply Hfin, parseNext_result with (fuel := fuel), Hp.
  - destruct (consumeContinuation_keeps c0) as (e & K & Hcl).
    destruct (consumeContinuation isServer L c0) as [again c1].
    cbn [fst snd] in K, Hcl. destruct again.
    + intros Hp. apply Hfin. apply (keeps_then_result c0 c1 c [e]);
        [exact K|cbn; rewrite (Hcl eq_refl); reflexivity|].
      apply parseNext_result with (fuel := fuel), Hp.
    + intros [= <-]. apply Hfin. apply (keeps_result c0 c1 [e]);
        [exact K|apply tidy_one].
Qed.

Lemma feed_tidy (fuel : nat) (junk : mem) (chunks : list (list Z)) :
  forall (ws : WebSocketState) (u : U) (tr : list event) ws' u' tr',
    closed tr = false ->
    feed isServer le L fuel junk chunks ws u tr = Some (ws', u', tr') ->
    tidy tr'.
Proof.
  induction chunks as [|chunk rest IH]; intros ws u tr ws' u' tr' Hc;
    cbn [feed].
  - intros [= _ _ <-]. apply closed_removelast, Hc.
  - unfold receive.
    destruct (consume isServer le L fuel _ 0 _ ws u) as [c|] eqn:Ec; [|discriminate].
    apply consume_result in Ec; [|lia]. destruct Ec as (_ & Ht & _).
    destruct (closed (ctrace c)) eqn:Hcl.
    + intros [= _ _ <-]. apply tidy_app; assumption.
    + apply IH. unfold closed in *. rewrite existsb_app, Hc, Hcl. reflexivity.
Qed.

Lemma feed_spill_ok (fuel : nat) (junk : mem) (chunks : list (list Z)) :
  forall (ws : WebSocketState) (u : U) (tr : list event) ws' u' tr',
    spill_ok ws ->
    feed isServer le L fuel junk chunks ws u tr = Some (ws', u', tr') ->
    spill_ok ws'.
Proof.
  induction chunks as [|chunk rest IH]; intros ws u tr ws' u' tr' Hs;
    cbn [feed].
  - intros [= <- _ _]. exact Hs.
  - unfold receive.
    destruct (consume isServer le L fuel _ 0 _ ws u) as [c|] eqn:Ec; [|discriminate].
    apply consume_result in Ec; [|lia]. destruct Ec as (_ & _ & Hk).
    specialize (Hk Hs).
    destruct (closed (ctrace c)).
    + intros [= <- _ _]. exact Hk.
    + apply IH. exact Hk.
Qed.

End Keeps.


(** After a [forceClose], or after a [handleFragment] that asked to stop,
    nothing more is handed to the handler, in that read or in a later one:
    an event that closes the connection is the last of the trace. *)
Theorem nothing_after_close {U : Type} {I : Impl U} (isServer le : bool)
  (L : Z) (fuel : nat) (junk : mem) (chunks : list (list Z))
  (ws : WebSocketState) (u : U) (ws' : WebSocketState) (u' : U)
  (tr' : list event) :
  feed isServer le L fuel junk chunks ws u [] = Some (ws', u', tr') ->
  forall pre e post, tr' = pre ++ e :: post -> closing e = true -> post = [].
Proof.
  intros Hf pre e post -> He.
  apply feed_tidy in Hf; [|reflexivity]. unfold tidy in Hf.
  destruct post as [|x post]; [reflexivity|exfalso].
  change (pre ++ e :: x :: post) with (pre ++ [e] ++ x :: post) in Hf.
  rewrite app_assoc, removelast_app in Hf by discriminate.
  unfold closed in Hf. rewrite !existsb_app in Hf. cbn [existsb] in Hf.
  rewrite He in Hf. rewrite orb_true_r in Hf. cbn [orb] in Hf. discriminate.
Qed.

Lemma nothing_after_close_witness :
  exists ws' tr',
    feed (I := Scenarios.accept_all) false true 524288 4 (fun _ => 0)
      [[0x81; 0x01; 0x41; 0x83; 0x00; 0x81]; [0x01; 0x42]] (fresh false) tt []
    = Some (ws', tt, tr')
    /\ forall pre e post, tr' = pre ++ e :: post -> closing e = true -> post = [].
Proof.
  eexists. eexists.
  assert (E : forall r, r = feed (I := Scenarios.accept_all) false true 524288 4
                            (fun _ => 0)
                            [[0x81; 0x01; 0x41; 0x83; 0x00; 0x81]; [0x01; 0x42]]
                            (fresh false) tt [] ->
              feed (I := Scenarios.accept_all) false true 524288 4
                (fun _ => 0)
                [[0x81; 0x01; 0x41; 0x83; 0x00; 0x81]; [0x01; 0x42]]
                (fresh false) tt [] = r) by (intros; subst; reflexivity).
  specialize (E _ ltac:(vm_compute; reflexivity)).
  split; [exact E|].
  exact (nothing_after_close (I := Scenarios.accept_all) false true 524288 4
           (fun _ => 0) _ (fresh false) tt _ tt _ E).
Defined.

(** The array [spill] is never overrun and [spillLength] never exceeds its
    size, [LONG_MESSAGE_HEADER - 1]: whatever the reads and the handler,
    what [consume] keeps for the next call is shorter than the longest
    header, so that the copy back before the next buffer stays within
    [CONSUME_PRE_PADDING]. *)
Theorem spill_stays_in_bounds {U : Type} {I : Impl U} (isServer le : bool)
  (L : Z) (fuel : nat) (junk : mem) (chunks : list (list Z)) (u : U)
  (ws' : WebSocketState) (u' : U) (tr' : list event) :
  feed isServer le L fuel junk chunks (fresh isServer) u [] = Some (ws', u', tr') ->
  length (spill ws') = Z.to_nat (LONG_MESSAGE_HEADER isServer - 1)
  /\ 0 <= spillLength ws' <= LONG_MESSAGE_HEADER isServer - 1.
Proof.
  intros Hf. apply feed_spill_ok in Hf; [exact Hf|].
  unfold spill_ok, fresh. cbn [spill spillLength]. rewrite repeat_length.
  split; [reflexivity|]. unfold LONG_MESSAGE_HEADER. destruct isServer; lia.
Qed.

Lemma spill_stays_in_bounds_witness :
  exists ws' tr',
    feed (I := Scenarios.accept_all) true true 524288 4 (fun _ => 0)
      [[0x81; 0xFE; 0x01; 0x00; 0x37; 0xFA; 0x21]] (fresh true) tt []
    = Some (ws', tt, tr')
    /\ spillLength ws' = 7
    /\ length (spill ws') = 13%nat.
Proof.
  eexists. eexists.
  assert (E : forall r, r = feed (I := Scenarios.accept_all) true true 524288 4
                            (fun _ => 0)
                            [[0x81; 0xFE; 0x01; 0x00; 0x37; 0xFA; 0x21]]
                            (fresh true) tt [] ->
              feed (I := Scenarios.accept_all) true true 524288 4
                (fun _ => 0)
                [[0x81; 0xFE; 0x01; 0x00; 0x37; 0xFA; 0x21]]
                (fresh true) tt [] = r) by (intros; subst; reflexivity).
  specialize (E _ ltac:(vm_compute; reflexivity)).
  split; [exact E|]. split; [reflexivity|].
  exact (proj1 (spill_stays_in_bounds (I := Scenarios.accept_all) true true 524288 4
                  (fun _ => 0) _ tt _ tt _ E)).
Defined.

(** The client-side parser never writes into the buffer it is given: after
    [consume] the memory is as it was, but for the spilled bytes of the
    call before, copied back in front of the buffer.  The bytes handed to
    [handleFragment] are the bytes received. *)
Theorem client_never_writes {U : Type} {I : Impl U} (le : bool) (L : Z)
  (fuel : nat) (m : mem) (src len : Z) (ws : WebSocketState) (u : U)
  (c : ctx U) :
  0 <= len ->
  consume false le L fuel m src len ws u = Some c ->
  cm c = if spillLength ws =? 0 then m
         else store m (src - spillLength ws)
                (firstn (Z.to_nat (spillLength ws)) (spill ws)).
Proof.
  intros Hl Hc. apply consume_result in Hc; [|exact Hl].
  destruct Hc as (Hm & _). rewrite (Hm eq_refl).
  destruct (spillLength ws =? 0); reflexivity.
Qed.

Lemma client_never_writes_witness :
  exists c,
    consume (I := Scenarios.accept_all) false true 524288 2
      (fun a => if a =? 0 then 0x81 else if a =? 1 then 0x01 else 0x41)
      0 3 (fresh false) tt
    = Some c
    /\ cm c = (fun a => if a =? 0 then 0x81 else if a =? 1 then 0x01 else 0x41).
Proof.
  set (m := fun a => if a =? 0 then 0x81 else if a =? 1 then 0x01 else 0x41).
  eexists.
  assert (E : forall r, r = consume (I := Scenarios.accept_all) false true 524288 2
                            m 0 3 (fresh false) tt ->
              consume (I := Scenarios.accept_all) false true 524288 2
                m 0 3 (fresh false) tt = r) by (intros; subst; reflexivity).
  specialize (E _ ltac:(vm_compute; reflexivity)).
  split; [exact E|].
  exact (client_never_writes (I := Scenarios.accept_all) true 524288 2 m 0 3
           (fresh false) tt _ ltac:(lia) E).
Defined.

End ParserFacts.

(* ===================================================================== *)
(** * Swapping, destroying and assigning an [any_invocable] *)
(* ===================================================================== *)

Module OwnerFacts.
Import MoveOnly MoveFacts.

(** An object is well formed when it is empty or its storage holds what
    its handler expects. *)
Definition wf {T : Type} (w : world T) (a : nat) : Prop :=
  match handle_ w a with
  | Some h => typed h (storage_ w a)
  | None => True
  end.

Section Owner.

Context {T : Type}.
Implicit Types w : world T.

Lemma swap_both_full w (a b : nat) (h hb : handler) :
  a <> b -> (a < next w)%nat -> (b < next w)%nat ->
  handle_ w a = Some h -> typed h (storage_ w a) ->
  handle_ w b = Some hb -> typed hb (storage_ w b) ->
  let w' := swap a b w in
  handle_ w' a = Some hb /\ storage_ w' a = storage_ w b
  /\ handle_ w' b = Some h /\ storage_ w' b = storage_ w a
  /\ heap w' = heap w
  /\ (forall x, (x < next w)%nat -> x <> a -> x <> b ->
      handle_ w' x = handle_ w x /\ storage_ w' x = storage_ w x).
Proof.
  intros Hne Ha Hb Hh Ht Hhb Htb. unfold swap. rewrite Hh, Hhb.
  cbn [alloc]. set (tmp := next w).
  set (w1 := mkWorld (upd (storage_ w) tmp Raw) (upd (handle_ w) tmp None)
               (upd (call_ w) tmp None) (heap w) (S tmp)).
  assert (Hta : tmp <> a) by (subst tmp; lia).
  assert (Htb' : tmp <> b) by (subst tmp; lia).
  assert (S1 : forall x, x <> tmp -> storage_ w1 x = storage_ w x)
    by (intros x Hx; subst w1; unfold upd; cbn; eqb_cases; reflexivity).
  assert (H1 : forall x, x <> tmp -> handle_ w1 x = handle_ w x)
    by (intros x Hx; subst w1; unfold upd; cbn; eqb_cases; reflexivity).
  assert (P1 : heap w1 = heap w) by reflexivity.
  clearbody w1.
  destruct (handle_move_typed w1 h tmp a (storage_ w a) Hta (S1 a ltac:(lia)) Ht)
    as (E2 & F2 & G2 & C2 & P2 & N2).
  set (w2 := handle T h move_ tmp a w1) in *. clearbody w2.
  assert (S2b : storage_ w2 b = storage_ w b)
    by (rewrite F2 by lia; apply S1; lia).
  destruct (handle_move_typed w2 hb a b (storage_ w b) Hne S2b Htb)
    as (E3 & F3 & G3 & C3 & P3 & N3).
  set (w3 := handle T hb move_ a b w2) in *. clearbody w3.
  assert (S3t : storage_ w3 tmp = storage_ w a) by (rewrite F3 by lia; exact E2).
  assert (Hbt : b <> tmp) by lia.
  destruct (handle_move_typed w3 h b tmp (storage_ w a) Hbt S3t Ht)
    as (E4 & F4 & G4 & C4 & P4 & N4).
  set (w4 := handle T h move_ b tmp w3) in *. clearbody w4.
  unfold set_handle, set_call, upd; cbn.
  rewrite G4, G3, G2, P4, P3, P2, P1, E4.
  rewrite ?Nat.eqb_refl. eqb_cases. rewrite !H1 by lia.
  split; [exact Hhb|]. split; [rewrite F4 by lia; exact E3|].
  split; [exact Hh|]. split; [reflexivity|]. split; [reflexivity|].
  intros x Hx Hxa Hxb. eqb_cases. split; [apply H1; lia|].
  rewrite F4, F3, F2 by lia. apply S1. lia.
Qed.

Lemma swap_into_empty_full w (a b : nat) (h : handler) :
  a <> b -> handle_ w b = Some h -> typed h (storage_ w b) ->
  let w' := swap_into_empty T a b w in
  handle_ w' a = Some h /\ storage_ w' a = storage_ w b
  /\ handle_ w' b = None /\ heap w' = heap w /\ next w' = next w
  /\ (forall x, x <> a -> x <> b ->
      handle_ w' x = handle_ w x /\ storage_ w' x = storage_ w x).
Proof.
  intros Hne Hh Ht. unfold swap_into_empty. rewrite Hh.
  destruct (handle_move_typed w h a b (storage_ w b) Hne eq_refl Ht)
    as (E2 & F2 & G2 & C2 & P2 & N2).
  set (w2 := handle T h move_ a b w) in *. clearbody w2.
  unfold set_handle, set_call, upd; cbn. rewrite G2, P2, N2, Hh.
  rewrite ?Nat.eqb_refl. eqb_cases.
  repeat split; auto; eqb_cases; auto.
Qed.

Lemma target_same w w' (a b : nat) :
  handle_ w' a = handle_ w b -> storage_ w' a = storage_ w b ->
  heap w' = heap w -> target w' a = target w b.
Proof. intros E1 E2 E3. unfold target. rewrite E1, E2, E3. reflexivity. Qed.

Lemma target_empty w (a : nat) : handle_ w a = None -> target w a = None.
Proof. intros E. unfold target. rewrite E. reflexivity. Qed.

Lemma destroy_heap w (a p : nat) :
  heap (destroy a w) p
  = match owns w a with
    | Some q => if Nat.eqb p q then None else heap w p
    | None => heap w p
    end.
Proof.
  unfold destroy, owns.
  destruct (handle_ w a) as [[|]|] eqn:Eh; [reflexivity| |reflexivity].
  destruct (storage_ w a) as [|v|q] eqn:Es;
    unfold handle, set_handle, set_storage, free, upd; cbn; rewrite ?Es; cbn;
    reflexivity.
Qed.

Lemma destroy_empties w (a : nat) : handle_ (destroy a w) a = None.
Proof.
  unfold destroy. destruct (handle_ w a) as [h|] eqn:Eh; [|exact Eh].
  unfold set_handle, upd; cbn. rewrite Nat.eqb_refl. reflexivity.
Qed.

End Owner.

(** [a.swap(b)] on two objects, each empty or holding a callable: each
    ends up holding what the other held (an empty one leaves the other
    empty), no callable on the heap is made or deleted, and the other
    objects are left as they were. *)
Theorem swap_exchanges {T : Type} (w : world T) (a b : nat) :
  a <> b -> (a < next w)%nat -> (b < next w)%nat -> wf w a -> wf w b ->
  let w' := swap a b w in
  target w' a = target w b /\ target w' b = target w a
  /\ operator_bool w' a = operator_bool w b
  /\ operator_bool w' b = operator_bool w a
  /\ heap w' = heap w
  /\ (forall x, (x < next w)%nat -> x <> a -> x <> b -> target w' x = target w x).
Proof.
  intros Hne Ha Hb Wa Wb. cbv zeta. unfold wf in Wa, Wb.
  destruct (handle_ w a) as [h|] eqn:Eh; destruct (handle_ w b) as [hb|] eqn:Ehb.
  - destruct (swap_both_full w a b h hb Hne Ha Hb Eh Wa Ehb Wb)
      as (S1 & S2 & S3 & S4 & S5 & S6).
    unfold operator_bool. rewrite S1, S3, Eh, Ehb.
    split; [apply target_same; congruence|].
    split; [apply target_same; congruence|].
    split; [reflexivity|]. split; [reflexivity|]. split; [exact S5|].
    intros x Hx Hxa Hxb. destruct (S6 x Hx Hxa Hxb).
    apply target_same; assumption.
  - assert (Es : swap a b w = swap_into_empty T b a w)
      by (unfold swap; rewrite Eh, Ehb; reflexivity).
    rewrite Es.
    destruct (swap_into_empty_full w b a h ltac:(lia) Eh Wa)
      as (S1 & S2 & S3 & S4 & S5 & S6).
    unfold operator_bool. rewrite S1, S3, Eh, Ehb.
    split; [rewrite (target_empty _ a S3), (target_empty w b Ehb); reflexivity|].
    split; [apply target_same; congruence|].
    split; [reflexivity|]. split; [reflexivity|]. split; [exact S4|].
    intros x Hx Hxa Hxb. destruct (S6 x Hxb Hxa).
    apply target_same; assumption.
  - assert (Es : swap a b w = swap_into_empty T a b w)
      by (unfold swap; rewrite Eh; reflexivity).
    rewrite Es.
    destruct (swap_into_empty_full w a b hb Hne Ehb Wb)
      as (S1 & S2 & S3 & S4 & S5 & S6).
    unfold operator_bool. rewrite S1, S3, Eh, Ehb.
    split; [apply target_same; congruence|].
    split; [rewrite (target_empty _ b S3), (target_empty w a Eh); reflexivity|].
    split; [reflexivity|]. split; [reflexivity|]. split; [exact S4|].
    intros x Hx Hxa Hxb. destruct (S6 x Hxa Hxb).
    apply target_same; assumption.
  - assert (Es : swap a b w = w)
      by (unfold swap, swap_into_empty; rewrite Eh, Ehb; reflexivity).
    rewrite Es. unfold operator_bool. rewrite Eh, Ehb.
    rewrite (target_empty w a Eh), (target_empty w b Ehb).
    repeat split; reflexivity.
Qed.

Lemma swap_exchanges_witness :
  target (swap 0 1
          (mkWorld
            (fun a => if Nat.eqb a 0 then Ptr 5 else InBuf 7)
            (fun a => if Nat.eqb a 0 then Some large_handler else Some small_handler)
            (fun a => if Nat.eqb a 0 then Some large_handler else Some small_handler)
            (fun p => if Nat.eqb p 5 then Some 9 else None) 2%nat)) 0
  = Some 7
  /\ target (swap 0 1
          (mkWorld
            (fun a => if Nat.eqb a 0 then Ptr 5 else InBuf 7)
            (fun a => if Nat.eqb a 0 then Some large_handler else Some small_handler)
            (fun a => if Nat.eqb a 0 then Some large_handler else Some small_handler)
            (fun p => if Nat.eqb p 5 then Some 9 else None) 2%nat)) 1
     = Some 9.
Proof.
  set (w := mkWorld _ _ _ _ _).
  destruct (swap_exchanges w 0%nat 1%nat ltac:(discriminate) ltac:(cbn; lia)
              ltac:(cbn; lia) I I) as (H1 & H2 & _).
  split; [exact H1|exact H2].
Defined.

(** [destroy()], which the destructor and the assignment of [nullptr] call:
    the object is empty afterwards, the callable it held on the heap is
    deleted and no other, the other objects are left as they were, and a
    second [destroy()] does nothing. *)
Theorem destroy_releases {T : Type} (w : world T) (a : nat) :
  let w' := destroy a w in
  operator_bool w' a = false /\ target w' a = None
  /\ (forall p, heap w' p = if match owns w a with
                               | Some q => Nat.eqb p q
                               | None => false
                               end
                            then None else heap w p)
  /\ (forall x, x <> a -> handle_ w' x = handle_ w x /\ storage_ w' x = storage_ w x)
  /\ destroy a w' = w'.
Proof.
  cbv zeta. pose proof (destroy_empties w a) as He.
  split; [unfold operator_bool; rewrite He; reflexivity|].
  split; [apply target_empty, He|].
  split; [intros p; rewrite destroy_heap; destruct (owns w a); reflexivity|].
  split; [apply (proj1 (destroy_spec w a))|].
  unfold destroy at 1. rewrite He. reflexivity.
Qed.


Section Assign.

Context {T : Type}.
Implicit Types w : world T.

(** [swap] on the members of the two objects. *)
Lemma swap_views w (a b : nat) :
  a <> b -> (a < next w)%nat -> (b < next w)%nat -> wf w a -> wf w b ->
  let w' := swap a b w in
  handle_ w' a = handle_ w b /\ handle_ w' b = handle_ w a
  /\ (handle_ w b <> None -> storage_ w' a = storage_ w b)
  /\ (handle_ w a <> None -> storage_ w' b = storage_ w a)
  /\ heap w' = heap w
  /\ (forall x, (x < next w)%nat -> x <> a -> x <> b ->
      handle_ w' x = handle_ w x /\ storage_ w' x = storage_ w x).
Proof.
  intros Hne Ha Hb Wa Wb. cbv zeta. unfold wf in Wa, Wb.
  destruct (handle_ w a) as [h|] eqn:Eh; destruct (handle_ w b) as [hb|] eqn:Ehb.
  - destruct (swap_both_full w a b h hb Hne Ha Hb Eh Wa Ehb Wb)
      as (S1 & S2 & S3 & S4 & S5 & S6).
    repeat split; auto; apply S6; assumption.
  - assert (Es : swap a b w = swap_into_empty T b a w)
      by (unfold swap; rewrite Eh, Ehb; reflexivity).
    rewrite Es.
    destruct (swap_into_empty_full w b a h ltac:(lia) Eh Wa)
      as (S1 & S2 & S3 & S4 & S5 & S6).
    repeat split; auto; try congruence; apply S6; assumption.
  - assert (Es : swap a b w = swap_into_empty T a b w)
      by (unfold swap; rewrite Eh; reflexivity).
    rewrite Es.
    destruct (swap_into_empty_full w a b hb Hne Ehb Wb)
      as (S1 & S2 & S3 & S4 & S5 & S6).
    repeat split; auto; try congruence; apply S6; assumption.
  - assert (Es : swap a b w = w)
      by (unfold swap, swap_into_empty; rewrite Eh, Ehb; reflexivity).
    rewrite Es. repeat split; auto; congruence.
Qed.

Lemma owns_same w w' (a b : nat) :
  handle_ w' a = handle_ w b ->
  (handle_ w b <> None -> storage_ w' a = storage_ w b) ->
  owns w' a = owns w b.
Proof.
  intros E1 E2. unfold owns. rewrite E1.
  destruct (handle_ w b) as [h|]; [|reflexivity].
  rewrite E2 by discriminate. reflexivity.
Qed.

Lemma target_moved w w' (a b : nat) :
  handle_ w' a = handle_ w b ->
  (handle_ w b <> None -> storage_ w' a = storage_ w b) ->
  (forall q, owns w b = Some q -> heap w' q = heap w q) ->
  target w' a = target w b.
Proof.
  intros E1 E2 E3. unfold target. rewrite E1.
  destruct (handle_ w b) as [h|] eqn:Eh; [|reflexivity].
  rewrite E2 by discriminate.
  destruct h; [reflexivity|].
  destruct (storage_ w b) as [|v|q] eqn:Es; try reflexivity.
  apply E3. unfold owns. rewrite Eh, Es. reflexivity.
Qed.

Lemma move_construct_views w (this rhs : nat) :
  this <> rhs -> wf w rhs -> handle_ w this = None ->
  let w' := move_construct this rhs w in
  handle_ w' this = handle_ w rhs
  /\ (handle_ w rhs <> None -> storage_ w' this = storage_ w rhs)
  /\ handle_ w' rhs = None /\ heap w' = heap w /\ next w' = next w
  /\ (forall x, x <> this -> x <> rhs ->
      handle_ w' x = handle_ w x /\ storage_ w' x = storage_ w x).
Proof.
  intros Hne Wr He. cbv zeta. unfold wf in Wr.
  destruct (handle_ w rhs) as [h|] eqn:Eh.
  - destruct (move_construct_spec w this rhs h (storage_ w rhs) Hne Eh eq_refl Wr)
      as (M1 & M2 & M3 & M4 & M5 & M6).
    repeat split; auto; apply M6; assumption.
  - unfold move_construct. rewrite Eh. repeat split; auto. congruence.
Qed.

End Assign.

(** Move assignment [a = std::move(b)] between two objects, each empty or
    holding a callable: [a] ends up holding what [b] held, or empty if [b]
    was empty; [b] ends up empty; and the callable that [a] held on the
    heap is deleted, and no other. *)
Theorem move_assign_releases {T : Type} (w : world T) (this rhs : nat) :
  (this < next w)%nat -> (rhs < next w)%nat -> this <> rhs ->
  unshared w this rhs -> wf w this -> wf w rhs ->
  let w' := move_assign this rhs w in
  target w' this = target w rhs
  /\ operator_bool w' rhs = false
  /\ (forall p, heap w' p = if match owns w this with
                               | Some q => Nat.eqb p q
                               | None => false
                               end
                            then None else heap w p).
Proof.
  intros Ht Hr Hne Hun Wt Wr. cbv zeta.
  destruct (alloc_spec w) as (A1 & A2 & A3 & A4 & A5).
  unfold move_assign.
  destruct (alloc T w) as [tmp w1]. cbn [fst snd] in *. subst tmp.
  set (tmp := next w) in *.
  assert (Htr : tmp <> rhs) by (subst tmp; lia).
  assert (Htt : tmp <> this) by (subst tmp; lia).
  destruct (A5 rhs ltac:(lia)) as [A5h A5s].
  destruct (A5 this ltac:(lia)) as [A5h' A5s'].
  assert (Wr1 : wf w1 rhs) by (unfold wf in *; rewrite A5h, A5s; exact Wr).
  destruct (move_construct_views w1 tmp rhs Htr Wr1 A4)
    as (M1 & M2 & M3 & M4 & M5 & M6).
  set (w2 := move_construct tmp rhs w1) in *. clearbody w2.
  destruct (M6 this ltac:(lia) ltac:(lia)) as [M6h M6s].
  assert (Wt2 : wf w2 this)
    by (unfold wf in *; rewrite M6h, M6s, A5h', A5s'; exact Wt).
  assert (Wtmp2 : wf w2 tmp).
  { unfold wf in *. rewrite M1. rewrite A5h in *.
    destruct (handle_ w rhs) as [h|] eqn:Eh; [|exact I].
    rewrite M2 by discriminate. rewrite A5s. exact Wr. }
  destruct (swap_views w2 tmp this Htt ltac:(lia) ltac:(lia) Wtmp2 Wt2)
    as (S1 & S2 & S3 & S4 & S5 & S6).
  set (w3 := swap tmp this w2) in *. clearbody w3.
  destruct (S6 rhs ltac:(lia) ltac:(lia) ltac:(lia)) as [S6h S6s].
  assert (O3 : owns w3 tmp = owns w this).
  { rewrite (owns_same w2 w3 tmp this S1 S3).
    unfold owns. rewrite M6h, M6s, A5h', A5s'. reflexivity. }
  destruct (destroy_spec w3 tmp) as [D1 _].
  pose proof (destroy_heap w3 tmp) as D2.
  set (w4 := destroy tmp w3) in *. clearbody w4.
  destruct (D1 rhs ltac:(lia)) as [D1h _].
  destruct (D1 this ltac:(lia)) as [D1h' D1s'].
  assert (Hheap : forall p, heap w4 p = if match owns w this with
                                           | Some q => Nat.eqb p q
                                           | None => false
                                           end
                                        then None else heap w p).
  { intros p. rewrite D2, O3, S5, M4, A3. destruct (owns w this); reflexivity. }
  split; [|split; [|exact Hheap]].
  - apply target_moved.
    + rewrite D1h', S2, M1, A5h. reflexivity.
    + intros Hn. rewrite D1s', S4 by (rewrite M1, A5h; exact Hn).
      rewrite M2 by (rewrite A5h; exact Hn). exact A5s.
    + intros q Hq. rewrite Hheap.
      destruct (owns w this) as [q'|] eqn:Eo; [|reflexivity].
      destruct (Nat.eqb_spec q q') as [->|]; [|reflexivity].
      exfalso. apply (Hun q'); assumption.
  - unfold operator_bool. rewrite D1h, S6h, M3. reflexivity.
Qed.

Lemma move_assign_releases_witness :
  target (move_assign 0 1
          (mkWorld
            (fun a => if Nat.eqb a 0 then Ptr 5 else InBuf 7)
            (fun a => if Nat.eqb a 0 then Some large_handler else Some small_handler)
            (fun a => if Nat.eqb a 0 then Some large_handler else Some small_handler)
            (fun p => if Nat.eqb p 5 then Some 9 else None) 2%nat)) 0
  = Some 7
  /\ heap (move_assign 0 1
          (mkWorld
            (fun a => if Nat.eqb a 0 then Ptr 5 else InBuf 7)
            (fun a => if Nat.eqb a 0 then Some large_handler else Some small_handler)
            (fun a => if Nat.eqb a 0 then Some large_handler else Some small_handler)
            (fun p => if Nat.eqb p 5 then Some 9 else None) 2%nat)) 5
     = None.
Proof.
  set (w := mkWorld _ _ _ _ _).
  assert (Hu : unshared w 0 1) by (intros p H0 H1; discriminate H1).
  destruct (move_assign_releases w 0%nat 1%nat
              ltac:(cbn; lia) ltac:(cbn; lia) ltac:(discriminate) Hu I I)
    as (H1 & _ & H2).
  split; [exact H1|exact (H2 5%nat)].
Defined.

End OwnerFacts.

(* ===================================================================== *)
(** * What [formatMessage] writes, the parser reads *)
(* ===================================================================== *)

Module RoundTrip.
Import Parser Unmask Stream StreamFacts Refine.

Lemma land_127_small (n : Z) : 0 <= n < 128 -> Z.land n 127 = n.
Proof.
  intros Hn. change 127 with (Z.ones 7). rewrite Z.land_ones by lia.
  apply Z.mod_small. change (2 ^ 7) with 128. lia.
Qed.

Lemma land_lor_128 (n : Z) : 0 <= n < 128 -> Z.land (Z.lor n 128) 127 = n.
Proof.
  intros Hn. rewrite Z.land_lor_distr_l. change (Z.land 128 127) with 0.
  rewrite Z.lor_0_r. apply land_127_small, Hn.
Qed.

(** Masking and unmasking with the same key. *)
Lemma xor_key_mask_payload (mask : list Z) (i : Z) (src : list Z) :
  xor_key mask i (Framer.mask_payload mask i src) = src.
Proof.
  revert i. induction src as [|b t IH]; intros i; [reflexivity|].
  cbn [Framer.mask_payload xor_key]. rewrite IH. f_equal.
  unfold key_at, get.
  assert (H : 0 <= i mod 4 < 4) by (apply Z.mod_pos_bound; lia).
  destruct (Z.ltb_spec (i mod 4) 0); [lia|].
  rewrite Z.lxor_assoc, Z.lxor_nilpotent, Z.lxor_0_r. reflexivity.
Qed.

Section OneFrame.

Variables (R le : bool) (refuses : Z -> bool) (compressed : bool).

(** The length field that follows the first two bytes of a header. *)
Definition length_field (b1 : Z) (ext : list Z) (n : Z) : Prop :=
  (Z.land b1 127 = n /\ n < 126 /\ ext = [])
  \/ (Z.land b1 127 = 126 /\ length ext = 2%nat
      /\ cond_byte_swap le 2 (bit_cast le ext) = n)
  \/ (Z.land b1 127 = 127 /\ length ext = 8%nat
      /\ cond_byte_swap le 8 (bit_cast le ext) = n).

(** One whole frame, on a connection that has seen nothing yet. *)
Lemma frames_of_frame (b0 b1 : Z) (ext key payload : list Z) (n : Z) :
  let hdr := b0 :: b1 :: ext ++ (if R then key else []) in
  Stream.h_invalid compressed [b0; b1] = false ->
  h_op [b0; b1] <> 0 ->
  length key = 4%nat -> length_field b1 ext n ->
  refuses n = false -> Z.of_nat (length payload) = n ->
  Stream.frames R le refuses compressed (hdr ++ payload)
  = [Frame (h_op [b0; b1]) (h_fin [b0; b1]) (clear_text R key 0 payload) true].
Proof.
  intros hdr Hinv Hop Hk Hlf Hr Hn.
  assert (Hsh : same_head [b0; b1] hdr) by (split; reflexivity).
  destruct (same_head_fields R compressed _ _ Hsh) as (Ei & Es & Eo & Ef & E7).
  assert (Hlm : length (if R then key else []) = if R then 4%nat else 0%nat)
    by (destruct R; [exact Hk|reflexivity]).
  assert (Hfacts : Z.of_nat (length hdr) = Stream.h_size R hdr
                   /\ Stream.h_payLength le hdr = n
                   /\ (R = true -> Stream.h_key R hdr = key)).
  { assert (H7 : h_len7 hdr = Z.land b1 127) by reflexivity.
    assert (Hlen : Z.of_nat (length hdr)
                   = 2 + Z.of_nat (length ext) + (if R then 4 else 0)).
    { unfold hdr. cbn [length]. rewrite length_app, Hlm. destruct R; lia. }
    assert (Hsize : Stream.h_size R hdr
                    = 2 + Z.of_nat (length ext) + (if R then 4 else 0)).
    { unfold Stream.h_size, Stream.SHORT, Stream.MEDIUM, Stream.LONG,
        SHORT_MESSAGE_HEADER, MEDIUM_MESSAGE_HEADER, LONG_MESSAGE_HEADER.
      rewrite H7.
      destruct Hlf as [(L1 & L2 & ->) | [(L1 & L2 & L3) | (L1 & L2 & L3)]];
        rewrite L1.
      - destruct (Z.ltb_spec n 126); [|lia]. destruct R; reflexivity.
      - rewrite L2. destruct R; reflexivity.
      - rewrite L2. destruct R; reflexivity. }
    split; [rewrite Hlen, Hsize; reflexivity|]. split.
    - unfold Stream.h_payLength. rewrite H7. unfold hdr. cbn [skipn].
      destruct Hlf as [(L1 & L2 & ->) | [(L1 & L2 & L3) | (L1 & L2 & L3)]];
        rewrite L1.
      + destruct (Z.ltb_spec n 126); [reflexivity|lia].
      + change (126 <? 126) with false. change (126 =? 126) with true. cbv iota.
        rewrite firstn_app, firstn_all2 by lia.
        rewrite L2. cbn [Nat.sub firstn]. rewrite app_nil_r. exact L3.
      + change (127 <? 126) with false. change (127 =? 126) with false. cbv iota.
        rewrite firstn_app, firstn_all2 by lia.
        rewrite L2. cbn [Nat.sub firstn]. rewrite app_nil_r. exact L3.
    - intros HR. unfold Stream.h_key. rewrite Hsize. rewrite HR.
      replace (Z.to_nat (2 + Z.of_nat (length ext) + 4 - 4))
        with (S (S (length ext))) by lia.
      unfold hdr. rewrite HR. cbn [skipn].
      rewrite skipn_app, skipn_all, Nat.sub_diag. cbn [skipn app].
      apply firstn_all2. lia. }
  destruct Hfacts as (Hsz & Hpl & Hkey). clearbody hdr.
  pose proof (h_size_ge_SHORT R hdr) as G2. pose proof (SHORT_ge_2 R) as G3.
  assert (Hsh2 : same_head hdr (hdr ++ payload))
    by (apply same_head_prefix; lia).
  destruct (same_head_fields R compressed _ _ Hsh2) as (Ei2 & Es2 & _).
  assert (Efst : firstn (Z.to_nat (Stream.h_size R (hdr ++ payload)))
                   (hdr ++ payload) = hdr).
  { rewrite <- Es2, <- Hsz, Nat2Z.id, firstn_app, firstn_all, Nat.sub_diag.
    cbn [firstn]. apply app_nil_r. }
  assert (Eskp : skipn (Z.to_nat (Stream.h_size R (hdr ++ payload)))
                   (hdr ++ payload) = payload ++ []).
  { rewrite <- Es2, <- Hsz, Nat2Z.id, skipn_app, skipn_all, Nat.sub_diag.
    cbn [skipn app]. symmetry. apply app_nil_r. }
  assert (Hp : a_push a0 hdr
               = Some (mkA 0 (h_fin hdr) (set [0; 0] 0 (h_op hdr)) (Head []))).
  { unfold a_push. rewrite <- Eo.
    destruct (Z.eqb_spec (h_op [b0; b1]) 0); [contradiction|]. reflexivity. }
  unfold Stream.frames.
  rewrite (run_header R le refuses compressed a0 (hdr ++ payload) eq_refl)
    by (rewrite <- ?Ei2, <- ?Es2, <- ?Ei; first [exact Hinv|rewrite length_app; lia]).
  rewrite Efst, Eskp.
  rewrite (a_start_whole R le refuses compressed a0 _ hdr payload [] Hp)
    by (rewrite Hpl; assumption).
  unfold a_finish. cbn [Stream.run app]. unfold pending.
  cbn [a_mode a_set_mode a_lastFin]. rewrite ?app_nil_r.
  unfold a_cur. cbn [a_opCode a_opStack].
  rewrite <- Eo, <- Ef.
  replace (clear_text R (Stream.h_key R hdr) 0 payload)
    with (clear_text R key 0 payload).
  2: { unfold StreamFacts.clear_text. revert Hkey. destruct R; intros Hkey;
       [rewrite Hkey by reflexivity|]; reflexivity. }
  reflexivity.
Qed.

End OneFrame.


(** ** The bytes of [formatMessage] *)

Lemma to_bytes_bytes (le : bool) (n : nat) (v : Z) : Forall is_byte (to_bytes le n v).
Proof.
  unfold to_bytes. destruct le; [|apply Forall_rev]; apply le_encode_bytes.
Qed.

Lemma nth_byte (l : list Z) (i : nat) : Forall is_byte l -> is_byte (nth i l 0).
Proof.
  intros Hl. destruct (Nat.lt_ge_cases i (length l)) as [Hi|Hi].
  - rewrite Forall_forall in Hl. apply Hl, nth_In, Hi.
  - rewrite nth_overflow by assumption. unfold is_byte. lia.
Qed.

Lemma mask_payload_bytes (mask : list Z) (i : Z) (src : list Z) :
  Forall is_byte mask -> Forall is_byte src ->
  Forall is_byte (Framer.mask_payload mask i src).
Proof.
  intros Hm Hs. revert i. induction Hs as [|b t Hb _ IH]; intros i;
    cbn [Framer.mask_payload]; constructor; [|apply IH].
  apply lxor_byte; [exact Hb|apply nth_byte, Hm].
Qed.

Lemma first_byte (op : Z) (fin cmp : bool) :
  op = 1 \/ op = 2 \/ op = 8 \/ op = 9 \/ op = 10 ->
  let b0 := wrap 8 (Z.lor (Z.lor (if fin then 128 else 0)
                             (if cmp && negb (op =? 0) then Framer.SND_COMPRESSED
                              else 0))
                      (wrap 8 op)) in
  is_byte b0 /\ Z.land b0 15 = op /\ negb (Z.land b0 128 =? 0) = fin
  /\ Z.land b0 48 = 0 /\ negb (Z.land b0 64 =? 0) = cmp.
Proof.
  intros [-> | [-> | [-> | [-> | ->]]]]; destruct fin, cmp; vm_compute;
    repeat split; congruence.
Qed.

Lemma read_write_field (le1 le2 : bool) (k : nat) (v : Z) :
  0 <= v < 256 ^ Z.of_nat k ->
  cond_byte_swap le2 k (bit_cast le2 (to_bytes le1 k (cond_byte_swap le1 k v))) = v.
Proof.
  intros Hv. rewrite WireFacts.write_big_endian.
  pose proof (WireFacts.read_big_endian le2 (rev (le_encode k v))
                (Forall_rev (le_encode_bytes k v))) as E.
  rewrite length_rev, le_encode_length in E. rewrite E.
  rewrite rev_involutive, WireFacts.le_decode_encode. apply Z.mod_small, Hv.
Qed.

(** The frame that [formatMessage] writes: two bytes, the length field,
    the key if the sender is a client, and the payload, masked if the
    sender is a client. *)
Lemma format_wire (sender le1 le2 : bool) (random : Z) (src : list Z)
  (op : Z) (cmp fin : bool) :
  let n := Z.of_nat (length src) in
  let key := to_bytes le1 4 (wrap 32 random) in
  let b0 := wrap 8 (Z.lor (Z.lor (if fin then 128 else 0)
                             (if cmp && negb (op =? 0) then Framer.SND_COMPRESSED
                              else 0))
                      (wrap 8 op)) in
  n < 2 ^ 63 -> Forall is_byte src ->
  exists b1 ext,
    fst (Framer.formatMessage sender le1 random src op n cmp fin)
    = (b0 :: b1 :: ext ++ (if negb sender then key else []))
        ++ (if negb sender then Framer.mask_payload key 0 src else src)
    /\ length_field le2 b1 ext n
    /\ (n < 126 -> Z.land b1 127 = n)
    /\ is_byte b1 /\ Forall is_byte ext.
Proof.
  intros n key b0 Hn Hb. unfold Framer.formatMessage. fold n. fold key. fold b0.
  assert (H0 : 0 <= n) by (unfold n; lia).
  destruct (Z.ltb_spec n 126) as [H1|H1].
  - assert (Ew : wrap 8 n = n) by (unfold wrap; apply Z.mod_small; lia).
    rewrite Ew.
    destruct sender; cbn [negb fst].
    + exists n, []. split; [reflexivity|].
      assert (E : Z.land n 127 = n) by (apply land_127_small; lia).
      split; [left; auto|]. split; [auto|]. split; [unfold is_byte; lia|constructor].
    + exists (Z.lor n 128), []. split; [cbn [app]; rewrite ?app_nil_r, <- ?app_assoc; reflexivity|].
      assert (E : Z.land (Z.lor n 128) 127 = n) by (apply land_lor_128; lia).
      split; [left; auto|]. split; [auto|].
      split; [|constructor].
      assert (Hl : Z.lor n 128 = n + 128).
      { pose proof (byte_forall
                      (fun b => negb (b <? 128) || (Z.lor b 128 =? b + 128))
                      ltac:(vm_compute; reflexivity) n
                      ltac:(unfold is_byte; lia)) as Hq.
        cbn beta in Hq. destruct (Z.ltb_spec n 128); [|lia].
        cbn [negb orb] in Hq. apply Z.eqb_eq in Hq. exact Hq. }
      unfold is_byte. rewrite Hl.
      lia.
  - destruct (Z.leb_spec n Framer.UINT16_MAX) as [H2|H2].
    + unfold Framer.UINT16_MAX in H2.
      assert (Ew : wrap 16 n = n) by (unfold wrap; apply Z.mod_small; lia).
      rewrite Ew.
      assert (Hf : cond_byte_swap le2 2
                     (bit_cast le2 (to_bytes le1 2 (cond_byte_swap le1 2 n))) = n)
        by (apply read_write_field; change (256 ^ Z.of_nat 2) with 65536; lia).
      destruct sender; cbn [negb fst].
      * exists 126, (to_bytes le1 2 (cond_byte_swap le1 2 n)).
        split; [cbn [app]; rewrite ?app_nil_r, <- ?app_assoc; reflexivity|].
        split; [right; left; split; [reflexivity|];
                split; [apply to_bytes_length|exact Hf]|].
        split; [lia|]. split; [unfold is_byte; lia|apply to_bytes_bytes].
      * exists (Z.lor 126 128), (to_bytes le1 2 (cond_byte_swap le1 2 n)).
        split; [cbn [app]; rewrite ?app_nil_r, <- ?app_assoc; reflexivity|].
        split; [right; left; split; [reflexivity|];
                split; [apply to_bytes_length|exact Hf]|].
        split; [lia|]. split; [vm_compute; split; congruence|apply to_bytes_bytes].
    + unfold Framer.UINT16_MAX in H2.
      assert (Ew : wrap 64 n = n) by (unfold wrap; apply Z.mod_small; lia).
      rewrite Ew.
      assert (Hf : cond_byte_swap le2 8
                     (bit_cast le2 (to_bytes le1 8 (cond_byte_swap le1 8 n))) = n)
        by (apply read_write_field; change (256 ^ Z.of_nat 8) with (2 ^ 64); lia).
      destruct sender; cbn [negb fst].
      * exists 127, (to_bytes le1 8 (cond_byte_swap le1 8 n)).
        split; [cbn [app]; rewrite ?app_nil_r, <- ?app_assoc; reflexivity|].
        split; [right; right; split; [reflexivity|];
                split; [apply to_bytes_length|exact Hf]|].
        split; [lia|]. split; [unfold is_byte; lia|apply to_bytes_bytes].
      * exists (Z.lor 127 128), (to_bytes le1 8 (cond_byte_swap le1 8 n)).
        split; [cbn [app]; rewrite ?app_nil_r, <- ?app_assoc; reflexivity|].
        split; [right; right; split; [reflexivity|];
                split; [apply to_bytes_length|exact Hf]|].
        split; [lia|]. split; [vm_compute; split; congruence|apply to_bytes_bytes].
Qed.


(** A message that [formatMessage] writes on one side is handed over by
    the parser of the other side as one complete frame with the same
    opcode, the same FIN flag and the same payload: what a server writes,
    to a client, and what a client writes and masks, to a server; whatever
    the byte order of the two hosts, the masking key, and the way the
    bytes are cut into reads.  The message is a Text or Binary frame, or a
    control frame with FIN and at most 125 bytes; the handler of the
    receiver accepts its length, and compression if the frame is marked
    compressed, and does not stop the parser.  A client's payload is of
    less than 2^31 bytes, which the [int] that counts the bytes masked can
    hold. *)
Theorem formatted_message_is_parsed {U : Type} {I : Impl U}
  (sender le1 le2 : bool) (L : Z) (refuses : Z -> bool) (compressed : bool)
  (fuel : nat) (junk : mem) (chunks : list (list Z)) (u : U)
  (random : Z) (src : list Z) (opCode : Z) (cmp fin : bool) :
  (forall n w u, fst (refusePayloadLength n w u) = refuses n) ->
  (forall w u, fst (setCompressed w u) = compressed) ->
  (forall d l r o f w u, fst (handleFragment d l r o f w u) = false) ->
  (forall n, refuses n = false -> n < 2 ^ 32) ->
  0 <= L < 2 ^ 32 ->
  Forall is_byte src ->
  opCode = 1 \/ opCode = 2
  \/ ((opCode = 8 \/ opCode = 9 \/ opCode = 10)
      /\ fin = true /\ Z.of_nat (length src) <= 125) ->
  (cmp = true -> compressed = true) ->
  refuses (Z.of_nat (length src)) = false ->
  Z.of_nat (length src) + 30 < 2 ^ 32 ->
  (sender = false -> Z.of_nat (length src) < 2 ^ 31) ->
  (length src + 30 < fuel)%nat ->
  concat chunks
  = fst (Framer.formatMessage sender le1 random src opCode
           (Z.of_nat (length src)) cmp fin) ->
  exists w' u' tr,
    feed (negb sender) le2 L fuel junk chunks (fresh (negb sender)) u []
    = Some (w', u', tr)
    /\ delivered tr = [Frame opCode fin src true].
Proof.
  intros Hrefuse Hcomp Hgo Hbig HL Hb Hop Hcmp Hr H32 H31 Hf Hcat.
  destruct (format_wire sender le1 le2 random src opCode cmp fin
              ltac:(lia) Hb) as (b1 & ext & Ew & Hlf & Hsmall & Hb1 & Hbe).
  set (key := to_bytes le1 4 (wrap 32 random)) in *.
  set (b0 := wrap 8 _) in *.
  assert (Hops : opCode = 1 \/ opCode = 2 \/ opCode = 8 \/ opCode = 9 \/ opCode = 10)
    by (destruct Hop as [?|[?|([?|[?|?]] & _)]]; auto).
  destruct (first_byte opCode fin cmp Hops) as (B0 & F1 & F2 & F3 & F4).
  fold b0 in B0, F1, F2, F3, F4.
  set (payload := if negb sender then Framer.mask_payload key 0 src else src) in *.
  assert (Hpl : length payload = length src)
    by (unfold payload; destruct sender; cbn [negb];
        [reflexivity|apply mask_payload_length]).
  assert (Hkb : Forall is_byte key) by apply to_bytes_bytes.
  assert (Hk4 : length key = 4%nat) by apply to_bytes_length.
  assert (Hpb : Forall is_byte payload)
    by (unfold payload; destruct sender; cbn [negb];
        [exact Hb|apply mask_payload_bytes; assumption]).
  assert (Hlen : (length (concat chunks) <= length src + 14)%nat).
  { rewrite Hcat, Ew. rewrite length_app, Hpl. cbn [length].
    rewrite length_app.
    assert (length ext <= 8)%nat
      by (destruct Hlf as [(_ & _ & ->) | [(_ & -> & _) | (_ & -> & _)]];
          cbn [length]; lia).
    destruct (negb sender); rewrite ?Hk4; cbn [length]; lia. }
  assert (Hbytes : Forall is_byte (concat chunks)).
  { rewrite Hcat, Ew. apply Forall_app. split; [|exact Hpb].
    apply Forall_cons; [exact B0|]. apply Forall_cons; [exact Hb1|].
    apply Forall_app. split; [exact Hbe|].
    destruct (negb sender); [exact Hkb|constructor]. }
  destruct (feed_frames (negb sender) le2 L refuses compressed Hrefuse Hcomp Hgo
              Hbig HL fuel junk chunks u
              (Chunks.fits_concat fuel chunks Hbytes ltac:(lia) ltac:(lia)))
    as (w' & u' & tr & E & D).
  exists w', u', tr. split; [exact E|].
  rewrite D, Hcat, Ew.
  assert (Hinv : Stream.h_invalid compressed [b0; b1] = false).
  { unfold Stream.h_invalid, h_op, h_fin, h_len7. cbn [nth].
    rewrite F1, F2, F3, F4. change (0 =? 0) with true. cbn [negb orb].
    assert (E1 : cmp && negb compressed = false)
      by (destruct cmp; [rewrite Hcmp by reflexivity|]; reflexivity).
    rewrite E1. cbn [orb].
    destruct Hop as [-> | [-> | (Hc & -> & Hle)]]; [reflexivity..|].
    rewrite Hsmall by lia.
    destruct (Z.ltb_spec 125 (Z.of_nat (length src))); [lia|].
    destruct Hc as [-> | [-> | ->]]; reflexivity. }
  rewrite (frames_of_frame (negb sender) le2 refuses compressed b0 b1 ext key
             payload (Z.of_nat (length src)) Hinv);
    [|unfold h_op; cbn [nth]; rewrite F1; lia|exact Hk4|exact Hlf|exact Hr
     |rewrite Hpl; reflexivity].
  unfold h_op, h_fin. cbn [nth]. rewrite F1, F2.
  f_equal. f_equal. unfold StreamFacts.clear_text, payload.
  destruct sender; cbn [negb]; [reflexivity|apply xor_key_mask_payload].
Qed.

Lemma formatted_message_is_parsed_witness :
  exists w' u' tr,
    feed (I := Chunks.capped 1024) true false 524288 40 (fun _ => 0)
      [[0x81; 0x85; 0x37; 0xFA]; [0x21; 0x3D; 0x7F; 0x9F; 0x4D]; [0x51; 0x58]]
      (fresh true) tt []
    = Some (w', u', tr)
    /\ delivered tr = [Frame 1 true [0x48; 0x65; 0x6C; 0x6C; 0x6F] true].
Proof.
  apply (formatted_message_is_parsed (I := Chunks.capped 1024) false true false
           524288 (fun n => 1024 <? n) false 40 (fun _ => 0)
           [[0x81; 0x85; 0x37; 0xFA]; [0x21; 0x3D; 0x7F; 0x9F; 0x4D]; [0x51; 0x58]]
           tt 0x3D21FA37 [0x48; 0x65; 0x6C; 0x6C; 0x6F] 1 false true).
  - reflexivity.
  - reflexivity.
  - reflexivity.
  - intros n Hn. apply Z.ltb_ge in Hn. lia.
  - lia.
  - repeat (apply Forall_cons; [unfold is_byte; lia|]). apply Forall_nil.
  - left. reflexivity.
  - discriminate.
  - reflexivity.
  - vm_compute. reflexivity.
  - intros _. vm_compute. reflexivity.
  - vm_compute. lia.
  - vm_compute. reflexivity.
Defined.

End RoundTrip.

(* ===================================================================== *)
(** * The server side: where [consume] writes *)
(* ===================================================================== *)

Module Footprint.
Import Parser Stream Unmask.
Import OpStack.

(** What a connection state needs for the unmasking to be well defined:
    [spill] and [mask] hold bytes, [mask] has its four bytes, and the two
    lengths are those of unsigned fields. *)
Definition state_ok (w : WebSocketState) : Prop :=
  Forall is_byte (spill w)
  /\ 0 <= spillLength w <= 13
  /\ length (mask w) = 4%nat
  /\ Forall is_byte (mask w)
  /\ 0 <= remainingBytes w.

Lemma payloadLength_bound (m : mem) (a : Z) : 0 <= payloadLength m a < 128.
Proof.
  unfold payloadLength. change 127 with (Z.ones 7). rewrite Z.land_ones by lia.
  apply Z.mod_pos_bound. reflexivity.
Qed.

Lemma read_bound (le : bool) (m : mem) (a : Z) (n : nat) :
  all_bytes m ->
  0 <= cond_byte_swap le n (bit_cast le (load m a n)) < 256 ^ Z.of_nat n.
Proof.
  intros Hm.
  pose proof (WireFacts.read_big_endian le (load m a n) (load_bytes m a n Hm)) as E.
  rewrite load_length in E. rewrite E.
  pose proof (le_decode_bound (rev (load m a n))
                (Forall_rev (load_bytes m a n Hm))) as B.
  rewrite length_rev, load_length in B. exact B.
Qed.

Section Memory.

Variables (le : bool) (L : Z).

(** The whole frame: [unmaskImpreciseCopyMask] stays within the frame. *)
Lemma copy_mask_near (H : Z) (m : mem) (src n : Z) :
  all_bytes m -> H = 6 \/ 8 <= H -> 0 <= n ->
  let m' := unmaskImpreciseCopyMask le H m (src + H) n in
  all_bytes m'
  /\ (forall a, a < src \/ src + H + n <= a -> m' a = m a).
Proof.
  intros Hm HH Hn. cbv zeta.
  set (k := [m (src + H - 4); m (src + H - 3); m (src + H - 2); m (src + H - 1)]).
  assert (Hkb : Forall is_byte k) by (repeat constructor; apply Hm).
  unfold unmaskImpreciseCopyMask.
  destruct (Z.eqb_spec H 6) as [E|E]; cbn [negb].
  - unfold unmaskImprecise4. rewrite Refine.shiftr_div by lia.
    change (2 ^ 2) with 4.
    destruct (unmaskImprecise4_loop_spec le H k (Z.to_nat (n / 4 + 1)) m (src + H))
      as (A & _ & C); [lia|reflexivity|exact Hkb|exact Hm|].
    assert (Hq : 0 <= n / 4) by (apply Z.div_pos; lia).
    rewrite Z2Nat.id in C by lia.
    split; [exact A|].
    intros a Ha. apply C. Z.div_mod_to_equations. lia.
  - unfold unmaskImprecise8. rewrite Refine.shiftr_div by lia.
    change (2 ^ 3) with 8.
    destruct (unmaskImprecise8_loop_spec le H k (Z.to_nat (n / 8 + 1)) m (src + H))
      as (A & _ & C); [lia|reflexivity|exact Hkb|exact Hm|].
    assert (Hq : 0 <= n / 8) by (apply Z.div_pos; lia).
    rewrite Z2Nat.id in C by lia.
    split; [exact A|].
    intros a Ha. apply C. Z.div_mod_to_equations. lia.
Qed.

(** The frame cut by the end of the buffer: [unmaskImprecise8<0>] is given
    the length of the buffer, not of what is left of it after the header,
    and rounds it up to the next block of eight. *)
Lemma imprecise8_near (m : mem) (src len : Z) (k : list Z) :
  all_bytes m -> length k = 4%nat -> Forall is_byte k -> 0 <= len ->
  let m' := unmaskImprecise8 le 0 m src (bit_cast le (k ++ k)) len in
  all_bytes m'
  /\ (forall a, a < src \/ src + len + 8 <= a -> m' a = m a).
Proof.
  intros Hm Hk Hkb Hl. cbv zeta. unfold unmaskImprecise8.
  rewrite Refine.shiftr_div by lia. change (2 ^ 3) with 8.
  destruct (unmaskImprecise8_loop_spec le 0 k (Z.to_nat (len / 8 + 1)) m src)
    as (A & _ & C); [lia|assumption..|].
  assert (Hq : 0 <= len / 8) by (apply Z.div_pos; lia).
  rewrite Z2Nat.id in C by lia.
  split; [exact A|].
  intros a Ha. apply C. Z.div_mod_to_equations. lia.
Qed.

(** The end of a body: whole groups of four and the tail, and no more. *)
Lemma body_end_mem_near (m : mem) (src rem : Z) (k : list Z) :
  all_bytes m -> Forall is_byte k -> 0 <= rem ->
  let n := Z.shiftr rem 2 in
  let m1 := unmaskInplace m src (src + n * 4) k in
  let m2 := unmask_tail (Z.to_nat (rem mod 4)) m1 (src + n * 4) k in
  all_bytes m2
  /\ (forall a, a < src \/ src + rem <= a -> m2 a = m a).
Proof.
  intros Hm Hkb Hr. cbv zeta. rewrite Refine.shiftr_div by lia.
  change (2 ^ 2) with 4.
  assert (Hq : 0 <= rem / 4) by (apply Z.div_pos; lia).
  unfold unmaskInplace.
  replace ((src + rem / 4 * 4 - src + 3) / 4) with (rem / 4)
    by (Z.div_mod_to_equations; lia).
  destruct (unmaskInplace_loop_spec k (Z.to_nat (rem / 4)) m src Hkb Hm)
    as (A & _ & C).
  rewrite Z2Nat.id in C by lia.
  set (m1 := unmaskInplace_loop (Z.to_nat (rem / 4)) m src k) in *. clearbody m1.
  assert (Hs : (Z.to_nat (rem mod 4) <= 4)%nat)
    by (Z.div_mod_to_equations; lia).
  destruct (unmask_tail_spec k (Z.to_nat (rem mod 4)) m1 (src + rem / 4 * 4)
              Hkb A Hs) as (A2 & _ & C2).
  assert (Hrm : 0 <= rem mod 4 < 4) by (apply Z.mod_pos_bound; lia).
  rewrite Z2Nat.id in C2 by lia.
  split; [exact A2|].
  intros a Ha. rewrite C2 by (Z.div_mod_to_equations; lia).
  apply C. Z.div_mod_to_equations. lia.
Qed.

(** The middle of a body: either loop rounds the length of the buffer up. *)
Lemma unmaskAll_near (m : mem) (src : Z) (k : list Z) :
  all_bytes m -> Forall is_byte k -> 0 <= L ->
  let m' := unmaskAll L m src k in
  all_bytes m'
  /\ (forall a, a < src \/ src + L + 15 <= a -> m' a = m a).
Proof.
  intros Hm Hkb Hl. cbv zeta. unfold unmaskAll.
  destruct (unmaskAll_loop_spec k (Z.to_nat ((L + 15) / 16)) m src Hkb Hm)
    as (A & _ & C).
  assert (Hq : 0 <= (L + 15) / 16) by (apply Z.div_pos; lia).
  rewrite Z2Nat.id in C by lia.
  split; [exact A|]. intros a Ha. apply C. Z.div_mod_to_equations. lia.
Qed.

Lemma unmaskInplace_near (m : mem) (src d : Z) (k : list Z) :
  all_bytes m -> Forall is_byte k -> 0 <= d ->
  let m' := unmaskInplace m src (src + d) k in
  all_bytes m'
  /\ (forall a, a < src \/ src + d + 3 <= a -> m' a = m a).
Proof.
  intros Hm Hkb Hd. cbv zeta. unfold unmaskInplace.
  replace (src + d - src + 3) with (d + 3) by lia.
  destruct (unmaskInplace_loop_spec k (Z.to_nat ((d + 3) / 4)) m src Hkb Hm)
    as (A & _ & C).
  assert (Hq : 0 <= (d + 3) / 4) by (apply Z.div_pos; lia).
  rewrite Z2Nat.id in C by lia.
  split; [exact A|]. intros a Ha. apply C. Z.div_mod_to_equations. lia.
Qed.

(** The stop address of the slow path of [consumeContinuation], computed
    in [unsigned int]: at most four bytes past the length. *)
Lemma slow_path_stop (len : Z) :
  0 <= len ->
  0 <= wrap 32 ((Z.shiftr len 2 + 1) * 4) <= len + 4.
Proof.
  intros Hl. rewrite Refine.shiftr_div by lia. change (2 ^ 2) with 4.
  assert (Hx : 0 <= (len / 4 + 1) * 4 <= len + 4)
    by (Z.div_mod_to_equations; lia).
  unfold wrap. split; [apply Z.mod_pos_bound; lia|].
  etransitivity; [apply Z.mod_le; lia|lia].
Qed.

End Memory.

Section ServerWrites.

Context {U : Type} {I : Impl U}.
Variables (le : bool) (L : Z).
Hypothesis HL : 0 <= L < 2 ^ 32.
Hypothesis Hbig :
  forall n w u, 2 ^ 64 - 14 <= n -> fst (refusePayloadLength n w u) = true.

(** A running [consume] on a memory of bytes, with a state in order and a
    length that is an [unsigned int]. *)
Definition sound (c : ctx U) : Prop :=
  all_bytes (cm c) /\ state_ok (cws c) /\ 0 <= clen c < 2 ^ 32.

(** What one branch of the server-side parser does to the memory: it moves
    forward in the buffer, whose end stays where it is, and writes neither
    before the place where it stands nor 22 bytes or more past the end. *)
Definition near (c c' : ctx U) : Prop :=
  sound c'
  /\ csrc c <= csrc c'
  /\ csrc c' + clen c' = csrc c + clen c
  /\ (forall a, a < csrc c \/ csrc c + clen c + 22 <= a -> cm c' a = cm c a).

Lemma near_intro (c c' : ctx U) :
  all_bytes (cm c') -> state_ok (cws c') -> 0 <= clen c' < 2 ^ 32 ->
  csrc c <= csrc c' -> csrc c' + clen c' = csrc c + clen c ->
  (forall a, a < csrc c \/ csrc c + clen c + 22 <= a -> cm c' a = cm c a) ->
  near c c'.
Proof. intros. unfold near, sound. auto 10. Qed.

Lemma state_intro (w : WebSocketState) :
  Forall is_byte (spill w) -> 0 <= spillLength w <= 13 ->
  length (mask w) = 4%nat -> Forall is_byte (mask w) ->
  0 <= remainingBytes w -> state_ok w.
Proof. intros. unfold state_ok. auto 10. Qed.

Lemma near_refl (c : ctx U) : sound c -> near c c.
Proof.
  intros (Hm & Hs & Hl). apply near_intro; auto; lia.
Qed.

Lemma near_trans (c1 c2 c3 : ctx U) : near c1 c2 -> near c2 c3 -> near c1 c3.
Proof.
  intros (_ & A1 & A2 & A3) ((Hm & Hs & Hl) & B1 & B2 & B3).
  apply near_intro; try assumption; try lia.
  intros a Ha. rewrite B3 by lia. apply A3. exact Ha.
Qed.

Ltac split_frag :=
  match goal with
  | |- context [call_handleFragment ?cc ?d ?l ?r ?o ?f] =>
      let stop := fresh "stop" in
      let u' := fresh "u'" in
      destruct (call_handleFragment_eq cc d l r o f) as (stop & u' & ->)
  end.

Ltac open_sound Hs :=
  let Hm := fresh "Hm" in let Hsp := fresh "Hsp" in let Hsl := fresh "Hsl" in
  let Hk4 := fresh "Hk4" in let Hkb := fresh "Hkb" in let Hrb := fresh "Hrb" in
  let Hl := fresh "Hl" in
  destruct Hs as (Hm & (Hsp & Hsl & Hk4 & Hkb & Hrb) & Hl).

Ltac near_done :=
  apply near_intro; ws_simpl;
  [try assumption
  |apply state_intro; ws_simpl; try assumption; try lia
  |try lia|try lia|try lia|try assumption].

Lemma whole_frame_near (H n total : Z) (c : ctx U) :
  sound c -> H = 6 \/ H = 8 \/ H = 14 -> 0 <= n -> total = n + H ->
  total <= clen c ->
  near c (snd (whole_frame true le H n total c)).
Proof.
  intros Hs HH Hn -> Ht. open_sound Hs. unfold whole_frame. open_ctx c.
  assert (W1 : wrap 32 n = n) by (unfold wrap; apply Z.mod_small; lia).
  assert (W2 : wrap 32 (n + H) = n + H) by (unfold wrap; apply Z.mod_small; lia).
  assert (W3 : wrap 32 (len - (n + H)) = len - (n + H))
    by (unfold wrap; apply Z.mod_small; lia).
  rewrite W1.
  destruct (copy_mask_near le H m src n Hm ltac:(lia) Hn) as (B & F).
  set (m1 := unmaskImpreciseCopyMask le H m (src + H) n) in *. clearbody m1.
  assert (F' : forall a, a < src \/ src + len + 22 <= a -> m1 a = m a)
    by (intros a Ha; apply F; lia).
  split_frag. destruct stop; ws_simpl.
  - near_done.
  - destruct (isFin m src); ws_simpl; rewrite W2, W3; near_done.
Qed.

Lemma partial_frame_near (H n : Z) (c : ctx U) :
  sound c -> H = 6 \/ H = 8 \/ H = 14 -> H <= clen c ->
  near c (snd (partial_frame true le H n c)).
Proof.
  intros Hs HH Ht. open_sound Hs. unfold partial_frame. open_ctx c.
  set (key := load m (src + H - 4) 4).
  assert (Hkey : length key = 4%nat) by apply load_length.
  assert (Hkeyb : Forall is_byte key) by (apply load_bytes, Hm).
  destruct (imprecise8_near le m (src + H) len key Hm Hkey Hkeyb ltac:(lia))
    as (B & F).
  set (m1 := unmaskImprecise8 le 0 m (src + H) _ len) in *. clearbody m1.
  assert (F' : forall a, a < src \/ src + len + 22 <= a -> m1 a = m a)
    by (intros a Ha; apply F; lia).
  assert (Hr : 0 <= wrap 32 (len - H) mod 4 < 4)
    by (apply Z.mod_pos_bound; lia).
  destruct (Refine.rotateMask_spec key _ Hkey Hr) as (R1 & R2 & _).
  pose proof (ParserFacts.wrap_nonneg 32 (n - len + H) ltac:(lia)) as Hw.
  split_frag. ws_simpl. near_done; first [exact R1|apply R2, Hkeyb].
Qed.

Lemma check_opCode_near (c c1 : ctx U) :
  sound c -> check_opCode c = Some c1 -> near c c1 /\ clen c1 = clen c.
Proof.
  intros Hs. open_sound Hs. unfold check_opCode. open_ctx c.
  destruct (negb (getOpCode m src =? 0)).
  - destruct ((os =? 1) || _); [discriminate|]. intros [= <-].
    split; [|reflexivity]. near_done. reflexivity.
  - destruct (os =? -1); [discriminate|]. intros [= <-].
    split; [|reflexivity]. near_done. reflexivity.
Qed.

Lemma consumeMessage_near (H T n : Z) (c : ctx U) :
  sound c -> H = 6 \/ H = 8 \/ H = 14 -> H <= clen c ->
  (T = 8 \/ T = 16) /\ 0 <= n < 65536 \/ T = 64 /\ 0 <= n < 2 ^ 64 ->
  near c (snd (consumeMessage true le H T n c)).
Proof.
  intros Hs HH Ht HT. unfold consumeMessage.
  destruct (check_opCode c) as [c1|] eqn:E1.
  - apply check_opCode_near in E1; [|exact Hs].
    destruct E1 as (E1 & Hl1).
    destruct (refusePayloadLength n (cws (with_ws c1 _)) (cuser (with_ws c1 _)))
      as [rf u'] eqn:Er.
    set (c2 := with_user (with_ws c1 _) u').
    assert (K2 : near c c2 /\ clen c2 = clen c1).
    { split; [|reflexivity]. apply (near_trans c c1 c2); [exact E1|].
      destruct E1 as (S1 & _). open_sound S1. unfold c2. open_ctx c1.
      near_done. reflexivity. }
    destruct K2 as (K2 & E2). clearbody c2.
    assert (S2 : sound c2) by apply K2.
    destruct rf.
    + apply (near_trans c c2 _); [exact K2|].
      open_sound S2. open_ctx c2. cbn [snd]. ws_simpl. near_done. reflexivity.
    + assert (Hn : 0 <= n /\ n + H < 2 ^ 64
                   /\ wrap (if T <? 32 then 32 else T) (n + H) = n + H).
      { destruct HT as [(HT & Hn) | (HT & Hn)].
        - split; [lia|]. split; [lia|].
          destruct HT as [-> | ->]; cbn [Z.ltb Z.compare Pos.compare Pos.compare_cont];
            unfold wrap; apply Z.mod_small; lia.
        - subst T. destruct (Z.lt_ge_cases n (2 ^ 64 - 14)) as [Hlt|Hge].
          + split; [lia|]. split; [lia|]. cbn [Z.ltb Z.compare Pos.compare Pos.compare_cont].
            unfold wrap. apply Z.mod_small. lia.
          + pose proof (Hbig n (cws (with_ws c1 (set_lastFin (isFin (cm c1) (csrc c1)))))
                          (cuser (with_ws c1 (set_lastFin (isFin (cm c1) (csrc c1)))))
                          Hge) as Hb.
            rewrite Er in Hb. discriminate Hb. }
      destruct Hn as (Hn0 & Hn1 & ->).
      apply (near_trans c c2 _); [exact K2|].
      destruct (Z.leb_spec (n + H) (clen c2)) as [Hle|Hgt].
      * apply whole_frame_near; auto.
      * apply partial_frame_near; auto. lia.
  - open_sound Hs. open_ctx c. cbn [snd]. ws_simpl. near_done. reflexivity.
Qed.

Lemma body_end_near (c : ctx U) :
  sound c -> remainingBytes (cws c) <= clen c ->
  near c (snd (body_end true c)).
Proof.
  intros Hs Hr. open_sound Hs. unfold body_end. open_ctx c.
  destruct (body_end_mem_near m src rb mk Hm Hkb Hrb) as (B & F).
  cbv zeta in B, F.
  set (m2 := unmask_tail _ _ _ mk) in *. clearbody m2.
  assert (F' : forall a, a < src \/ src + len + 22 <= a -> m2 a = m a)
    by (intros a Ha; apply F; lia).
  assert (W : wrap 32 (len - rb) = len - rb)
    by (unfold wrap; apply Z.mod_small; lia).
  split_frag. destruct stop; ws_simpl.
  - near_done.
  - destruct lf; ws_simpl; rewrite W; near_done.
Qed.

Lemma body_more_near (c : ctx U) :
  sound c -> near c (snd (body_more true L c)).
Proof.
  intros Hs. open_sound Hs. unfold body_more. open_ctx c. cbn [andb].
  pose proof (ParserFacts.wrap_nonneg 32 (rb - len) ltac:(lia)) as Hw.
  assert (Hrm : 0 <= len mod 4 < 4) by (apply Z.mod_pos_bound; lia).
  destruct (Refine.rotateMask_spec mk _ Hk4 Hrm) as (R1 & R2 & _).
  assert (M : exists m1,
             (if negb (forallb (Z.eqb 0) mk)
              then if wrap 32 L =? len
                   then with_mem (mkCtx m src len
                                    (mkWS wh sl os lf sp oc rb mk) u tr)
                          (unmaskAll L m src mk)
                   else with_mem (mkCtx m src len
                                    (mkWS wh sl os lf sp oc rb mk) u tr)
                          (unmaskInplace m src
                             (src + wrap 32 ((Z.shiftr len 2 + 1) * 4)) mk)
              else mkCtx m src len (mkWS wh sl os lf sp oc rb mk) u tr)
             = mkCtx m1 src len (mkWS wh sl os lf sp oc rb mk) u tr
             /\ all_bytes m1
             /\ forall a, a < src \/ src + len + 22 <= a -> m1 a = m a).
  { destruct (negb (forallb (Z.eqb 0) mk)).
    - destruct (Z.eqb_spec (wrap 32 L) len) as [E|E].
      + destruct (unmaskAll_near L m src mk Hm Hkb ltac:(lia)) as (B & F).
        eexists. split; [reflexivity|]. split; [exact B|].
        intros a Ha. apply F.
        assert (L = len) by (rewrite <- E; unfold wrap; symmetry;
                             apply Z.mod_small; lia).
        lia.
      + pose proof (slow_path_stop len ltac:(lia)) as Hd.
        destruct (unmaskInplace_near m src _ mk Hm Hkb (proj1 Hd)) as (B & F).
        eexists. split; [reflexivity|]. split; [exact B|].
        intros a Ha. apply F. lia.
    - exists m. split; [reflexivity|]. split; [exact Hm|reflexivity]. }
  destruct M as (m1 & -> & B & F).
  ws_simpl. split_frag. destruct stop; ws_simpl.
  - near_done.
  - destruct (negb (len mod 4 =? 0)); ws_simpl; near_done;
      first [exact R1|apply R2, Hkb].
Qed.

Lemma consumeContinuation_near (c : ctx U) :
  sound c -> near c (snd (consumeContinuation true L c)).
Proof.
  intros Hs. unfold consumeContinuation.
  destruct (Z.leb_spec (remainingBytes (cws c)) (clen c)).
  - apply body_end_near; assumption.
  - apply body_more_near; assumption.
Qed.

Lemma spill_rest_near (c : ctx U) :
  sound c -> clen c < 14 -> near c (spill_rest c).
Proof.
  intros Hs Hl14. unfold spill_rest.
  destruct (Z.eqb_spec (clen c) 0) as [E|E]; cbn [negb].
  - apply near_refl, Hs.
  - open_sound Hs. open_ctx c.
    rewrite Refine.land_15_small by lia. near_done; [|reflexivity].
    apply Forall_app. split; [apply load_bytes, Hm|apply Forall_skipn, Hsp].
Qed.

Lemma parseNext_near (fuel : nat) (c c' : ctx U) :
  sound c -> parseNext true le fuel c = Some c' -> near c c'.
Proof.
  revert c. induction fuel as [|fuel IH]; intros c Hs; [discriminate|].
  cbn [parseNext].
  change (SHORT_MESSAGE_HEADER true) with 6.
  change (MEDIUM_MESSAGE_HEADER true) with 8.
  change (LONG_MESSAGE_HEADER true) with 14.
  destruct (Z.leb_spec 6 (clen c)) as [Hc|Hc].
  2: { intros [= <-]. apply spill_rest_near; [exact Hs|lia]. }
  destruct (ParserFacts.invalid_header_eq c) as [u' E]. cbv zeta in E.
  rewrite E. clear E.
  set (c1 := mkCtx (cm c) (csrc c) (clen c) (cws c) u' (ctrace c)).
  assert (K1 : near c c1).
  { pose proof Hs as Hs'. open_sound Hs'. unfold c1. near_done; try lia;
      try reflexivity. }
  assert (S1 : sound c1) by apply K1.
  assert (Hsp : clen c < 14 -> Some (spill_rest c1) = Some c' -> near c c').
  { intros Hl [= <-]. apply (near_trans c c1 _); [exact K1|].
    apply spill_rest_near; assumption. }
  assert (Hcm : forall H T n,
            H = 6 \/ H = 8 \/ H = 14 -> H <= clen c ->
            (T = 8 \/ T = 16) /\ 0 <= n < 65536 \/ T = 64 /\ 0 <= n < 2 ^ 64 ->
            (let '(ret, c0) := consumeMessage true le H T n c1 in
             if ret then Some c0 else parseNext true le fuel c0) = Some c' ->
            near c c').
  { intros H T n HH Hl HT.
    pose proof (consumeMessage_near H T n c1 S1 HH Hl HT) as K.
    destruct (consumeMessage true le H T n c1) as [ret c0].
    cbn [snd] in K. destruct ret.
    - intros [= <-]. apply (near_trans c c1 _); assumption.
    - intros Hp. apply (near_trans c c0 _);
        [apply (near_trans c c1 _); assumption|].
      apply IH; [apply K|exact Hp]. }
  match goal with |- context [if ?b then Some (call_forceClose _ _) else _] =>
    destruct b end.
  { intros [= <-]. apply (near_trans c c1 _); [exact K1|].
    pose proof S1 as S1'. open_sound S1'. unfold c1 in *. ws_simpl.
    near_done; try lia; try reflexivity. }
  change (clen c1) with (clen c). change (cm c1) with (cm c).
  change (csrc c1) with (csrc c).
  pose proof (payloadLength_bound (cm c) (csrc c)) as Hp7.
  assert (Hmb : all_bytes (cm c)) by apply Hs.
  destruct (payloadLength (cm c) (csrc c) <? 126).
  { apply Hcm; [auto|lia|left; split; [auto|lia]]. }
  destruct (payloadLength (cm c) (csrc c) =? 126).
  - destruct (Z.ltb_spec (clen c) 8); [apply Hsp; lia|].
    apply Hcm; [auto|lia|left; split; [auto|]].
    apply (read_bound le (cm c) (csrc c + 2) 2 Hmb).
  - destruct (Z.ltb_spec (clen c) 14); [apply Hsp; lia|].
    apply Hcm; [auto|lia|right; split; [reflexivity|]].
    apply (read_bound le (cm c) (csrc c + 2) 8 Hmb).
Qed.

Lemma consume_near (fuel : nat) (m : mem) (src len : Z) (ws : WebSocketState)
  (u : U) (c : ctx U) :
  all_bytes m -> state_ok ws -> 0 <= len -> len + 13 < 2 ^ 32 ->
  consume true le L fuel m src len ws u = Some c ->
  (forall a, a < src - spillLength ws \/ src + len + 22 <= a -> cm c a = m a)
  /\ all_bytes (cm c)
  /\ state_ok (cws c).
Proof.
  intros Hm Hws Hlen H32. unfold consume.
  set (c0 := if negb (spillLength ws =? 0) then _ else _).
  assert (H0 : sound c0
               /\ csrc c0 = src - spillLength ws
               /\ csrc c0 + clen c0 = src + len
               /\ cws c0 = ws
               /\ forall a, a < src - spillLength ws \/ src + len + 22 <= a ->
                            cm c0 a = m a).
  { pose proof Hws as (Hsp & Hsl & Hk4 & Hkb & Hrb). subst c0.
    destruct (Z.eqb_spec (spillLength ws) 0) as [E|E]; cbn [negb].
    - unfold sound. cbn [cm cws clen csrc]. rewrite E.
      split; [split; [exact Hm|split; [exact Hws|lia]]|].
      split; [lia|]. split; [lia|]. split; [reflexivity|].
      intros a Ha. reflexivity.
    - assert (W : wrap 32 (len + spillLength ws) = len + spillLength ws)
        by (unfold wrap; apply Z.mod_small; lia).
      unfold sound. cbn [cm cws clen csrc]. rewrite W.
      split; [split; [|split; [assumption|lia]]|].
      + apply all_bytes_store; [exact Hm|apply Forall_firstn, Hsp].
      + split; [reflexivity|]. split; [lia|]. split; [reflexivity|].
        intros a Ha. apply store_out. rewrite length_firstn. lia. }
  destruct H0 as (S0 & Es & Ee & Ew & F0). clearbody c0.
  assert (Hfin : forall x, near c0 x ->
            (forall a, a < src - spillLength ws \/ src + len + 22 <= a ->
                       cm x a = m a)
            /\ all_bytes (cm x) /\ state_ok (cws x)).
  { intros x ((Hxm & Hxs & _) & _ & _ & F). split; [|split; assumption].
    intros a Ha. rewrite F by lia. apply F0, Ha. }
  destruct (wantsHead ws).
  - intros Hp. apply Hfin, parseNext_near with (fuel := fuel); assumption.
  - pose proof (consumeContinuation_near c0 S0) as K.
    destruct (consumeContinuation true L c0) as [again c1].
    cbn [snd] in K. destruct again.
    + intros Hp. apply Hfin. apply (near_trans c0 c1 c); [exact K|].
      apply parseNext_near with (fuel := fuel); [apply K|exact Hp].
    + intros [= <-]. apply Hfin, K.
Qed.

End ServerWrites.

(** Where the server-side parser writes.  [consume] for a server unmasks
    in place, in blocks of four, eight or sixteen bytes, so it writes
    outside the bytes received.  Whatever the handler answers and however
    the frames lie in the buffer, it changes no byte before
    [src - spillLength], where the bytes kept from the call before are
    copied, and no byte from [src + length + 22] on; and it leaves the
    memory in bytes and the state in order for the next call.  The handler
    refuses the lengths that the addition of the header would wrap, and the
    length of the buffer is below 2^32 - 13. *)
Theorem server_writes_near_buffer {U : Type} {I : Impl U} (le : bool) (L : Z)
  (fuel : nat) (m : mem) (src len : Z) (ws : WebSocketState) (u : U)
  (c : ctx U) :
  0 <= L < 2 ^ 32 ->
  (forall n w u, 2 ^ 64 - 14 <= n -> fst (refusePayloadLength n w u) = true) ->
  all_bytes m -> state_ok ws -> 0 <= len -> len + 13 < 2 ^ 32 ->
  consume true le L fuel m src len ws u = Some c ->
  (forall a, a < src - spillLength ws \/ src + len + 22 <= a -> cm c a = m a)
  /\ all_bytes (cm c)
  /\ state_ok (cws c).
Proof.
  intros HL Hbig Hm Hws Hlen H32 Hc.
  exact (consume_near le L HL Hbig fuel m src len ws u c Hm Hws Hlen H32 Hc).
Qed.

Lemma server_writes_near_buffer_witness :
  exists c,
    consume (I := Chunks.capped 1024) true true 524288 2
      (recv_buffer (fun _ => 0x55)
         [0x82; 0xFF; 0; 0; 0; 0; 0; 0; 0x01; 0x00; 0x37; 0xFA; 0x21; 0x3D;
          0x7F; 0x9F])
      0 16 (fresh true) tt
    = Some c
    /\ cm c 37 = Z.lxor 0x55 0x3D
    /\ cm c 38 = 0x55.
Proof.
  set (m := recv_buffer (fun _ => 0x55)
              [0x82; 0xFF; 0; 0; 0; 0; 0; 0; 0x01; 0x00; 0x37; 0xFA; 0x21;
               0x3D; 0x7F; 0x9F]).
  eexists.
  assert (E : forall r, r = consume (I := Chunks.capped 1024) true true 524288 2
                            m 0 16 (fresh true) tt ->
              consume (I := Chunks.capped 1024) true true 524288 2
                m 0 16 (fresh true) tt = r) by (intros; subst; reflexivity).
  specialize (E _ ltac:(vm_compute; reflexivity)).
  split; [exact E|]. split; [vm_compute; reflexivity|].
  assert (Hok : state_ok (fresh true)).
  { unfold state_ok. cbn.
    split; [repeat (apply Forall_cons; [unfold is_byte; lia|]); apply Forall_nil|].
    split; [lia|]. split; [reflexivity|].
    split; [repeat (apply Forall_cons; [unfold is_byte; lia|]); apply Forall_nil|].
    lia. }
  assert (Hbig : forall (n : Z) (w : WebSocketState) (u : unit),
             2 ^ 64 - 14 <= n ->
             fst (refusePayloadLength (Impl := Chunks.capped 1024) n w u) = true).
  { intros n w u Hn. cbn. apply Z.ltb_lt. lia. }
  destruct (server_writes_near_buffer (I := Chunks.capped 1024) true 524288 2 m
              0 16 (fresh true) tt _ ltac:(lia) Hbig
              (Refine.recv_buffer_bytes _ _) Hok ltac:(lia) ltac:(lia) E) as (F & _).
  exact (F 38 ltac:(lia)).
Defined.

End Footprint.

(* ===================================================================== *)
(** * The stream, however it is cut into reads *)
(* ===================================================================== *)

Module Cuts.
Import Parser Unmask Stream StreamFacts Refine.
Import OpStack ParserFacts.

(** ** Handlers that stop the parser *)


(** One that stops the parser at the first bytes of a Close frame, and one
    that stops it when a call ends a frame with two bytes or more. *)
Definition hasty (limit : Z) : Impl unit := {|
  refusePayloadLength := fun n _ u => (limit <? n, u);
  setCompressed := fun _ u => (false, u);
  handleFragment := fun _ _ _ o _ _ u => (o =? 8, u);
  forceClose := fun _ u _ => u
|}.

Definition picky (limit : Z) : Impl unit := {|
  refusePayloadLength := fun n _ u => (limit <? n, u);
  setCompressed := fun _ u => (false, u);
  handleFragment := fun _ l r _ _ _ u => ((r =? 0) && (2 <=? l), u);
  forceClose := fun _ u _ => u
|}.

(** One that counts the frames handed over whole in the user data, and
    stops the parser at the second. *)
Definition counting (limit : Z) : Impl nat := {|
  refusePayloadLength := fun n _ u => (limit <? n, u);
  setCompressed := fun _ u => (false, u);
  handleFragment := fun _ _ r _ _ _ u =>
    if r =? 0 then (Nat.leb 1 u, S u) else (false, u);
  forceClose := fun _ u _ => u
|}.

(** Two that count the calls of [handleFragment] in the user data and
    never stop the parser: one refuses every length once two calls were
    made, the other accepts compression until then. *)
Definition moody : Impl nat := {|
  refusePayloadLength := fun _ _ u => (Nat.leb 2 u, u);
  setCompressed := fun _ u => (false, u);
  handleFragment := fun _ _ _ _ _ _ u => (false, S u);
  forceClose := fun _ u _ => u
|}.

Definition fickle (limit : Z) : Impl nat := {|
  refusePayloadLength := fun n _ u => (limit <? n, u);
  setCompressed := fun _ u => (Nat.leb u 1, u);
  handleFragment := fun _ _ _ _ _ _ u => (false, S u);
  forceClose := fun _ u _ => u
|}.

(** The reads fed to [consume] one after the other by a caller that goes
    on after the connection was closed. *)
Fixpoint feed_on {U : Type} {I : Impl U} (isServer le : bool) (L : Z)
  (fuel : nat) (junk : mem) (chunks : list (list Z)) (ws : WebSocketState)
  (u : U) (tr : list event) : option (WebSocketState * U * list event) :=
  match chunks with
  | [] => Some (ws, u, tr)
  | chunk :: rest =>
      match receive isServer le L fuel junk chunk ws u with
      | None => None
      | Some c =>
          feed_on isServer le L fuel junk rest (cws c) (cuser c)
            (tr ++ ctrace c)
      end
  end.

(** ** The run of a handler and the run of the same handler, not stopping *)

(** The handler [I] with [false] for every answer of [handleFragment]. *)
Definition patient {U : Type} (I : Impl U) : Impl U := {|
  refusePayloadLength := @refusePayloadLength U I;
  setCompressed := @setCompressed U I;
  handleFragment := fun d l r o f w u =>
    (false, snd (@handleFragment U I d l r o f w u));
  forceClose := @forceClose U I
|}.

(** A call that does not stop the parser, and a call with its answer
    taken away. *)
Definition calm (e : event) : bool :=
  match e with
  | Fragment _ _ _ _ _ _ stop => negb stop
  | ForceClose _ _ => true
  end.

Definition hush (e : event) : event :=
  match e with
  | Fragment d l r o f w _ => Fragment d l r o f w false
  | ForceClose w s => ForceClose w s
  end.

(** The calls [ev] are the calls [ev0], or they end where a
    [handleFragment] of [ev0] is answered by true. *)
Definition follows (ev ev0 : list event) : Prop :=
  (ev = ev0 /\ forallb calm ev = true)
  \/ exists pre e post,
       forallb calm pre = true /\ calm e = false
       /\ ev = pre ++ [e] /\ ev0 = pre ++ hush e :: post.

Section Halting.

Context {U : Type} {I : Impl U}.
Variables (isServer le : bool) (L : Z).

Lemma call_both (c : ctx U) (d l r o : Z) (f : bool) :
  exists stop u',
    call_handleFragment (I := I) c d l r o f
    = (stop, mkCtx (cm c) (csrc c) (clen c) (cws c) u'
               (ctrace c ++ [Fragment (load (cm c) d (Z.to_nat l)) l r o f
                               (cws c) stop]))
    /\ call_handleFragment (I := patient I) c d l r o f
       = (false, mkCtx (cm c) (csrc c) (clen c) (cws c) u'
                   (ctrace c ++ [Fragment (load (cm c) d (Z.to_nat l)) l r o f
                                   (cws c) false])).
Proof.
  unfold call_handleFragment. cbn [handleFragment patient].
  destruct (handleFragment _ _ _ _ _ _ _) as [stop u']. cbn [snd]. eauto.
Qed.

(** One branch of the parser, with [I] and with [patient I]: the same, or
    [I] stopped the parser and the branch returns [back]. *)
Definition led (back : bool) (c : ctx U) (x x0 : bool * ctx U) : Prop :=
  (x = x0 /\ exists ev, ctrace (snd x) = ctrace c ++ ev /\ forallb calm ev = true)
  \/ (fst x = back
      /\ exists e, calm e = false /\ ctrace (snd x) = ctrace c ++ [e]
                   /\ ctrace (snd x0) = ctrace c ++ [hush e]).

Ltac both_calls :=
  match goal with
  | |- context [@call_handleFragment _ (patient _) ?cc ?d ?l ?r ?o ?f] =>
      let stop := fresh "stop" in
      let u' := fresh "u'" in
      let E1 := fresh "E" in
      let E2 := fresh "E" in
      destruct (call_both cc d l r o f) as (stop & u' & E1 & E2);
      rewrite E1, E2; clear E1 E2
  end.

Ltac led_done :=
  first
    [ left; split; [reflexivity|];
      eexists; split; [ws_simpl; reflexivity|reflexivity]
    | right; split; [reflexivity|];
      eexists; split; [|split; ws_simpl; reflexivity]; reflexivity ].

Lemma whole_frame_led (H n total : Z) (c : ctx U) :
  led true c (whole_frame (I := I) isServer le H n total c)
    (whole_frame (I := patient I) isServer le H n total c).
Proof.
  unfold whole_frame, led. open_ctx c.
  destruct isServer; both_calls; destruct stop; ws_simpl;
    try destruct (isFin m src); ws_simpl; led_done.
Qed.

Lemma partial_frame_led (H n : Z) (c : ctx U) :
  led true c (partial_frame (I := I) isServer le H n c)
    (partial_frame (I := patient I) isServer le H n c).
Proof.
  unfold partial_frame, led. open_ctx c.
  destruct isServer; both_calls; destruct stop; ws_simpl; led_done.
Qed.

Lemma body_end_led (c : ctx U) :
  led false c (body_end (I := I) isServer c)
    (body_end (I := patient I) isServer c).
Proof.
  unfold body_end, led. open_ctx c.
  destruct isServer; both_calls; destruct stop; ws_simpl;
    try destruct lf; ws_simpl; led_done.
Qed.

Lemma body_more_led (c : ctx U) :
  led false c (body_more (I := I) isServer L c)
    (body_more (I := patient I) isServer L c).
Proof.
  unfold body_more, led. open_ctx c.
  destruct isServer; cbn [andb];
    repeat match goal with
           | |- context [if ?b then _ else _] =>
               lazymatch b with
               | context [call_handleFragment] => fail
               | _ => destruct b
               end
           end;
    both_calls; destruct stop; ws_simpl;
    repeat match goal with
           | |- context [if ?b then _ else _] => destruct b
           end;
    ws_simpl; led_done.
Qed.

Lemma consumeContinuation_led (c : ctx U) :
  led false c (consumeContinuation (I := I) isServer L c)
    (consumeContinuation (I := patient I) isServer L c).
Proof.
  unfold consumeContinuation.
  destruct (remainingBytes (cws c) <=? clen c);
    [apply body_end_led|apply body_more_led].
Qed.

Lemma led_from (back : bool) (c c1 : ctx U) (x x0 : bool * ctx U) :
  ctrace c1 = ctrace c -> led back c1 x x0 -> led back c x x0.
Proof. unfold led. intros ->. auto. Qed.

Lemma consumeMessage_led (H T n : Z) (c : ctx U) :
  led true c (consumeMessage (I := I) isServer le H T n c)
    (consumeMessage (I := patient I) isServer le H T n c).
Proof.
  unfold consumeMessage.
  change (@refusePayloadLength U (patient I)) with (@refusePayloadLength U I).
  change (@call_forceClose U (patient I)) with (@call_forceClose U I).
  destruct (check_opCode c) as [c1|] eqn:E1.
  - apply check_opCode_keeps with (isServer := isServer) in E1.
    destruct E1 as (_ & _ & _ & _ & Et). rewrite app_nil_r in Et.
    destruct (refusePayloadLength _ _ _) as [rf u']. destruct rf.
    + left. split; [reflexivity|]. eexists. cbn [snd]. split.
      * unfold call_forceClose. cbn [ctrace with_user with_ws]. rewrite Et.
        reflexivity.
      * reflexivity.
    + match goal with
      | |- context [if ?a <=? ?b then _ else _] => destruct (a <=? b)
      end.
      * eapply led_from; [|apply whole_frame_led]. cbn [ctrace with_user with_ws].
        exact Et.
      * eapply led_from; [|apply partial_frame_led]. cbn [ctrace with_user with_ws].
        exact Et.
  - left. split; [reflexivity|]. eexists. split; [reflexivity|reflexivity].
Qed.

(** A call of [consume] from the running state [c], with [I] and with
    [patient I], which ends in [c0]. *)
Definition trails (c : ctx U) (r : option (ctx U)) (c0 : ctx U) : Prop :=
  exists c1,
    r = Some c1
    /\ ((c1 = c0
         /\ exists ev, ctrace c1 = ctrace c ++ ev /\ forallb calm ev = true)
        \/ exists pre e post,
             forallb calm pre = true /\ calm e = false
             /\ ctrace c1 = ctrace c ++ pre ++ [e]
             /\ ctrace c0 = ctrace c ++ pre ++ hush e :: post).

Lemma trails_after (c c1 : ctx U) (ev : list event) (r : option (ctx U))
  (c0 : ctx U) :
  ctrace c1 = ctrace c ++ ev -> forallb calm ev = true ->
  trails c1 r c0 -> trails c r c0.
Proof.
  intros Et Hc (c2 & Er & [(Ec & ev2 & E2 & H2) | (pre & e & post & Hp & He & E1 & E0)]);
    exists c2; (split; [exact Er|]).
  - left. split; [exact Ec|]. exists (ev ++ ev2).
    rewrite E2, Et, app_assoc, forallb_app, Hc, H2. auto.
  - right. exists (ev ++ pre), e, post.
    rewrite forallb_app, Hc, Hp, E1, E0, Et, <- !app_assoc. auto.
Qed.

Lemma spill_rest_trace (c : ctx U) : ctrace (spill_rest c) = ctrace c.
Proof. unfold spill_rest. destruct (negb _); destruct c; reflexivity. Qed.

Lemma trails_same (c c0 : ctx U) (ev : list event) :
  ctrace c0 = ctrace c ++ ev -> forallb calm ev = true ->
  trails c (Some c0) c0.
Proof.
  intros Et Hc. exists c0. split; [reflexivity|]. left.
  split; [reflexivity|]. exists ev. auto.
Qed.

Lemma parseNext_trails (fuel : nat) :
  forall c c0 : ctx U,
    parseNext (I := patient I) isServer le fuel c = Some c0 ->
    trails c (parseNext (I := I) isServer le fuel c) c0.
Proof.
  induction fuel as [|fuel IH]; intros c c0; [discriminate|].
  cbn [parseNext].
  change (@invalid_header U (patient I)) with (@invalid_header U I).
  change (@call_forceClose U (patient I)) with (@call_forceClose U I).
  destruct (SHORT_MESSAGE_HEADER isServer <=? clen c).
  2: { intros [= <-]. apply (trails_same _ _ []);
         [rewrite spill_rest_trace, app_nil_r; reflexivity|reflexivity]. }
  destruct (invalid_header_eq c) as [u' E]. cbv zeta in E. rewrite E. clear E.
  set (c1 := mkCtx (cm c) (csrc c) (clen c) (cws c) u' (ctrace c)).
  assert (Hsp : Some (spill_rest c1) = Some c0 ->
                trails c (Some (spill_rest c1)) c0).
  { intros [= <-]. apply (trails_same _ _ []);
      [rewrite spill_rest_trace, app_nil_r; reflexivity|reflexivity]. }
  assert (Hcm : forall H T n,
            (let '(ret, cx) := consumeMessage (I := patient I) isServer le H T n c1 in
             if ret then Some cx
             else parseNext (I := patient I) isServer le fuel cx) = Some c0 ->
            trails c
              (let '(ret, cx) := consumeMessage (I := I) isServer le H T n c1 in
               if ret then Some cx else parseNext (I := I) isServer le fuel cx)
              c0).
  { intros H T n.
    destruct (consumeMessage_led H T n c1)
      as [(Eq & ev & Et & Hc) | (Hb & e & He & Et1 & Et0)].
    - rewrite <- Eq.
      destruct (consumeMessage (I := I) isServer le H T n c1) as [ret cx].
      cbn [snd] in Et. destruct ret.
      + intros [= <-]. apply (trails_same _ _ ev); assumption.
      + intros Hp. apply (trails_after c cx ev); [exact Et|exact Hc|].
        apply IH, Hp.
    - destruct (consumeMessage (I := I) isServer le H T n c1) as [ret cx].
      destruct (consumeMessage (I := patient I) isServer le H T n c1)
        as [ret0 cx0].
      cbn [fst snd] in *. subst ret. intros Hp. exists cx.
      split; [reflexivity|]. right.
      assert (Hex : exists post, ctrace c0 = ctrace cx0 ++ post).
      { destruct ret0.
        - injection Hp as <-. exists []. rewrite app_nil_r. reflexivity.
        - apply (parseNext_result (I := patient I)) in Hp.
          destruct Hp as (_ & (ev & Ee & _) & _). exists ev. exact Ee. }
      destruct Hex as (post & Epost).
      exists [], e, post. cbn [app forallb].
      rewrite Epost, Et0, <- app_assoc. auto. }
  match goal with |- context [if ?b then Some (call_forceClose _ _) else _] =>
    destruct b end.
  { intros [= <-].
    apply (trails_same _ _ [ForceClose (cws c1) Err.ERR_PROTOCOL]);
      reflexivity. }
  destruct (payloadLength (cm c1) (csrc c1) <? 126); [apply Hcm|].
  destruct (payloadLength (cm c1) (csrc c1) =? 126).
  - destruct (clen c1 <? MEDIUM_MESSAGE_HEADER isServer); [apply Hsp|apply Hcm].
  - destruct (clen c1 <? LONG_MESSAGE_HEADER isServer); [apply Hsp|apply Hcm].
Qed.

(** One call of [consume]. *)
Lemma consume_trails (fuel : nat) (m : mem) (src len : Z) (ws : WebSocketState)
  (u : U) (c0 : ctx U) :
  consume (I := patient I) isServer le L fuel m src len ws u = Some c0 ->
  exists c1,
    consume (I := I) isServer le L fuel m src len ws u = Some c1
    /\ follows (ctrace c1) (ctrace c0)
    /\ (forallb calm (ctrace c1) = true -> c1 = c0).
Proof.
  unfold consume.
  set (c := if negb (spillLength ws =? 0) then _ else _).
  assert (Ht : ctrace c = []) by (subst c; destruct (negb _); reflexivity).
  clearbody c.
  assert (Hfin : forall r, trails c r c0 ->
            exists c1, r = Some c1 /\ follows (ctrace c1) (ctrace c0)
                       /\ (forallb calm (ctrace c1) = true -> c1 = c0)).
  { intros r (c1 & Er & [(Ec & ev & Ee & Hc) | (pre & e & post & Hp & He & E1 & E0)]);
      exists c1; (split; [exact Er|]); rewrite Ht in *; cbn [app] in *.
    - subst c0. split; [|reflexivity]. left. rewrite Ee. auto.
    - split.
      + right. exists pre, e, post. auto.
      + rewrite E1, forallb_app. cbn [forallb]. rewrite He, andb_false_r.
        discriminate. }
  destruct (wantsHead ws).
  - intros Hp. apply Hfin, parseNext_trails, Hp.
  - destruct (consumeContinuation_led c)
      as [(Eq & ev & Et & Hc) | (Hb & e & He & Et1 & Et0)].
    + rewrite <- Eq.
      destruct (consumeContinuation (I := I) isServer L c) as [again cx].
      cbn [snd] in Et. destruct again.
      * intros Hp. apply Hfin. apply (trails_after c cx ev); [exact Et|exact Hc|].
        apply parseNext_trails, Hp.
      * intros [= <-]. apply Hfin. apply (trails_same _ _ ev); assumption.
    + destruct (consumeContinuation (I := I) isServer L c) as [again cx].
      destruct (consumeContinuation (I := patient I) isServer L c)
        as [again0 cx0].
      cbn [fst snd] in *. subst again. intros Hp. apply Hfin. exists cx.
      split; [reflexivity|]. right.
      assert (Hex : exists post, ctrace c0 = ctrace cx0 ++ post).
      { destruct again0.
        - apply (parseNext_result (I := patient I)) in Hp.
          destruct Hp as (_ & (ev & Ee & _) & _). exists ev. exact Ee.
        - injection Hp as <-. exists []. rewrite app_nil_r. reflexivity. }
      destruct Hex as (post & Epost).
      exists [], e, post. cbn [app forallb].
      rewrite Epost, Et0, <- app_assoc. auto.
Qed.

Lemma feed_extends (fuel : nat) (junk : mem) (chunks : list (list Z)) :
  forall (ws : WebSocketState) (u : U) (tr : list event) ws' u' tr',
    feed (I := patient I) isServer le L fuel junk chunks ws u tr
    = Some (ws', u', tr') ->
    exists ev, tr' = tr ++ ev.
Proof.
  induction chunks as [|chunk rest IH]; intros ws u tr ws' u' tr'; cbn [feed].
  - intros [= _ _ <-]. exists []. rewrite app_nil_r. reflexivity.
  - destruct (receive _ _ _ _ _ _ _ _) as [c|]; [|discriminate].
    destruct (closed (ctrace c)).
    + intros [= _ _ <-]. eauto.
    + intros Hf. apply IH in Hf. destruct Hf as (ev & ->).
      exists (ctrace c ++ ev). rewrite app_assoc. reflexivity.
Qed.

Lemma follows_app (a ev ev0 : list event) :
  forallb calm a = true -> follows ev ev0 -> follows (a ++ ev) (a ++ ev0).
Proof.
  intros Ha [(-> & Hc) | (pre & e & post & Hp & He & -> & ->)].
  - left. rewrite forallb_app, Ha, Hc. auto.
  - right. exists (a ++ pre), e, post.
    rewrite forallb_app, Ha, Hp, <- !app_assoc. auto.
Qed.

Lemma calm_closing (e : event) : calm e = false -> closing e = true.
Proof. destruct e as [d l r o f w st|w s]; [|discriminate]. destruct st; auto. Qed.

(** All the reads of a connection. *)
Lemma feed_trails (fuel : nat) (junk : mem) (chunks : list (list Z)) :
  forall (ws : WebSocketState) (u : U) (tr : list event) w0 u0 tr0,
    feed (I := patient I) isServer le L fuel junk chunks ws u tr
    = Some (w0, u0, tr0) ->
    exists w1 u1 ev1 ev0,
      feed (I := I) isServer le L fuel junk chunks ws u tr
      = Some (w1, u1, tr ++ ev1)
      /\ tr0 = tr ++ ev0 /\ follows ev1 ev0.
Proof.
  induction chunks as [|chunk rest IH]; intros ws u tr w0 u0 tr0; cbn [feed].
  - intros [= <- <- <-]. exists ws, u, [], []. rewrite app_nil_r.
    split; [reflexivity|]. split; [reflexivity|]. left. auto.
  - unfold receive.
    destruct (consume (I := patient I) isServer le L fuel _ 0 _ ws u)
      as [c0|] eqn:E0; [|discriminate].
    destruct (consume_trails fuel _ _ _ _ _ _ E0) as (c1 & E1 & F & Hsame).
    rewrite E1.
    destruct F as [(Eq & Hcalm) | (pre & e & post & Hp & He & E1t & E0t)].
    + specialize (Hsame Hcalm). subst c1.
      destruct (closed (ctrace c0)).
      * intros [= <- <- <-]. exists (cws c0), (cuser c0), (ctrace c0), (ctrace c0).
        split; [reflexivity|]. split; [reflexivity|]. left. auto.
      * intros Hf. apply IH in Hf.
        destruct Hf as (w1 & u1 & ev1 & ev0 & Ef & -> & Hfo).
        exists w1, u1, (ctrace c0 ++ ev1), (ctrace c0 ++ ev0).
        rewrite Ef, <- !app_assoc. split; [reflexivity|].
        split; [reflexivity|]. apply follows_app; assumption.
    + assert (Hcl : closed (ctrace c1) = true).
      { rewrite E1t. unfold closed. rewrite existsb_app. cbn [existsb].
        rewrite (calm_closing e He). apply orb_true_iff. right. reflexivity. }
      rewrite Hcl. intros Hf.
      assert (Hex : exists more, tr0 = (tr ++ ctrace c0) ++ more).
      { destruct (closed (ctrace c0)).
        - injection Hf as _ _ <-. exists []. rewrite app_nil_r. reflexivity.
        - apply feed_extends in Hf. exact Hf. }
      destruct Hex as (more & ->).
      exists (cws c1), (cuser c1), (ctrace c1), (ctrace c0 ++ more).
      split; [reflexivity|]. split; [rewrite app_assoc; reflexivity|].
      right. exists pre, e, (post ++ more).
      rewrite E1t, E0t, <- app_assoc. auto.
Qed.

End Halting.

(** With a handler that answers on lengths and on compression the same
    way every time and refuses what does not fit [remainingBytes], the
    reads are parsed to the end, and the calls made are those for the
    frames of the stream, up to the call at which the handler stops the
    parser. *)
Lemma feed_follows {U : Type} {I : Impl U} (isServer le : bool) (L : Z)
  (refuses : Z -> bool) (compressed : bool) (fuel : nat) (junk : mem)
  (chunks : list (list Z)) (u : U) :
  (forall n w u, fst (refusePayloadLength n w u) = refuses n) ->
  (forall w u, fst (setCompressed w u) = compressed) ->
  (forall n, refuses n = false -> n < 2 ^ 32) ->
  0 <= L < 2 ^ 32 ->
  Forall (fits fuel) chunks ->
  exists w1 u1 tr tr0,
    feed isServer le L fuel junk chunks (fresh isServer) u [] = Some (w1, u1, tr)
    /\ follows tr tr0
    /\ delivered tr0 = Stream.frames isServer le refuses compressed (concat chunks).
Proof.
  intros Hrefuse Hcomp Hbig HL Hf.
  destruct (feed_frames (I := patient I) isServer le L refuses compressed
              Hrefuse Hcomp (fun _ _ _ _ _ _ _ => eq_refl) Hbig HL
              fuel junk chunks u Hf) as (w0 & u0 & tr0 & E0 & D0).
  destruct (feed_trails isServer le L fuel junk chunks _ _ _ _ _ _ E0)
    as (w1 & u1 & ev1 & ev0 & E1 & -> & Hfo).
  exists w1, u1, ev1, ev0. auto.
Qed.

(** ** What a run that was stopped holds *)

Definition complete (it : item) : bool :=
  match it with
  | Frame _ _ _ c => c
  | Closed _ => false
  end.

Section Oracle.

(** Whether the parser is to be stopped, from the frames handed over so
    far, the one just ended included. *)
Variable stops : list item -> bool.

(** In the trace, [handleFragment] returned true at the last calls of the
    frames after which [stops] holds, and at no other call. *)
Fixpoint regular_from (hist : list item) (pend : option (Z * bool * list Z))
  (tr : list event) : bool :=
  match tr with
  | [] => true
  | Fragment d _ rem opc fin _ st :: t =>
      let data := match pend with Some (_, _, acc) => acc | None => [] end ++ d in
      if rem =? 0 then
        let hist' := hist ++ [Frame opc fin data true] in
        Bool.eqb st (stops hist') && regular_from hist' None t
      else negb st && regular_from hist (Some (opc, fin, data)) t
  | ForceClose _ reason :: t =>
      regular_from (hist ++ flush pend ++ [Closed reason]) None t
  end.

Definition regular (tr : list event) : bool := regular_from [] None tr.

(** The frames of [F] up to the first one, handed over whole, after which
    [stops] holds. *)
Fixpoint cut_at (hist : list item) (F : list item) : list item :=
  match F with
  | [] => []
  | it :: R =>
      if complete it && stops (hist ++ [it]) then [it]
      else it :: cut_at (hist ++ [it]) R
  end.

Lemma cut_at_flush (hist : list item) (p : option (Z * bool * list Z)) :
  cut_at hist (flush p) = flush p.
Proof. destruct p as [[[o f] acc]|]; reflexivity. Qed.

Lemma calm_part (pre : list event) :
  forall hist pend rest,
    forallb calm pre = true ->
    regular_from hist pend (pre ++ rest) = true ->
    regular_from (hist ++ fst (gather pend pre)) (snd (gather pend pre)) rest
    = true
    /\ forall X,
         cut_at hist (fst (gather pend pre) ++ X)
         = fst (gather pend pre) ++ cut_at (hist ++ fst (gather pend pre)) X.
Proof.
  induction pre as [|e t IH]; intros hist pend rest Hc Hr.
  - cbn [gather fst snd app] in *. rewrite app_nil_r. auto.
  - cbn [forallb] in Hc. apply andb_true_iff in Hc. destruct Hc as (He & Hc).
    destruct e as [d l r o f w st|w reason].
    + cbn [calm] in He. destruct st; [discriminate|].
      cbn [app regular_from gather] in *.
      destruct (r =? 0).
      * apply andb_true_iff in Hr. destruct Hr as (Hs & Hr).
        destruct (IH _ _ _ Hc Hr) as (R1 & R2).
        destruct (gather None t) as [its p]. cbn [fst snd] in *.
        set (it := Frame o f _ true) in *.
        assert (Est : stops (hist ++ [it]) = false)
          by (destruct (stops (hist ++ [it])); [discriminate|reflexivity]).
        replace (hist ++ it :: its) with ((hist ++ [it]) ++ its)
          by (rewrite <- app_assoc; reflexivity).
        split; [exact R1|]. intros X. cbn [app cut_at].
        rewrite Est, andb_false_r, R2. reflexivity.
      * cbn [negb andb] in Hr. apply (IH _ _ _ Hc Hr).
    + cbn [app regular_from gather] in *.
      destruct (IH _ _ _ Hc Hr) as (R1 & R2).
      destruct (gather None t) as [its p]. cbn [fst snd] in *.
      change (match pend with
              | Some (opc, fin, acc) => [Frame opc fin acc false]
              | None => []
              end) with (flush pend).
      replace (hist ++ flush pend ++ Closed reason :: its)
        with ((hist ++ flush pend ++ [Closed reason]) ++ its)
        by (rewrite <- !app_assoc; reflexivity).
      split; [exact R1|]. intros X. specialize (R2 X).
      destruct pend as [[[po pf] pacc]|];
        cbn [flush app cut_at complete andb] in *.
      * replace ((hist ++ [Frame po pf pacc false]) ++ [Closed reason])
          with (hist ++ [Frame po pf pacc false; Closed reason])
          by (rewrite <- app_assoc; reflexivity).
        rewrite R2. reflexivity.
      * rewrite R2. reflexivity.
Qed.

Lemma delivered_app (t1 t2 : list event) :
  delivered (t1 ++ t2)
  = fst (gather None t1)
    ++ fst (gather (snd (gather None t1)) t2)
    ++ flush (snd (gather (snd (gather None t1)) t2)).
Proof.
  unfold delivered. rewrite gather_app.
  destruct (gather None t1) as [i1 p1]. cbn [fst snd].
  destruct (gather p1 t2) as [i2 p2]. cbn [fst snd].
  rewrite app_assoc. reflexivity.
Qed.

(** What a run that was stopped as [stops] tells holds: the frames of the
    patient run, up to the one that stopped it. *)
Lemma cut_spec (tr tr0 : list event) :
  follows tr tr0 -> regular tr = true ->
  delivered tr = cut_at [] (delivered tr0).
Proof.
  unfold regular.
  intros [(<- & Hc) | (pre & e & post & Hp & He & -> & ->)] Hr.
  - rewrite <- (app_nil_r tr) in Hr.
    destruct (calm_part tr [] None [] Hc Hr) as (_ & R2).
    unfold delivered. destruct (gather None tr) as [its p]. cbn [fst snd] in *.
    rewrite R2, cut_at_flush. reflexivity.
  - destruct (calm_part pre [] None [e] Hp Hr) as (R1 & R2).
    rewrite !delivered_app.
    destruct (gather None pre) as [i1 p1]. cbn [fst snd app] in *.
    destruct e as [d l r o f w st|w reason]; [|discriminate].
    cbn [calm] in He. destruct st; [|discriminate].
    cbn [regular_from hush gather] in *.
    destruct (r =? 0).
    + apply andb_true_iff in R1. destruct R1 as (Hs & _).
      destruct (gather None post) as [i2 p2]. cbn [fst snd flush].
      rewrite app_nil_r, R2. cbn [app cut_at complete andb].
      set (it := Frame o f _ true) in *.
      destruct (stops (i1 ++ [it])); [reflexivity|discriminate].
    + discriminate.
Qed.

End Oracle.



(** ** The two runs of a stream *)

(** The number of frames handed over whole. *)
Definition whole_frames (hist : list item) : nat := length (filter complete hist).

(** C1, as stated, fails, in six ways.

    The length of a frame is kept in 32 bits.  The client-side parser with
    a handler that accepts every length reads a Binary frame that announces
    2^32 bytes of payload, followed by the three bytes [81 01 41].  In one
    call, the three bytes are handed over as payload of the Binary frame;
    cut after the header, the frame is handed over twice with no payload
    and the three bytes are parsed as a Text frame.

    The caller has to stop at a [forceClose].  The bytes [83 00], an invalid
    header, and then [81 01 41]: in one call the parser returns at the
    [forceClose]; fed in two reads by a caller that goes on, the second read
    is parsed and a Text frame handed over.

    The handler may not stop the parser in the middle of a frame.  With a
    handler that stops at the first call for a Close frame, [88 02 03 E8]
    in one call hands the two bytes over; cut after [03], one byte only.

    The handler may not decide from the way a frame is cut into calls.
    With a handler that stops when the call that ends a frame has two bytes
    or more, [81 02 41 42 81 01 43] in one call stops after the first
    frame; cut after [41], no call has two bytes and both frames are handed
    over.

    The answers on a length and on compression may not change with the
    calls made.  With a handler that refuses every length once two calls of
    [handleFragment] were made, [81 02 41 42 81 01 43] in one call hands
    both frames over; cut after [41], the first frame takes two calls and
    the second is refused.  With a handler that accepts compression until
    two calls were made, the same happens to [81 02 41 42 C1 01 43]. *)
Lemma consume_chunks_counterexample :
  (exists ws1 ws2,
     Scenarios.run_client true 524288 20 (fun _ => 0)
       [[0x82; 0x7F; 0; 0; 0; 1; 0; 0; 0; 0; 0x81; 0x01; 0x41]]
     = Some (ws1, [Scenarios.SFragment [0x81; 0x01; 0x41] 4294967293
                     Scenarios.OP_BINARY true])
     /\ Scenarios.run_client true 524288 20 (fun _ => 0)
          [[0x82; 0x7F; 0; 0; 0; 1; 0; 0; 0; 0]; [0x81; 0x01; 0x41]]
        = Some (ws2, [Scenarios.SFragment [] 0 Scenarios.OP_BINARY true;
                      Scenarios.SFragment [] 0 Scenarios.OP_BINARY true;
                      Scenarios.SFragment [0x41] 0 Scenarios.OP_TEXT true]))
  /\ (exists ws1 tr1 ws2 tr2,
        feed_on (I := Chunks.capped 1024) false true 524288 20 (fun _ => 0)
          [[0x83; 0x00; 0x81; 0x01; 0x41]] (fresh false) tt []
        = Some (ws1, tt, tr1)
        /\ map Scenarios.view tr1 = [Scenarios.SClose Err.ERR_PROTOCOL]
        /\ feed_on (I := Chunks.capped 1024) false true 524288 20 (fun _ => 0)
             [[0x83; 0x00]; [0x81; 0x01; 0x41]] (fresh false) tt []
           = Some (ws2, tt, tr2)
        /\ map Scenarios.view tr2
           = [Scenarios.SClose Err.ERR_PROTOCOL;
              Scenarios.SFragment [0x41] 0 Scenarios.OP_TEXT true])
  /\ (exists ws1 tr1 ws2 tr2,
        feed (I := hasty 1024) false true 524288 20 (fun _ => 0)
          [[0x88; 0x02; 0x03; 0xE8]] (fresh false) tt []
        = Some (ws1, tt, tr1)
        /\ delivered tr1 = [Frame 8 true [0x03; 0xE8] true]
        /\ feed (I := hasty 1024) false true 524288 20 (fun _ => 0)
             [[0x88; 0x02; 0x03]; [0xE8]] (fresh false) tt []
           = Some (ws2, tt, tr2)
        /\ delivered tr2 = [Frame 8 true [0x03] false])
  /\ (exists ws1 tr1 ws2 tr2,
        feed (I := picky 1024) false true 524288 20 (fun _ => 0)
          [[0x81; 0x02; 0x41; 0x42; 0x81; 0x01; 0x43]] (fresh false) tt []
        = Some (ws1, tt, tr1)
        /\ delivered tr1 = [Frame 1 true [0x41; 0x42] true]
        /\ feed (I := picky 1024) false true 524288 20 (fun _ => 0)
             [[0x81; 0x02; 0x41]; [0x42; 0x81; 0x01; 0x43]] (fresh false) tt []
           = Some (ws2, tt, tr2)
        /\ delivered tr2
           = [Frame 1 true [0x41; 0x42] true; Frame 1 true [0x43] true])
  /\ (exists ws1 u1 tr1 ws2 u2 tr2,
        feed (I := moody) false true 524288 20 (fun _ => 0)
          [[0x81; 0x02; 0x41; 0x42; 0x81; 0x01; 0x43]] (fresh false) 0%nat []
        = Some (ws1, u1, tr1)
        /\ delivered tr1
           = [Frame 1 true [0x41; 0x42] true; Frame 1 true [0x43] true]
        /\ feed (I := moody) false true 524288 20 (fun _ => 0)
             [[0x81; 0x02; 0x41]; [0x42; 0x81; 0x01; 0x43]] (fresh false) 0%nat []
           = Some (ws2, u2, tr2)
        /\ delivered tr2
           = [Frame 1 true [0x41; 0x42] true; Closed Err.ERR_TOO_BIG_MESSAGE])
  /\ (exists ws1 u1 tr1 ws2 u2 tr2,
        feed (I := fickle 1024) false true 524288 20 (fun _ => 0)
          [[0x81; 0x02; 0x41; 0x42; 0xC1; 0x01; 0x43]] (fresh false) 0%nat []
        = Some (ws1, u1, tr1)
        /\ delivered tr1
           = [Frame 1 true [0x41; 0x42] true; Frame 1 true [0x43] true]
        /\ feed (I := fickle 1024) false true 524288 20 (fun _ => 0)
             [[0x81; 0x02; 0x41]; [0x42; 0xC1; 0x01; 0x43]] (fresh false) 0%nat []
           = Some (ws2, u2, tr2)
        /\ delivered tr2
           = [Frame 1 true [0x41; 0x42] true; Closed Err.ERR_PROTOCOL]).
Proof.
  split; [|split; [|split; [|split; [|split]]]].
  5, 6: do 6 eexists;
    (split; [vm_compute; reflexivity|]); (split; [vm_compute; reflexivity|]);
    (split; [vm_compute; reflexivity|]); vm_compute; reflexivity.
  - eexists. eexists. split; vm_compute; reflexivity.
  - eexists. eexists. eexists. eexists.
    split; [vm_compute; reflexivity|]. split; [vm_compute; reflexivity|].
    split; [vm_compute; reflexivity|]. vm_compute. reflexivity.
  - eexists. eexists. eexists. eexists.
    split; [vm_compute; reflexivity|]. split; [vm_compute; reflexivity|].
    split; [vm_compute; reflexivity|]. vm_compute. reflexivity.
  - eexists. eexists. eexists. eexists.
    split; [vm_compute; reflexivity|]. split; [vm_compute; reflexivity|].
    split; [vm_compute; reflexivity|]. vm_compute. reflexivity.
Qed.

(** C1, amended.  Let the handler answer on a payload length and on
    compression the same way at every call and refuse every length of 2^32
    or more; let [LIBUS_RECV_BUFFER_LENGTH] be below 2^32, and let the
    caller stop at the read in which the connection is closed.  For every
    stream of bytes of less than 2^32 - 16 bytes and every way of cutting
    it into reads, the reads fed one at a time to [consume] from a fresh
    state, and the whole stream fed in one call, both return.  If in both
    runs [handleFragment] returned true only at the last call of a frame,
    and there as the frames handed over so far decide, the one just ended
    included ([stops], on their opcodes, FIN flags and payload bytes), the
    two traces hold the same frames in the same order: for each frame the
    opcode handed over, the FIN flag, the payload bytes of all its calls
    put together and whether it is complete, and the same calls of
    [forceClose]. *)
Theorem consume_chunks_agree {U : Type} {I : Impl U} (isServer le : bool)
  (L : Z) (refuses : Z -> bool) (compressed : bool)
  (stops : list item -> bool) (fuel : nat)
  (junk1 junk2 : mem) (chunks : list (list Z)) (u : U) :
  (forall n w u, fst (refusePayloadLength n w u) = refuses n) ->
  (forall w u, fst (setCompressed w u) = compressed) ->
  (forall n, refuses n = false -> n < 2 ^ 32) ->
  0 <= L < 2 ^ 32 ->
  Forall is_byte (concat chunks) ->
  Z.of_nat (length (concat chunks)) + 16 < 2 ^ 32 ->
  (length (concat chunks) + 16 < fuel)%nat ->
  exists w1 u1 tr1 w2 u2 tr2,
    feed isServer le L fuel junk1 chunks (fresh isServer) u [] = Some (w1, u1, tr1)
    /\ feed isServer le L fuel junk2 [concat chunks] (fresh isServer) u []
       = Some (w2, u2, tr2)
    /\ (regular stops tr1 = true -> regular stops tr2 = true ->
        delivered tr1 = delivered tr2).
Proof.
  intros Hrefuse Hcomp Hbig HL Hb H32 Hf.
  destruct (feed_follows isServer le L refuses compressed fuel junk1 chunks u
              Hrefuse Hcomp Hbig HL (Chunks.fits_concat fuel chunks Hb H32 Hf))
    as (w1 & u1 & tr1 & p1 & E1 & F1 & D1).
  destruct (feed_follows isServer le L refuses compressed fuel junk2
              [concat chunks] u Hrefuse Hcomp Hbig HL)
    as (w2 & u2 & tr2 & p2 & E2 & F2 & D2).
  { constructor; [|constructor]. split; [exact Hb|]. split; assumption. }
  exists w1, u1, tr1, w2, u2, tr2. split; [exact E1|]. split; [exact E2|].
  intros R1 R2.
  rewrite (cut_spec stops tr1 p1 F1 R1), (cut_spec stops tr2 p2 F2 R2), D1, D2.
  cbn [concat]. rewrite app_nil_r. reflexivity.
Qed.

Lemma consume_chunks_agree_witness :
  exists w1 u1 tr1 w2 u2 tr2,
    feed (I := counting 1024) false true 524288 40 (fun _ => 0)
      [[0x01; 0x03; 0x48]; [0x65; 0x6C; 0x80]; [0x02; 0x6C; 0x6F; 0x88; 0x02; 0x03];
       [0xE8; 0x81; 0x01; 0x41]]
      (fresh false) 0%nat [] = Some (w1, u1, tr1)
    /\ feed (I := counting 1024) false true 524288 40 (fun _ => 7)
         [concat [[0x01; 0x03; 0x48]; [0x65; 0x6C; 0x80];
                  [0x02; 0x6C; 0x6F; 0x88; 0x02; 0x03]; [0xE8; 0x81; 0x01; 0x41]]]
         (fresh false) 0%nat [] = Some (w2, u2, tr2)
    /\ regular (fun h => Nat.leb 2 (whole_frames h)) tr1 = true
    /\ regular (fun h => Nat.leb 2 (whole_frames h)) tr2 = true
    /\ delivered tr1 = delivered tr2
    /\ delivered tr2
       = [Frame 1 false [0x48; 0x65; 0x6C] true; Frame 1 true [0x6C; 0x6F] true].
Proof.
  destruct (consume_chunks_agree (I := counting 1024) false true 524288
              (fun n => 1024 <? n) false (fun h => Nat.leb 2 (whole_frames h)) 40
              (fun _ => 0) (fun _ => 7)
              [[0x01; 0x03; 0x48]; [0x65; 0x6C; 0x80];
               [0x02; 0x6C; 0x6F; 0x88; 0x02; 0x03]; [0xE8; 0x81; 0x01; 0x41]]
              0%nat)
    as (w1 & u1 & tr1 & w2 & u2 & tr2 & E1 & E2 & H).
  - reflexivity.
  - reflexivity.
  - intros n Hn. apply Z.ltb_ge in Hn. lia.
  - lia.
  - repeat (apply Forall_cons; [unfold is_byte; lia|]). apply Forall_nil.
  - vm_compute. reflexivity.
  - vm_compute. lia.
  - exists w1, u1, tr1, w2, u2, tr2.
    split; [exact E1|]. split; [exact E2|].
    assert (R1 : regular (fun h => Nat.leb 2 (whole_frames h)) tr1 = true).
    { vm_compute in E1. injection E1 as _ _ <-. vm_compute. reflexivity. }
    assert (R2 : regular (fun h => Nat.leb 2 (whole_frames h)) tr2 = true).
    { vm_compute in E2. injection E2 as _ _ <-. vm_compute. reflexivity. }
    split; [exact R1|]. split; [exact R2|]. split; [exact (H R1 R2)|].
    vm_compute in E2. injection E2 as _ _ <-. vm_compute. reflexivity.
Defined.




End Cuts.
